(* ===== verification/_CoqProject ===== *)
-Q . S2P
Prelude.v
AbiSpec.v
AbiInjective.v
AbiSer.v
AbiRefine.v
AbiTheorems.v
AbiDecode.v
AbiVectors.v
Types.v
PerunWire.v
Instances.v
Payment.v
PaymentTheorems.v
PaymentTypes.v
Sig.v
Messages.v
Wire.v
WireTheorems.v
ChannelTypes.v
Active.v
Proposal.v
DemoChannel.v
Net.v
BusRefinement.v
ActiveTheorems.v
ChannelSystem.v
OpeningTheorems.v
Button.v
DemoTheorems.v
DemoPair.v
PairTheorems.v
Lifecycle.v
Application.v
ApplicationTheorems.v
Conversions.v
Streams.v
Devices.v
DeviceOpening.v
Handshake.v
DeviceTheorems.v
DevicePanics.v
DeviceProgress.v
LiveBoard.v
MainLoop.v
MainTheorems.v
ClockTheorems.v
GoIntegration.v
GoTheorems.v
Samples.v
Witnesses.v
PairWitnesses.v
AppSamples.v
AppWitnesses.v
DeviceSamples.v
DeviceWitnesses.v
