(* ===== verification/Prelude.v ===== *)
(** * A model of perun-rs in Rocq

    perun-rs is a client library for Perun state channels, made to run on small
    devices: two participants open a channel, exchange signed states of it off
    chain, and settle the last one on chain.  The repository holds the library
    (src/src), a program for a Cortex-M board that uses it
    (src/cortex-m-demo/src) and an integration example (src/examples).  This
    development models the Rust code of all three as executable functions and
    proves what makes it correct.

    ** The parts of the program and how they interact

    - The serializer (abiencode/ser.rs) writes values in Solidity's ABI encoding;
      types.rs and hashing.rs give the Solidity types and Keccak hashes of
      encodings.
    - fixed_size_payment.rs has the state and the parameters of a channel.  They
      are hashed through the serializer: the identifier of a channel is the hash
      of its parameters, and participants sign hashes of states.
    - sig.rs and its two back ends sign hashes and recover signers.
    - messages/ has what is sent, converted from and to protobuf messages; wire/
      sends it over a bus, which the application provides.
    - client.rs and channel/ are the protocol: a proposed channel, an agreed-upon
      channel that collects signatures of the initial state, a signed channel
      that waits for its funding, an active channel with its updates.
    - The demo wraps the phases of a channel in one state machine (channel.rs),
      that one in the state machine of the application (application.rs), which
      reads frames from two TCP sockets; main.rs polls the application and four
      debounced buttons (button.rs) in a loop; bus.rs is the bus over the sockets.
    - The integration example runs one channel from start to end against another
      participant, over TCP streams.

    ** The files

    Each component has a file of definitions and one of theorems.

    - Prelude: results with panics ([res]), computations on a mutable state ([M]),
      machine integers, arrays, bytes, with their lemmas and tactics.
    - AbiSpec, AbiInjective: the ABI encoding, from the specification of
      Solidity, and that it is injective; AbiDecode: Solidity's types and its
      decoder.  AbiSer: the serializer (ser.rs, error.rs, as_bytes.rs,
      as_dyn_array.rs).  AbiRefine, AbiTheorems: the serializer implements the
      encoding.  AbiVectors: the examples of the Solidity documentation that are
      the repository's unit tests, computed by the model.
    - Types: types.rs and hashing.rs.  Payment, PaymentTheorems, PaymentTypes:
      fixed_size_payment.rs and the Solidity types of its structs.  PerunWire:
      the protobuf messages.  Sig: sig.rs, sig/k256.rs, sig/secp256k1.rs.
      Messages: messages/.  Wire, WireTheorems: wire.rs and wire/encoding.rs.
    - ChannelTypes: the structs of the phases and the error enums.  Active: active.rs,
      channel_update.rs, signed.rs, withdrawal_auth.rs.  Proposal: client.rs,
      proposal.rs, agreed_upon.rs.  ActiveTheorems, OpeningTheorems: their
      operations, branch by branch, and whole updates and openings between two
      participants.  ChannelSystem: an active channel with its pending updates as
      a step relation, and its reachable states.
    - DemoChannel, DemoTheorems: cortex-m-demo's channel.rs.  DemoPair: two such
      channels connected by queues of messages, as a step relation with its
      invariant.  PairTheorems: what the two never do.  Lifecycle: the runs of the
      two.  Button: button.rs.  Net: bus.rs and what is used of smoltcp.
      BusRefinement: buses that may panic.  Application, ApplicationTheorems:
      application.rs.  Conversions: which received messages convert.  MainLoop,
      MainTheorems: main.rs.  ClockTheorems: the main loop with its timer interrupt.
      GoIntegration, GoTheorems: go-integration.rs.
    - Streams: what the sockets and the bus over them do to the bytes in transit.
      Devices: two applications whose sockets are connected, as a step relation,
      and its simulation by DemoPair.  DeviceOpening, Handshake: the two devices
      from a proposal, and from the connection of their sockets, to that
      simulation.  DeviceTheorems: what holds of the two.  DevicePanics: what makes
      one of them panic.  DeviceProgress: the converse of the simulation, on a network that carries on.  LiveBoard: the
      board's bus over working sockets is such a network.
    - Instances: concrete 256-bit numbers and hash functions.  Samples, AppSamples,
      DeviceSamples: a concrete channel, a concrete device and two connected ones.
      Witnesses, PairWitnesses, AppWitnesses, DeviceWitnesses: the theorems applied
      to them.

    ** How the code is modelled

    A Rust function that can fail or panic returns [res E A]: [Ok], [Err], or
    [Panic] for a failed [unwrap], index, assertion or overflow.  A method with a
    mutable receiver is an [M S E A], a function from the state to the state and
    the result; the state survives an [Err], so what a failed method has written
    can be spoken of.  A value the code consumes and gives back inside an error is
    a component of the error.  Overflow depends on the build profile: [Platform]
    has the width of [usize] (32 on the board, 64 on the host) and whether the
    build is a debug build; u64 values carry the proof that they fit.  Arrays
    [[T; N]] are lists with a proof of their length.  The channels hold a
    reference to the client in the code; in the model they hold its signer, and
    the bus is threaded through every operation that sends.  The demo shares its
    network interface between the bus, the application and the main loop in a
    [RefCell] that is borrowed for the time of single calls; it is threaded as one
    state, that of the bus.  A value given to serde is the tree of the calls it
    makes of the serializer.

    There is no fuel: every recursion of the code is over a list, an array or a
    value, and the loops of the programs are relations whose steps are single
    iterations.

    ** What the code uses of other crates

    Parameters, as type classes, with what the code relies on as laws: [UintCrate]
    (256-bit integers), [Sha3Crate] (streaming hash functions; collision
    resistance is nowhere assumed), [K256Crate] and [SecpCrate] (a signature is
    recovered to the key that made it), [ProstMessage] and [ProstDecode] (protobuf
    encoding; [ProstLaws]: the library's messages are decoded as they were encoded;
    [ProstTotal]: decoding does not panic),
    [TcpStack] with [TcpLaws] and [TcpStreams] (the sockets of smoltcp: what is
    received, and that what is sent is appended to a buffer), [LiveSockets] and
    [LiveServices] (sockets that accept what fits their buffers and move bytes;
    services that can reply), [RngCore].
    Each class of laws has an instance, so the hypotheses can hold.  The
    protobuf schema is partly a git submodule of the repository: the fields of
    its messages are those the Rust code reads and writes.

    ** What the theorems show

    - Encoding: [to_writer] and [to_fnargs_writer] write exactly the ABI encoding of
      every value that has a Solidity type, in slots, in all nestings of static
      and dynamic values; a type that cannot be encoded is reported before anything
      is written; what is written is decoded to the value; a state or the
      parameters of a channel can always be hashed, and their encoding determines
      them.
    - Signatures: both back ends recover the address of the signer.
    - Protocol: exactly the valid transitions are accepted; only verified signatures
      are stored; in every reachable state of a channel the current state
      carries the signatures of both participants, funds are conserved, and a final
      state is never left; an update is applied completely or not at all; updates and
      openings between two honest participants complete on both sides with the same
      states and signatures.
    - Demo: the channel is valid after any sequence of calls, messages and replies;
      two ends that exchange their messages never disagree on a state, from the
      proposal on, in whatever order they propose, receive and close, as long as no
      pending update is replaced, and no message of the one makes the other panic;
      from a proposal they reach an active channel, any payments the balances
      allow, a final state and the closed channel;
      the application follows the state machine its comments describe, and an error
      leaves it where it was; a frame is received exactly once, when it is complete;
      the device as [main] sets it up has these properties with its own bus, signer
      and main loop, and its clock neither overflows nor loses time.  The
      integration example completes against an honest participant and is sound
      against any other.
    - Two devices: whatever two applications do from the connection of their sockets
      on, from the handshake to the closed channel, frame by frame and byte by byte,
      the two ends can do with messages, so the devices never disagree on a state
      either.  And whatever the two ends can do with messages that fit the buffers,
      two devices that have read everything can do as well.  A device with a channel
    panics only for the framing of its sockets, for a reply of a service that
    does not convert, or for an answer that the bus does not take.
    - Buses: safety theorems hold for any bus that delivers a message or panics, and
      the buses of the demo and of the example are such buses; on them the channels
      behave as on a bus that records its messages, in both directions as long as
      the bus takes the messages.  That a protocol completes is shown for buses on
      which sending returns ([PureBus]).
    - Received messages: for every protobuf message of the other participant, the
      lengths of its fields and the missing ones decide whether it converts, is
      refused or panics; what does not convert stops the device.
    - Where the code does not do what it means to, a theorem says what it does
      instead: panics a received message can cause, a message that is
      changed on the wire, replies that are not looked at, a check of the wrong
      balance, an update that replaces a pending one and splits the two ends, updates
      that cross and block the channel, a message that stops the device, an encoding
      of negative 128-bit integers that Solidity does not have.

    ** What is not modelled

    The set-up of the board's hardware and of its network interface in main.rs:
    the interface, the sockets and the pins are inputs.  The scripted bus of the
    builds of go-integration.rs without communication: it names a message that the
    schema no longer has.  [Signer::new] of secp256k1.rs, which refers to a variable
    that does not exist.  Logging ([explain!], [trace], prints) and random sampling
    of the types, which is that of [rand]; the generated protobuf code; module
    declarations and re-exports; tests, except for the vectors in AbiVectors.  How
    the sockets of two devices get connected (smoltcp), and the funder and the
    watcher themselves: the services are other programs, their replies arrive in
    any order.  How long protobuf encodings are: which messages fit the buffers is
    a parameter of DeviceProgress. *)
From Stdlib Require Export ZArith Lia.
From Stdlib Require Export Init.Byte.
From stdpp Require Export base tactics option list strings numbers.

#[global] Open Scope Z_scope.

(* ------------------------------------------------------------------ *)
(** ** Results: [Ok], [Err] and panics                                   *)
(* ------------------------------------------------------------------ *)

(** A Rust computation of type [Result<A, E>] that may also panic. *)
Inductive res (E A : Type) : Type :=
  | Ok (a : A)
  | Err (e : E)
  | Panic.
Arguments Ok {E A} a.
Arguments Err {E A} e.
Arguments Panic {E A}.

#[export] Instance res_ret E : MRet (res E) := fun A a => Ok a.
#[export] Instance res_bind E : MBind (res E) := fun A B f m =>
  match m with
  | Ok a => f a
  | Err e => Err e
  | Panic => Panic
  end.
#[export] Instance res_fmap E : FMap (res E) := fun A B f m =>
  match m with
  | Ok a => Ok (f a)
  | Err e => Err e
  | Panic => Panic
  end.

(** The error conversion of the [?] operator ([From::from] on the error). *)
Definition map_err {E E' A} (f : E -> E') (m : res E A) : res E' A :=
  match m with
  | Ok a => Ok a
  | Err e => Err (f e)
  | Panic => Panic
  end.

(** [Option::ok_or]. *)
Definition ok_or {E A} (e : E) (o : option A) : res E A :=
  match o with
  | Some a => Ok a
  | None => Err e
  end.

(** [Option::unwrap]: panics on [None]. *)
Definition unwrap {E A} (o : option A) : res E A :=
  match o with
  | Some a => Ok a
  | None => Panic
  end.

(** [Result::unwrap]/[Result::expect]: panics on [Err]. *)
Definition expect {E E' A} (m : res E A) : res E' A :=
  match m with
  | Ok a => Ok a
  | Err _ => Panic
  | Panic => Panic
  end.

Definition is_ok {E A} (m : res E A) : bool :=
  match m with
  | Ok _ => true
  | _ => false
  end.

Definition is_panic {E A} (m : res E A) : bool :=
  match m with
  | Panic => true
  | _ => false
  end.

(* ------------------------------------------------------------------ *)
(** ** Stateful computations                                             *)
(* ------------------------------------------------------------------ *)

(** A method with a mutable receiver: the state is threaded through every
    outcome, an [Err] and a panic included, so that a property can speak of
    what was written before the method failed. *)
Definition M (S E A : Type) : Type := S -> S * res E A.

#[export] Instance M_ret S E : MRet (M S E) := fun A a s => (s, Ok a).
#[export] Instance M_bind S E : MBind (M S E) := fun A B f m s =>
  match m s with
  | (s', Ok a) => f a s'
  | (s', Err e) => (s', Err e)
  | (s', Panic) => (s', Panic)
  end.

Definition mget {S E} : M S E S := fun s => (s, Ok s).
Definition mput {S E} (s : S) : M S E unit := fun _ => (s, Ok tt).
Definition mthrow {S E A} (e : E) : M S E A := fun s => (s, Err e).
Definition mpanic {S E A} : M S E A := fun s => (s, Panic).

(** A pure fallible expression used in a stateful one. *)
Definition mlift {S E A} (r : res E A) : M S E A := fun s => (s, r).

(** The [?] operator on a stateful call. *)
Definition mmap_err {S E E' A} (f : E -> E') (m : M S E A) : M S E' A :=
  fun s => let (s', r) := m s in (s', map_err f r).

(** A call on one component of a pair of states (a method call on a field or
    on one of two mutable arguments). *)
Definition on_fst {S T E A} (m : M S E A) : M (S * T) E A :=
  fun st => let (s', r) := m st.1 in ((s', st.2), r).
Definition on_snd {S T E A} (m : M T E A) : M (S * T) E A :=
  fun st => let (t', r) := m st.2 in ((st.1, t'), r).

(** Two computations agree on every state. *)
#[export] Instance M_equiv S E A : Equiv (M S E A) := fun m1 m2 => forall s, m1 s = m2 s.

(* ------------------------------------------------------------------ *)
(** ** Machine integers                                                  *)
(* ------------------------------------------------------------------ *)

(** The target and the build profile.  [usize_bits] is 64 on the host and 32
    on the Cortex-M target; [debug_build] is the development profile, where
    arithmetic overflow panics and [debug_assert!] is compiled in. *)
Class Platform := {
  usize_bits : Z;
  debug_build : bool;
  usize_bits_cases : usize_bits = 32 \/ usize_bits = 64;
}.

(** The two targets of the code, as debug builds: the host and the Cortex-M
    demo's board. *)
Definition host : Platform :=
  {| usize_bits := 64; debug_build := true; usize_bits_cases := or_intror eq_refl |}.
Definition cortex_m : Platform :=
  {| usize_bits := 32; debug_build := true; usize_bits_cases := or_introl eq_refl |}.

Definition fits (w z : Z) : Prop := 0 <= z < 2 ^ w.

#[export] Instance fits_dec w z : Decision (fits w z).
Proof. unfold fits. apply _. Defined.

Section Arith.
Context `{P : Platform}.

(** An unsigned [w]-bit result: as it is when it fits, a panic in a debug
    build and the wrapped value in a release build otherwise. *)
Definition int_result {E} (w z : Z) : res E Z :=
  if decide (fits w z) then Ok z
  else if debug_build then Panic else Ok (z mod 2 ^ w).

Definition int_add {E} (w a b : Z) : res E Z := int_result w (a + b).
Definition int_sub {E} (w a b : Z) : res E Z := int_result w (a - b).

Definition usize_add {E} (a b : Z) : res E Z := int_add usize_bits a b.
Definition usize_sub {E} (a b : Z) : res E Z := int_sub usize_bits a b.
Definition usize_max : Z := 2 ^ usize_bits - 1.
Definition usize_bytes : nat := Z.to_nat (usize_bits / 8).

(** [debug_assert!]. *)
Definition debug_assert {E} (b : bool) : res E unit :=
  if debug_build && negb b then Panic else Ok tt.

(** [assert!]. *)
Definition assert_ {E} (b : bool) : res E unit := if b then Ok tt else Panic.

End Arith.

(** [u64]: the bound is part of the value, as it is part of the type. *)
Record u64 : Type := U64 { u64_val : Z; u64_fits : bool_decide (fits 64 u64_val) }.

Definition mk_u64 (z : Z) (H : fits 64 z) : u64 := U64 z (bool_decide_pack _ H).

Lemma u64_range (x : u64) : fits 64 (u64_val x).
Proof. apply (bool_decide_unpack _ (u64_fits x)). Qed.

Lemma u64_eq (x y : u64) : u64_val x = u64_val y -> x = y.
Proof. destruct x, y; cbn; intros ->. f_equal. apply proof_irrel. Qed.

#[export] Instance u64_eq_dec : EqDecision u64.
Proof.
  refine (fun x y => cast_if (decide (u64_val x = u64_val y))).
  - by apply u64_eq.
  - by intros ->.
Defined.

Lemma u64_mod_fits z : fits 64 (z mod 2 ^ 64).
Proof. unfold fits. apply Z.mod_pos_bound. lia. Qed.

(** [z as u64]. *)
Definition u64_wrap (z : Z) : u64 := mk_u64 (z mod 2 ^ 64) (u64_mod_fits z).

(** [x + y] on [u64]. *)
Definition u64_add `{P : Platform} {E} (x y : u64) : res E u64 :=
  if decide (fits 64 (u64_val x + u64_val y)) then Ok (u64_wrap (u64_val x + u64_val y))
  else if debug_build then Panic else Ok (u64_wrap (u64_val x + u64_val y)).

Lemma u64_wrap_val z : 0 <= z < 2 ^ 64 -> u64_val (u64_wrap z) = z.
Proof. apply Z.mod_small. Qed.

Lemma u64_add_ok `{P : Platform} {E} x y :
  u64_val x + u64_val y < 2 ^ 64 -> @u64_add _ E x y = Ok (u64_wrap (u64_val x + u64_val y)).
Proof.
  intros H. pose proof (u64_range x) as Hx. pose proof (u64_range y) as Hy. unfold fits in Hx, Hy.
  unfold u64_add. case_decide as Hf; [done|unfold fits in Hf; lia].
Qed.

Lemma u64_add_fits `{P : Platform} {E} x y :
  u64_val x + u64_val y < 2 ^ 64 -> exists z, @u64_add _ E x y = Ok z /\ u64_val z = u64_val x + u64_val y.
Proof.
  intros H. eexists. split; [by apply u64_add_ok|]. apply u64_wrap_val.
  pose proof (u64_range x) as Hx. pose proof (u64_range y) as Hy. unfold fits in Hx, Hy. lia.
Qed.

(** [len()] of a slice or vector. *)
Definition zlen {A} (l : list A) : Z := Z.of_nat (length l).

(** [l[i]] with the bounds check of Rust. *)
Definition vec_index {E A} (l : list A) (i : Z) : res E A :=
  if decide (0 <= i) then unwrap (l !! Z.to_nat i) else Panic.

(* ------------------------------------------------------------------ *)
(** ** Bytes                                                             *)
(* ------------------------------------------------------------------ *)

Abbreviation bytes := (list byte).

#[export] Instance byte_eq_dec : EqDecision byte := Byte.byte_eq_dec.

Definition byte_to_Z (b : byte) : Z := Z.of_N (Byte.to_N b).

(** The byte of [z mod 256] ([as u8]). *)
Definition byte_of_Z (z : Z) : byte :=
  default x00 (Byte.of_N (Z.to_N (z mod 256))).

(** The big-endian bytes of [z mod 256^n]: [to_be_bytes] of an [n]-byte
    integer, in two's complement when [z] is negative. *)
Fixpoint be_bytes (n : nat) (z : Z) : bytes :=
  match n with
  | O => []
  | S n => byte_of_Z (z / 256 ^ Z.of_nat n) :: be_bytes n z
  end.

(** The value of big-endian bytes ([from_be_bytes]). *)
Fixpoint be_val (bs : bytes) : Z :=
  match bs with
  | [] => 0
  | b :: bs => byte_to_Z b * 256 ^ zlen bs + be_val bs
  end.

(* ------------------------------------------------------------------ *)
(** ** Arrays of a length fixed by the type                              *)
(* ------------------------------------------------------------------ *)

(** [[A; N]].  The length is part of the value, with a proof that two values
    with the same elements share. *)
Record array (A : Type) (N : nat) : Type := Array {
  to_vec : list A;
  array_len_ok : bool_decide (length to_vec = N);
}.
Arguments Array {A N} to_vec array_len_ok.
Arguments to_vec {A N} a.
Arguments array_len_ok {A N} a.

Definition mk_array {A N} (l : list A) (H : length l = N) : array A N :=
  Array l (bool_decide_pack _ H).

Lemma array_length {A N} (a : array A N) : length (to_vec a) = N.
Proof. apply (bool_decide_unpack _ (array_len_ok a)). Qed.

(** [v.try_into()] from a vector or slice: the lengths must agree. *)
Definition array_try_from {A N} (l : list A) : option (array A N) :=
  match decide (length l = N) with
  | left H => Some (mk_array l H)
  | right _ => None
  end.

(** [[x; N]]. *)
Definition array_repeat {A} (N : nat) (x : A) : array A N :=
  mk_array (replicate N x) (length_replicate N x).

Lemma array_map_length {A B N} (f : A -> B) (a : array A N) :
  length (f <$> to_vec a) = N.
Proof. rewrite length_fmap. apply array_length. Qed.

(** [a.map(f)]. *)
Definition array_map {A B N} (f : A -> B) (a : array A N) : array B N :=
  mk_array (f <$> to_vec a) (array_map_length f a).

Lemma array_insert_length {A N} (i : nat) (x : A) (a : array A N) :
  length (<[i:=x]> (to_vec a)) = N.
Proof. rewrite length_insert. apply array_length. Qed.

(** [a[i]] and [a[i] = x], with Rust's bounds check. *)
Definition array_index {E A N} (a : array A N) (i : Z) : res E A :=
  vec_index (to_vec a) i.
Definition array_set {E A N} (a : array A N) (i : Z) (x : A) : res E (array A N) :=
  if decide (0 <= i < Z.of_nat N) then
    Ok (mk_array (<[Z.to_nat i := x]> (to_vec a)) (array_insert_length (Z.to_nat i) x a))
  else Panic.

(** [for (a, b) in l.iter_mut().zip(k) { *a = f(b)?; }]: the elements of [l]
    beyond the end of [k] stay as they are, those of [k] beyond the end of [l]
    are not looked at. *)
Fixpoint zip_fill {E A B} (f : B -> res E A) (l : list A) (k : list B) : res E (list A) :=
  match l, k with
  | _ :: l, b :: k => a ← f b; l' ← zip_fill f l k; Ok (a :: l')
  | l, _ => Ok l
  end.

Definition array_fill {E A B N} (f : B -> res E A) (a : array A N) (k : list B)
    : res E (array A N) :=
  l ← zip_fill f (to_vec a) k; unwrap (array_try_from l).

(** A loop over the elements of an array that writes another one. *)
Definition array_mapM {E A B N} (f : A -> res E B) (a : array A N) : res E (array B N) :=
  l ← mapM f (to_vec a); unwrap (array_try_from l).

(** Two arrays with the same elements are equal. *)
Lemma array_eq {A N} (a b : array A N) : to_vec a = to_vec b -> a = b.
Proof.
  destruct a as [l Hl], b as [l' Hl']; cbn; intros ->.
  f_equal. apply proof_irrel.
Qed.

#[export] Instance array_eq_dec `{EqDecision A} N : EqDecision (array A N).
Proof.
  refine (fun a b => cast_if (decide (to_vec a = to_vec b))).
  - by apply array_eq.
  - by intros ->.
Defined.

(* ------------------------------------------------------------------ *)
(** ** Lemmas on bytes                                                   *)
(* ------------------------------------------------------------------ *)

Lemma byte_to_Z_range b : 0 <= byte_to_Z b < 256.
Proof.
  unfold byte_to_Z. pose proof (Byte.to_N_bounded b). lia.
Qed.

Lemma byte_to_of_Z z : byte_to_Z (byte_of_Z z) = z mod 256.
Proof.
  unfold byte_to_Z, byte_of_Z.
  pose proof (Z.mod_pos_bound z 256 ltac:(lia)).
  destruct (Byte.of_N (Z.to_N (z mod 256))) as [b|] eqn:E; cbn.
  - apply Byte.to_of_N in E. rewrite E. lia.
  - apply Byte.of_N_None_iff in E. lia.
Qed.

Lemma byte_to_Z_inj a b : byte_to_Z a = byte_to_Z b -> a = b.
Proof.
  unfold byte_to_Z. intros H. apply N2Z.inj in H.
  apply (f_equal Byte.of_N) in H. rewrite !Byte.of_to_N in H. by simplify_eq.
Qed.

Lemma byte_of_to_Z b : byte_of_Z (byte_to_Z b) = b.
Proof.
  apply byte_to_Z_inj. rewrite byte_to_of_Z.
  apply Z.mod_small, byte_to_Z_range.
Qed.

Lemma byte_of_Z_mod z : byte_of_Z (z mod 256) = byte_of_Z z.
Proof. apply byte_to_Z_inj. by rewrite !byte_to_of_Z, Z.mod_mod by lia. Qed.

Lemma pow256_pos n : 0 < 256 ^ Z.of_nat n.
Proof. apply Z.pow_pos_nonneg; lia. Qed.

Lemma pow256_S n : 256 ^ Z.of_nat (S n) = 256 * 256 ^ Z.of_nat n.
Proof. rewrite Nat2Z.inj_succ, Z.pow_succ_r; lia. Qed.

Lemma be_bytes_length n z : length (be_bytes n z) = n.
Proof. induction n; cbn; congruence. Qed.

Lemma be_val_range bs : 0 <= be_val bs < 256 ^ zlen bs.
Proof.
  induction bs as [|b bs IH]; cbn [be_val]; unfold zlen in *; cbn [length].
  - cbn; lia.
  - rewrite pow256_S. pose proof (byte_to_Z_range b).
    pose proof (pow256_pos (length bs)). nia.
Qed.

Lemma be_val_be_bytes n z : be_val (be_bytes n z) = z mod 256 ^ Z.of_nat n.
Proof.
  induction n as [|n IH]; cbn [be_bytes be_val]; unfold zlen in *.
  - by rewrite Z.mod_1_r.
  - rewrite byte_to_of_Z, IH, be_bytes_length, pow256_S.
    pose proof (pow256_pos n).
    rewrite (Z.mul_comm 256), Z.rem_mul_r by lia. lia.
Qed.

Lemma be_bytes_mod n z : be_bytes n (z mod 256 ^ Z.of_nat n) = be_bytes n z.
Proof.
  revert z. induction n as [|n IH]; intros z; [done|].
  cbn [be_bytes]. pose proof (pow256_pos n). f_equal.
  - rewrite pow256_S, (Z.mul_comm 256), Z.rem_mul_r by lia.
    rewrite Z.add_comm, Z.mul_comm, Z.div_add_l by lia.
    rewrite (Z.div_small (z mod _)) by (apply Z.mod_pos_bound; lia).
    rewrite Z.add_0_r. apply byte_of_Z_mod.
  - rewrite <- IH, <- (IH z). f_equal.
    rewrite pow256_S, (Z.mul_comm 256), Z.rem_mul_r by lia.
    rewrite Z.mul_comm, Z.mod_add by lia. by rewrite Z.mod_mod by lia.
Qed.

Lemma be_val_inj a b : length a = length b -> be_val a = be_val b -> a = b.
Proof.
  revert b. induction a as [|x a IH]; intros [|y b] Hl H; try done.
  cbn [be_val] in H. unfold zlen in H. injection Hl as Hl. rewrite Hl in H.
  pose proof (be_val_range a). pose proof (be_val_range b).
  unfold zlen in *. rewrite Hl in *. pose proof (pow256_pos (length b)).
  assert (byte_to_Z x = byte_to_Z y) as Hxy by nia.
  apply byte_to_Z_inj in Hxy as ->. f_equal. apply IH; [done|lia].
Qed.

Lemma be_bytes_be_val n bs : length bs = n -> be_bytes n (be_val bs) = bs.
Proof.
  intros <-. apply be_val_inj; [by rewrite be_bytes_length|].
  rewrite be_val_be_bytes. apply Z.mod_small, be_val_range.
Qed.

Lemma be_bytes_inj n a b :
  0 <= a < 256 ^ Z.of_nat n -> 0 <= b < 256 ^ Z.of_nat n ->
  be_bytes n a = be_bytes n b -> a = b.
Proof.
  intros Ha Hb H. apply (f_equal be_val) in H.
  by rewrite !be_val_be_bytes, !Z.mod_small in H.
Qed.

(** Widening an unsigned integer to the left pads with zero bytes ... *)
Lemma be_bytes_pad_zero k n z :
  0 <= z < 256 ^ Z.of_nat n -> be_bytes (k + n) z = replicate k x00 ++ be_bytes n z.
Proof.
  intros Hz. induction k as [|k IH]; [done|].
  cbn [Nat.add be_bytes replicate app]. rewrite IH. f_equal.
  rewrite Z.div_small; [done|].
  assert (256 ^ Z.of_nat n <= 256 ^ Z.of_nat (k + n)) by (apply Z.pow_le_mono_r; lia). lia.
Qed.

(** ... and a negative one with [0xff] bytes. *)
Lemma be_bytes_pad_ones k n z :
  - 256 ^ Z.of_nat n <= z < 0 -> be_bytes (k + n) z = replicate k xff ++ be_bytes n z.
Proof.
  intros Hz. induction k as [|k IH]; [done|].
  cbn [Nat.add be_bytes replicate app]. rewrite IH. f_equal.
  assert (256 ^ Z.of_nat n <= 256 ^ Z.of_nat (k + n)) by (apply Z.pow_le_mono_r; lia).
  assert (z / 256 ^ Z.of_nat (k + n) = -1) as ->; [|done].
  pose proof (pow256_pos (k + n)). symmetry.
  apply Z.div_unique with (z + 256 ^ Z.of_nat (k + n)); lia.
Qed.

(* ------------------------------------------------------------------ *)
(** ** Lemmas on arrays                                                  *)
(* ------------------------------------------------------------------ *)

Lemma to_vec_mk_array {A N} (l : list A) (H : length l = N) : to_vec (mk_array l H) = l.
Proof. done. Qed.

Lemma array_try_from_to_vec {A N} (a : array A N) : array_try_from (to_vec a) = Some a.
Proof.
  unfold array_try_from. case_decide as H; [|by destruct H; apply array_length].
  f_equal. by apply array_eq.
Qed.

Lemma array_try_from_Some {A N} (l : list A) (a : array A N) :
  array_try_from l = Some a <-> to_vec a = l.
Proof.
  split.
  - unfold array_try_from. case_decide; intros; by simplify_eq.
  - intros <-. apply array_try_from_to_vec.
Qed.

Lemma array_try_from_None {A N} (l : list A) :
  array_try_from (N:=N) l = None <-> length l <> N.
Proof. unfold array_try_from. by case_decide. Qed.

Lemma zip_fill_length {E A B} (f : B -> res E A) l k l' :
  zip_fill f l k = Ok l' -> length l' = length l.
Proof.
  revert k l'. induction l as [|a l IH]; intros [|b k] l' H; cbn in H;
    try (by injection H as <-).
  destruct (f b); [|done|done]. cbn in H. destruct (zip_fill f l k) eqn:E1; [|done|done].
  injection H as <-. cbn. f_equal. by eapply IH.
Qed.

(** With as many values as elements, filling is mapping. *)
Lemma zip_fill_mapM {E A B} (f : B -> res E A) l k :
  length l = length k -> zip_fill f l k = mapM f k.
Proof.
  revert k. induction l as [|a l IH]; intros [|b k] H; try done.
  cbn. destruct (f b); [|done|done]. cbn. rewrite IH by (cbn in H; lia). by destruct (mapM f k).
Qed.

Lemma mapM_Ok {E A B} (f : A -> res E B) l k :
  mapM f l = Ok k <-> Forall2 (fun x y => f x = Ok y) l k.
Proof.
  split.
  - revert k. induction l as [|x l IH]; intros k H; cbn in H; [injection H as <-; constructor|].
    destruct (f x) eqn:E1; [|done|done]. cbn in H. destruct (mapM f l); [|done|done].
    injection H as <-. constructor; [done|]. by apply IH.
  - induction 1 as [|x y l k Hx H IH]; [done|]. cbn. by rewrite Hx, IH.
Qed.

Lemma mapM_length_Ok {E A B} (f : A -> res E B) l k : mapM f l = Ok k -> length k = length l.
Proof. intros H%mapM_Ok. symmetry. by eapply Forall2_length. Qed.

Lemma array_mapM_Ok {E A B N} (f : A -> res E B) (a : array A N) (b : array B N) :
  array_mapM f a = Ok b <-> Forall2 (fun x y => f x = Ok y) (to_vec a) (to_vec b).
Proof.
  unfold array_mapM. rewrite <- mapM_Ok. split.
  - destruct (mapM f (to_vec a)) as [l| |]; [|done|done]. cbn.
    destruct (array_try_from l) as [c|] eqn:Hc; [|done]. intros [= ->].
    by apply array_try_from_Some in Hc as ->.
  - intros ->. cbn. by rewrite array_try_from_to_vec.
Qed.

(** Filling a whole array from values that all convert. *)
Lemma array_fill_Ok {E A B N} (f : B -> res E A) (a b : array A N) k :
  Forall2 (fun x y => f x = Ok y) k (to_vec b) -> array_fill f a k = Ok b.
Proof.
  intros H. unfold array_fill. rewrite zip_fill_mapM.
  - apply mapM_Ok in H as ->. cbn. by rewrite array_try_from_to_vec.
  - apply Forall2_length in H. by rewrite H, !array_length.
Qed.

(** Case analysis on an index of a two-element array. *)
Lemma array_2 {A} (a : array A 2) : exists x y, to_vec a = [x; y].
Proof.
  pose proof (array_length a). destruct (to_vec a) as [|x [|y [|]]]; try done. eauto.
Qed.

Lemma array_1 {A} (a : array A 1) : exists x, to_vec a = [x].
Proof.
  pose proof (array_length a). destruct (to_vec a) as [|x [|]]; try done. eauto.
Qed.

(* ------------------------------------------------------------------ *)
(** ** Lemmas on machine integers                                        *)
(* ------------------------------------------------------------------ *)

Section ArithLemmas.
Context `{P : Platform}.

Lemma usize_pow_ge : 2 ^ 32 <= 2 ^ usize_bits.
Proof. apply Z.pow_le_mono_r; [lia|]. destruct usize_bits_cases; lia. Qed.

Lemma usize_bytes_pow : 256 ^ Z.of_nat usize_bytes = 2 ^ usize_bits.
Proof. unfold usize_bytes. by destruct usize_bits_cases as [-> | ->]. Qed.

Lemma usize_bytes_le : (usize_bytes <= 8)%nat.
Proof. unfold usize_bytes. destruct usize_bits_cases as [-> | ->]; vm_compute; lia. Qed.

Lemma int_result_ok {E} w z : fits w z -> @int_result P E w z = Ok z.
Proof. intros H. unfold int_result. by rewrite decide_True. Qed.

Lemma usize_add_ok {E} a b :
  0 <= a + b < 2 ^ usize_bits -> @usize_add P E a b = Ok (a + b).
Proof. apply int_result_ok. Qed.

Lemma usize_sub_ok {E} a b :
  0 <= a - b < 2 ^ usize_bits -> @usize_sub P E a b = Ok (a - b).
Proof. apply int_result_ok. Qed.

End ArithLemmas.

Lemma zlen_nonneg {A} (l : list A) : 0 <= zlen l.
Proof. unfold zlen. lia. Qed.

Lemma zlen_app {A} (l k : list A) : zlen (l ++ k) = zlen l + zlen k.
Proof. unfold zlen. rewrite length_app. lia. Qed.

Lemma zlen_cons {A} (x : A) l : zlen (x :: l) = 1 + zlen l.
Proof. unfold zlen. cbn [length]. lia. Qed.

Lemma zlen_nil {A} : zlen (@nil A) = 0.
Proof. done. Qed.

Lemma vec_index_in {E A} (l : list A) i :
  0 <= i < zlen l -> exists x, l !! Z.to_nat i = Some x /\ @vec_index E A l i = Ok x.
Proof.
  unfold vec_index, zlen. intros H. rewrite decide_True by lia.
  destruct (lookup_lt_is_Some_2 l (Z.to_nat i)) as [x Hx]; [lia|].
  exists x. by rewrite Hx.
Qed.

Lemma vec_index_out {E A} (l : list A) i :
  ~ 0 <= i < zlen l -> @vec_index E A l i = Panic.
Proof.
  unfold vec_index, zlen. intros H. case_decide; [|done].
  rewrite lookup_ge_None_2 by lia. done.
Qed.

(* ------------------------------------------------------------------ *)
(** ** Automation                                                        *)
(* ------------------------------------------------------------------ *)

Create HintDb perun.
Create Rewrite HintDb perun.
#[export] Hint Rewrite @zlen_app @zlen_cons @zlen_nil @be_bytes_length
  @length_app @length_replicate @length_fmap : perun.
#[export] Hint Resolve zlen_nonneg byte_to_Z_range be_val_range : perun.

(** One step of the two monads. *)
Ltac munfold :=
  unfold mbind, mret, fmap, M_bind, M_ret, res_bind, res_ret, res_fmap,
    mget, mput, mthrow, mpanic, mlift, on_fst, on_snd in *.

(** Case analysis on a result, an option or a decision under a match of the goal. *)
Ltac res_cases :=
  repeat (case_decide || case_match); simplify_eq/=.

(* ------------------------------------------------------------------ *)
(** ** Rules of the state monad                                          *)
(* ------------------------------------------------------------------ *)

Lemma M_bind_assoc_ok {S E A B C} (m : M S E A) (g : A -> M S E B) (f : B -> M S E C) s s' y :
  (x ← m; g x) s = (s', Ok y) -> (x ← m; y ← g x; f y) s = f y s'.
Proof.
  unfold mbind, M_bind. destruct (m s) as [s1 [x|e|]]; [|done|done]. intros Hg. by rewrite Hg.
Qed.

Lemma M_bind_ok {S E A B} (m : M S E A) (f : A -> M S E B) s s' a :
  m s = (s', Ok a) -> (m ≫= f) s = f a s'.
Proof. intros H. unfold mbind, M_bind. by rewrite H. Qed.

Lemma M_bind_err {S E A B} (m : M S E A) (f : A -> M S E B) s s' e :
  m s = (s', Err e) -> (m ≫= f) s = (s', Err e).
Proof. intros H. unfold mbind, M_bind. by rewrite H. Qed.

Lemma M_bind_panic {S E A B} (m : M S E A) (f : A -> M S E B) s s' :
  m s = (s', Panic) -> (m ≫= f) s = (s', Panic).
Proof. intros H. unfold mbind, M_bind. by rewrite H. Qed.

Lemma M_bind_lift_ok {S E A B} (r : res E A) (f : A -> M S E B) s a :
  r = Ok a -> (mlift r ≫= f) s = f a s.
Proof. by intros ->. Qed.

Lemma M_lift_Ok {S E A B} (a : A) (f : A -> M S E B) s : (mlift (Ok a) ≫= f) s = f a s.
Proof. done. Qed.
Lemma M_lift_Err {S E A B} (e : E) (f : A -> M S E B) s : (mlift (Err e) ≫= f) s = (s, Err e).
Proof. done. Qed.
Lemma M_lift_Panic {S E A B} (f : A -> M S E B) s : (mlift Panic ≫= f) s = (s, Panic).
Proof. done. Qed.
Lemma M_get {S E B} (f : S -> M S E B) s : (mget ≫= f) s = f s s.
Proof. done. Qed.
Lemma M_throw {S E A} (e : E) (s : S) : (mthrow e : M S E A) s = (s, Err e).
Proof. done. Qed.

(** One or more steps of a stateful computation whose next results are known. *)
Ltac mrun :=
  cbn beta iota delta [map_err];
  repeat (first [rewrite M_get | rewrite M_lift_Ok | rewrite M_lift_Err | rewrite M_lift_Panic
    | rewrite M_throw]; cbn beta iota delta [map_err]).
Ltac mrun_in H :=
  cbn beta iota delta [map_err] in H;
  repeat (first [rewrite M_get in H | rewrite M_lift_Ok in H | rewrite M_lift_Err in H
    | rewrite M_lift_Panic in H | rewrite M_throw in H]; cbn beta iota delta [map_err] in H).
