(* ===== verification/AbiSpec.v ===== *)
(** * The Solidity ABI encoding

    The reference the serializer of src/src/abiencode/ser.rs is checked
    against: the values of Solidity's [abi.encode] and their encoding, written
    like the formal specification of the Contract ABI (the head and tail of
    every component of a tuple), with no passes and no running offset.  Nothing
    of this file comes from the code. *)
From S2P Require Import Prelude.

(** A slot is 32 bytes. *)
Definition word (z : Z) : bytes := be_bytes 32 z.

(** The bytes that fill [b] up to a multiple of 32. *)
Definition padding (b : bytes) : bytes := replicate (Z.to_nat ((- zlen b) mod 32)) x00.
Definition pad32 (b : bytes) : bytes := b ++ padding b.

(** Solidity values.  [AUint] stands for [uint<M>], [bool] and [address],
    [ABytes] for [bytes] and [string], [ATuple] for structs and fixed-length
    arrays and [AArray] for dynamic arrays. *)
Inductive abi : Type :=
  | AUint (z : Z)
  | AInt (z : Z)
  | AFixedBytes (b : bytes)
  | ABytes (b : bytes)
  | ATuple (vs : list abi)
  | AArray (vs : list abi).

Section AbiInd.
Variable P : abi -> Prop.
Hypothesis HUint : forall z, P (AUint z).
Hypothesis HInt : forall z, P (AInt z).
Hypothesis HFixed : forall b, P (AFixedBytes b).
Hypothesis HBytes : forall b, P (ABytes b).
Hypothesis HTuple : forall vs, Forall P vs -> P (ATuple vs).
Hypothesis HArray : forall vs, Forall P vs -> P (AArray vs).

(** Induction that reaches the components of tuples and arrays. *)
Fixpoint abi_ind' (a : abi) : P a :=
  match a with
  | AUint z => HUint z
  | AInt z => HInt z
  | AFixedBytes b => HFixed b
  | ABytes b => HBytes b
  | ATuple vs => HTuple vs ((fix go vs : Forall P vs :=
      match vs with [] => Forall_nil_2 P | v :: vs => Forall_cons_2 P v vs (abi_ind' v) (go vs) end) vs)
  | AArray vs => HArray vs ((fix go vs : Forall P vs :=
      match vs with [] => Forall_nil_2 P | v :: vs => Forall_cons_2 P v vs (abi_ind' v) (go vs) end) vs)
  end.
End AbiInd.

Fixpoint abi_dynamic (a : abi) : bool :=
  match a with
  | AUint _ | AInt _ | AFixedBytes _ => false
  | ABytes _ | AArray _ => true
  | ATuple vs => existsb abi_dynamic vs
  end.

(** A component of a tuple: is it dynamic, and its encoding. *)
Definition part : Type := bool * bytes.

Definition part_head_len (p : part) : Z := if p.1 then 32 else zlen p.2.
Definition part_tail (p : part) : bytes := if p.1 then p.2 else [].

Definition sum_Z (l : list Z) : Z := foldr Z.add 0 l.

(** The head of the [i]-th component: its encoding when it is static, and
    otherwise the distance from the start of the tuple to its tail. *)
Definition part_head (ps : list part) (i : nat) (p : part) : bytes :=
  if p.1 then
    word (sum_Z (part_head_len <$> ps) + sum_Z ((fun q => zlen (part_tail q)) <$> take i ps))
  else p.2.

Definition enc_parts (ps : list part) : bytes :=
  concat (imap (part_head ps) ps) ++ concat (part_tail <$> ps).

(** [enc] of the specification. *)
Fixpoint abi_enc (a : abi) : bytes :=
  match a with
  | AUint z | AInt z => word z
  | AFixedBytes b => pad32 b
  | ABytes b => word (zlen b) ++ pad32 b
  | ATuple vs => enc_parts ((fun v => (abi_dynamic v, abi_enc v)) <$> vs)
  | AArray vs => word (zlen vs) ++ enc_parts ((fun v => (abi_dynamic v, abi_enc v)) <$> vs)
  end.

(** [abi.encode(v)] of one value: the value as the only component of a tuple. *)
Definition abi_encode (a : abi) : bytes := abi_enc (ATuple [a]).

(* ------------------------------------------------------------------ *)
(** ** Lemmas                                                            *)
(* ------------------------------------------------------------------ *)

Lemma word_length z : length (word z) = 32%nat.
Proof. apply be_bytes_length. Qed.

Lemma zlen_word z : zlen (word z) = 32.
Proof. unfold zlen. by rewrite word_length. Qed.

Lemma zlen_padding b : zlen (padding b) = (- zlen b) mod 32.
Proof.
  unfold padding, zlen at 1. rewrite length_replicate.
  pose proof (Z.mod_pos_bound (- zlen b) 32). lia.
Qed.

Lemma zlen_pad32_mod b : zlen (pad32 b) mod 32 = 0.
Proof.
  unfold pad32. rewrite zlen_app, zlen_padding.
  rewrite Z.add_mod_idemp_r by lia. by replace (zlen b + - zlen b) with 0 by lia.
Qed.

(** A value encoded alone: an offset of 32 comes first exactly when it is
    dynamic. *)
Lemma abi_encode_alt a :
  abi_encode a = (if abi_dynamic a then word 32 else []) ++ abi_enc a.
Proof.
  unfold abi_encode. cbn. unfold enc_parts; cbn. unfold part_head, part_tail, part_head_len; cbn.
  by destruct (abi_dynamic a); cbn; rewrite !app_nil_r.
Qed.

#[export] Hint Rewrite word_length zlen_word : perun.

(** The heads of a tuple with a running position instead of the prefix sums of
    the specification. *)
Fixpoint running_heads (pos : Z) (ps : list part) : bytes :=
  match ps with
  | [] => []
  | p :: ps =>
      (if p.1 then word pos else p.2) ++ running_heads (pos + zlen (part_tail p)) ps
  end.

Lemma sum_Z_app l k : sum_Z (l ++ k) = sum_Z l + sum_Z k.
Proof. induction l as [|x l IH]; [done|]. cbn. unfold sum_Z in *. cbn. lia. Qed.

Lemma imap_part_head all pre ps :
  all = pre ++ ps ->
  concat (imap (fun i => part_head all (length pre + i)) ps) =
  running_heads (sum_Z (part_head_len <$> all) +
                 sum_Z ((fun q => zlen (part_tail q)) <$> pre)) ps.
Proof.
  revert pre. induction ps as [|p ps IH]; intros pre Hall; [done|].
  rewrite imap_cons. cbn [concat running_heads]. f_equal.
  - unfold part_head. by rewrite Nat.add_0_r, Hall, take_app_length.
  - specialize (IH (pre ++ [p])). rewrite <- app_assoc in IH. specialize (IH Hall).
    rewrite fmap_app, sum_Z_app in IH.
    replace (sum_Z ((fun q => zlen (part_tail q)) <$> [p])) with (zlen (part_tail p)) in IH
      by (unfold sum_Z; cbn; lia).
    rewrite Z.add_assoc in IH. rewrite <- IH.
    f_equal. apply imap_ext. intros i q _. unfold compose. f_equal.
    rewrite length_app. cbn [length]. lia.
Qed.

Lemma enc_parts_running ps :
  enc_parts ps = running_heads (sum_Z (part_head_len <$> ps)) ps ++ concat (part_tail <$> ps).
Proof.
  unfold enc_parts. f_equal. etransitivity; [exact (imap_part_head ps [] ps eq_refl)|].
  cbn [fmap list_fmap]. by rewrite Z.add_0_r.
Qed.

Lemma sum_Z_cons x l : sum_Z (x :: l) = x + sum_Z l.
Proof. done. Qed.

Lemma zlen_enc_parts (ps : list part) :
  zlen (enc_parts ps) = sum_Z ((fun p => part_head_len p + zlen (part_tail p)) <$> ps).
Proof.
  rewrite enc_parts_running. generalize (sum_Z (part_head_len <$> ps)).
  induction ps as [|p ps IH]; intros pos; [done|].
  cbn [running_heads fmap list_fmap concat]. rewrite sum_Z_cons, <- (IH (pos + zlen (part_tail p))).
  rewrite !zlen_app. unfold part_head_len. destruct p.1; rewrite ?zlen_word; lia.
Qed.
