(* ===== verification/AbiInjective.v ===== *)
(** * The encoding determines the value

    Two Solidity values of the same type have encodings of the same length, and
    are equal when their encodings are.  Hashes and signatures of encodings
    are about the values for this reason. *)
From S2P Require Import Prelude AbiSpec.

(** Same type, where lengths of arrays and [bytes] are part of the type, as
    they are for the arrays of the code. *)
Inductive same_type : abi -> abi -> Prop :=
  | same_uint x y : fits 256 x -> fits 256 y -> same_type (AUint x) (AUint y)
  | same_fixed_bytes a b : length a = length b -> same_type (AFixedBytes a) (AFixedBytes b)
  | same_bytes a b : length a = length b -> same_type (ABytes a) (ABytes b)
  | same_tuple xs ys : Forall2 same_type xs ys -> same_type (ATuple xs) (ATuple ys)
  | same_array xs ys : Forall2 same_type xs ys -> same_type (AArray xs) (AArray ys).

(** Parts of the same kind and size. *)
Definition same_part (p q : part) : Prop := p.1 = q.1 /\ length p.2 = length q.2.

Lemma same_part_head_len p q : same_part p q -> part_head_len p = part_head_len q.
Proof. intros [H1 H2]. unfold part_head_len, zlen. by rewrite H1, H2. Qed.

Lemma same_part_tail p q : same_part p q -> length (part_tail p) = length (part_tail q).
Proof. intros [H1 H2]. unfold part_tail. rewrite H1. by destruct q.1. Qed.

Lemma same_head_lens ps qs :
  Forall2 same_part ps qs -> part_head_len <$> ps = part_head_len <$> qs.
Proof.
  induction 1 as [|p q ps qs Hp H IH]; [done|]. cbn. f_equal; [by apply same_part_head_len|done].
Qed.

Lemma running_heads_length pos pos' ps qs :
  Forall2 same_part ps qs -> length (running_heads pos ps) = length (running_heads pos' qs).
Proof.
  intros H. revert pos pos'. induction H as [|p q ps qs [H1 H2] H IH]; intros pos pos'; [done|].
  cbn [running_heads]. rewrite !length_app. f_equal; [|apply IH].
  rewrite H1. destruct q.1; [by rewrite !word_length|done].
Qed.

Lemma tails_length ps qs :
  Forall2 same_part ps qs -> length (concat (part_tail <$> ps)) = length (concat (part_tail <$> qs)).
Proof.
  induction 1 as [|p q ps qs Hp H IH]; [done|].
  cbn [fmap list_fmap concat]. rewrite !length_app, IH. by rewrite (same_part_tail p q).
Qed.

Lemma enc_parts_length ps qs :
  Forall2 same_part ps qs -> length (enc_parts ps) = length (enc_parts qs).
Proof.
  intros H. rewrite !enc_parts_running, !length_app.
  by erewrite running_heads_length, tails_length.
Qed.

(** Equal heads and equal tails come from equal parts. *)
Lemma parts_inj pos pos' ps qs :
  Forall2 same_part ps qs ->
  running_heads pos ps = running_heads pos' qs ->
  concat (part_tail <$> ps) = concat (part_tail <$> qs) ->
  ps = qs.
Proof.
  intros H. revert pos pos'. induction H as [|p q ps qs Hp H IH]; intros pos pos' Hh Ht; [done|].
  cbn [running_heads fmap list_fmap concat] in *.
  pose proof (same_part_tail p q Hp) as Htl. destruct Hp as [H1 H2].
  apply app_inj_1 in Ht as [Ht1 Ht2]; [|done].
  apply app_inj_1 in Hh as [Hh1 Hh2]; [|rewrite H1; destruct q.1; [by rewrite !word_length|done]].
  assert (p = q) as ->; [|f_equal; by eapply IH].
  destruct p as [d e], q as [d' e']; cbn in *; subst d'. f_equal.
  unfold part_tail in Ht1; cbn in Ht1. by destruct d.
Qed.

Lemma enc_parts_inj ps qs :
  Forall2 same_part ps qs -> enc_parts ps = enc_parts qs -> ps = qs.
Proof.
  intros H. rewrite !enc_parts_running. intros He.
  apply app_inj_1 in He as [Hh Ht]; [|by apply running_heads_length].
  by eapply parts_inj.
Qed.

Abbreviation parts_of := (fmap (fun v => (abi_dynamic v, abi_enc v))).

(** Values of the same type: same kind, same size. *)
Definition same_layout (a b : abi) : Prop :=
  abi_dynamic a = abi_dynamic b /\ length (abi_enc a) = length (abi_enc b).

Lemma parts_same_part xs ys :
  Forall2 same_layout xs ys -> Forall2 same_part (parts_of xs) (parts_of ys).
Proof. intros H. apply Forall2_fmap. eapply Forall2_impl; [|exact H]. by intros x y [? ?]. Qed.

Lemma layouts_dynamic xs ys :
  Forall2 same_layout xs ys -> existsb abi_dynamic xs = existsb abi_dynamic ys.
Proof. induction 1 as [|x y xs ys [Hd _] H IH]; [done|]. cbn. by rewrite Hd, IH. Qed.

Lemma pad32_length a b : length a = length b -> length (pad32 a) = length (pad32 b).
Proof. intros H. unfold pad32, padding, zlen. by rewrite !length_app, !length_replicate, H. Qed.

Lemma pad32_inj a b : length a = length b -> pad32 a = pad32 b -> a = b.
Proof. intros H. unfold pad32. intros He. by apply app_inj_1 in He as [? _]. Qed.

Lemma Forall2_same {A} (Q R : A -> A -> Prop) xs ys :
  Forall (fun x => forall y, Q x y -> R x y) xs -> Forall2 Q xs ys -> Forall2 R xs ys.
Proof.
  intros HF. induction 1 as [|x y xs ys Hx H IH]; [constructor|].
  apply Forall_cons_iff in HF as [Hf HF]. constructor; auto.
Qed.

Lemma same_type_layout a b : same_type a b -> same_layout a b.
Proof.
  revert b. induction a using abi_ind'; intros c Hc; inversion Hc; subst; split; cbn [abi_dynamic abi_enc];
    rewrite ?length_app, ?word_length; try done.
  - by apply pad32_length.
  - f_equal. by apply pad32_length.
  - by apply layouts_dynamic, (Forall2_same same_type).
  - by apply enc_parts_length, parts_same_part, (Forall2_same same_type).
  - f_equal. by apply enc_parts_length, parts_same_part, (Forall2_same same_type).
Qed.

Lemma word_inj x y : fits 256 x -> fits 256 y -> word x = word y -> x = y.
Proof. intros Hx Hy. apply be_bytes_inj; exact Hx || exact Hy. Qed.

(** The components of two sequences with the same parts. *)
Lemma parts_of_inj xs ys :
  Forall (fun x => forall y, same_type x y -> abi_enc x = abi_enc y -> x = y) xs ->
  Forall2 same_type xs ys -> enc_parts (parts_of xs) = enc_parts (parts_of ys) -> xs = ys.
Proof.
  intros HF H He. apply enc_parts_inj in He; [|apply parts_same_part; eapply Forall2_impl;
    [exact same_type_layout|exact H]].
  revert HF He. induction H as [|x y xs ys Hx H IH]; intros HF He; [done|].
  apply Forall_cons_iff in HF as [Hf HF]. cbn in He. injection He as _ He Hes.
  f_equal; auto.
Qed.

Lemma abi_enc_inj a b : same_type a b -> abi_enc a = abi_enc b -> a = b.
Proof.
  revert b. induction a using abi_ind'; intros c Hc He; inversion Hc; subst; cbn [abi_enc] in He.
  - f_equal. by apply word_inj.
  - f_equal. by apply pad32_inj.
  - apply app_inj_1 in He as [_ He]; [|by rewrite !word_length]. f_equal. by apply pad32_inj.
  - f_equal. by apply parts_of_inj.
  - apply app_inj_1 in He as [_ He]; [|by rewrite !word_length]. f_equal. by apply parts_of_inj.
Qed.

(** [abi.encode] is injective on the values of a type. *)
Lemma abi_encode_inj a b : same_type a b -> abi_encode a = abi_encode b -> a = b.
Proof.
  intros H. rewrite !abi_encode_alt. destruct (same_type_layout a b H) as [-> _].
  intros He%app_inv_head. by apply abi_enc_inj.
Qed.
