(* ===== verification/AbiSer.v ===== *)
(** * The ABI serializer

    Model of src/src/abiencode/ser.rs, error.rs, as_bytes.rs and
    as_dyn_array.rs.  A [Serialize] value is what serde hands to a serializer:
    a polymorphic method that drives any [Serializer].  [serialize] is that
    method for a value of the serde data model, so the recursion of the code
    (an element is serialized again for its head size, its tail size, its head
    and its tail) is the recursion of the model. *)
From S2P Require Import Prelude.

(** ** error.rs *)

Inductive Error : Type :=
  | TypeNotRepresentable (type_name : string)
  | TypeNotYetSupported (type_name : string).

(** [impl Display for Error]. *)
Definition Error_fmt (self : Error) : string :=
  match self with
  | TypeNotRepresentable type_name => "type is not representable in abi encoding: " +:+ type_name
  | TypeNotYetSupported type_name => "type is not yet implemented: " +:+ type_name
  end.

(** ** ser.rs: constants, passes, writers *)

Definition MARK_DYNAMIC_NAME : string := ":$&_DYNAMIC".
Definition SLOT_SIZE : Z := 32.

Inductive Pass : Type :=
  | HeadSize (size : Z) (is_dynamic is_fake_dynamic : bool)
  | Head (offset : Z)
  | TailSize (size : Z)
  | Tail.

(** [trait Writer]. *)
Class Writer (W : Type) := write : bytes -> M W Error unit.

(** The writer of the size passes: writing to it panics. *)
Record NoWriter : Type := mkNoWriter {}.
#[export] Instance NoWriter_Writer : Writer NoWriter := fun _ => mpanic.

Record Serializer (W : Type) : Type := mkSerializer { writer : W; pass : Pass }.
Arguments mkSerializer {W} writer pass.
Arguments writer {W} s.
Arguments pass {W} s.

(** [T: Serialize]: the value's [serialize] method, which accepts a serializer
    over any writer. *)
Definition Serialize : Type := forall W, Writer W -> M (Serializer W) Error unit.

Section Methods.
Context `{P : Platform} {W : Type} `{HW : !Writer W}.

Definition set_pass (p : Pass) : M (Serializer W) Error unit :=
  fun self => (mkSerializer (writer self) p, Ok tt).

Definition get_pass : M (Serializer W) Error Pass := fun self => (self, Ok (pass self)).

(** [self.writer.write(bytes)]. *)
Definition self_write (b : bytes) : M (Serializer W) Error unit :=
  fun self => let (w, r) := write b (writer self) in (mkSerializer w (pass self), r).

(** The three slot writers; a value longer than a slot panics on the slice
    index. *)
Definition write_left_aligned_slice (v : bytes) : M (Serializer W) Error unit :=
  if decide (zlen v <= SLOT_SIZE) then
    self_write (v ++ replicate (Z.to_nat (SLOT_SIZE - zlen v)) x00)
  else mpanic.

Definition write_right_aligned (v : bytes) : M (Serializer W) Error unit :=
  if decide (zlen v <= SLOT_SIZE) then
    self_write (replicate (Z.to_nat (SLOT_SIZE - zlen v)) x00 ++ v)
  else mpanic.

Definition write_signed (negative : bool) (v : bytes) : M (Serializer W) Error unit :=
  let filler := if negative then xff else x00 in
  if decide (zlen v <= SLOT_SIZE) then
    self_write (replicate (Z.to_nat (SLOT_SIZE - zlen v)) filler ++ v)
  else mpanic.

(** [usize::to_be_bytes]. *)
Definition usize_to_be_bytes (z : Z) : bytes := be_bytes usize_bytes z.

(** [v.chunks_exact(SLOT_SIZE)] and its [remainder()]. *)
Definition chunks_exact (v : bytes) : list bytes :=
  (fun i => take 32 (drop (32 * i) v)) <$> seq 0 (length v / 32).
Definition chunks_remainder (v : bytes) : bytes := drop (32 * (length v / 32)) v.

Definition for_each {A} (f : A -> M (Serializer W) Error unit)
    : list A -> M (Serializer W) Error unit :=
  fix go l :=
    match l with
    | [] => mret tt
    | x :: l => f x;; go l
    end.

(** The loop both [serialize_str] and [serialize_bytes] write their data with. *)
Definition write_chunks (v : bytes) : M (Serializer W) Error unit :=
  for_each self_write (chunks_exact v);;
  if decide (chunks_remainder v = []) then mret tt
  else write_left_aligned_slice (chunks_remainder v).

(** [fn serialize(&mut self, value, pass)]: the value on the same writer in
    another pass; the pass of [self] is left as it is. *)
Definition serialize_in (value : Serialize) (p : Pass) : M (Serializer W) Error unit :=
  fun self =>
    let (s, r) := value W HW (mkSerializer (writer self) p) in
    (mkSerializer (writer s) (pass self), r).

End Methods.

Section Sizes.
Context `{P : Platform}.

Definition compute_size (value : Serialize) : res Error (Z * bool * bool) :=
  let (serializer, r) :=
    value NoWriter _ (mkSerializer (mkNoWriter) (HeadSize 0 false false)) in
  r ≫= fun _ =>
  match pass serializer with
  | HeadSize size is_dynamic is_fake_dynamic => Ok (size, is_dynamic, is_fake_dynamic)
  | _ => Panic
  end.

Definition get_tail_size (value : Serialize) : res Error Z :=
  let (serializer, r) := value NoWriter _ (mkSerializer (mkNoWriter) (TailSize 0)) in
  r ≫= fun _ =>
  match pass serializer with
  | TailSize tail_size => Ok tail_size
  | _ => Panic
  end.

End Sizes.

Section SerializerImpl.
Context `{P : Platform} {W : Type} `{HW : !Writer W}.

(** The shared behaviour of tuple, struct and sequence elements. *)
Definition serialize_tuple_element (name : option string) (value : Serialize)
    (offset_reduction : Z) : M (Serializer W) Error unit :=
  p ← get_pass;
  match p with
  | HeadSize size is_dynamic is_fake_dynamic =>
      '(element_size, is_dyn, is_fake) ← mlift (compute_size value);
      size' ← mlift (usize_add size (if is_dyn && negb is_fake then SLOT_SIZE else element_size));
      set_pass (HeadSize size' (is_dynamic || (is_dyn || is_fake)) is_fake_dynamic)
  | Head offset =>
      '(field_head_size, is_dyn, is_fake) ← mlift (compute_size value);
      if is_dyn && negb is_fake then
        rel ← mlift (usize_sub offset offset_reduction);
        write_right_aligned (usize_to_be_bytes rel);;
        o1 ← mlift (usize_add offset field_head_size);
        t ← mlift (get_tail_size value);
        o2 ← mlift (usize_add o1 t);
        set_pass (Head o2)
      else serialize_in value (Head usize_max)
  | TailSize size =>
      '(field_head_size, is_dyn, is_fake) ← mlift (compute_size value);
      field_tail_size ← mlift (get_tail_size value);
      s1 ← mlift (usize_add size (if is_dyn && negb is_fake then field_head_size else 0));
      s2 ← mlift (usize_add s1 field_tail_size);
      set_pass (TailSize s2)
  | Tail =>
      '(field_head_size, is_dyn, is_fake) ← mlift (compute_size value);
      if is_dyn && negb is_fake then
        serialize_in value (Head field_head_size);;
        serialize_in value Tail
      else mret tt
  end.

(** The common body of the methods that serialize one slot. *)
Definition serialize_slot (in_head : M (Serializer W) Error unit) : M (Serializer W) Error unit :=
  p ← get_pass;
  match p with
  | HeadSize size is_dynamic is_fake_dynamic =>
      size' ← mlift (usize_add size SLOT_SIZE);
      set_pass (HeadSize size' is_dynamic is_fake_dynamic)
  | Head _ => in_head
  | TailSize _ => mret tt
  | Tail => mret tt
  end.

Definition serialize_i8 (v : Z) := serialize_slot (write_signed (bool_decide (v < 0)) (be_bytes 1 v)).
Definition serialize_i16 (v : Z) := serialize_slot (write_signed (bool_decide (v < 0)) (be_bytes 2 v)).
Definition serialize_i32 (v : Z) := serialize_slot (write_signed (bool_decide (v < 0)) (be_bytes 4 v)).
Definition serialize_i64 (v : Z) := serialize_slot (write_signed (bool_decide (v < 0)) (be_bytes 8 v)).
Definition serialize_i128 (v : Z) := serialize_slot (write_right_aligned (be_bytes 16 v)).
Definition serialize_u8 (v : Z) := serialize_slot (write_right_aligned (be_bytes 1 v)).
Definition serialize_u16 (v : Z) := serialize_slot (write_right_aligned (be_bytes 2 v)).
Definition serialize_u32 (v : Z) := serialize_slot (write_right_aligned (be_bytes 4 v)).
Definition serialize_u64 (v : Z) := serialize_slot (write_right_aligned (be_bytes 8 v)).
Definition serialize_u128 (v : Z) := serialize_slot (write_right_aligned (be_bytes 16 v)).
Definition serialize_bool (v : bool) := serialize_u8 (if v then 1 else 0).

Definition serialize_f32 : M (Serializer W) Error unit := mthrow (TypeNotRepresentable "f32").
Definition serialize_f64 : M (Serializer W) Error unit := mthrow (TypeNotRepresentable "f64").
Definition serialize_char : M (Serializer W) Error unit := mthrow (TypeNotYetSupported "char").
Definition serialize_none : M (Serializer W) Error unit := mthrow (TypeNotRepresentable "none").
Definition serialize_some : M (Serializer W) Error unit := mthrow (TypeNotRepresentable "some").
Definition serialize_unit : M (Serializer W) Error unit := mthrow (TypeNotRepresentable "unit").
Definition serialize_unit_variant : M (Serializer W) Error unit :=
  mthrow (TypeNotRepresentable "unit variant (enum)").
Definition serialize_newtype_variant : M (Serializer W) Error unit :=
  mthrow (TypeNotRepresentable "newtype variant (enum)").
Definition serialize_tuple_variant : M (Serializer W) Error unit :=
  mthrow (TypeNotRepresentable "struct variant").
Definition serialize_map : M (Serializer W) Error unit := mthrow (TypeNotRepresentable "map").
Definition serialize_struct_variant : M (Serializer W) Error unit :=
  mthrow (TypeNotRepresentable "struct variant").

Definition serialize_str (v : bytes) : M (Serializer W) Error unit :=
  p ← get_pass;
  match p with
  | HeadSize size _ is_fake_dynamic => set_pass (HeadSize size true is_fake_dynamic)
  | Head _ => mret tt
  | TailSize size =>
      let r := zlen v `mod` SLOT_SIZE in
      c ← mlift (usize_add SLOT_SIZE (zlen v - r));
      tail_size ← mlift (usize_add c (if decide (r = 0) then 0 else SLOT_SIZE));
      size' ← mlift (usize_add size tail_size);
      set_pass (TailSize size')
  | Tail =>
      write_right_aligned (usize_to_be_bytes (zlen v));;
      write_chunks v
  end.

Definition serialize_bytes (v : bytes) : M (Serializer W) Error unit :=
  p ← get_pass;
  match p with
  | HeadSize size is_dynamic is_fake_dynamic =>
      let r := zlen v `mod` SLOT_SIZE in
      c ← mlift (usize_add (zlen v - r) (if decide (r = 0) then 0 else SLOT_SIZE));
      size' ← mlift (usize_add size c);
      set_pass (HeadSize size' is_dynamic is_fake_dynamic)
  | Head _ => write_chunks v
  | TailSize _ => mret tt
  | Tail => mret tt
  end.

Definition serialize_unit_struct (name : string) : M (Serializer W) Error unit :=
  if decide (name = MARK_DYNAMIC_NAME) then
    p ← get_pass;
    match p with
    | HeadSize size is_dynamic _ => set_pass (HeadSize size is_dynamic true)
    | Head _ => mret tt
    | TailSize _ => mret tt
    | Tail => mret tt
    end
  else mthrow (TypeNotRepresentable "unit struct").

Definition serialize_newtype_struct (name : string) (value : Serialize) : M (Serializer W) Error unit :=
  serialize_tuple_element (Some name) value 0.

Definition serialize_seq (len : option Z) : M (Serializer W) Error unit :=
  p ← get_pass;
  match p with
  | HeadSize size _ is_fake_dynamic =>
      size' ← mlift (usize_add size SLOT_SIZE);
      set_pass (HeadSize size' true is_fake_dynamic)
  | Head _ =>
      n ← mlift (unwrap len);
      write_right_aligned (usize_to_be_bytes n)
  | TailSize _ => mret tt
  | Tail => mret tt
  end.

Definition serialize_tuple (len : Z) : M (Serializer W) Error unit := mret tt.
Definition serialize_tuple_struct (name : string) (len : Z) : M (Serializer W) Error unit := mret tt.
Definition serialize_struct (name : string) (len : Z) : M (Serializer W) Error unit := mret tt.

(** The element methods of the compound serializers. *)
Definition seq_serialize_element (value : Serialize) := serialize_tuple_element None value SLOT_SIZE.
Definition seq_end : M (Serializer W) Error unit := mret tt.
Definition tuple_serialize_element (value : Serialize) := serialize_tuple_element None value 0.
Definition tuple_end : M (Serializer W) Error unit := mret tt.
Definition tuple_struct_serialize_field (value : Serialize) := serialize_tuple_element None value 0.
Definition tuple_struct_end : M (Serializer W) Error unit := mret tt.
Definition struct_serialize_field (name : string) (value : Serialize) :=
  serialize_tuple_element (Some name) value 0.
Definition struct_end : M (Serializer W) Error unit := mret tt.

(** The methods of the serializers that are never obtained ([unreachable!]):
    [serialize_tuple_variant], [serialize_map] and [serialize_struct_variant]
    only return errors. *)
Definition tuple_variant_serialize_field (value : Serialize) : M (Serializer W) Error unit := mpanic.
Definition tuple_variant_end : M (Serializer W) Error unit := mpanic.
Definition map_serialize_key (key : Serialize) : M (Serializer W) Error unit := mpanic.
Definition map_serialize_value (value : Serialize) : M (Serializer W) Error unit := mpanic.
Definition map_end : M (Serializer W) Error unit := mpanic.
Definition struct_variant_serialize_field (key : string) (value : Serialize) : M (Serializer W) Error unit :=
  mpanic.
Definition struct_variant_end : M (Serializer W) Error unit := mpanic.

End SerializerImpl.

(* ------------------------------------------------------------------ *)
(** ** The serde data model                                              *)
(* ------------------------------------------------------------------ *)

(** A value as serde presents it to a serializer.  The variants the
    serializer refuses at the first call carry no content. *)
Inductive value : Type :=
  | VBool (b : bool)
  | VI8 (z : Z) | VI16 (z : Z) | VI32 (z : Z) | VI64 (z : Z) | VI128 (z : Z)
  | VU8 (z : Z) | VU16 (z : Z) | VU32 (z : Z) | VU64 (z : Z) | VU128 (z : Z)
  | VF32 | VF64 | VChar
  | VStr (s : bytes)
  | VBytes (b : bytes)
  | VNone | VSome | VUnit
  | VUnitStruct (name : string)
  | VUnitVariant
  | VNewtypeStruct (name : string) (v : value)
  | VNewtypeVariant
  | VSeq (len : option Z) (vs : list value)
  | VTuple (vs : list value)
  | VTupleStruct (name : string) (vs : list value)
  | VTupleVariant | VMap
  | VStruct (name : string) (fields : list (string * value))
  | VStructVariant.

Section Drive.
Context `{P : Platform}.

(** [value.serialize(serializer)]: serde's calls on the serializer, in order. *)
Fixpoint serialize (v : value) : Serialize := fun W HW =>
  match v with
  | VBool b => serialize_bool b
  | VI8 z => serialize_i8 z
  | VI16 z => serialize_i16 z
  | VI32 z => serialize_i32 z
  | VI64 z => serialize_i64 z
  | VI128 z => serialize_i128 z
  | VU8 z => serialize_u8 z
  | VU16 z => serialize_u16 z
  | VU32 z => serialize_u32 z
  | VU64 z => serialize_u64 z
  | VU128 z => serialize_u128 z
  | VF32 => serialize_f32
  | VF64 => serialize_f64
  | VChar => serialize_char
  | VStr s => serialize_str s
  | VBytes b => serialize_bytes b
  | VNone => serialize_none
  | VSome => serialize_some
  | VUnit => serialize_unit
  | VUnitStruct name => serialize_unit_struct name
  | VUnitVariant => serialize_unit_variant
  | VNewtypeStruct name v => serialize_newtype_struct name (serialize v)
  | VNewtypeVariant => serialize_newtype_variant
  | VSeq len vs =>
      serialize_seq len;;
      for_each (fun v => seq_serialize_element (serialize v)) vs;;
      seq_end
  | VTuple vs =>
      serialize_tuple (zlen vs);;
      for_each (fun v => tuple_serialize_element (serialize v)) vs;;
      tuple_end
  | VTupleStruct name vs =>
      serialize_tuple_struct name (zlen vs);;
      for_each (fun v => tuple_struct_serialize_field (serialize v)) vs;;
      tuple_struct_end
  | VTupleVariant => serialize_tuple_variant
  | VMap => serialize_map
  | VStruct name fields =>
      serialize_struct name (zlen fields);;
      for_each (fun field => struct_serialize_field field.1 (serialize field.2)) fields;;
      struct_end
  | VStructVariant => serialize_struct_variant
  end.

Section ToWriter.
Context {W : Type} `{HW : !Writer W}.

(** A method call on a serializer built around the writer. *)
Definition with_serializer (p : Pass) (m : M (Serializer W) Error unit) : M W Error unit :=
  fun w => let (serializer, r) := m (mkSerializer w p) in (writer serializer, r).

Definition to_writer_internal (v : value) (include_outer_struct : bool) : M W Error unit :=
  '(head_size, is_dynamic, _) ← mlift (compute_size (serialize v));
  with_serializer (Head head_size) (
    (if is_dynamic && include_outer_struct then
       write_right_aligned (usize_to_be_bytes SLOT_SIZE)
     else mret tt);;
    serialize v W _;;
    (if is_dynamic : bool then set_pass Tail;; serialize v W _ else mret tt)).

Definition to_writer (v : value) : M W Error unit := to_writer_internal v true.
Definition to_fnargs_writer (v : value) : M W Error unit := to_writer_internal v false.

End ToWriter.
End Drive.

(** ** The serialize functions of as_bytes.rs and as_dyn_array.rs *)

Definition DynamicMarker : value := VUnitStruct MARK_DYNAMIC_NAME.

Definition as_bytes (v : bytes) : value := VTuple [DynamicMarker; VU64 (zlen v); VBytes v].

Definition as_dyn_array (vs : list value) : value := VSeq (Some (zlen vs)) vs.

(** A writer that collects the slots, like the one of the tests. *)
#[export] Instance list_Writer : Writer (list bytes) :=
  fun slot ws => (ws ++ [slot], Ok tt).
