(* ===== verification/AbiRefine.v ===== *)
(** * The serializer implements the ABI encoding

    Every pass of the serializer of AbiSer.v in closed form over the shape of a
    value (which parts are static, dynamic or nested), and from it the
    refinement: what [to_writer] writes is the Solidity encoding of AbiSpec.v. *)
From S2P Require Import Prelude AbiSpec AbiSer.

(** Induction over values that reaches the elements of compound values. *)
Section ValueInd.
Variable Q : value -> Prop.
Hypothesis Hleaf : forall v,
  match v with
  | VNewtypeStruct _ _ | VSeq _ _ | VTuple _ | VTupleStruct _ _ | VStruct _ _ => True
  | _ => Q v
  end.
Hypothesis Hnewtype : forall n v, Q v -> Q (VNewtypeStruct n v).
Hypothesis Hseq : forall n vs, Forall Q vs -> Q (VSeq n vs).
Hypothesis Htuple : forall vs, Forall Q vs -> Q (VTuple vs).
Hypothesis Htuple_struct : forall n vs, Forall Q vs -> Q (VTupleStruct n vs).
Hypothesis Hstruct : forall n fs, Forall (fun f => Q f.2) fs -> Q (VStruct n fs).

Fixpoint value_ind' (v : value) : Q v :=
  let fix all vs : Forall Q vs :=
    match vs with
    | [] => Forall_nil_2 Q
    | v :: vs => Forall_cons_2 Q v vs (value_ind' v) (all vs)
    end in
  match v as v return Q v with
  | VNewtypeStruct n v => Hnewtype n v (value_ind' v)
  | VSeq n vs => Hseq n vs (all vs)
  | VTuple vs => Htuple vs (all vs)
  | VTupleStruct n vs => Htuple_struct n vs (all vs)
  | VStruct n fs => Hstruct n fs ((fix fields fs : Forall (fun f => Q f.2) fs :=
      match fs with
      | [] => Forall_nil_2 _
      | f :: fs => Forall_cons_2 _ f fs (let (k, v) as f return Q f.2 := f in value_ind' v) (fields fs)
      end) fs)
  | v => Hleaf v
  end.
End ValueInd.

(** A writer whose [write] always returns: its effect is a function. *)
Class PureWriter (W : Type) {HW : Writer W} := {
  wstep : W -> bytes -> W;
  wstep_ok : forall b w, write b w = (wstep w b, Ok tt);
}.
#[export] Instance list_PureWriter : PureWriter (list bytes) :=
  {| wstep := fun ws b => ws ++ [b]; wstep_ok := fun _ _ => eq_refl |}.

(* ------------------------------------------------------------------ *)
(** ** Shapes                                                            *)
(* ------------------------------------------------------------------ *)

(** What the serializer sees of a value: slots written in the head pass, slots
    written in the tail pass (strings), the dynamic marker, or a node with its
    children ([Some n] for a sequence of length [n]). *)
Inductive shape : Type :=
  | SLeaf (slots : list bytes)
  | SText (slots : list bytes)
  | SMarker
  | SNode (len : option Z) (cs : list shape).

Section ShapeInd.
Variable Q : shape -> Prop.
Hypothesis Hleaf : forall l, Q (SLeaf l).
Hypothesis Htext : forall l, Q (SText l).
Hypothesis Hmarker : Q SMarker.
Hypothesis Hnode : forall len cs, Forall Q cs -> Q (SNode len cs).
Fixpoint shape_ind' (s : shape) : Q s :=
  match s with
  | SLeaf l => Hleaf l
  | SText l => Htext l
  | SMarker => Hmarker
  | SNode len cs => Hnode len cs ((fix all cs : Forall Q cs :=
      match cs with
      | [] => Forall_nil_2 Q
      | c :: cs => Forall_cons_2 Q c cs (shape_ind' c) (all cs)
      end) cs)
  end.
End ShapeInd.

Definition slots_size (l : list bytes) : Z := 32 * zlen l.

Definition is_fake (s : shape) : bool := match s with SMarker => true | _ => false end.

Fixpoint is_dyn (s : shape) : bool :=
  match s with
  | SLeaf _ | SMarker => false
  | SText _ => true
  | SNode (Some _) _ => true
  | SNode None cs => existsb (fun c => is_dyn c || is_fake c) cs
  end.

(** The length slot of a sequence. *)
Definition len_size (len : option Z) : Z := match len with Some _ => 32 | None => 0 end.
Definition len_slots (len : option Z) : list bytes :=
  match len with Some n => [word n] | None => [] end.

Fixpoint head_size (s : shape) : Z :=
  match s with
  | SLeaf l => slots_size l
  | SText _ | SMarker => 0
  | SNode len cs => len_size len + sum_Z ((fun c => if is_dyn c then 32 else head_size c) <$> cs)
  end.

Fixpoint tail_size (s : shape) : Z :=
  match s with
  | SLeaf _ | SMarker => 0
  | SText l => slots_size l
  | SNode _ cs => sum_Z ((fun c => (if is_dyn c then head_size c else 0) + tail_size c) <$> cs)
  end.

(** The space a value takes once it is encoded. *)
Definition full_size (s : shape) : Z := head_size s + tail_size s.

(** The head pass over the children of a node, threading the offset of the
    next tail; [red] is not counted in the offsets. *)
Definition heads (head_slots : Z -> shape -> list bytes) (static_off red : Z)
    : Z -> list shape -> list bytes :=
  fix go off cs :=
    match cs with
    | [] => []
    | c :: cs =>
        if is_dyn c then word (off - red) :: go (off + full_size c) cs
        else head_slots static_off c ++ go off cs
    end.

Section Slots.
Context `{P : Platform}.

Fixpoint head_slots (off : Z) (s : shape) : list bytes :=
  match s with
  | SLeaf l => l
  | SText _ | SMarker => []
  | SNode len cs => len_slots len ++ heads head_slots usize_max (len_size len) off cs
  end.

Fixpoint tail_slots (s : shape) : list bytes :=
  match s with
  | SLeaf _ | SMarker => []
  | SText l => l
  | SNode _ cs => concat ((fun c =>
      if is_dyn c then head_slots (head_size c) c ++ tail_slots c else []) <$> cs)
  end.

(** The offset the head pass leaves behind. *)
Definition head_next (off : Z) (s : shape) : Z :=
  match s with
  | SNode _ cs => off + sum_Z ((fun c => if is_dyn c then full_size c else 0) <$> cs)
  | _ => off
  end.

End Slots.

(** The slots of [bytes] data. *)
Definition data_slots (b : bytes) : list bytes :=
  chunks_exact b ++
  (if decide (chunks_remainder b = []) then [] else [pad32 (chunks_remainder b)]).

Section ShapeOf.
Context `{P : Platform}.

Definition guard_shape (Q : Prop) `{Decision Q} (s : shape) : option shape :=
  if decide Q then Some s else None.

Definition sfits (w z : Z) : Prop := - 2 ^ (w - 1) <= z < 2 ^ (w - 1).
#[export] Instance sfits_dec w z : Decision (sfits w z).
Proof. unfold sfits. apply _. Defined.

(** The shape of a value: [None] when it holds a type the serializer refuses,
    an integer outside its type, or a length that is not the length. *)
Fixpoint shape_of (v : value) : option shape :=
  match v with
  | VBool b => Some (SLeaf [word (if b then 1 else 0)])
  | VI8 z => guard_shape (sfits 8 z) (SLeaf [word z])
  | VI16 z => guard_shape (sfits 16 z) (SLeaf [word z])
  | VI32 z => guard_shape (sfits 32 z) (SLeaf [word z])
  | VI64 z => guard_shape (sfits 64 z) (SLeaf [word z])
  | VI128 z => guard_shape (sfits 128 z) (SLeaf [word (z mod 2 ^ 128)])
  | VU8 z => guard_shape (fits 8 z) (SLeaf [word z])
  | VU16 z => guard_shape (fits 16 z) (SLeaf [word z])
  | VU32 z => guard_shape (fits 32 z) (SLeaf [word z])
  | VU64 z => guard_shape (fits 64 z) (SLeaf [word z])
  | VU128 z => guard_shape (fits 128 z) (SLeaf [word z])
  | VStr s => guard_shape (zlen s < 2 ^ usize_bits) (SText (word (zlen s) :: data_slots s))
  | VBytes b => Some (SLeaf (data_slots b))
  | VUnitStruct name => guard_shape (name = MARK_DYNAMIC_NAME) SMarker
  | VNewtypeStruct _ v => c ← shape_of v; Some (SNode None [c])
  | VSeq len vs =>
      cs ← mapM shape_of vs;
      guard_shape (len = Some (zlen vs) /\ zlen vs < 2 ^ usize_bits) (SNode (Some (zlen vs)) cs)
  | VTuple vs => cs ← mapM shape_of vs; Some (SNode None cs)
  | VTupleStruct _ vs => cs ← mapM shape_of vs; Some (SNode None cs)
  | VStruct _ fields => cs ← mapM (fun f => shape_of f.2) fields; Some (SNode None cs)
  | _ => None
  end.

End ShapeOf.

(* ------------------------------------------------------------------ *)
(** ** Slots                                                             *)
(* ------------------------------------------------------------------ *)

Definition is_slot (b : bytes) : Prop := length b = 32%nat.

Lemma word_slot z : is_slot (word z).
Proof. apply word_length. Qed.
#[export] Hint Resolve word_slot : perun.

Lemma sum_Z_nonneg l : Forall (fun x => 0 <= x) l -> 0 <= sum_Z l.
Proof. induction 1 as [|x l Hx Hl IH]; [done|]. rewrite sum_Z_cons. lia. Qed.

Lemma zlen_concat (l : list bytes) : zlen (concat l) = sum_Z (zlen <$> l).
Proof. induction l as [|b l IH]; [done|]. cbn. by rewrite zlen_app, IH. Qed.

Lemma zlen_concat_slots (l : list bytes) : Forall is_slot l -> zlen (concat l) = slots_size l.
Proof.
  unfold slots_size. induction 1 as [|b l Hb Hl IH]; [done|].
  cbn [concat]. rewrite zlen_app, zlen_cons, IH. unfold zlen, is_slot in *. lia.
Qed.

Lemma chunks_concat (v : bytes) n :
  (32 * n <= length v)%nat ->
  concat ((fun i => take 32 (drop (32 * i) v)) <$> seq 0 n) = take (32 * n) v.
Proof.
  induction n as [|n IH]; intros Hn; [done|].
  rewrite seq_S, fmap_app, concat_app, IH by lia. cbn [fmap list_fmap concat].
  rewrite app_nil_r, Nat.add_0_l.
  replace (32 * S n)%nat with (32 * n + 32)%nat by lia.
  by rewrite take_take_drop.
Qed.

Lemma chunks_exact_concat v : concat (chunks_exact v) = take (32 * (length v / 32)) v.
Proof. apply chunks_concat, Nat.Div0.mul_div_le. Qed.

Lemma chunks_exact_slots v : Forall is_slot (chunks_exact v).
Proof.
  unfold chunks_exact. apply Forall_fmap, Forall_seq. intros i Hi.
  unfold compose, is_slot.
  rewrite length_take, length_drop.
  pose proof (Nat.Div0.mul_div_le (length v) 32). lia.
Qed.

Lemma remainder_length v : length (chunks_remainder v) = (length v mod 32)%nat.
Proof.
  unfold chunks_remainder. rewrite length_drop.
  pose proof (Nat.div_mod_eq (length v) 32). lia.
Qed.

Lemma chunks_exact_remainder v : concat (chunks_exact v) ++ chunks_remainder v = v.
Proof. rewrite chunks_exact_concat. apply take_drop. Qed.

(** The filler only depends on the length modulo 32. *)
Lemma padding_remainder v : padding (chunks_remainder v) = padding v.
Proof.
  unfold padding, zlen. rewrite remainder_length. do 2 f_equal.
  rewrite Nat2Z.inj_mod. change (Z.of_nat 32) with 32.
  rewrite <- !Z.sub_0_l. apply Zminus_mod_idemp_r.
Qed.

Lemma padding_nil v : zlen v mod 32 = 0 -> padding v = [].
Proof.
  intros H. unfold padding. rewrite Z.mod_opp_l_z by lia. done.
Qed.

Lemma remainder_nil v : chunks_remainder v = [] <-> zlen v mod 32 = 0.
Proof.
  pose proof (remainder_length v) as H.
  assert (zlen v mod 32 = Z.of_nat (length v mod 32)) as -> by by rewrite Nat2Z.inj_mod.
  split.
  - intros E. by rewrite <- H, E.
  - intros E. apply length_zero_iff_nil. lia.
Qed.

Lemma data_slots_concat v : concat (data_slots v) = pad32 v.
Proof.
  unfold data_slots. rewrite concat_app. case_decide as H.
  - cbn. rewrite app_nil_r. unfold pad32. rewrite padding_nil by by apply remainder_nil.
    pose proof (chunks_exact_remainder v) as E. rewrite H in E. by rewrite app_nil_r in E |- *.
  - cbn [concat]. rewrite app_nil_r. unfold pad32.
    by rewrite padding_remainder, app_assoc, chunks_exact_remainder.
Qed.

Lemma pad32_slot v : 0 < zlen v <= 32 -> is_slot (pad32 v).
Proof.
  intros H. unfold is_slot. apply Nat2Z.inj. change (zlen (pad32 v) = 32).
  unfold pad32. rewrite zlen_app, zlen_padding.
  destruct (decide (zlen v = 32)) as [->|]; [done|].
  replace (- zlen v) with ((32 - zlen v) + (-1) * 32) by lia.
  rewrite Z.mod_add, Z.mod_small by lia. lia.
Qed.

Lemma remainder_lt v : zlen (chunks_remainder v) < 32.
Proof.
  unfold zlen. rewrite remainder_length.
  pose proof (Nat.mod_upper_bound (length v) 32). lia.
Qed.

Lemma remainder_pos v : chunks_remainder v <> [] -> 0 < zlen (chunks_remainder v).
Proof.
  intros H. unfold zlen. destruct (chunks_remainder v); [done|]. cbn [length]. lia.
Qed.

Lemma data_slots_slots v : Forall is_slot (data_slots v).
Proof.
  unfold data_slots. apply Forall_app. split; [apply chunks_exact_slots|].
  case_decide as H; [done|]. constructor; [|done].
  apply pad32_slot. pose proof (remainder_lt v). pose proof (remainder_pos v H). lia.
Qed.
#[export] Hint Resolve data_slots_slots chunks_exact_slots : perun.

Lemma data_slots_size v : slots_size (data_slots v) = zlen (pad32 v).
Proof. rewrite <- zlen_concat_slots by auto with perun. by rewrite data_slots_concat. Qed.

(** The size the code computes for string and bytes data. *)
Lemma pad32_size v :
  zlen (pad32 v) = zlen v - zlen v mod 32 + (if decide (zlen v mod 32 = 0) then 0 else 32).
Proof.
  unfold pad32. rewrite zlen_app, zlen_padding. case_decide as H.
  - rewrite Z.mod_opp_l_z; lia.
  - rewrite Z.mod_opp_l_nz by lia. lia.
Qed.

(* ------------------------------------------------------------------ *)
(** ** Sizes of shapes                                                   *)
(* ------------------------------------------------------------------ *)

Lemma slots_size_nonneg l : 0 <= slots_size l.
Proof. unfold slots_size. pose proof (zlen_nonneg l). lia. Qed.

Lemma len_size_nonneg len : 0 <= len_size len.
Proof. destruct len; cbn [len_size]; lia. Qed.

Lemma head_size_nonneg s : 0 <= head_size s.
Proof.
  induction s as [l|l| |len cs IH] using shape_ind'; cbn [head_size]; try done.
  - apply slots_size_nonneg.
  - pose proof (len_size_nonneg len). cut (0 <= sum_Z ((fun c => if is_dyn c then 32 else head_size c) <$> cs)); [lia|].
    apply sum_Z_nonneg, Forall_fmap. eapply Forall_impl; [|exact IH].
    intros c Hc. unfold compose; cbn beta in *. destruct (is_dyn c); lia.
Qed.

Lemma tail_size_nonneg s : 0 <= tail_size s.
Proof.
  induction s as [l|l| |len cs IH] using shape_ind'; cbn [tail_size]; try done.
  - apply slots_size_nonneg.
  - apply sum_Z_nonneg, Forall_fmap. eapply Forall_impl; [|exact IH].
    intros c Hc. unfold compose; cbn beta in *. pose proof (head_size_nonneg c). destruct (is_dyn c); lia.
Qed.

Lemma full_size_nonneg s : 0 <= full_size s.
Proof. pose proof (head_size_nonneg s). pose proof (tail_size_nonneg s). unfold full_size. lia. Qed.
#[export] Hint Resolve slots_size_nonneg len_size_nonneg head_size_nonneg tail_size_nonneg
  full_size_nonneg : perun.

(** A static node has only static children. *)
Lemma static_children len cs :
  is_dyn (SNode len cs) = false ->
  len = None /\ Forall (fun c => is_dyn c = false /\ is_fake c = false) cs.
Proof.
  destruct len; [done|]. cbn [is_dyn]. intros H. split; [done|].
  induction cs as [|c cs IH]; constructor; cbn [existsb] in H;
    apply orb_false_iff in H as [H1 H2]; [by apply orb_false_iff in H1|auto].
Qed.

Lemma static_tail_size s : is_dyn s = false -> tail_size s = 0.
Proof.
  induction s as [l|l| |len cs IH] using shape_ind'; try done.
  intros [-> Hcs]%static_children. cbn [tail_size].
  induction Hcs as [|c cs [Hd Hf] Hcs IHcs]; [done|].
  apply Forall_cons_iff in IH as [Hc IH]. cbn [fmap list_fmap].
  rewrite sum_Z_cons, IHcs, Hd, Hc by done. done.
Qed.

Lemma fake_not_dyn s : is_fake s = true -> is_dyn s = false.
Proof. by destruct s. Qed.

Lemma dyn_and_not_fake s : is_dyn s && negb (is_fake s) = is_dyn s.
Proof. by destruct s as [| | |[] ]; cbn; rewrite ?andb_true_r. Qed.

Section StaticSlots.
Context `{P : Platform}.

Lemma heads_static_off so red off off' cs :
  Forall (fun c => is_dyn c = false /\ is_fake c = false) cs ->
  heads head_slots so red off cs = heads head_slots so red off' cs.
Proof. induction 1 as [|c cs [Hd _] _ IH]; [done|]. cbn. by rewrite Hd, IH. Qed.

(** The head of a static value does not depend on the offset: this is why the
    code may pass [usize::MAX]. *)
Lemma static_head_slots s off off' :
  is_dyn s = false -> head_slots off s = head_slots off' s.
Proof.
  destruct s as [l|l| |len cs]; try done. intros [-> Hcs]%static_children.
  cbn [head_slots]. f_equal. by apply heads_static_off.
Qed.

Lemma static_tail_slots s : is_dyn s = false -> tail_slots s = [].
Proof.
  destruct s as [l|l| |len cs]; try done. intros [-> Hcs]%static_children.
  cbn [tail_slots]. induction Hcs as [|c cs [Hd _] _ IH]; [done|].
  cbn [fmap list_fmap concat]. by rewrite Hd, IH.
Qed.

Lemma static_head_next s off : is_dyn s = false -> head_next off s = off.
Proof.
  destruct s as [l|l| |len cs]; try done. intros [-> Hcs]%static_children.
  cbn [head_next]. enough (sum_Z ((fun c => if is_dyn c then full_size c else 0) <$> cs) = 0) by lia.
  induction Hcs as [|c cs [Hd _] _ IH]; [done|].
  cbn [fmap list_fmap]. by rewrite sum_Z_cons, Hd, IH.
Qed.

End StaticSlots.

(** What a list of children adds to the head and the tail of their parent. *)
Definition child_head (c : shape) : Z := if is_dyn c then 32 else head_size c.
Definition child_tail (c : shape) : Z := if is_dyn c then full_size c else 0.

Lemma dyn_child_tail c : is_dyn c = true -> child_tail c = full_size c.
Proof. unfold child_tail. by intros ->. Qed.
Lemma static_child_tail c : is_dyn c = false -> child_tail c = 0.
Proof. unfold child_tail. by intros ->. Qed.

Lemma child_head_nonneg c : 0 <= child_head c.
Proof. unfold child_head. pose proof (head_size_nonneg c). destruct (is_dyn c); lia. Qed.
Lemma child_tail_nonneg c : 0 <= child_tail c.
Proof. unfold child_tail. pose proof (full_size_nonneg c). destruct (is_dyn c); lia. Qed.
#[export] Hint Resolve child_head_nonneg child_tail_nonneg : perun.

Lemma sum_child_nonneg f (cs : list shape) : (forall c, 0 <= f c) -> 0 <= sum_Z (f <$> cs).
Proof. intros H. apply sum_Z_nonneg, Forall_fmap, Forall_true. intros c. apply H. Qed.

Lemma tail_size_node len cs : tail_size (SNode len cs) = sum_Z (child_tail <$> cs).
Proof.
  cbn [tail_size]. f_equal. apply list_fmap_ext. intros i c _. unfold child_tail, full_size.
  destruct (is_dyn c) eqn:E; [done|]. by rewrite static_tail_size.
Qed.

Lemma head_size_node len cs :
  head_size (SNode len cs) = len_size len + sum_Z (child_head <$> cs).
Proof. done. Qed.

Lemma head_next_node `{P : Platform} off len cs :
  head_next off (SNode len cs) = off + sum_Z (child_tail <$> cs).
Proof. done. Qed.

(** A child takes no more space than its parent. *)
Lemma child_full_size c :
  full_size c <= child_head c + child_tail c.
Proof.
  unfold child_head, child_tail. destruct (is_dyn c) eqn:E; [lia|].
  unfold full_size. rewrite (static_tail_size c) by done. lia.
Qed.

Lemma children_full_size len cs :
  Forall (fun c => full_size c <= full_size (SNode len cs)) cs.
Proof.
  unfold full_size at 2. rewrite tail_size_node, head_size_node.
  pose proof (len_size_nonneg len) as Hl.
  enough (Forall (fun c => full_size c <= sum_Z (child_head <$> cs) + sum_Z (child_tail <$> cs)) cs) as H
    by (eapply Forall_impl; [|exact H]; cbn beta; lia).
  clear len Hl. induction cs as [|c cs IH]; constructor; cbn [fmap list_fmap]; rewrite !sum_Z_cons.
  - pose proof (child_full_size c).
    pose proof (sum_child_nonneg child_head cs child_head_nonneg).
    pose proof (sum_child_nonneg child_tail cs child_tail_nonneg). lia.
  - eapply Forall_impl; [|exact IH]. cbn beta. intros x Hx.
    pose proof (child_head_nonneg c). pose proof (child_tail_nonneg c). lia.
Qed.

(* ------------------------------------------------------------------ *)
(** ** Every pass in closed form                                         *)
(* ------------------------------------------------------------------ *)

Section Passes.
Context `{P : Platform}.

(** All the slots of [l] written in order. *)
Definition writes {W} `{PureWriter W} (w : W) (l : list bytes) : W := foldl wstep w l.

Lemma writes_app {W} `{PureWriter W} (w : W) l k : writes w (l ++ k) = writes (writes w l) k.
Proof. apply foldl_app. Qed.

(** What the head pass needs of its offset: room for every tail. *)
Definition head_pre (off : Z) (s : shape) : Prop :=
  match s with
  | SNode len cs =>
      existsb is_dyn cs = true -> len_size len <= off /\ off + tail_size s < 2 ^ usize_bits
  | _ => True
  end.

(** The method [f] drives a serializer like a value of shape [s], in each of
    the four passes. *)
Record ser_ok (f : Serialize) (s : shape) : Prop := {
  ok_head_size W (HW : Writer W) w size d fk :
    0 <= size -> size + head_size s < 2 ^ usize_bits ->
    f W HW (mkSerializer w (HeadSize size d fk)) =
      (mkSerializer w (HeadSize (size + head_size s) (d || is_dyn s) (fk || is_fake s)), Ok tt);
  ok_tail_size W (HW : Writer W) w size :
    0 <= size -> size + tail_size s < 2 ^ usize_bits ->
    f W HW (mkSerializer w (TailSize size)) =
      (mkSerializer w (TailSize (size + tail_size s)), Ok tt);
  ok_head W (HW : Writer W) (PW : PureWriter W) w off :
    head_pre off s ->
    f W HW (mkSerializer w (Head off)) =
      (mkSerializer (writes w (head_slots off s)) (Head (head_next off s)), Ok tt);
  ok_tail W (HW : Writer W) (PW : PureWriter W) w :
    f W HW (mkSerializer w Tail) = (mkSerializer (writes w (tail_slots s)) Tail, Ok tt);
}.

Lemma compute_size_ok f s :
  ser_ok f s -> full_size s < 2 ^ usize_bits ->
  compute_size f = Ok (head_size s, is_dyn s, is_fake s).
Proof.
  intros Hf Hs. pose proof (tail_size_nonneg s). unfold full_size in Hs.
  unfold compute_size. by rewrite (ok_head_size _ _ Hf) by lia.
Qed.

Lemma get_tail_size_ok f s :
  ser_ok f s -> full_size s < 2 ^ usize_bits -> get_tail_size f = Ok (tail_size s).
Proof.
  intros Hf Hs. pose proof (head_size_nonneg s). unfold full_size in Hs.
  unfold get_tail_size. by rewrite (ok_tail_size _ _ Hf) by lia.
Qed.

Section Writing.
Context {W : Type} `{HW : !Writer W} `{PW : !PureWriter W}.

Lemma self_write_ok (w : W) p b :
  self_write b (mkSerializer w p) = (mkSerializer (wstep w b) p, Ok tt).
Proof. unfold self_write. cbn. by rewrite wstep_ok. Qed.

Lemma word_of_be_bytes n z :
  (n <= 32)%nat -> 0 <= z < 256 ^ Z.of_nat n ->
  replicate (Z.to_nat (SLOT_SIZE - zlen (be_bytes n z))) x00 ++ be_bytes n z = word z.
Proof.
  intros Hn Hz. unfold zlen, word, SLOT_SIZE. rewrite be_bytes_length.
  replace (Z.to_nat (32 - Z.of_nat n)) with (32 - n)%nat by lia.
  rewrite <- be_bytes_pad_zero by done. f_equal. lia.
Qed.

Lemma write_right_aligned_ok (w : W) p n z :
  (n <= 32)%nat -> 0 <= z < 256 ^ Z.of_nat n ->
  write_right_aligned (be_bytes n z) (mkSerializer w p) =
    (mkSerializer (wstep w (word z)) p, Ok tt).
Proof.
  intros Hn Hz. unfold write_right_aligned. rewrite word_of_be_bytes by done.
  rewrite decide_True by (unfold zlen, SLOT_SIZE; rewrite be_bytes_length; lia).
  apply self_write_ok.
Qed.

Lemma write_usize_ok (w : W) p z :
  0 <= z < 2 ^ usize_bits ->
  write_right_aligned (usize_to_be_bytes z) (mkSerializer w p) =
    (mkSerializer (wstep w (word z)) p, Ok tt).
Proof.
  intros Hz. pose proof usize_bytes_le.
  apply write_right_aligned_ok; [lia|]. by rewrite usize_bytes_pow.
Qed.

Lemma write_signed_ok (w : W) p n z :
  (n <= 32)%nat -> - 256 ^ Z.of_nat n <= z < 256 ^ Z.of_nat n ->
  write_signed (bool_decide (z < 0)) (be_bytes n z) (mkSerializer w p) =
    (mkSerializer (wstep w (word z)) p, Ok tt).
Proof.
  intros Hn Hz. unfold write_signed.
  rewrite decide_True by (unfold zlen, SLOT_SIZE; rewrite be_bytes_length; lia).
  case_bool_decide.
  - unfold zlen, word, SLOT_SIZE. rewrite be_bytes_length.
    replace (Z.to_nat (32 - Z.of_nat n)) with (32 - n)%nat by lia.
    rewrite <- be_bytes_pad_ones, self_write_ok by lia. do 4 f_equal. lia.
  - rewrite word_of_be_bytes by lia. apply self_write_ok.
Qed.

Lemma for_each_write_ok (w : W) p l :
  for_each self_write l (mkSerializer w p) = (mkSerializer (writes w l) p, Ok tt).
Proof.
  revert w. induction l as [|b l IH]; intros w; [done|].
  cbn [for_each]. rewrite (M_bind_ok _ _ _ _ _ (self_write_ok w p b)). apply IH.
Qed.

Lemma write_chunks_ok (w : W) p v :
  write_chunks v (mkSerializer w p) = (mkSerializer (writes w (data_slots v)) p, Ok tt).
Proof.
  unfold write_chunks, data_slots. rewrite writes_app.
  rewrite (M_bind_ok _ _ _ _ _ (for_each_write_ok w p _)).
  case_decide as Hr; [done|]. unfold write_left_aligned_slice.
  pose proof (remainder_lt v) as Hlt. pose proof (remainder_pos v Hr) as Hpos.
  rewrite decide_True by (unfold SLOT_SIZE; lia). rewrite self_write_ok. cbn [writes foldl].
  do 3 f_equal. unfold pad32, padding. do 2 f_equal. unfold SLOT_SIZE.
  rewrite Z.mod_opp_l_nz by (rewrite ?Z.mod_small by lia; lia). by rewrite Z.mod_small by lia.
Qed.

End Writing.
End Passes.

(** ** Elements *)

Section Elements.
Context `{P : Platform}.

Lemma static_no_dyn_children len cs :
  is_dyn (SNode len cs) = false -> existsb is_dyn cs = false.
Proof.
  intros [_ Hcs]%static_children. induction Hcs as [|x cs [Hd _] _ IH]; [done|].
  cbn. by rewrite Hd, IH.
Qed.

Lemma static_head_pre c off : is_dyn c = false -> head_pre off c.
Proof.
  destruct c as [| | |len cs]; try done. intros H%static_no_dyn_children.
  cbn [head_pre]. by rewrite H.
Qed.

Lemma full_head_pre c : full_size c < 2 ^ usize_bits -> head_pre (head_size c) c.
Proof.
  destruct c as [| | |len cs]; try done. intros Hc _. split; [|done].
  rewrite head_size_node. pose proof (sum_child_nonneg child_head cs child_head_nonneg). lia.
Qed.

Lemma serialize_in_ok {W} `{HW : !Writer W} (f : Serialize) (w w' : W) p p' q :
  f W HW (mkSerializer w p) = (mkSerializer w' p', Ok tt) ->
  serialize_in f p (mkSerializer w q) = (mkSerializer w' q, Ok tt).
Proof. intros H. unfold serialize_in. cbn [writer]. by rewrite H. Qed.

(** [serialize_tuple_element] on a child of shape [c], pass by pass. *)
Section OneElement.
Context (f : Serialize) (c : shape) (name : option string) (red : Z).
Hypothesis (Hf : ser_ok f c) (Hc : full_size c < 2 ^ usize_bits).

Lemma element_head_size {W} `{HW : !Writer W} (w : W) size d fk :
  0 <= size -> size + child_head c < 2 ^ usize_bits ->
  serialize_tuple_element name f red (mkSerializer w (HeadSize size d fk)) =
    (mkSerializer w (HeadSize (size + child_head c) (d || (is_dyn c || is_fake c)) fk), Ok tt).
Proof.
  intros Hs Hb. unfold serialize_tuple_element.
  erewrite M_bind_ok by reflexivity. cbn [pass].
  erewrite M_bind_lift_ok by by apply compute_size_ok. cbn beta iota.
  rewrite dyn_and_not_fake.
  fold (child_head c). pose proof (child_head_nonneg c).
  erewrite M_bind_lift_ok by (apply usize_add_ok; unfold child_head, SLOT_SIZE in *; lia).
  done.
Qed.

Lemma element_tail_size {W} `{HW : !Writer W} (w : W) size :
  0 <= size -> size + child_tail c < 2 ^ usize_bits ->
  serialize_tuple_element name f red (mkSerializer w (TailSize size)) =
    (mkSerializer w (TailSize (size + child_tail c)), Ok tt).
Proof.
  intros Hs Hb. unfold serialize_tuple_element.
  erewrite M_bind_ok by reflexivity. cbn [pass].
  erewrite M_bind_lift_ok by by apply compute_size_ok. cbn beta iota.
  erewrite M_bind_lift_ok by by apply get_tail_size_ok.
  rewrite dyn_and_not_fake. unfold child_tail, full_size in *.
  pose proof (head_size_nonneg c). pose proof (tail_size_nonneg c).
  destruct (is_dyn c) eqn:E.
  - erewrite M_bind_lift_ok by (apply usize_add_ok; lia).
    erewrite M_bind_lift_ok by (apply usize_add_ok; lia).
    cbv beta. unfold set_pass; cbn. do 3 f_equal; lia.
  - rewrite (static_tail_size c) in * by done.
    erewrite M_bind_lift_ok by (apply usize_add_ok; lia).
    erewrite M_bind_lift_ok by (apply usize_add_ok; lia).
    cbv beta. unfold set_pass; cbn. do 3 f_equal; lia.
Qed.

Context {W : Type} `{HW : !Writer W} `{PW : !PureWriter W}.

Lemma element_head_dyn (w : W) off :
  is_dyn c = true -> 0 <= red <= off -> off + full_size c < 2 ^ usize_bits ->
  serialize_tuple_element name f red (mkSerializer w (Head off)) =
    (mkSerializer (wstep w (word (off - red))) (Head (off + full_size c)), Ok tt).
Proof.
  intros Hd Hr Hb. unfold serialize_tuple_element.
  erewrite M_bind_ok by reflexivity. cbn [pass].
  erewrite M_bind_lift_ok by by apply compute_size_ok. cbn beta iota.
  rewrite dyn_and_not_fake, Hd.
  pose proof (head_size_nonneg c). pose proof (tail_size_nonneg c). unfold full_size in *.
  erewrite M_bind_lift_ok by (apply usize_sub_ok; lia).
  erewrite M_bind_ok by (apply write_usize_ok; lia).
  erewrite M_bind_lift_ok by (apply usize_add_ok; lia).
  erewrite M_bind_lift_ok by by apply get_tail_size_ok.
  erewrite M_bind_lift_ok by (apply usize_add_ok; lia).
  unfold set_pass; cbn. do 3 f_equal. lia.
Qed.

Lemma element_head_static (w : W) off :
  is_dyn c = false ->
  serialize_tuple_element name f red (mkSerializer w (Head off)) =
    (mkSerializer (writes w (head_slots usize_max c)) (Head off), Ok tt).
Proof.
  intros Hd. unfold serialize_tuple_element.
  erewrite M_bind_ok by reflexivity. cbn [pass].
  erewrite M_bind_lift_ok by by apply compute_size_ok. cbn beta iota.
  rewrite dyn_and_not_fake, Hd.
  eapply serialize_in_ok, (ok_head _ _ Hf W HW PW). by apply static_head_pre.
Qed.

Lemma element_tail (w : W) :
  serialize_tuple_element name f red (mkSerializer w Tail) =
    (mkSerializer (writes w (if is_dyn c then head_slots (head_size c) c ++ tail_slots c else []))
       Tail, Ok tt).
Proof.
  unfold serialize_tuple_element.
  erewrite M_bind_ok by reflexivity. cbn [pass].
  erewrite M_bind_lift_ok by by apply compute_size_ok. cbn beta iota.
  rewrite dyn_and_not_fake. destruct (is_dyn c) eqn:Hd; [|done].
  erewrite M_bind_ok by (eapply serialize_in_ok, (ok_head _ _ Hf W HW PW); by apply full_head_pre).
  rewrite writes_app. eapply serialize_in_ok, (ok_tail _ _ Hf W HW PW).
Qed.

End OneElement.

(** ** Lists of elements *)

Section ManyElements.
Context {A : Type} (g : A -> Serialize) (name : A -> option string) (red : Z).

Abbreviation element := (fun x => serialize_tuple_element (name x) (g x) red).
Abbreviation children_ok :=
  (Forall2 (fun x c => ser_ok (g x) c /\ full_size c < 2 ^ usize_bits)).

Lemma elements_head_size {W} `{HW : !Writer W} xs cs (w : W) size d fk :
  children_ok xs cs ->
  0 <= size -> size + sum_Z (child_head <$> cs) < 2 ^ usize_bits ->
  for_each element xs (mkSerializer w (HeadSize size d fk)) =
    (mkSerializer w (HeadSize (size + sum_Z (child_head <$> cs))
       (d || existsb (fun c => is_dyn c || is_fake c) cs) fk), Ok tt).
Proof.
  intros H. revert size d. induction H as [|x c xs cs [Hx Hc] H IH]; intros size d Hs Hb;
    cbn [fmap list_fmap existsb] in *.
  - cbn. by rewrite Z.add_0_r, orb_false_r.
  - rewrite sum_Z_cons in *. pose proof (child_head_nonneg c).
    pose proof (sum_child_nonneg child_head cs child_head_nonneg).
    cbn [for_each]. erewrite M_bind_ok by (apply element_head_size; [exact Hx|exact Hc|lia|lia]).
    rewrite IH by lia. by rewrite Z.add_assoc, <- !orb_assoc.
Qed.

Lemma elements_tail_size {W} `{HW : !Writer W} xs cs (w : W) size :
  children_ok xs cs ->
  0 <= size -> size + sum_Z (child_tail <$> cs) < 2 ^ usize_bits ->
  for_each element xs (mkSerializer w (TailSize size)) =
    (mkSerializer w (TailSize (size + sum_Z (child_tail <$> cs))), Ok tt).
Proof.
  intros H. revert size. induction H as [|x c xs cs [Hx Hc] H IH]; intros size Hs Hb;
    cbn [fmap list_fmap] in *.
  - cbn. by rewrite Z.add_0_r.
  - rewrite sum_Z_cons in *. pose proof (child_tail_nonneg c).
    pose proof (sum_child_nonneg child_tail cs child_tail_nonneg).
    cbn [for_each]. erewrite M_bind_ok by (apply element_tail_size; [exact Hx|exact Hc|lia|lia]).
    rewrite IH by lia. by rewrite Z.add_assoc.
Qed.

Lemma elements_head {W} `{HW : !Writer W} `{PW : !PureWriter W} xs cs (w : W) off :
  children_ok xs cs ->
  0 <= red ->
  (existsb is_dyn cs = true -> red <= off /\ off + sum_Z (child_tail <$> cs) < 2 ^ usize_bits) ->
  for_each element xs (mkSerializer w (Head off)) =
    (mkSerializer (writes w (heads head_slots usize_max red off cs))
       (Head (off + sum_Z (child_tail <$> cs))), Ok tt).
Proof.
  intros H Hr. revert w off. induction H as [|x c xs cs [Hx Hc] H IH]; intros w off Hoff;
    cbn [fmap list_fmap existsb heads] in *.
  - cbn. by rewrite Z.add_0_r.
  - rewrite sum_Z_cons in *. cbn [for_each].
    pose proof (sum_child_nonneg child_tail cs child_tail_nonneg).
    destruct (is_dyn c) eqn:Hd; cbn [orb] in *.
    + rewrite (dyn_child_tail c) in * by done. destruct Hoff as [Hoff1 Hoff2]; [done|]. pose proof (full_size_nonneg c).
      erewrite M_bind_ok by (apply element_head_dyn; [exact Hx|exact Hc|done|lia|lia]).
      rewrite IH by (intros _; lia). by rewrite Z.add_assoc.
    + erewrite M_bind_ok by (apply element_head_static; [exact Hx|exact Hc|done]).
      rewrite (static_child_tail c) in * by done.
      rewrite IH by done. by rewrite writes_app, Z.add_0_l.
Qed.

Lemma elements_tail {W} `{HW : !Writer W} `{PW : !PureWriter W} xs cs (w : W) :
  children_ok xs cs ->
  for_each element xs (mkSerializer w Tail) =
    (mkSerializer (writes w (concat ((fun c =>
       if is_dyn c then head_slots (head_size c) c ++ tail_slots c else []) <$> cs))) Tail, Ok tt).
Proof.
  intros H. revert w. induction H as [|x c xs cs [Hx Hc] H IH]; intros w; [done|].
  cbn [for_each fmap list_fmap concat].
  erewrite M_bind_ok by (apply element_tail; [exact Hx|exact Hc]). by rewrite IH, writes_app.
Qed.

End ManyElements.
End Elements.

(** ** Values *)

Section Values.
Context `{P : Platform}.

Lemma slot_ok (wr : forall W, Writer W -> M (Serializer W) Error unit) slot :
  (forall W (HW : Writer W) (PW : PureWriter W) w p,
     wr W HW (mkSerializer w p) = (mkSerializer (wstep w slot) p, Ok tt)) ->
  ser_ok (fun W HW => serialize_slot (wr W HW)) (SLeaf [slot]).
Proof.
  intros Hw. split; intros; cbn [head_size tail_size head_slots tail_slots head_next is_dyn is_fake] in *.
  - unfold serialize_slot. erewrite M_bind_ok by reflexivity. cbn [pass].
    change (slots_size [slot]) with SLOT_SIZE in *. unfold SLOT_SIZE in *.
    erewrite M_bind_lift_ok by (apply usize_add_ok; lia).
    by rewrite !orb_false_r.
  - by rewrite Z.add_0_r.
  - unfold serialize_slot. erewrite M_bind_ok by reflexivity. cbn [pass]. apply Hw.
  - done.
Qed.

Lemma marker_ok : ser_ok (fun W HW => serialize_unit_struct MARK_DYNAMIC_NAME) SMarker.
Proof.
  split; intros; unfold serialize_unit_struct; rewrite decide_True by done;
    unfold mbind, M_bind, get_pass, set_pass; cbn;
    rewrite ?Z.add_0_r, ?orb_false_r, ?orb_true_r; done.
Qed.

Lemma str_ok s :
  zlen s < 2 ^ usize_bits ->
  ser_ok (fun W HW => serialize_str s) (SText (word (zlen s) :: data_slots s)).
Proof.
  intros Hs. pose proof (zlen_nonneg s) as Hs0.
  split; intros; unfold serialize_str; erewrite M_bind_ok by reflexivity; cbn [pass];
    cbn [head_size tail_size head_slots tail_slots head_next is_dyn is_fake] in *.
  - by rewrite Z.add_0_r, orb_false_r, orb_true_r.
  - assert (Hsz : slots_size (word (zlen s) :: data_slots s) = 32 + zlen (pad32 s)).
    { rewrite <- data_slots_size. unfold slots_size. rewrite zlen_cons. lia. }
    rewrite Hsz, pad32_size in *. unfold SLOT_SIZE in *.
    pose proof (Z.mod_pos_bound (zlen s) 32 ltac:(lia)).
    pose proof (Z.mod_le (zlen s) 32 Hs0 ltac:(lia)).
    case_decide;
      repeat (erewrite M_bind_lift_ok by (apply usize_add_ok; lia));
      unfold set_pass; cbn [writer]; do 3 f_equal; lia.
  - done.
  - erewrite M_bind_ok by (apply write_usize_ok; lia). by rewrite write_chunks_ok.
Qed.

Lemma bytes_ok b : ser_ok (fun W HW => serialize_bytes b) (SLeaf (data_slots b)).
Proof.
  split; intros; unfold serialize_bytes; erewrite M_bind_ok by reflexivity; cbn [pass];
    cbn [head_size tail_size head_slots tail_slots head_next is_dyn is_fake] in *.
  - rewrite data_slots_size, pad32_size, !orb_false_r in *. unfold SLOT_SIZE in *.
    pose proof (zlen_nonneg b) as Hb0.
    pose proof (Z.mod_pos_bound (zlen b) 32 ltac:(lia)).
    pose proof (Z.mod_le (zlen b) 32 Hb0 ltac:(lia)).
    case_decide;
      repeat (erewrite M_bind_lift_ok by (apply usize_add_ok; lia));
      unfold set_pass; cbn [writer]; do 3 f_equal; lia.
  - by rewrite Z.add_0_r.
  - by rewrite write_chunks_ok.
  - done.
Qed.

(** A compound value: an optional length, then its elements. *)
Lemma node_ok {A} (start : forall W, Writer W -> M (Serializer W) Error unit) len
    (g : A -> Serialize) (name : A -> option string) (fin : forall W, M (Serializer W) Error unit) xs cs :
  (forall W (HW : Writer W) s, fin W s = (s, Ok tt)) ->
  (forall W (HW : Writer W) w size d fk,
     0 <= size -> size + len_size len < 2 ^ usize_bits ->
     start W HW (mkSerializer w (HeadSize size d fk)) =
       (mkSerializer w (HeadSize (size + len_size len)
          (d || (match len with Some _ => true | None => false end)) fk), Ok tt)) ->
  (forall W (HW : Writer W) (PW : PureWriter W) w off,
     start W HW (mkSerializer w (Head off)) = (mkSerializer (writes w (len_slots len)) (Head off), Ok tt)) ->
  (forall W (HW : Writer W) w size, start W HW (mkSerializer w (TailSize size)) = (mkSerializer w (TailSize
    size), Ok tt)) ->
  (forall W (HW : Writer W) w, start W HW (mkSerializer w Tail) = (mkSerializer w Tail, Ok tt)) ->
  Forall2 (fun x c => ser_ok (g x) c /\ full_size c < 2 ^ usize_bits) xs cs ->
  ser_ok (fun W HW =>
      start W HW;;
      for_each (fun x => serialize_tuple_element (name x) (g x) (len_size len)) xs;;
      fin W)
    (SNode len cs).
Proof.
  intros Hfin Hsize Hhead Htsize Htail Hcs. pose proof (len_size_nonneg len).
  pose proof (sum_child_nonneg child_head cs child_head_nonneg).
  split.
  - intros W HW w size d fk Hs Hb. rewrite head_size_node in *.
    erewrite M_bind_ok by (apply Hsize; lia).
    erewrite M_bind_ok by (eapply elements_head_size; [exact Hcs|lia|lia]).
    rewrite Hfin, orb_false_r, Z.add_assoc by done. do 3 f_equal.
    destruct len; cbn [is_dyn]; by rewrite ?orb_true_r, ?orb_false_r.
  - intros W HW w size Hs Hb. rewrite tail_size_node in *.
    erewrite M_bind_ok by apply Htsize.
    erewrite M_bind_ok by (eapply elements_tail_size; [exact Hcs|lia|lia]). by rewrite Hfin.
  - intros W HW PW w off Hoff. cbn [head_pre] in Hoff. rewrite tail_size_node in Hoff.
    erewrite M_bind_ok by (apply Hhead; exact PW).
    erewrite M_bind_ok by (eapply elements_head; [exact Hcs|lia|exact Hoff]).
    rewrite Hfin by done. cbn [head_slots]. by rewrite writes_app, head_next_node.
  - intros W HW PW w. erewrite M_bind_ok by apply Htail.
    erewrite M_bind_ok by (eapply elements_tail; exact Hcs). by rewrite Hfin.
Qed.
End Values.

Section SerializeOk.
Context `{P : Platform}.

Definition value_ok (v : value) : Prop :=
  forall s, shape_of v = Some s -> full_size s < 2 ^ usize_bits -> ser_ok (serialize v) s.

Lemma guard_shape_Some (Q : Prop) `{Decision Q} s s' :
  guard_shape Q s = Some s' -> Q /\ s' = s.
Proof. unfold guard_shape. case_decide; intros; by simplify_eq. Qed.

Lemma children_values_ok {A} (g : A -> value) len xs cs :
  Forall (fun x => value_ok (g x)) xs ->
  mapM (fun x => shape_of (g x)) xs = Some cs ->
  full_size (SNode len cs) < 2 ^ usize_bits ->
  Forall2 (fun x c => ser_ok (serialize (g x)) c /\ full_size c < 2 ^ usize_bits) xs cs.
Proof.
  intros HQ Hm Hfull. apply mapM_Some in Hm.
  pose proof (children_full_size len cs) as Hc.
  assert (Forall (fun c => full_size c < 2 ^ usize_bits) cs) as Hlt
    by (eapply Forall_impl; [|exact Hc]; cbn beta; lia).
  clear Hfull Hc. revert HQ Hlt. induction Hm as [|x c xs cs Hx Hm IH]; intros HQ Hlt; [constructor|].
  apply Forall_cons_iff in HQ as [HQx HQ]. apply Forall_cons_iff in Hlt as [Hlx Hlt].
  constructor; [|by apply IH]. split; [|done]. by apply HQx.
Qed.

Lemma tuple_node_ok {A} (g : A -> Serialize) (name : A -> option string) xs cs :
  Forall2 (fun x c => ser_ok (g x) c /\ full_size c < 2 ^ usize_bits) xs cs ->
  ser_ok (fun W HW =>
      mret tt;; for_each (fun x => serialize_tuple_element (name x) (g x) 0) xs;; mret tt)
    (SNode None cs).
Proof.
  intros H. apply (node_ok (fun _ _ => mret tt) None g name (fun _ => mret tt)); try done.
  intros W HW w size d fk Hs Hb. cbn [len_size] in *. by rewrite Z.add_0_r, orb_false_r.
Qed.

Lemma seq_node_ok {A} (g : A -> Serialize) n xs cs :
  0 <= n < 2 ^ usize_bits ->
  Forall2 (fun x c => ser_ok (g x) c /\ full_size c < 2 ^ usize_bits) xs cs ->
  ser_ok (fun W HW =>
      serialize_seq (Some n);;
      for_each (fun x => serialize_tuple_element None (g x) SLOT_SIZE) xs;; mret tt)
    (SNode (Some n) cs).
Proof.
  intros Hn H.
  apply (node_ok (fun _ _ => serialize_seq (Some n)) (Some n) g (fun _ => None) (fun _ => mret tt));
    try done; intros; unfold serialize_seq; erewrite M_bind_ok by reflexivity; cbn [pass len_size] in *.
  - erewrite M_bind_lift_ok by (apply usize_add_ok; unfold SLOT_SIZE; lia).
    by rewrite orb_true_r.
  - erewrite M_bind_lift_ok by reflexivity. apply write_usize_ok. lia.
Qed.

(** Methods that agree on every serializer have the same shapes. *)
Lemma ser_ok_ext (f g : Serialize) s :
  (forall W HW self, f W HW self = g W HW self) -> ser_ok g s -> ser_ok f s.
Proof. intros E [H1 H2 H3 H4]. split; intros; rewrite E; auto. Qed.

Lemma leaf_ok v :
  match v with
  | VNewtypeStruct _ _ | VSeq _ _ | VTuple _ | VTupleStruct _ _ | VStruct _ _ => True
  | _ => value_ok v
  end.
Proof.
  destruct v; try done; intros sh Hs Hfull; cbn [shape_of] in Hs;
    try (apply guard_shape_Some in Hs as [Hs ->]); unfold sfits, fits in *.
  - injection Hs as <-. apply (slot_ok (fun _ _ => write_right_aligned (be_bytes 1 (if b then 1 else 0)))).
    intros. apply write_right_aligned_ok; [lia|]. destruct b; cbn; lia.
  - apply (slot_ok (fun _ _ => write_signed (bool_decide (z < 0)) (be_bytes 1 z))).
    intros. apply write_signed_ok; cbn in *; lia.
  - apply (slot_ok (fun _ _ => write_signed (bool_decide (z < 0)) (be_bytes 2 z))).
    intros. apply write_signed_ok; cbn in *; lia.
  - apply (slot_ok (fun _ _ => write_signed (bool_decide (z < 0)) (be_bytes 4 z))).
    intros. apply write_signed_ok; cbn in *; lia.
  - apply (slot_ok (fun _ _ => write_signed (bool_decide (z < 0)) (be_bytes 8 z))).
    intros. apply write_signed_ok; cbn in *; lia.
  - apply (slot_ok (fun _ _ => write_right_aligned (be_bytes 16 z))).
    intros. rewrite <- be_bytes_mod. apply write_right_aligned_ok; [lia|].
    by apply Z.mod_pos_bound.
  - apply (slot_ok (fun _ _ => write_right_aligned (be_bytes 1 z))).
    intros. apply write_right_aligned_ok; cbn in *; lia.
  - apply (slot_ok (fun _ _ => write_right_aligned (be_bytes 2 z))).
    intros. apply write_right_aligned_ok; cbn in *; lia.
  - apply (slot_ok (fun _ _ => write_right_aligned (be_bytes 4 z))).
    intros. apply write_right_aligned_ok; cbn in *; lia.
  - apply (slot_ok (fun _ _ => write_right_aligned (be_bytes 8 z))).
    intros. apply write_right_aligned_ok; cbn in *; lia.
  - apply (slot_ok (fun _ _ => write_right_aligned (be_bytes 16 z))).
    intros. apply write_right_aligned_ok; cbn in *; lia.
  - by apply str_ok.
  - injection Hs as <-. apply bytes_ok.
  - rewrite Hs. apply marker_ok.
Qed.

(** Serializing a value behaves, in every pass, like its shape. *)
Lemma serialize_ok v : value_ok v.
Proof.
  revert v. apply value_ind'; [exact leaf_ok|intros n v IH|intros n vs IH|intros vs IH|
    intros n vs IH|intros n fs IH]; intros s Hs Hfull; cbn [shape_of] in Hs;
    apply bind_Some in Hs as (c & Hc & Hs).
  - injection Hs as <-.
    pose proof (children_full_size None [c]) as [Hle _]%Forall_cons_iff.
    specialize (IH c Hc ltac:(lia)).
    eapply ser_ok_ext; [|apply (tuple_node_ok (fun _ => serialize v) (fun _ => Some n) [tt] [c])].
    + intros W HW self. cbn [for_each serialize]. unfold serialize_newtype_struct.
      generalize (serialize_tuple_element (Some n) (serialize v) 0); intros m.
      unfold mbind, M_bind, mret, M_ret. by destruct (m self) as [? [[]| |]].
    + constructor; [|constructor]. split; [done|lia].
  - apply guard_shape_Some in Hs as [[-> Hlen] ->].
    apply seq_node_ok; [pose proof (zlen_nonneg vs); lia|]. by eapply children_values_ok.
  - injection Hs as <-. apply (tuple_node_ok _ (fun _ => None)). by eapply children_values_ok.
  - injection Hs as <-. apply (tuple_node_ok _ (fun _ => None)). by eapply children_values_ok.
  - injection Hs as <-. apply (tuple_node_ok (fun f => serialize f.2) (fun f => Some f.1)).
    by eapply (children_values_ok snd).
Qed.
End SerializeOk.

(* ------------------------------------------------------------------ *)
(** ** Refinement                                                        *)
(* ------------------------------------------------------------------ *)

Section Represents.
Context `{P : Platform}.

(** Which Solidity value a serde value stands for: the type mapping the
    library is written for. *)
Inductive represents : value -> abi -> Prop :=
  | rep_bool b : represents (VBool b) (AUint (if b then 1 else 0))
  | rep_u8 z : fits 8 z -> represents (VU8 z) (AUint z)
  | rep_u16 z : fits 16 z -> represents (VU16 z) (AUint z)
  | rep_u32 z : fits 32 z -> represents (VU32 z) (AUint z)
  | rep_u64 z : fits 64 z -> represents (VU64 z) (AUint z)
  | rep_u128 z : fits 128 z -> represents (VU128 z) (AUint z)
  | rep_i8 z : sfits 8 z -> represents (VI8 z) (AInt z)
  | rep_i16 z : sfits 16 z -> represents (VI16 z) (AInt z)
  | rep_i32 z : sfits 32 z -> represents (VI32 z) (AInt z)
  | rep_i64 z : sfits 64 z -> represents (VI64 z) (AInt z)
  | rep_i128 z : sfits 128 z -> 0 <= z -> represents (VI128 z) (AInt z)
  | rep_fixed_bytes b : 0 < zlen b <= 32 -> represents (VBytes b) (AFixedBytes b)
  | rep_word b : length b = 32%nat -> represents (VBytes b) (AUint (be_val b))
  | rep_str s : zlen s < 2 ^ usize_bits -> represents (VStr s) (ABytes s)
  | rep_bytes b : fits 64 (zlen b) -> represents (as_bytes b) (ABytes b)
  | rep_newtype n v a : represents v a -> represents (VNewtypeStruct n v) (ATuple [a])
  | rep_seq vs xs : zlen vs < 2 ^ usize_bits -> Forall2 represents vs xs -> represents (as_dyn_array vs) (AArray xs)
  | rep_tuple vs xs : Forall2 represents vs xs -> represents (VTuple vs) (ATuple xs)
  | rep_tuple_struct n vs xs : Forall2 represents vs xs -> represents (VTupleStruct n vs) (ATuple xs)
  | rep_struct n fs xs :
      Forall2 (fun f a => represents f.2 a) fs xs -> represents (VStruct n fs) (ATuple xs).

(** The shape of a value lays out exactly the encoding of the value. *)
Record lays_out (c : shape) (a : abi) : Prop := {
  lay_dyn : is_dyn c = abi_dynamic a;
  lay_fake : is_fake c = false;
  lay_size : full_size c = zlen (abi_enc a);
  lay_enc : concat (head_slots (head_size c) c ++ tail_slots c) = abi_enc a;
  lay_slots : Forall is_slot (head_slots (head_size c) c ++ tail_slots c);
}.

Lemma leaf_lays_out slots a :
  Forall is_slot slots -> abi_dynamic a = false -> concat slots = abi_enc a -> lays_out (SLeaf slots) a.
Proof.
  intros Hs Hd He. split; cbn; try done.
  - unfold full_size. cbn. rewrite <- zlen_concat_slots, He by done. lia.
  - by rewrite app_nil_r.
  - by rewrite app_nil_r.
Qed.

Lemma word_lays_out z a :
  abi_dynamic a = false -> abi_enc a = word z -> lays_out (SLeaf [word z]) a.
Proof. intros Hd He. apply leaf_lays_out; [auto with perun|done|]. rewrite He. cbn [concat]. by rewrite app_nil_r. Qed.

Abbreviation parts_of := (fmap (fun v => (abi_dynamic v, abi_enc v))).

Lemma child_head_part c a :
  lays_out c a -> part_head_len (abi_dynamic a, abi_enc a) = child_head c.
Proof.
  intros [Hd _ Hs _ _]. unfold part_head_len, child_head. cbn. rewrite <- Hd.
  destruct (is_dyn c) eqn:E; [done|]. rewrite <- Hs. unfold full_size.
  rewrite static_tail_size by done. lia.
Qed.

Lemma child_tail_part c a :
  lays_out c a -> zlen (part_tail (abi_dynamic a, abi_enc a)) = child_tail c.
Proof.
  intros [Hd _ Hs _ _]. unfold part_tail, child_tail. cbn. rewrite <- Hd.
  by destruct (is_dyn c).
Qed.

Lemma children_heads cs xs :
  Forall2 lays_out cs xs ->
  sum_Z (part_head_len <$> parts_of xs) = sum_Z (child_head <$> cs).
Proof.
  induction 1 as [|c a cs xs Hc H IH]; [done|]. cbn [fmap list_fmap].
  by rewrite !sum_Z_cons, IH, (child_head_part c a).
Qed.

Lemma children_running red pos cs xs :
  Forall2 lays_out cs xs ->
  concat (heads head_slots usize_max red (pos + red) cs) = running_heads pos (parts_of xs).
Proof.
  intros H. revert pos. induction H as [|c a cs xs Hc H IH]; intros pos; [done|].
  cbn [fmap list_fmap heads running_heads]. rewrite (child_tail_part c a Hc).
  destruct Hc as [Hd _ _ He _]. cbn [fst snd]. rewrite <- Hd. unfold child_tail.
  destruct (is_dyn c) eqn:E; cbn [concat].
  - rewrite <- IH. repeat (lia || f_equal).
  - rewrite concat_app, Z.add_0_r, IH. f_equal. rewrite <- He.
    rewrite static_tail_slots, app_nil_r by done. f_equal. by apply static_head_slots.
Qed.

Lemma children_tails cs xs :
  Forall2 lays_out cs xs ->
  concat (concat ((fun c => if is_dyn c then head_slots (head_size c) c ++ tail_slots c else []) <$> cs)) =
  concat (part_tail <$> parts_of xs).
Proof.
  induction 1 as [|c a cs xs [Hd _ _ He _] H IH]; [done|].
  cbn [fmap list_fmap concat]. rewrite concat_app, IH. f_equal.
  unfold part_tail. cbn. rewrite <- Hd. by destruct (is_dyn c).
Qed.

Lemma children_dynamic cs xs :
  Forall2 lays_out cs xs ->
  existsb (fun c => is_dyn c || is_fake c) cs = existsb abi_dynamic xs.
Proof.
  induction 1 as [|c a cs xs [Hd Hf _ _ _] H IH]; [done|]. cbn. by rewrite Hd, Hf, IH, orb_false_r.
Qed.

Lemma children_enc_size cs xs :
  Forall2 lays_out cs xs ->
  sum_Z (child_head <$> cs) + sum_Z (child_tail <$> cs) = zlen (enc_parts (parts_of xs)).
Proof.
  intros H. rewrite enc_parts_running. generalize (sum_Z (part_head_len <$> parts_of xs)).
  induction H as [|c a cs xs Hc H IH]; intros pos; [done|].
  cbn [fmap list_fmap running_heads concat]. rewrite !sum_Z_cons, !zlen_app.
  specialize (IH (pos + zlen (part_tail (abi_dynamic a, abi_enc a)))). rewrite zlen_app in IH.
  rewrite <- (child_head_part c a), <- (child_tail_part c a) by done.
  unfold part_head_len. cbn [fst snd] in *. destruct (abi_dynamic a); rewrite ?zlen_word; lia.
Qed.

Lemma children_slots red off cs xs :
  Forall2 lays_out cs xs ->
  Forall is_slot (heads head_slots usize_max red off cs) /\
  Forall is_slot (concat ((fun c => if is_dyn c then head_slots (head_size c) c ++ tail_slots c else []) <$> cs)).
Proof.
  intros H. revert off. induction H as [|c a cs xs [_ _ _ _ Hsl] H IH]; intros off; [done|].
  cbn [fmap list_fmap heads concat]. destruct (is_dyn c) eqn:E.
  - destruct (IH (off + full_size c)) as [IH1 IH2]. split; [constructor; auto with perun|].
    by apply Forall_app.
  - destruct (IH off) as [IH1 IH2]. split; [|done].
    rewrite (static_head_slots c _ (head_size c)) by done.
    apply Forall_app in Hsl as [Hsl _]. by apply Forall_app.
Qed.

Lemma node_lays_out len cs xs a :
  Forall2 lays_out cs xs ->
  match len with
  | Some n => a = AArray xs /\ n = zlen xs
  | None => a = ATuple xs
  end ->
  lays_out (SNode len cs) a.
Proof.
  intros H Ha. pose proof (children_enc_size cs xs H) as Hsz.
  assert (abi_enc a = concat (len_slots len) ++ enc_parts (parts_of xs)) as Henc.
  { destruct len as [n|]; [destruct Ha as [-> ->]|subst a]; [|done].
    cbn [len_slots concat]. by rewrite app_nil_r. }
  split.
  - destruct len as [n|]; [by destruct Ha as [-> _]|subst a]. by apply children_dynamic.
  - done.
  - unfold full_size. rewrite head_size_node, tail_size_node, Henc, zlen_app.
    assert (zlen (concat (len_slots len)) = len_size len) as -> by (by destruct len). lia.
  - rewrite Henc, head_size_node, enc_parts_running, (children_heads cs xs) by done.
    cbn [head_slots tail_slots]. rewrite !concat_app, <- app_assoc. do 2 f_equal.
    + rewrite Z.add_comm. by apply children_running.
    + by apply children_tails.
  - cbn [head_slots tail_slots].
    destruct (children_slots (len_size len) (head_size (SNode len cs)) cs xs H) as [H1 H2].
    rewrite !Forall_app. repeat split; try done. destruct len; repeat constructor; auto with perun.
Qed.

(** The shape of [bytes]: the marker makes the tuple dynamic and adds nothing. *)
Lemma bytes_lays_out b :
  lays_out (SNode None [SMarker; SLeaf [word (zlen b)]; SLeaf (data_slots b)]) (ABytes b).
Proof.
  split; [reflexivity|reflexivity| | |].
  - unfold full_size. cbn [head_size tail_size fmap list_fmap is_dyn len_size abi_enc].
    unfold sum_Z; cbn [foldr]. rewrite data_slots_size. rewrite !zlen_app, zlen_word.
    change (slots_size [word (zlen b)]) with 32. lia.
  - cbn [head_size head_slots tail_slots heads is_dyn len_slots fmap list_fmap app concat abi_enc].
    by rewrite !app_nil_r, data_slots_concat.
  - cbn [head_size head_slots tail_slots heads is_dyn len_slots fmap list_fmap app concat].
    rewrite !app_nil_r. constructor; auto with perun.
Qed.

Definition laid_out (v : value) (a : abi) : Prop :=
  exists s, shape_of v = Some s /\ lays_out s a.

Lemma children_laid_out {A} (g : A -> value) xs zs :
  Forall (fun x => forall a, represents (g x) a -> laid_out (g x) a) xs ->
  Forall2 (fun x a => represents (g x) a) xs zs ->
  zlen xs = zlen zs /\ exists cs, mapM (fun x => shape_of (g x)) xs = Some cs /\ Forall2 lays_out cs zs.
Proof.
  intros HF. induction 1 as [|x a xs zs Hx H IH]; [split; [done|by exists []]|].
  apply Forall_cons_iff in HF as [Hf HF]. destruct (Hf a Hx) as (s & Hs & Hl).
  destruct (IH HF) as (Hlen & cs & Hcs & Hall). split; [by rewrite !zlen_cons, Hlen|].
  exists (s :: cs). split; [|by constructor]. cbn. by rewrite Hs, Hcs.
Qed.

Lemma guard_shape_true (Q : Prop) `{Decision Q} s : Q -> guard_shape Q s = Some s.
Proof. intros HQ. unfold guard_shape. by rewrite decide_True. Qed.

(** The data of a slot-sized or shorter byte string. *)
Lemma data_lays_out b a :
  abi_dynamic a = false -> abi_enc a = pad32 b -> lays_out (SLeaf (data_slots b)) a.
Proof.
  intros Hd He. apply leaf_lays_out; [auto with perun|done|]. by rewrite data_slots_concat.
Qed.

Lemma text_lays_out s : lays_out (SText (word (zlen s) :: data_slots s)) (ABytes s).
Proof.
  split; [reflexivity|reflexivity| | |].
  - unfold full_size. cbn [head_size tail_size abi_enc].
    rewrite zlen_app, zlen_word, <- data_slots_size.
    unfold slots_size. rewrite (zlen_cons (word _)). lia.
  - cbn [head_slots tail_slots app concat abi_enc]. by rewrite data_slots_concat.
  - cbn [head_slots tail_slots app]. constructor; auto with perun.
Qed.

Lemma pad32_word b : length b = 32%nat -> pad32 b = word (be_val b).
Proof.
  intros H. unfold pad32, word. rewrite (be_bytes_be_val 32) by done.
  rewrite padding_nil by (unfold zlen; by rewrite H). apply app_nil_r.
Qed.

Lemma leaf_laid_out v :
  match v with
  | VNewtypeStruct _ _ | VSeq _ _ | VTuple _ | VTupleStruct _ _ | VStruct _ _ => True
  | _ => forall a, represents v a -> laid_out v a
  end.
Proof.
  destruct v; try done; intros a H; inversion H; subst; unfold laid_out; cbn [shape_of];
    eexists; (split; [first [by apply guard_shape_true|reflexivity]|]);
    try (apply word_lays_out; reflexivity).
  - unfold sfits in *. rewrite Z.mod_small by lia. apply word_lays_out; reflexivity.
  - apply text_lays_out.
  - by apply data_lays_out.
  - apply data_lays_out; [done|]. symmetry. by apply pad32_word.
Qed.

Lemma bytes_shape b :
  fits 64 (zlen b) ->
  shape_of (as_bytes b) = Some (SNode None [SMarker; SLeaf [word (zlen b)]; SLeaf (data_slots b)]).
Proof.
  intros Hb. unfold as_bytes. cbn [shape_of mapM].
  unfold DynamicMarker. cbn [shape_of]. by rewrite !guard_shape_true.
Qed.

(** Every value with a Solidity counterpart has a shape that lays it out. *)
Lemma represents_laid_out v a : represents v a -> laid_out v a.
Proof.
  revert a. apply (value_ind' (fun v => forall a, represents v a -> laid_out v a));
    [exact leaf_laid_out|intros n w IH a H|intros n vs IH a H|intros vs IH a H|
     intros n vs IH a H|intros n fs IH a H]; inversion H; subst.
  - destruct (IH _ ltac:(eassumption)) as (s & Hs & Hl).
    exists (SNode None [s]). split; [cbn; by rewrite Hs|].
    apply (node_lays_out None [s] [a0]); [constructor; [exact Hl|constructor]|done].
  - destruct (children_laid_out id vs xs) as (Hlen & cs & Hcs & Hall); [done|done|].
    change (mapM shape_of vs = Some cs) in Hcs. exists (SNode (Some (zlen vs)) cs). split.
    + cbn. rewrite Hcs. cbn. by apply guard_shape_true.
    + by apply (node_lays_out _ cs xs).
  - eexists. split; [by apply bytes_shape|apply bytes_lays_out].
  - destruct (children_laid_out id vs xs) as (_ & cs & Hcs & Hall); [done|done|].
    change (mapM shape_of vs = Some cs) in Hcs.
    exists (SNode None cs). split; [cbn; by rewrite Hcs|by apply (node_lays_out _ cs xs)].
  - destruct (children_laid_out id vs xs) as (_ & cs & Hcs & Hall); [done|done|].
    change (mapM shape_of vs = Some cs) in Hcs.
    exists (SNode None cs). split; [cbn; by rewrite Hcs|by apply (node_lays_out _ cs xs)].
  - destruct (children_laid_out snd fs xs) as (_ & cs & Hcs & Hall); [done|done|].
    exists (SNode None cs). split; [cbn; by rewrite Hcs|by apply (node_lays_out _ cs xs)].
Qed.

(** [to_writer_internal] on a value with a shape: the optional offset, then
    the head and the tail. *)
Lemma to_writer_shape {W} `{HW : !Writer W} `{PW : !PureWriter W} v s outer (w : W) :
  shape_of v = Some s -> full_size s < 2 ^ usize_bits ->
  to_writer_internal v outer w =
    (writes w ((if is_dyn s && outer then [word 32] else []) ++
               head_slots (head_size s) s ++ tail_slots s), Ok tt).
Proof.
  intros Hs Hfull. pose proof (serialize_ok v s Hs Hfull) as Hok.
  pose proof usize_pow_ge. pose proof (full_head_pre s Hfull) as Hpre.
  unfold to_writer_internal. erewrite M_bind_lift_ok by by apply compute_size_ok. cbn beta iota.
  unfold with_serializer. destruct (is_dyn s) eqn:Hd; cbn [andb].
  - assert (forall w', serialize v W HW (mkSerializer w' (Head (head_size s))) =
      (mkSerializer (writes w' (head_slots (head_size s) s)) (Head (head_next (head_size s) s)), Ok tt)) as Hh
      by (intros w'; by apply (ok_head _ _ Hok W HW PW)).
    destruct outer.
    + erewrite M_bind_ok by (apply write_usize_ok; unfold SLOT_SIZE; lia).
      erewrite M_bind_ok by apply Hh. erewrite M_bind_ok by reflexivity. cbn [writer].
      rewrite (ok_tail _ _ Hok W HW PW). by rewrite !writes_app.
    + erewrite M_bind_ok by reflexivity. erewrite M_bind_ok by apply Hh.
      erewrite M_bind_ok by reflexivity. cbn [writer].
      rewrite (ok_tail _ _ Hok W HW PW). by rewrite !writes_app.
  - erewrite M_bind_ok by reflexivity.
    erewrite M_bind_ok by by apply (ok_head _ _ Hok W HW PW).
    rewrite static_tail_slots, app_nil_r by done. done.
Qed.

(** Refinement of the specification by [to_writer_internal]. *)
Lemma to_writer_internal_refines {W} `{HW : !Writer W} `{PW : !PureWriter W} v a outer (w : W) :
  represents v a -> zlen (abi_enc a) < 2 ^ usize_bits ->
  exists slots, Forall is_slot slots /\
    concat slots = (if abi_dynamic a && outer then word 32 else []) ++ abi_enc a /\
    to_writer_internal v outer w = (writes w slots, Ok tt).
Proof.
  intros (s & Hs & [Hd _ Hsz He Hsl])%represents_laid_out Hlen. rewrite <- Hsz in Hlen.
  eexists. split; [|split; [|by apply to_writer_shape]].
  - apply Forall_app. split; [|done]. destruct (is_dyn s && outer); repeat constructor; auto with perun.
  - rewrite concat_app, He, Hd. f_equal. by destruct (abi_dynamic a && outer).
Qed.

End Represents.
