(* ===== verification/AbiTheorems.v ===== *)
(** * Theorems on the serializer

    What a caller of src/src/abiencode may rely on: [to_writer] writes the
    Solidity encoding and nothing else, a refused type is reported before
    anything is written, the head of a static value does not depend on the
    offset it is given; and the one integer type the serializer encodes
    differently from Solidity. *)
From S2P Require Import Prelude AbiSpec AbiSer AbiRefine.

(* ------------------------------------------------------------------ *)
(** ** Refused types                                                     *)
(* ------------------------------------------------------------------ *)

(** The error of the first part of a value the serializer refuses. *)
Fixpoint first_error (v : value) : option Error :=
  let fix first vs :=
    match vs with
    | [] => None
    | v :: vs => match first_error v with Some e => Some e | None => first vs end
    end in
  match v with
  | VF32 => Some (TypeNotRepresentable "f32")
  | VF64 => Some (TypeNotRepresentable "f64")
  | VChar => Some (TypeNotYetSupported "char")
  | VNone => Some (TypeNotRepresentable "none")
  | VSome => Some (TypeNotRepresentable "some")
  | VUnit => Some (TypeNotRepresentable "unit")
  | VUnitStruct name =>
      if decide (name = MARK_DYNAMIC_NAME) then None else Some (TypeNotRepresentable "unit struct")
  | VUnitVariant => Some (TypeNotRepresentable "unit variant (enum)")
  | VNewtypeVariant => Some (TypeNotRepresentable "newtype variant (enum)")
  | VTupleVariant | VStructVariant => Some (TypeNotRepresentable "struct variant")
  | VMap => Some (TypeNotRepresentable "map")
  | VNewtypeStruct _ v => first_error v
  | VSeq _ vs | VTuple vs | VTupleStruct _ vs => first vs
  | VStruct _ fs =>
      (fix first fs :=
         match fs with
         | [] => None
         | f :: fs => match first_error f.2 with Some e => Some e | None => first fs end
         end) fs
  | _ => None
  end.

Definition first_error_list {A} (g : A -> value) : list A -> option Error :=
  fix first xs :=
    match xs with
    | [] => None
    | x :: xs => match first_error (g x) with Some e => Some e | None => first xs end
    end.

(** A computation that never returns an error. *)
Definition never_err {S E A} (m : M S E A) : Prop :=
  forall s, match (m s).2 with Err _ => False | _ => True end.

Lemma never_err_bind {S E A B} (m : M S E A) (f : A -> M S E B) :
  never_err m -> (forall a, never_err (f a)) -> never_err (m ≫= f).
Proof.
  intros Hm Hf s. specialize (Hm s). unfold mbind, M_bind.
  destruct (m s) as [s' [a|e|]]; [apply Hf|done|done].
Qed.

Lemma never_err_ret {S E A} (a : A) : never_err (mret a : M S E A).
Proof. done. Qed.

Lemma never_err_panic {S E A} : never_err (mpanic : M S E A).
Proof. done. Qed.

Lemma never_err_lift {S E A} (r : res E A) :
  match r with Err _ => False | _ => True end -> never_err (mlift r : M S E A).
Proof. by destruct r. Qed.

Lemma never_err_usize_add `{P : Platform} {S E} a b : never_err (mlift (usize_add a b) : M S E Z).
Proof. apply never_err_lift. unfold usize_add, int_add, int_result. by repeat case_match. Qed.

Lemma never_err_usize_sub `{P : Platform} {S E} a b : never_err (mlift (usize_sub a b) : M S E Z).
Proof. apply never_err_lift. unfold usize_sub, int_sub, int_result. by repeat case_match. Qed.

Create HintDb noerr.
#[export] Hint Resolve never_err_ret never_err_panic never_err_usize_add never_err_usize_sub : noerr.

(** A writer has no way to report an error. *)
Class InfallibleWriter (W : Type) {HW : Writer W} :=
  write_never_err : forall b, never_err (write b : M W Error unit).
#[export] Instance NoWriter_infallible : InfallibleWriter NoWriter.
Proof. by intros b s. Qed.
#[export] Instance list_infallible : InfallibleWriter (list bytes).
Proof. by intros b s. Qed.

Section NoError.
Context `{P : Platform} {W : Type} `{HW : !Writer W} `{IW : !InfallibleWriter W}.

Lemma never_err_get_pass : never_err (get_pass (W:=W)).
Proof. done. Qed.
Lemma never_err_set_pass p : never_err (set_pass (W:=W) p).
Proof. done. Qed.

Lemma never_err_self_write b : never_err (self_write (W:=W) b).
Proof.
  intros s. unfold self_write. pose proof (write_never_err b (writer s)) as H.
  by destruct (write b (writer s)).
Qed.
Hint Resolve never_err_get_pass never_err_set_pass never_err_self_write : noerr.

Lemma never_err_write_right b : never_err (write_right_aligned (W:=W) b).
Proof. unfold write_right_aligned. case_decide; auto with noerr. Qed.
Lemma never_err_write_left b : never_err (write_left_aligned_slice (W:=W) b).
Proof. unfold write_left_aligned_slice. case_decide; auto with noerr. Qed.
Lemma never_err_write_signed n b : never_err (write_signed (W:=W) n b).
Proof. unfold write_signed. case_decide; auto with noerr. Qed.
Hint Resolve never_err_write_right never_err_write_left never_err_write_signed : noerr.

Lemma never_err_for_each {A} (f : A -> M (Serializer W) Error unit) l :
  Forall (fun x => never_err (f x)) l -> never_err (for_each f l).
Proof. induction 1; cbn [for_each]; auto using never_err_bind with noerr. Qed.

Lemma never_err_write_chunks b : never_err (write_chunks (W:=W) b).
Proof.
  unfold write_chunks. apply never_err_bind.
  - apply never_err_for_each, Forall_true. auto with noerr.
  - intros _. case_decide; auto with noerr.
Qed.
Hint Resolve never_err_write_chunks : noerr.

Lemma never_err_slot m : never_err m -> never_err (serialize_slot (W:=W) m).
Proof.
  intros Hm. unfold serialize_slot. apply never_err_bind; [auto with noerr|].
  intros []; auto using never_err_bind with noerr.
Qed.

Lemma never_err_str s : never_err (serialize_str (W:=W) s).
Proof.
  unfold serialize_str. apply never_err_bind; [auto with noerr|].
  intros []; auto 6 using never_err_bind with noerr.
Qed.

Lemma never_err_bytes b : never_err (serialize_bytes (W:=W) b).
Proof.
  unfold serialize_bytes. apply never_err_bind; [auto with noerr|].
  intros []; auto 6 using never_err_bind with noerr.
Qed.

Lemma never_err_seq n : never_err (serialize_seq (W:=W) n).
Proof.
  unfold serialize_seq. apply never_err_bind; [auto with noerr|].
  intros []; auto 6 using never_err_bind with noerr.
  apply never_err_bind; [|auto with noerr]. apply never_err_lift. by destruct n.
Qed.

Lemma never_err_marker name :
  name = MARK_DYNAMIC_NAME -> never_err (serialize_unit_struct (W:=W) name).
Proof.
  intros ->. unfold serialize_unit_struct. rewrite decide_True by done.
  apply never_err_bind; [auto with noerr|]. intros []; auto with noerr.
Qed.

End NoError.

#[export] Hint Resolve never_err_get_pass never_err_set_pass never_err_self_write
  never_err_write_right never_err_write_left never_err_write_signed never_err_write_chunks
  never_err_slot never_err_str never_err_bytes never_err_seq never_err_marker : noerr.

Section Errors.
Context `{P : Platform}.

(** A serialize method reports the error [fe], in the first pass, and none at
    all when there is none to report. *)
Record err_ok (f : Serialize) (fe : option Error) : Prop := {
  err_size W (HW : Writer W) w size d fk :
    match f W HW (mkSerializer w (HeadSize size d fk)) with
    | (s, Ok _) => fe = None /\ exists size' d' fk', s = mkSerializer w (HeadSize size' d' fk')
    | (_, Err e) => fe = Some e
    | (_, Panic) => True
    end;
  err_none W (HW : Writer W) (IW : InfallibleWriter W) : fe = None -> never_err (f W HW);
}.

Lemma compute_size_err f fe :
  err_ok f fe ->
  match compute_size f with
  | Ok _ => fe = None
  | Err e => fe = Some e
  | Panic => True
  end.
Proof.
  intros [Hs _]. unfold compute_size. specialize (Hs _ _ mkNoWriter 0 false false).
  destruct (f _ _ _) as [s [[]|e|]]; [|done|done]. by destruct Hs as (-> & ? & ? & ? & ->).
Qed.

Lemma get_tail_size_err f :
  err_ok f None -> match get_tail_size f with Err _ => False | _ => True end.
Proof.
  intros [_ Hn]. unfold get_tail_size.
  pose proof (Hn _ _ _ eq_refl (mkSerializer mkNoWriter (TailSize 0))) as H.
  destruct (f _ _ _) as [s [[]|e|]]; cbn; try done. by destruct (pass s).
Qed.

(** A method that refuses its value at once. *)
Lemma throw_err_ok (m : forall W, Writer W -> M (Serializer W) Error unit) e :
  (forall W HW s, m W HW s = (s, Err e)) -> err_ok m (Some e).
Proof. intros H. split; [intros; by rewrite H|done]. Qed.

(** A method with no error at all that keeps the size pass. *)
Lemma total_err_ok (f : Serialize) :
  (forall W (HW : Writer W) w size d fk,
     match f W HW (mkSerializer w (HeadSize size d fk)) with
     | (s, Ok _) => exists size' d' fk', s = mkSerializer w (HeadSize size' d' fk')
     | (_, Err _) => False
     | (_, Panic) => True
     end) ->
  (forall W (HW : Writer W) (IW : InfallibleWriter W), never_err (f W HW)) ->
  err_ok f None.
Proof.
  intros Hs Hn. split; [|auto]. intros. specialize (Hs W HW w size d fk).
  by destruct (f W HW _) as [s [[]| |]].
Qed.

Ltac size_cases :=
  intros W HW w size d fk;
  unfold serialize_slot, mbind, M_bind, get_pass, set_pass, mlift, mret, M_ret; cbn [pass];
  repeat (match goal with
  | |- context [usize_add ?a ?b] => unfold usize_add, int_add, int_result
  | |- context [decide ?Q] => destruct (decide Q)
  | |- context [debug_build] => destruct debug_build
  end; cbv beta iota); cbn; eauto.

Lemma slot_err_ok (m : forall W, Writer W -> M (Serializer W) Error unit) :
  (forall W HW, InfallibleWriter W -> never_err (m W HW)) ->
  err_ok (fun W HW => serialize_slot (m W HW)) None.
Proof. intros Hm. apply total_err_ok; [size_cases|]. intros. apply never_err_slot. by apply Hm. Qed.

Lemma leaf_err_ok v :
  match v with
  | VNewtypeStruct _ _ | VSeq _ _ | VTuple _ | VTupleStruct _ _ | VStruct _ _ => True
  | _ => err_ok (serialize v) (first_error v)
  end.
Proof.
  destruct v; try done; cbn [serialize first_error]; try (by apply throw_err_ok).
  14: { case_decide as Hn.
    - apply total_err_ok; [|auto with noerr]. rewrite Hn. unfold serialize_unit_struct. size_cases.
    - apply throw_err_ok. intros. unfold serialize_unit_struct. by rewrite decide_False. }
  all: unfold serialize_bool, serialize_u8, serialize_u16, serialize_u32, serialize_u64,
    serialize_u128, serialize_i8, serialize_i16, serialize_i32, serialize_i64, serialize_i128.
  all: try (apply slot_err_ok; auto with noerr).
  - apply total_err_ok; [|auto with noerr]. unfold serialize_str. size_cases.
  - apply total_err_ok; [|auto with noerr]. unfold serialize_bytes. size_cases.
Qed.

Lemma never_err_serialize_in (f : Serialize) p :
  err_ok f None -> forall W (HW : Writer W) (IW : InfallibleWriter W),
  never_err (serialize_in (W:=W) f p).
Proof.
  intros [_ Hn] W HW IW s. unfold serialize_in.
  pose proof (Hn W HW IW eq_refl (mkSerializer (writer s) p)) as H.
  by destruct (f W HW _).
Qed.

(** One element of a compound value. *)
Lemma element_err_ok name f red fe :
  err_ok f fe -> err_ok (fun W HW => serialize_tuple_element name f red) fe.
Proof.
  intros Hf. pose proof (compute_size_err f fe Hf) as Hc. split.
  - intros W HW w size d fk. unfold serialize_tuple_element, mbind, M_bind, get_pass, mlift.
    cbn [pass]. destruct (compute_size f) as [[[? ?] ?]|e|]; [|done|done].
    destruct (usize_add _ _) as [sz|e|] eqn:E; cbn; [|exfalso|done].
    + split; [done|]. eauto.
    + revert E. unfold usize_add, int_add, int_result. by repeat case_match.
  - intros W HW IW ->. unfold serialize_tuple_element.
    apply never_err_bind; [auto with noerr|]. intros p.
    assert (never_err (mlift (compute_size f) : M (Serializer W) Error _)) as Hsz
      by (apply never_err_lift; by destruct (compute_size f)).
    assert (never_err (mlift (get_tail_size f) : M (Serializer W) Error _)) as Ht
      by (apply never_err_lift; by apply get_tail_size_err).
    pose proof (fun p => never_err_serialize_in f p Hf W HW IW) as Hin.
    destruct p; (apply never_err_bind; [done|]); intros [[? dyn] fake]; try destruct (dyn && negb fake);
      auto 10 using never_err_bind with noerr.
Qed.

Lemma elements_err_ok {A} (g : A -> value) (name : A -> option string) red xs :
  Forall (fun x => err_ok (serialize (g x)) (first_error (g x))) xs ->
  err_ok (fun W HW => for_each (fun x => serialize_tuple_element (name x) (serialize (g x)) red) xs)
    (first_error_list g xs).
Proof.
  induction 1 as [|x xs Hx H IH]; cbn [for_each first_error_list].
  - split; [intros; cbn; eauto|auto with noerr].
  - pose proof (element_err_ok (name x) _ red _ Hx) as [Hs Hn]. destruct IH as [IHs IHn]. split.
    + intros. specialize (Hs W HW w size d fk). unfold mbind at 1, M_bind at 1.
      destruct (serialize_tuple_element _ _ _ _) as [s [[]|e|]]; [|by rewrite Hs|done].
      destruct Hs as (-> & size' & d' & fk' & ->). apply IHs.
    + intros W HW IW He. destruct (first_error (g x)); [done|].
      apply never_err_bind; [by apply Hn|]. intros _. by apply IHn.
Qed.

Lemma err_ok_seq (m : forall W, Writer W -> M (Serializer W) Error unit) (f : Serialize) fe :
  err_ok m None -> err_ok f fe -> err_ok (fun W HW => m W HW;; f W HW;; mret tt) fe.
Proof.
  intros [Hms Hmn] [Hs Hn]. split.
  - intros. specialize (Hms W HW w size d fk). unfold mbind at 1, M_bind at 1.
    destruct (m W HW _) as [s [[]|e|]]; [|done|done].
    destruct Hms as (_ & size' & d' & fk' & ->). specialize (Hs W HW w size' d' fk').
    unfold mbind, M_bind. by destruct (f W HW _) as [s [[]| |]].
  - intros. apply never_err_bind; [by apply Hmn|]. intros _.
    apply never_err_bind; [by apply Hn|]. auto with noerr.
Qed.

Lemma ret_err_ok : err_ok (fun W HW => mret tt) None.
Proof. apply total_err_ok; [intros; cbn; eauto|auto with noerr]. Qed.

Lemma serialize_err_ok v : err_ok (serialize v) (first_error v).
Proof.
  apply (value_ind' (fun v => err_ok (serialize v) (first_error v)));
    [exact leaf_err_ok|intros n w IH|intros n vs IH|intros vs IH|intros n vs IH|intros n fs IH].
  - by apply element_err_ok.
  - refine (err_ok_seq (fun W HW => serialize_seq n) _ _ _ (elements_err_ok id (fun _ => None) SLOT_SIZE vs IH)).
    apply total_err_ok; [|auto with noerr]. unfold serialize_seq. size_cases.
  - exact (err_ok_seq _ _ _ ret_err_ok (elements_err_ok id (fun _ => None) 0 vs IH)).
  - exact (err_ok_seq _ _ _ ret_err_ok (elements_err_ok id (fun _ => None) 0 vs IH)).
  - exact (err_ok_seq _ _ _ ret_err_ok (elements_err_ok snd (fun f => Some f.1) 0 fs IH)).
Qed.

End Errors.

(* ------------------------------------------------------------------ *)
(** ** What the callers rely on                                          *)
(* ------------------------------------------------------------------ *)

(** C8: [to_writer] implements Solidity's [abi.encode]: for every value with a
    Solidity counterpart whose encoding is addressable, and any writer that
    always returns, it succeeds after handing the writer 32-byte slots, in
    order, whose concatenation is the encoding of the specification. *)
Theorem to_writer_refines_abi `{P : Platform} {W : Type} `{HW : !Writer W} `{PW : !PureWriter W}
    (v : value) (a : abi) (w : W) :
  represents v a -> zlen (abi_enc a) < 2 ^ usize_bits ->
  exists slots, Forall is_slot slots /\ concat slots = abi_encode a /\
    to_writer v w = (foldl wstep w slots, Ok tt).
Proof.
  intros Hr Hl. destruct (to_writer_internal_refines v a true w Hr Hl) as (slots & H1 & H2 & H3).
  exists slots. split; [done|]. split; [|done]. by rewrite H2, abi_encode_alt, andb_true_r.
Qed.

(** [to_fnargs_writer] writes the encoding of the value itself, the
    arguments of a function call, with no leading offset. *)
Theorem to_fnargs_refines_abi `{P : Platform} {W : Type} `{HW : !Writer W} `{PW : !PureWriter W}
    (v : value) (a : abi) (w : W) :
  represents v a -> zlen (abi_enc a) < 2 ^ usize_bits ->
  exists slots, Forall is_slot slots /\ concat slots = abi_enc a /\
    to_fnargs_writer v w = (foldl wstep w slots, Ok tt).
Proof.
  intros Hr Hl. destruct (to_writer_internal_refines v a false w Hr Hl) as (slots & H1 & H2 & H3).
  exists slots. split; [done|]. split; [|done]. by rewrite H2, andb_false_r.
Qed.

(** C32: a type the serializer refuses is reported before the first slot is
    written: when [to_writer] returns an error the writer is unchanged and the
    error is that of the first refused part of the value, and when it succeeds
    the value has no refused part. *)
Theorem to_writer_error_first `{P : Platform} {W : Type} `{HW : !Writer W} `{IW : !InfallibleWriter W}
    (v : value) (w : W) :
  match to_writer v w with
  | (w', Err e) => w' = w /\ first_error v = Some e
  | (_, Ok _) => first_error v = None
  | (_, Panic) => True
  end.
Proof.
  pose proof (serialize_err_ok v) as Hv. pose proof (compute_size_err _ _ Hv) as Hc.
  unfold to_writer, to_writer_internal. unfold mbind at 1, M_bind at 1. unfold mlift.
  destruct (compute_size (serialize v)) as [[[hs dyn] fk]|e|]; [|done|done].
  destruct Hv as [_ Hn]. specialize (Hn W HW IW Hc). unfold with_serializer.
  match goal with |- context [(?m) (mkSerializer w ?p)] =>
    assert (never_err m) as Hm;
      [|specialize (Hm (mkSerializer w p)); by destruct (m (mkSerializer w p)) as [s' [[]| |]]] end.
  apply never_err_bind; [destruct (dyn && true); auto with noerr|intros _].
  apply never_err_bind; [done|intros _].
  destruct dyn; [|done]. by apply never_err_bind.
Qed.

(** The head pass of a static value writes the same slots whatever the
    offset, which is why the code may pass [usize::MAX] as the offset of a
    static element. *)
Theorem static_head_offset_irrelevant `{P : Platform} {W : Type} `{HW : !Writer W} `{PW : !PureWriter W}
    (v : value) (a : abi) (w : W) (off off' : Z) :
  represents v a -> zlen (abi_enc a) < 2 ^ usize_bits -> abi_dynamic a = false ->
  exists w', serialize v W HW (mkSerializer w (Head off)) = (mkSerializer w' (Head off), Ok tt) /\
             serialize v W HW (mkSerializer w (Head off')) = (mkSerializer w' (Head off'), Ok tt).
Proof.
  intros (s & Hs & [Hd _ Hsz _ _])%represents_laid_out Hl Ha. rewrite <- Hsz in Hl.
  rewrite <- Hd in Ha. pose proof (serialize_ok v s Hs Hl) as Hok.
  exists (writes w (head_slots off s)). split.
  - rewrite (ok_head _ _ Hok W HW PW) by by apply static_head_pre.
    by rewrite static_head_next.
  - rewrite (ok_head _ _ Hok W HW PW) by by apply static_head_pre.
    rewrite static_head_next by done. by rewrite (static_head_slots s off off').
Qed.

(** C36: a negative [i128] is not encoded as Solidity does: the serializer pads
    its 16 bytes with zeros, so that the slot is the encoding of the positive
    number [z + 2^128]. *)
Theorem i128_negative_zero_extended `{P : Platform} {W : Type} `{HW : !Writer W} `{PW : !PureWriter W}
    (z : Z) (w : W) :
  - 2 ^ 127 <= z < 0 ->
  to_writer (VI128 z) w = (wstep w (word (z + 2 ^ 128)), Ok tt) /\
  word (z + 2 ^ 128) <> abi_encode (AInt z).
Proof.
  intros Hz. pose proof usize_pow_ge. split.
  - assert (z + 2 ^ 128 = z mod 2 ^ 128) as -> by (apply Z.mod_unique with (-1); lia).
    unfold to_writer. rewrite (to_writer_shape _ (SLeaf [word (z mod 2 ^ 128)])).
    + done.
    + cbn [shape_of]. rewrite guard_shape_true; [done|unfold sfits; lia].
    + change (full_size (SLeaf [word (z mod 2 ^ 128)])) with 32. lia.
  - rewrite abi_encode_alt. cbn [abi_dynamic app abi_enc].
    unfold word. intros E. rewrite <- (be_bytes_mod 32 z) in E.
    change (256 ^ Z.of_nat 32) with (2 ^ 256) in E.
    apply be_bytes_inj in E.
    + assert (z mod 2 ^ 256 = z + 2 ^ 256); [symmetry; apply Z.mod_unique with (-1); lia|lia].
    + change (256 ^ Z.of_nat 32) with (2 ^ 256). lia.
    + change (256 ^ Z.of_nat 32) with (2 ^ 256). apply Z.mod_pos_bound. lia.
Qed.

(* ------------------------------------------------------------------ *)
(** ** The theorems at concrete values                                   *)
(* ------------------------------------------------------------------ *)

(** A struct with a number, a dynamic array of numbers, [bytes] and a nested
    struct of a flag and a string: [(uint64, uint32[], bytes, (bool, string))]. *)
Definition sample : value :=
  VStruct "Sample"
    [("n", VU64 7); ("xs", as_dyn_array [VU32 1; VU32 2]); ("data", as_bytes [x01; x02; x03]);
     ("inner", VStruct "Inner" [("b", VBool true); ("s", VStr [x61; x62])])].

Definition sample_abi : abi :=
  ATuple [AUint 7; AArray [AUint 1; AUint 2]; ABytes [x01; x02; x03];
          ATuple [AUint 1; ABytes [x61; x62]]].

(** Derives [represents] for a concrete value. *)
Ltac represent :=
  repeat first
    [ eapply List.Forall2_cons; cbn [snd] | apply List.Forall2_nil
    | apply rep_struct | apply rep_tuple | apply rep_seq | apply rep_bytes | apply rep_str
    | apply (rep_bool true) | apply (rep_bool false) | apply rep_u64 | apply rep_u32 ];
  try (vm_compute; intuition congruence).

Lemma sample_represents : @represents host sample sample_abi.
Proof. unfold sample, sample_abi. represent. Qed.

(** The slots of the sample, by running the serializer. *)
Definition sample_slots : list bytes := (@to_writer host _ _ sample []).1.

Example to_writer_refines_abi_witness :
  (exists slots, Forall is_slot slots /\ concat slots = abi_encode sample_abi /\
     @to_writer host _ _ sample [] = (foldl wstep [] slots, Ok tt)) /\
  concat sample_slots = abi_encode sample_abi /\ zlen sample_slots = 14.
Proof.
  split; [|split; vm_compute; reflexivity].
  apply (to_writer_refines_abi sample sample_abi []); [exact sample_represents|].
  vm_compute. reflexivity.
Defined.

Example to_fnargs_refines_abi_witness :
  exists slots, Forall is_slot slots /\ concat slots = abi_enc sample_abi /\
    @to_fnargs_writer host _ _ sample [] = (foldl wstep [] slots, Ok tt).
Proof.
  apply (to_fnargs_refines_abi sample sample_abi []); [exact sample_represents|].
  vm_compute. reflexivity.
Defined.

Example to_writer_error_first_witness :
  match @to_writer host _ _ (VTuple [VU8 1; VStr []; VF64; VChar]) [] with
  | (w', Err e) => w' = [] /\ Some (TypeNotRepresentable "f64") = Some e
  | _ => False
  end.
Proof.
  pose proof (@to_writer_error_first host _ _ _ (VTuple [VU8 1; VStr []; VF64; VChar]) []) as H.
  vm_compute in H |- *. exact H.
Defined.

Example static_head_offset_irrelevant_witness :
  exists w', @serialize host (VTuple [VU64 1; VBool true]) _ _ (mkSerializer [] (Head 0)) =
      (mkSerializer w' (Head 0), Ok tt) /\
    @serialize host (VTuple [VU64 1; VBool true]) _ _ (mkSerializer [] (Head (@usize_max host))) =
      (mkSerializer w' (Head (@usize_max host)), Ok tt).
Proof.
  apply (static_head_offset_irrelevant (VTuple [VU64 1; VBool true]) (ATuple [AUint 1; AUint 1]));
    [|vm_compute; reflexivity|reflexivity].
  represent.
Defined.

Example i128_negative_witness :
  @to_writer host _ _ (VI128 (-1)) [] = (wstep [] (word (-1 + 2 ^ 128)), Ok tt) /\
  word (-1 + 2 ^ 128) <> abi_encode (AInt (-1)).
Proof. apply (i128_negative_zero_extended (-1) []). split; vm_compute; congruence. Defined.
