(* ===== verification/AbiDecode.v ===== *)
(** * Decoding the Solidity ABI encoding

    The types of Solidity's values and [abi.decode], written like the
    specification: a component is read at its place in the head of its tuple,
    a dynamic one at the offset found there.  What [abi_encode] writes for a
    value of a type is read back as that value, whatever bytes follow it, and
    so is what the serializer of src/src/abiencode/ser.rs writes. *)
From S2P Require Import Prelude AbiSpec AbiInjective AbiSer AbiRefine.

(** [uint<m>] (and [bool], [address]), [int<m>], [bytes<n>], [bytes] and
    [string], structs and fixed-length arrays, dynamic arrays. *)
Inductive ty : Type :=
  | TUint (m : Z)
  | TInt (m : Z)
  | TFixedBytes (n : nat)
  | TBytes
  | TTuple (ts : list ty)
  | TArray (t : ty).

Inductive has_type : abi -> ty -> Prop :=
  | ty_uint m z : m <= 256 -> fits m z -> has_type (AUint z) (TUint m)
  | ty_int m z : m <= 256 -> sfits m z -> has_type (AInt z) (TInt m)
  | ty_fixed_bytes b : 0 < zlen b <= 32 -> has_type (AFixedBytes b) (TFixedBytes (length b))
  | ty_bytes b : has_type (ABytes b) TBytes
  | ty_tuple vs ts : Forall2 has_type vs ts -> has_type (ATuple vs) (TTuple ts)
  | ty_array vs t : fits 256 (zlen vs) -> Forall (fun v => has_type v t) vs -> has_type (AArray vs) (TArray t).

Fixpoint ty_dynamic (t : ty) : bool :=
  match t with
  | TUint _ | TInt _ | TFixedBytes _ => false
  | TBytes | TArray _ => true
  | TTuple ts => existsb ty_dynamic ts
  end.

(** The bytes a component takes in the head of a tuple. *)
Fixpoint ty_head_len (t : ty) : Z :=
  match t with
  | TTuple ts => if existsb ty_dynamic ts then 32 else sum_Z (ty_head_len <$> ts)
  | _ => 32
  end.

(* ------------------------------------------------------------------ *)
(** ** The decoder                                                       *)
(* ------------------------------------------------------------------ *)

Definition seek (pos : Z) (d : bytes) : option bytes :=
  if decide (0 <= pos <= zlen d) then Some (drop (Z.to_nat pos) d) else None.

Definition read (n : Z) (d : bytes) : option bytes :=
  if decide (0 <= n <= zlen d) then Some (take (Z.to_nat n) d) else None.

Definition read_word (d : bytes) : option Z := be_val <$> read 32 d.

(** The number of a word in two's complement. *)
Definition signed_word (z : Z) : Z := if decide (z < 2 ^ 255) then z else z - 2 ^ 256.

Definition checked {A} (Q : Prop) `{Decision Q} (a : A) : option A := if decide Q then Some a else None.

(** A component of a tuple: is it dynamic, its length in the head, and the
    decoder of its type. *)
Definition field : Type := bool * Z * (bytes -> option abi).

(** The components whose heads start at [pos] of the tuple [d]. *)
Fixpoint dec_fields (fs : list field) (pos : Z) (d : bytes) : option (list abi) :=
  match fs with
  | [] => Some []
  | (dyn, len, dec) :: fs =>
      head ← seek pos d;
      component ← (if dyn : bool then off ← read_word head; seek off d else Some head);
      v ← dec component;
      vs ← dec_fields fs (pos + len) d;
      Some (v :: vs)
  end.

Fixpoint abi_dec (t : ty) (d : bytes) : option abi :=
  match t with
  | TUint m => z ← read_word d; checked (fits m z) (AUint z)
  | TInt m => z ← read_word d; checked (sfits m (signed_word z)) (AInt (signed_word z))
  | TFixedBytes n => w ← read 32 d; Some (AFixedBytes (take n w))
  | TBytes => n ← read_word d; data ← seek 32 d; ABytes <$> read n data
  | TTuple ts => ATuple <$> dec_fields ((fun t => (ty_dynamic t, ty_head_len t, abi_dec t)) <$> ts) 0 d
  | TArray t =>
      n ← read_word d;
      data ← seek 32 d;
      AArray <$> dec_fields (replicate (Z.to_nat n) (ty_dynamic t, ty_head_len t, abi_dec t)) 0 data
  end.

(** [abi.decode(d, (t))]. *)
Definition abi_decode (t : ty) (d : bytes) : option abi :=
  match abi_dec (TTuple [t]) d with
  | Some (ATuple [a]) => Some a
  | _ => None
  end.

Abbreviation field_of := (fun t => (ty_dynamic t, ty_head_len t, abi_dec t)).

(* ------------------------------------------------------------------ *)
(** ** Reading                                                           *)
(* ------------------------------------------------------------------ *)

Lemma seek_app a b : seek (zlen a) (a ++ b) = Some b.
Proof.
  unfold seek. rewrite zlen_app. pose proof (zlen_nonneg a). pose proof (zlen_nonneg b).
  rewrite decide_True by lia. unfold zlen. by rewrite Nat2Z.id, drop_app_length.
Qed.

Lemma read_app a b : read (zlen a) (a ++ b) = Some a.
Proof.
  unfold read. rewrite zlen_app. pose proof (zlen_nonneg a). pose proof (zlen_nonneg b).
  rewrite decide_True by lia. unfold zlen. by rewrite Nat2Z.id, take_app_length.
Qed.

Lemma be_val_word z : be_val (word z) = z mod 2 ^ 256.
Proof. unfold word. rewrite be_val_be_bytes. f_equal. Qed.

Lemma read_word_mod z b : read_word (word z ++ b) = Some (z mod 2 ^ 256).
Proof. unfold read_word. rewrite <- (zlen_word z), read_app. cbn [fmap option_fmap option_map].
by rewrite be_val_word. Qed.

Lemma read_word_app z b : fits 256 z -> read_word (word z ++ b) = Some z.
Proof. intros Hz. rewrite read_word_mod. f_equal. by apply Z.mod_small. Qed.

Lemma seek_word z b : seek 32 (word z ++ b) = Some b.
Proof. rewrite <- (zlen_word z). apply seek_app. Qed.

Lemma fits_mono m n z : m <= n -> fits m z -> fits n z.
Proof. unfold fits. intros H [? ?]. split; [done|]. pose proof (Z.pow_le_mono_r 2 m n). lia. Qed.

Lemma signed_word_mod m z : m <= 256 -> sfits m z -> signed_word (z mod 2 ^ 256) = z.
Proof.
  intros Hm [H1 H2]. pose proof (Z.pow_le_mono_r 2 (m - 1) 255 ltac:(lia) ltac:(lia)).
  unfold signed_word. change (2 ^ 256) with (2 * 2 ^ 255) in *.
  pose proof (Z.pow_pos_nonneg 2 255 ltac:(lia) ltac:(lia)).
  destruct (decide (0 <= z)).
  - rewrite Z.mod_small by lia. by rewrite decide_True by lia.
  - rewrite <- (Z.mod_unique z (2 * 2 ^ 255) (-1) (z + 2 * 2 ^ 255)) by lia.
    rewrite decide_False by lia. lia.
Qed.

Lemma checked_True {A} (Q : Prop) `{Decision Q} (a : A) : Q -> checked Q a = Some a.
Proof. intros HQ. unfold checked. by rewrite decide_True. Qed.

(* ------------------------------------------------------------------ *)
(** ** Tuples                                                            *)
(* ------------------------------------------------------------------ *)

(** The fields of a tuple read its parts as the values. *)
Inductive reads : list field -> list part -> list abi -> Prop :=
  | reads_nil : reads [] [] []
  | reads_cons dyn dec e v fs ps vs :
      (forall rest, dec (e ++ rest) = Some v) ->
      reads fs ps vs ->
      reads ((dyn, part_head_len (dyn, e), dec) :: fs) ((dyn, e) :: ps) (v :: vs).

(** Decoding the rest of a tuple: [pre] and [mid] hold the heads and the
    tails of the components before. *)
Lemma dec_fields_ok fs ps vs pre mid rest pos :
  reads fs ps vs ->
  pos = zlen (pre ++ running_heads pos ps ++ mid) ->
  pos + zlen (concat (part_tail <$> ps)) < 2 ^ 256 ->
  dec_fields fs (zlen pre) (pre ++ running_heads pos ps ++ mid ++ concat (part_tail <$> ps) ++ rest) = Some vs.
Proof.
  intros H. revert pre mid pos. induction H as [|dyn dec e v fs ps vs Hdec H IH]; intros pre mid pos Hpos Hb; [done|].
  cbn [dec_fields running_heads fmap list_fmap concat] in *. rewrite zlen_app in Hb.
  pose proof (zlen_nonneg (concat (part_tail <$> ps))).
  destruct dyn; unfold part_tail, part_head_len in *; cbn [fst snd] in *.
  - rewrite <- !app_assoc, seek_app. cbn [mbind option_bind].
    assert (fits 256 pos) by (split; [rewrite Hpos; apply zlen_nonneg|pose proof (zlen_nonneg e); lia]).
    rewrite read_word_app by done. cbn [mbind option_bind].
    set (rh := running_heads (pos + zlen e) ps) in *. set (tl := concat _) in *.
    replace (pre ++ word pos ++ rh ++ mid ++ e ++ tl ++ rest)
      with ((pre ++ (word pos ++ rh) ++ mid) ++ e ++ tl ++ rest) at 1 by by rewrite <- !app_assoc.
    rewrite Hpos at 1. rewrite seek_app. cbn [mbind option_bind]. rewrite Hdec. cbn [mbind option_bind].
    specialize (IH (pre ++ word pos) (mid ++ e) (pos + zlen e)).
    rewrite (zlen_app pre), zlen_word, <- !app_assoc in IH. unfold rh. rewrite IH; [done| |lia].
    rewrite Hpos at 1. fold rh. rewrite !zlen_app. lia.
  - rewrite zlen_nil, Z.add_0_r in *. rewrite <- !app_assoc, seek_app. cbn [mbind option_bind].
    rewrite Hdec. cbn [mbind option_bind app].
    specialize (IH (pre ++ e) mid pos). rewrite (zlen_app pre), <- !app_assoc in IH.
    rewrite IH; [done| |lia]. by rewrite <- !app_assoc in Hpos.
Qed.

Lemma zlen_running_heads pos ps : zlen (running_heads pos ps) = sum_Z (part_head_len <$> ps).
Proof.
  revert pos. induction ps as [|[d e] ps IH]; intros pos; [done|].
  cbn [running_heads fmap list_fmap]. rewrite zlen_app, IH. unfold part_head_len, sum_Z; cbn.
  destruct d; by rewrite ?zlen_word.
Qed.

Lemma dec_enc_parts fs ps vs rest :
  reads fs ps vs -> zlen (enc_parts ps) < 2 ^ 256 -> dec_fields fs 0 (enc_parts ps ++ rest) = Some vs.
Proof.
  intros H Hb. rewrite enc_parts_running in Hb |- *. rewrite zlen_app in Hb.
  pose proof (dec_fields_ok fs ps vs [] [] rest (sum_Z (part_head_len <$> ps)) H) as Hd.
  cbn [app] in Hd. rewrite app_nil_r, zlen_running_heads in Hd. rewrite zlen_running_heads in Hb.
  rewrite <- !app_assoc. by apply Hd.
Qed.

(* ------------------------------------------------------------------ *)
(** ** Values of a type                                                  *)
(* ------------------------------------------------------------------ *)

Lemma static_tails ps : existsb fst ps = false -> concat (part_tail <$> ps) = [].
Proof.
  induction ps as [|[d e] ps IH]; [done|]. cbn. intros [-> H]%orb_false_elim. cbn. auto.
Qed.

Lemma existsb_parts xs : existsb fst (parts_of xs) = existsb abi_dynamic xs.
Proof. induction xs as [|x xs IH]; [done|]. cbn. by rewrite IH. Qed.

(** What a type says of the encoding of its values. *)
Definition type_layout (a : abi) (t : ty) : Prop :=
  abi_dynamic a = ty_dynamic t /\ part_head_len (abi_dynamic a, abi_enc a) = ty_head_len t.

Lemma layouts_parts vs ts :
  Forall2 type_layout vs ts ->
  existsb abi_dynamic vs = existsb ty_dynamic ts /\
  (part_head_len <$> parts_of vs) = (ty_head_len <$> ts).
Proof.
  induction 1 as [|v t vs ts [Hd Hl] H [IHd IHl]]; [done|].
  cbn [existsb fmap list_fmap]. by rewrite Hl, Hd, IHd, <- IHl.
Qed.

Lemma zlen_pad32_short b : 0 < zlen b <= 32 -> zlen (pad32 b) = 32.
Proof.
  intros H. unfold pad32. rewrite zlen_app, zlen_padding.
  rewrite <- (Z.mod_unique (- zlen b) 32 (-1) (32 - zlen b)) by lia. lia.
Qed.

Lemma Forall2_of {A B} (P Q : A -> B -> Prop) vs ts :
  Forall (fun v => forall t, P v t -> Q v t) vs -> Forall2 P vs ts -> Forall2 Q vs ts.
Proof.
  intros HF. induction 1 as [|v t vs ts Hv H IH]; [constructor|].
  apply Forall_cons_iff in HF as [Hq HF]. constructor; auto.
Qed.

Lemma has_type_layout a t : has_type a t -> type_layout a t.
Proof.
  revert t. induction a using abi_ind'; intros t Ht; inversion Ht; subst;
    (split; try done).
  - by apply zlen_pad32_short.
  - cbn [abi_dynamic ty_dynamic]. by apply layouts_parts, (Forall2_of has_type).
  - destruct (layouts_parts vs ts) as [Hd Hl]; [by apply (Forall2_of has_type)|].
    cbn [abi_dynamic]. unfold part_head_len at 1. cbn [fst snd]. rewrite Hd.
    cbn [ty_head_len]. destruct (existsb ty_dynamic ts); [done|]. cbn [abi_enc].
    rewrite enc_parts_running, static_tails by by rewrite existsb_parts.
    by rewrite app_nil_r, zlen_running_heads, Hl.
Qed.

Definition decodes (a : abi) : Prop := forall t rest,
  has_type a t -> zlen (abi_enc a) < 2 ^ 256 -> abi_dec t (abi_enc a ++ rest) = Some a.

(** The components of an encoded tuple are read by the decoders of their
    types. *)
Lemma reads_typed vs ts :
  Forall decodes vs -> Forall2 has_type vs ts -> Forall (fun v => zlen (abi_enc v) < 2 ^ 256) vs ->
  reads (field_of <$> ts) (parts_of vs) vs.
Proof.
  intros HF H. induction H as [|v t vs ts Hv H IH]; intros Hb; [constructor|].
  apply Forall_cons_iff in HF as [Hd HF]. apply Forall_cons_iff in Hb as [Hz Hb].
  destruct (has_type_layout v t Hv) as [Hdyn Hlen].
  cbn [fmap list_fmap]. rewrite <- Hlen, <- Hdyn. constructor; [|by apply IH]. intros rest. by apply Hd.
Qed.

Lemma zlen_part_le ps p : p ∈ ps -> zlen p.2 <= zlen (enc_parts ps).
Proof.
  rewrite zlen_enc_parts. induction 1 as [p ps|p q ps H IH];
    rewrite fmap_cons, sum_Z_cons; cbn beta; unfold part_head_len at 1, part_tail at 1.
  - assert (0 <= sum_Z ((fun p => part_head_len p + zlen (part_tail p)) <$> ps)).
    { rewrite <- zlen_enc_parts. apply zlen_nonneg. }
    pose proof (zlen_nonneg p.2). destruct p.1; rewrite ?zlen_nil; lia.
  - pose proof (zlen_nonneg q.2). destruct q.1; rewrite ?zlen_nil; lia.
Qed.

Lemma components_fit vs :
  zlen (enc_parts (parts_of vs)) < 2 ^ 256 -> Forall (fun v => zlen (abi_enc v) < 2 ^ 256) vs.
Proof.
  intros Hb. apply Forall_forall. intros v Hv.
  apply list_elem_of_In, (list_elem_of_fmap_2 (fun v => (abi_dynamic v, abi_enc v))), zlen_part_le in Hv.
  cbn [snd] in Hv. lia.
Qed.

Lemma dec_components vs ts rest :
  Forall decodes vs -> Forall2 has_type vs ts -> zlen (enc_parts (parts_of vs)) < 2 ^ 256 ->
  dec_fields (field_of <$> ts) 0 (enc_parts (parts_of vs) ++ rest) = Some vs.
Proof. intros HF H Hb. apply dec_enc_parts; [|done]. apply reads_typed; auto using components_fit. Qed.

Lemma Forall2_replicate_type vs t :
  Forall (fun v => has_type v t) vs -> Forall2 has_type vs (replicate (length vs) t).
Proof. induction 1; cbn; constructor; auto. Qed.

(** Decoding is the inverse of encoding, in any context. *)
Lemma abi_dec_enc a : decodes a.
Proof.
  induction a as [z|z|b|b|vs IH|vs IH] using abi_ind'; intros t rest Ht Hb; inversion Ht; subst;
    cbn [abi_enc abi_dec] in *.
  - rewrite read_word_app by by apply (fits_mono m). cbn [mbind option_bind]. by apply checked_True.
  - rewrite read_word_mod. cbn [mbind option_bind]. rewrite (signed_word_mod m) by done. by apply checked_True.
  - rewrite <- (zlen_pad32_short b) by done. rewrite read_app. cbn [mbind option_bind].
    unfold pad32. by rewrite take_app_length.
  - rewrite zlen_app, zlen_word in Hb. unfold pad32 in *. rewrite zlen_app in Hb.
    pose proof (zlen_nonneg b). pose proof (zlen_nonneg (padding b)).
    rewrite <- !app_assoc, read_word_app, seek_word by (split; lia). cbn [mbind option_bind].
    by rewrite read_app.
  - by rewrite dec_components.
  - rewrite zlen_app, zlen_word in Hb. rewrite <- app_assoc, read_word_app, seek_word by done.
    cbn [mbind option_bind]. unfold zlen at 1. rewrite Nat2Z.id.
    replace (replicate _ _) with (field_of <$> replicate (length vs) t0) by exact (fmap_replicate field_of
      (length vs) t0).
    rewrite dec_components; [done|done|by apply Forall2_replicate_type|lia].
Qed.

Lemma abi_decode_encode a t rest :
  has_type a t -> zlen (abi_encode a) < 2 ^ 256 -> abi_decode t (abi_encode a ++ rest) = Some a.
Proof.
  intros Ht Hb. unfold abi_decode, abi_encode in *. rewrite abi_dec_enc; [done| |done].
  repeat constructor. done.
Qed.

(* ------------------------------------------------------------------ *)
(** ** Decoding what the serializer wrote                                *)
(* ------------------------------------------------------------------ *)

Section Decoding.
Context `{P : Platform} {W : Type} `{HW : !Writer W} `{PW : !PureWriter W}.

Lemma encode_bound a : zlen (abi_enc a) < 2 ^ usize_bits -> zlen (abi_encode a) < 2 ^ 256.
Proof.
  intros Hl. rewrite abi_encode_alt, zlen_app.
  assert (2 ^ usize_bits <= 2 ^ 64) by (apply Z.pow_le_mono_r; [lia|]; destruct usize_bits_cases; lia).
  assert (zlen (if abi_dynamic a then word 32 else []) <= 32) by (destruct (abi_dynamic a); rewrite ?zlen_word; done).
  change (2 ^ 64) with 18446744073709551616 in *.
  assert (18446744073709551616 + 32 < 2 ^ 256) by done. lia.
Qed.

Lemma to_writer_decoded v a t (w : W) :
  represents v a -> has_type a t -> zlen (abi_enc a) < 2 ^ usize_bits ->
  exists slots, to_writer v w = (writes w slots, Ok tt) /\ abi_decode t (concat slots) = Some a.
Proof.
  intros Hr Ht Hl. destruct (to_writer_internal_refines v a true w Hr Hl) as (slots & _ & He & Hw).
  exists slots. split; [done|]. rewrite andb_true_r, <- abi_encode_alt in He. rewrite He.
  rewrite <- (app_nil_r (abi_encode a)). by apply abi_decode_encode, encode_bound.
Qed.

(** C23: what the serializer writes for a value of a Solidity type is decoded
    to that value.  For every value with a Solidity counterpart of type [t]
    whose encoding is addressable, [to_writer] and [to_fnargs_writer] succeed,
    [abi.decode] at [t] reads the output of [to_writer] back as exactly that
    counterpart, and decoding the output of [to_fnargs_writer] without the
    enclosing tuple does. *)
Theorem to_writer_decodes (v : value) (a : abi) (t : ty) (w : W) :
  represents v a -> has_type a t -> zlen (abi_enc a) < 2 ^ usize_bits ->
  (exists slots, to_writer v w = (writes w slots, Ok tt) /\ abi_decode t (concat slots) = Some a) /\
  (exists slots, to_fnargs_writer v w = (writes w slots, Ok tt) /\ abi_dec t (concat slots) = Some a).
Proof.
  intros Hr Ht Hl. split; [by apply to_writer_decoded|].
  destruct (to_writer_internal_refines v a false w Hr Hl) as (slots & _ & He & Hw).
  exists slots. split; [done|]. rewrite andb_false_r in He. rewrite He. cbn [app].
  rewrite <- (app_nil_r (abi_enc a)). apply abi_dec_enc; [done|].
  pose proof (encode_bound a Hl) as Hb. rewrite abi_encode_alt, zlen_app in Hb.
  pose proof (zlen_nonneg (if abi_dynamic a then word 32 else [])). lia.
Qed.

End Decoding.
