(* ===== verification/AbiVectors.v ===== *)
(** * Test vectors of the serializer

    The examples of the Solidity documentation, as the unit tests in
    src/src/abiencode/tests/solidity_docs.rs give them, computed by the model:
    the derived [Serialize] of a tuple struct drives [serialize_tuple_struct],
    and the documentation's bytes are what is written.  The specification of
    AbiSpec.v gives the same bytes. *)
From Stdlib Require Import Ascii.
From S2P Require Import Prelude AbiSpec AbiSer.

(** Hexadecimal digits. *)
Definition hex_digit (a : ascii) : Z :=
  let n := Z.of_nat (nat_of_ascii a) in if decide (n < 58) then n - 48 else n - 87.

Fixpoint hex (s : string) : bytes :=
  match s with
  | String a (String b s) => byte_of_Z (16 * hex_digit a + hex_digit b) :: hex s
  | _ => []
  end.

(** The slots of a vector, one string for each. *)
Definition slots (l : list string) : bytes := concat (hex <$> l).

(** [serialize_and_compare_fnargs] and [serialize_and_compare]. *)
Definition fnargs_written (v : value) : res Error bytes :=
  let '(w, r) := @to_fnargs_writer host _ _ v [] in (fun _ => concat w) <$> r.
Definition written (v : value) : res Error bytes :=
  let '(w, r) := @to_writer host _ _ v [] in (fun _ => concat w) <$> r.

Definition text (s : string) : bytes := String.list_byte_of_string s.

(** [U256] in its 32 bytes. *)
Definition u256_value (z : Z) : value := VBytes (be_bytes 32 z).

Example foo_baz :
  written (VTupleStruct "Baz" [VU32 69; VBool true]) = Ok (slots [
    "0000000000000000000000000000000000000000000000000000000000000045";
    "0000000000000000000000000000000000000000000000000000000000000001"]).
Proof. vm_compute. reflexivity. Qed.

Example foo_baz_return b :
  fnargs_written (VBool b) = Ok (word (if b then 1 else 0)).
Proof. destruct b; vm_compute; reflexivity. Qed.

Example foo_bar :
  fnargs_written (VNewtypeStruct "Bar" (VTuple [VBytes (text "abc"); VBytes (text "def")])) = Ok (slots [
    "6162630000000000000000000000000000000000000000000000000000000000";
    "6465660000000000000000000000000000000000000000000000000000000000"]).
Proof. vm_compute. reflexivity. Qed.

Definition sam_slots : bytes := slots [
    "0000000000000000000000000000000000000000000000000000000000000060";
    "0000000000000000000000000000000000000000000000000000000000000001";
    "00000000000000000000000000000000000000000000000000000000000000a0";
    "0000000000000000000000000000000000000000000000000000000000000004";
    "6461766500000000000000000000000000000000000000000000000000000000";
    "0000000000000000000000000000000000000000000000000000000000000003";
    "0000000000000000000000000000000000000000000000000000000000000001";
    "0000000000000000000000000000000000000000000000000000000000000002";
    "0000000000000000000000000000000000000000000000000000000000000003"].

(** The element type of the numbers does not matter. *)
Example foo_sam :
  Forall (fun number => fnargs_written
    (VTupleStruct "Sam" [as_bytes (text "dave"); VBool true; as_dyn_array (number <$> [1; 2; 3])]) = Ok sam_slots)
  [VU64; VU128; u256_value].
Proof. repeat constructor; vm_compute; reflexivity. Qed.

Example dynamictypes_f :
  fnargs_written (VTupleStruct "Data"
    [u256_value 0x123; VSeq (Some 2) [VU32 0x456; VU32 0x789]; VBytes (text "1234567890");
     as_bytes (text "Hello, world!")]) = Ok (slots [
    "0000000000000000000000000000000000000000000000000000000000000123";
    "0000000000000000000000000000000000000000000000000000000000000080";
    "3132333435363738393000000000000000000000000000000000000000000000";
    "00000000000000000000000000000000000000000000000000000000000000e0";
    "0000000000000000000000000000000000000000000000000000000000000002";
    "0000000000000000000000000000000000000000000000000000000000000456";
    "0000000000000000000000000000000000000000000000000000000000000789";
    "000000000000000000000000000000000000000000000000000000000000000d";
    "48656c6c6f2c20776f726c642100000000000000000000000000000000000000"]).
Proof. vm_compute. reflexivity. Qed.

Example dynamictypes_g :
  fnargs_written (VTupleStruct "Data"
    [VSeq (Some 2) [VSeq (Some 2) [u256_value 1; u256_value 2]; VSeq (Some 1) [u256_value 3]];
     VSeq (Some 3) [VStr (text "one"); VStr (text "two"); VStr (text "three")]]) = Ok (slots [
    "0000000000000000000000000000000000000000000000000000000000000040";
    "0000000000000000000000000000000000000000000000000000000000000140";
    "0000000000000000000000000000000000000000000000000000000000000002";
    "0000000000000000000000000000000000000000000000000000000000000040";
    "00000000000000000000000000000000000000000000000000000000000000a0";
    "0000000000000000000000000000000000000000000000000000000000000002";
    "0000000000000000000000000000000000000000000000000000000000000001";
    "0000000000000000000000000000000000000000000000000000000000000002";
    "0000000000000000000000000000000000000000000000000000000000000001";
    "0000000000000000000000000000000000000000000000000000000000000003";
    "0000000000000000000000000000000000000000000000000000000000000003";
    "0000000000000000000000000000000000000000000000000000000000000060";
    "00000000000000000000000000000000000000000000000000000000000000a0";
    "00000000000000000000000000000000000000000000000000000000000000e0";
    "0000000000000000000000000000000000000000000000000000000000000003";
    "6f6e650000000000000000000000000000000000000000000000000000000000";
    "0000000000000000000000000000000000000000000000000000000000000003";
    "74776f0000000000000000000000000000000000000000000000000000000000";
    "0000000000000000000000000000000000000000000000000000000000000005";
    "7468726565000000000000000000000000000000000000000000000000000000"]).
Proof. vm_compute. reflexivity. Qed.

(** [string.rs] and [bytes.rs]: strings of 0, 1, 31, 32, 33 and 64 bytes in a
    struct, around the size of a slot. *)
Definition string_container (s : string) : value := VStruct "StringContainer" [("s", VStr (text s))].

Definition digits : string := "0123456789abcdef".
Definition digits_slot : string := "3031323334353637383961626364656630313233343536373839616263646566".

Example string_sizes :
  Forall (fun '(s, data) => written (string_container s) = Ok (slots ([
    "0000000000000000000000000000000000000000000000000000000000000020";
    "0000000000000000000000000000000000000000000000000000000000000020"] ++ data))) [
  ("", ["0000000000000000000000000000000000000000000000000000000000000000"]);
  ("0", ["0000000000000000000000000000000000000000000000000000000000000001";
         "3000000000000000000000000000000000000000000000000000000000000000"]);
  ("0123456789abcdef0123456789abcde",
        ["000000000000000000000000000000000000000000000000000000000000001f";
         "3031323334353637383961626364656630313233343536373839616263646500"]);
  (digits +:+ digits,
        ["0000000000000000000000000000000000000000000000000000000000000020"; digits_slot]);
  (digits +:+ digits +:+ "0",
        ["0000000000000000000000000000000000000000000000000000000000000021"; digits_slot;
         "3000000000000000000000000000000000000000000000000000000000000000"]);
  (digits +:+ digits +:+ digits +:+ digits,
        ["0000000000000000000000000000000000000000000000000000000000000040"; digits_slot; digits_slot])].
Proof. repeat constructor; vm_compute; reflexivity. Qed.
