(* ===== verification/Types.v ===== *)
(** * Solidity types and hashing

    Model of src/src/abiencode/types.rs and hashing.rs.  The [uint] and [sha3]
    crates are not part of the repository: [UintCrate] and [Digest] are what
    the code calls of them, [UintLaws] and [DigestLaws] their documented
    behaviour. *)
From S2P Require Import Prelude AbiSpec AbiSer AbiRefine.

(* ------------------------------------------------------------------ *)
(** ** The external crates                                               *)
(* ------------------------------------------------------------------ *)

(** The integer type [construct_uint!] generates, with the operations the code
    uses: [Default], [From<u64>], [+], [-], [<], [==], [to_big_endian] into a
    buffer of 32 bytes and [from_big_endian]. *)
Class UintCrate := {
  U256 : Type;
  U256_default : U256;
  U256_from : Z -> U256;
  U256_add : forall {E}, U256 -> U256 -> res E U256;
  U256_sub : forall {E}, U256 -> U256 -> res E U256;
  U256_lt : U256 -> U256 -> bool;
  U256_eq_dec :: EqDecision U256;
  to_big_endian : U256 -> bytes;
  from_big_endian : forall {E}, bytes -> res E U256;
}.

(** The operators panic on overflow in every build, [from_big_endian] asserts
    that it is given at most 32 bytes. *)
Class UintLaws (U : UintCrate) := {
  u256_val : U256 -> Z;
  u256_range x : fits 256 (u256_val x);
  u256_inj x y : u256_val x = u256_val y -> x = y;
  u256_default_val : u256_val U256_default = 0;
  u256_from_val z : fits 64 z -> u256_val (U256_from z) = z;
  u256_add_spec E x y :
    match @U256_add U E x y with
    | Ok z => u256_val z = u256_val x + u256_val y
    | Err _ => False
    | Panic => 2 ^ 256 <= u256_val x + u256_val y
    end;
  u256_sub_spec E x y :
    match @U256_sub U E x y with
    | Ok z => u256_val z = u256_val x - u256_val y
    | Err _ => False
    | Panic => u256_val x < u256_val y
    end;
  u256_lt_spec x y : U256_lt x y = bool_decide (u256_val x < u256_val y);
  to_big_endian_spec x : to_big_endian x = be_bytes 32 (u256_val x);
  from_big_endian_spec E b :
    match @from_big_endian U E b with
    | Ok x => zlen b <= 32 /\ u256_val x = be_val b
    | Err _ => False
    | Panic => 32 < zlen b
    end;
}.

(** A hash function of the [sha3] crate with a 32-byte output. *)
Class Digest := {
  Hasher : Type;
  hasher_new : Hasher;
  hasher_update : Hasher -> bytes -> Hasher;
  hasher_finalize : Hasher -> array byte 32;
  digest : bytes -> array byte 32;
}.

(** Hashing in pieces is hashing the concatenation. *)
Class DigestLaws (D : Digest) : Prop :=
  digest_chunks chunks :
    hasher_finalize (foldl hasher_update hasher_new chunks) = digest (concat chunks).

(** The two hash functions of the crate. *)
Class Sha3Crate := {
  Keccak256 : Digest;
  Sha3_256 : Digest;
}.
Class Sha3Laws (S : Sha3Crate) : Prop := {
  keccak_laws :: DigestLaws Keccak256;
  sha3_256_laws :: DigestLaws Sha3_256;
}.

(* ------------------------------------------------------------------ *)
(** ** Serializable types                                                *)
(* ------------------------------------------------------------------ *)

(** [impl Serialize for A], derived or written by hand. *)
Class ToValue (A : Type) := to_value : A -> value.

(** A type with a Solidity counterpart. *)
Class SolType (A : Type) `{ToValue A} := {
  to_abi : A -> abi;
  to_value_represents `{P : Platform} (a : A) : represents (to_value a) (to_abi a);
}.

(* ------------------------------------------------------------------ *)
(** ** types.rs                                                          *)
(* ------------------------------------------------------------------ *)

(** [bytesN!(T, N)]. *)
Definition bytesN (N : nat) : Type := array byte N.
Definition bytesN_serialize {N} (self : bytesN N) : value := VBytes (to_vec self).
Definition bytesN_default {N} : bytesN N := array_repeat N x00.

Abbreviation Bytes32 := (bytesN 32).
Abbreviation Hash := (bytesN 32).
Abbreviation Signature := (bytesN 65).

#[export] Instance bytesN_eq_dec N : EqDecision (bytesN N) := array_eq_dec N.
#[export] Instance bytesN_ToValue N : ToValue (bytesN N) := bytesN_serialize.

Lemma Signature_new_length (rs : array byte 64) (v : byte) : length (to_vec rs ++ [v]) = 65%nat.
Proof. rewrite length_app, array_length. done. Qed.
Definition Signature_new (rs : array byte 64) (v : byte) : Signature :=
  mk_array (to_vec rs ++ [v]) (Signature_new_length rs v).

Definition U256_serialize `{U : UintCrate} (self : U256) : value := VBytes (to_big_endian self).
#[export] Instance U256_ToValue `{U : UintCrate} : ToValue U256 := U256_serialize.

(** [struct Address(pub [u8; 20])]: a type of its own, since it is padded on
    the left. *)
Record Address : Type := mkAddress { addr_bytes : array byte 20 }.
#[export] Instance Address_eq_dec : EqDecision Address.
Proof. solve_decision. Defined.
Definition Address_default : Address := mkAddress (array_repeat 20 x00).

Definition Address_serialize (self : Address) : value :=
  VBytes (replicate (32 - 20) x00 ++ to_vec (addr_bytes self)).
#[export] Instance Address_ToValue : ToValue Address := Address_serialize.

Lemma address_of_hash_length (hash : Hash) : length (drop (32 - 20) (to_vec hash)) = 20%nat.
Proof. by rewrite length_drop, array_length. Qed.

(** The last 20 bytes of a hash: the end of both [From] conversions of a
    public key. *)
Definition address_of_hash (hash : Hash) : Address :=
  mkAddress (mk_array (drop (32 - 20) (to_vec hash)) (address_of_hash_length hash)).

(** [impl From<PublicKey> for Address]: the hash of the uncompressed key
    without its first byte. *)
Definition Address_from_public_key `{S : Sha3Crate} {PublicKey : Type}
    (serialize_uncompressed : PublicKey -> bytes) (pk : PublicKey) : Address :=
  address_of_hash (digest (Digest:=Keccak256) (drop 1 (serialize_uncompressed pk))).

(** [{:02x}] of a byte: two lower-case digits. *)
Definition hex_digit (d : Z) : Ascii.ascii :=
  Ascii.ascii_of_N (Z.to_N (if decide (d < 10) then 48 + d else 87 + d)).
Definition hex_byte (b : byte) : string :=
  String (hex_digit (byte_to_Z b / 16)) (String (hex_digit (byte_to_Z b mod 16)) EmptyString).

(** [impl_hex_debug!(T)]: [0x] and the bytes. *)
Definition hex_debug (self : bytes) : string := "0x" +:+ foldr (fun b s => hex_byte b +:+ s) EmptyString self.

(** The two digits of a byte determine it, so two values are printed alike only
    if they are the same. *)
Lemma hex_byte_inj a b : hex_byte a = hex_byte b -> a = b.
Proof.
  intros H. apply byte_to_Z_inj. pose proof (byte_to_Z_range a). pose proof (byte_to_Z_range b).
  rewrite (Z.div_mod (byte_to_Z a) 16), (Z.div_mod (byte_to_Z b) 16) by done.
  assert (forall c d, 0 <= c < 16 -> 0 <= d < 16 -> hex_digit c = hex_digit d -> c = d) as Hd.
  { intros c d Hc Hd He. apply (f_equal Ascii.N_of_ascii) in He. unfold hex_digit in He.
    rewrite !Ascii.N_ascii_embedding in He by (repeat case_decide; lia). repeat case_decide; lia. }
  assert (forall c, 0 <= byte_to_Z c / 16 < 16) as Hq.
  { intros c. pose proof (byte_to_Z_range c). split; [apply Z.div_pos; lia|apply Z.div_lt_upper_bound; lia]. }
  assert (forall c, 0 <= byte_to_Z c mod 16 < 16) as Hm by (intros c; by apply Z.mod_pos_bound).
  unfold hex_byte in H. injection H as Hh Hl. by rewrite (Hd _ _ (Hq a) (Hq b) Hh), (Hd _ _ (Hm a) (Hm b) Hl).
Qed.

Lemma hex_debug_inj a b : hex_debug a = hex_debug b -> a = b.
Proof.
  unfold hex_debug. intros [= H]. revert b H. induction a as [|x a IH]; intros [|y b] H; [done|done|done|].
  cbn in H. injection H as H1 H2 H3. f_equal; [|by apply IH]. apply hex_byte_inj. unfold hex_byte. congruence.
Qed.

(** A [bool], as a field of a struct. *)
#[export] Instance bool_ToValue : ToValue bool := VBool.

(* ------------------------------------------------------------------ *)
(** ** hashing.rs                                                        *)
(* ------------------------------------------------------------------ *)

Section Hashing.
Context `{P : Platform} `{S : Sha3Crate}.

Record Keccak256Writer : Type := mkKeccak256Writer { hasher : Hasher (Digest:=Keccak256) }.

Definition Keccak256Writer_default : Keccak256Writer := mkKeccak256Writer hasher_new.

#[export] Instance Keccak256Writer_Writer : Writer Keccak256Writer :=
  fun slot self => (mkKeccak256Writer (hasher_update (hasher self) slot), Ok tt).

Definition finalize (self : Keccak256Writer) : Hash := hasher_finalize (hasher self).

Definition to_hash (v : value) : res Error Hash :=
  let (writer, r) := to_writer v Keccak256Writer_default in
  r ≫= fun _ => Ok (finalize writer).

End Hashing.

(* ------------------------------------------------------------------ *)
(** ** Lemmas                                                            *)
(* ------------------------------------------------------------------ *)

Lemma be_val_zeros n b : be_val (replicate n x00 ++ b) = be_val b.
Proof. induction n as [|n IH]; [done|]. cbn [replicate app be_val]. rewrite IH. cbn. lia. Qed.

(** The number an address is encoded as. *)
Definition address_val (a : Address) : Z := be_val (to_vec (addr_bytes a)).

Lemma address_val_range a : fits 160 (address_val a).
Proof.
  unfold address_val, fits. pose proof (be_val_range (to_vec (addr_bytes a))) as H.
  unfold zlen in H. rewrite array_length in H. exact H.
Qed.

Lemma address_val_inj a b : address_val a = address_val b -> a = b.
Proof.
  destruct a as [a], b as [b]; unfold address_val; cbn. intros H.
  f_equal. apply array_eq, be_val_inj; [by rewrite !array_length|done].
Qed.

#[export] Instance Address_SolType : SolType Address.
Proof.
  refine {| to_abi := fun a : Address => AUint (address_val a) |}.
  intros P a. cbn. unfold Address_serialize, address_val.
  rewrite <- (be_val_zeros (32 - 20)). apply rep_word.
  by rewrite length_app, length_replicate, array_length.
Defined.

#[export] Instance U256_SolType `{U : UintCrate} `{L : !UintLaws U} : SolType U256.
Proof.
  refine {| to_abi := fun u : U256 => AUint (u256_val u) |}.
  intros P u. unfold to_value, U256_ToValue, U256_serialize.
  assert (u256_val u = be_val (to_big_endian u)) as ->.
  { rewrite to_big_endian_spec, be_val_be_bytes. symmetry.
    apply Z.mod_small. exact (u256_range u). }
  apply rep_word. rewrite to_big_endian_spec. apply be_bytes_length.
Defined.

(** [bytesN] for the sizes Solidity has. *)
#[export] Instance Bytes32_SolType : SolType Bytes32.
Proof.
  refine {| to_abi := fun b : Bytes32 => AFixedBytes (to_vec b) |}.
  intros P b. apply rep_fixed_bytes. unfold zlen. rewrite array_length. lia.
Defined.

#[export] Instance bool_SolType : SolType bool.
Proof. refine {| to_abi := fun b : bool => AUint (if b then 1 else 0) |}. intros P []; constructor. Defined.

Section ToHash.
Context `{P : Platform} `{S : Sha3Crate} `{L : !Sha3Laws S}.

#[export] Instance Keccak256Writer_PureWriter : PureWriter Keccak256Writer :=
  {| wstep := fun w b => mkKeccak256Writer (hasher_update (hasher w) b);
     wstep_ok := fun _ _ => eq_refl |}.

Lemma keccak_foldl slots w :
  hasher (foldl wstep w slots) = foldl hasher_update (hasher w) slots.
Proof. revert w. induction slots as [|b l IH]; intros w; [done|]. cbn [foldl]. by rewrite IH. Qed.

(** Hashing a value is hashing its Solidity encoding. *)
Lemma to_hash_represents v a :
  represents v a -> zlen (abi_enc a) < 2 ^ usize_bits ->
  to_hash v = Ok (digest (Digest:=Keccak256) (abi_encode a)).
Proof.
  intros Hr Hl.
  destruct (to_writer_internal_refines v a true Keccak256Writer_default Hr Hl) as (slots & _ & He & Hw).
  unfold to_hash, to_writer. rewrite Hw. unfold mbind, res_bind, finalize. f_equal.
  unfold writes. rewrite keccak_foldl. unfold Keccak256Writer_default; cbn [hasher].
  rewrite digest_chunks. f_equal. by rewrite He, abi_encode_alt, andb_true_r.
Qed.

Lemma to_hash_ok {A} `{SolType A} (x : A) :
  zlen (abi_enc (to_abi x)) < 2 ^ usize_bits ->
  to_hash (to_value x) = Ok (digest (Digest:=Keccak256) (abi_encode (to_abi x))).
Proof. apply to_hash_represents, to_value_represents. Qed.

End ToHash.
