(* ===== verification/PerunWire.v ===== *)
(** * The protobuf messages

    The message types the build generates from the schemas in src/src/wire
    (perun-remote.proto, and sdktypes.proto for the types shared with
    go-perun): one record per message, with the fields of the schema, and an
    [option] for a field of message type.  The envelope and the channel
    messages of go-perun's own schema, which is not in the repository, have the
    fields the record literals of encoding.rs and messages/*.rs give them.
    Their byte encoding is the [prost] crate's, see Wire.v. *)
From S2P Require Import Prelude.

Module perunwire.

Record Balance : Type := mkBalance { Balance_balance : list bytes }.

Record Balances : Type := mkBalances { Balances_balances : list Balance }.

Record Params : Type := mkParams {
  Params_id : bytes;
  Params_challenge_duration : u64;
  Params_parts : list bytes;
  Params_app : bytes;
  Params_nonce : bytes;
  Params_ledger_channel : bool;
  Params_virtual_channel : bool;
}.

Record IndexMap : Type := mkIndexMap { IndexMap_index_map : list Z }.

Record SubAlloc : Type := mkSubAlloc {
  SubAlloc_id : bytes;
  SubAlloc_bals : option Balance;
  SubAlloc_index_map : option IndexMap;
}.

Record Allocation : Type := mkAllocation {
  Allocation_assets : list bytes;
  Allocation_balances : option Balances;
  Allocation_locked : list SubAlloc;
}.

Record State : Type := mkState {
  State_id : bytes;
  State_version : u64;
  State_app : bytes;
  State_allocation : option Allocation;
  State_data : bytes;
  State_is_final : bool;
}.

Record Transaction : Type := mkTransaction {
  Transaction_state : option State;
  Transaction_sigs : list bytes;
}.

Record SignedState : Type := mkSignedState {
  SignedState_params : option Params;
  SignedState_state : option State;
  SignedState_sigs : list bytes;
}.

Record AdjudicatorReq : Type := mkAdjudicatorReq {
  AdjudicatorReq_params : option Params;
  AdjudicatorReq_acc : bytes;
  AdjudicatorReq_tx : option Transaction;
  AdjudicatorReq_idx : Z;
  AdjudicatorReq_secondary : bool;
}.

Record FundReq : Type := mkFundReq {
  FundReq_session_id : string;
  FundReq_params : option Params;
  FundReq_state : option State;
  FundReq_idx : Z;
  FundReq_agreement : option Balances;
}.

Record RegisterReq : Type := mkRegisterReq {
  RegisterReq_session_id : string;
  RegisterReq_adj_req : option AdjudicatorReq;
}.

Record WithdrawReq : Type := mkWithdrawReq {
  WithdrawReq_session_id : string;
  WithdrawReq_adj_req : option AdjudicatorReq;
}.

Record StartWatchingLedgerChannelReq : Type := mkStartWatchingLedgerChannelReq {
  StartWatching_session_id : string;
  StartWatching_params : option Params;
  StartWatching_state : option State;
  StartWatching_sigs : list bytes;
}.

Record SignedWithdrawalAuth : Type := mkSignedWithdrawalAuth {
  SignedWithdrawalAuth_sig : bytes;
  SignedWithdrawalAuth_receiver : bytes;
}.

Record WatchRequestMsg : Type := mkWatchRequestMsg {
  WatchRequestMsg_participant : Z;
  WatchRequestMsg_state : option SignedState;
  WatchRequestMsg_withdrawal_auths : list SignedWithdrawalAuth;
}.

Record ForceCloseRequestMsg : Type := mkForceCloseRequestMsg {
  ForceCloseRequestMsg_channel_id : bytes;
  ForceCloseRequestMsg_latest : option WatchRequestMsg;
}.

(** The error of a response, without its additional information. *)
Record MsgError : Type := mkMsgError {
  MsgError_category : Z;
  MsgError_code : Z;
  MsgError_message : string;
}.

Record FundResp : Type := mkFundResp { FundResp_error : option MsgError }.
Record RegisterResp : Type := mkRegisterResp { RegisterResp_error : option MsgError }.
Record WithdrawResp : Type := mkWithdrawResp { WithdrawResp_error : option MsgError }.

Record StopWatchingReq : Type := mkStopWatchingReq {
  StopWatchingReq_session_id : string;
  StopWatchingReq_ch_id : bytes;
}.
Record StopWatchingResp : Type := mkStopWatchingResp { StopWatchingResp_error : option MsgError }.

Record WatchResponseMsg : Type := mkWatchResponseMsg {
  WatchResponseMsg_channel_id : bytes;
  WatchResponseMsg_version : u64;
  WatchResponseMsg_success : bool;
}.

Record ForceCloseResponseMsg : Type := mkForceCloseResponseMsg {
  ForceCloseResponseMsg_channel_id : bytes;
  ForceCloseResponseMsg_success : bool;
}.

Record DisputeNotification : Type := mkDisputeNotification {
  DisputeNotification_channel_id : bytes;
}.

(** What the library and the funder or watcher exchange.  The event a
    [StartWatchingLedgerChannelResp] carries is left out, no code reads it. *)
Inductive message_Msg : Type :=
  | Msg_FundReq (msg : FundReq)
  | Msg_FundResp (msg : FundResp)
  | Msg_RegisterReq (msg : RegisterReq)
  | Msg_RegisterResp (msg : RegisterResp)
  | Msg_WithdrawReq (msg : WithdrawReq)
  | Msg_WithdrawResp (msg : WithdrawResp)
  | Msg_StartWatchingLedgerChannelReq (msg : StartWatchingLedgerChannelReq)
  | Msg_StartWatchingLedgerChannelResp
  | Msg_StopWatchingReq (msg : StopWatchingReq)
  | Msg_StopWatchingResp (msg : StopWatchingResp)
  | Msg_WatchRequest (msg : WatchRequestMsg)
  | Msg_WatchResponse (msg : WatchResponseMsg)
  | Msg_ForceCloseRequest (msg : ForceCloseRequestMsg)
  | Msg_ForceCloseResponse (msg : ForceCloseResponseMsg)
  | Msg_DisputeNotification (msg : DisputeNotification).

Record Message : Type := mkMessage { Message_msg : option message_Msg }.

(** Messages between participants. *)
Record BaseChannelProposal : Type := mkBaseChannelProposal {
  BaseChannelProposal_proposal_id : bytes;
  BaseChannelProposal_challenge_duration : u64;
  BaseChannelProposal_nonce_share : bytes;
  BaseChannelProposal_app : bytes;
  BaseChannelProposal_init_data : bytes;
  BaseChannelProposal_init_bals : option Allocation;
  BaseChannelProposal_funding_agreement : option Balances;
}.

Record LedgerChannelProposalMsg : Type := mkLedgerChannelProposalMsg {
  LedgerChannelProposalMsg_base_channel_proposal : option BaseChannelProposal;
  LedgerChannelProposalMsg_participant : bytes;
  LedgerChannelProposalMsg_peers : list bytes;
}.

Record BaseChannelProposalAcc : Type := mkBaseChannelProposalAcc {
  BaseChannelProposalAcc_proposal_id : bytes;
  BaseChannelProposalAcc_nonce_share : bytes;
}.

Record LedgerChannelProposalAccMsg : Type := mkLedgerChannelProposalAccMsg {
  LedgerChannelProposalAccMsg_base_channel_proposal_acc : option BaseChannelProposalAcc;
  LedgerChannelProposalAccMsg_participant : bytes;
}.

Record ChannelProposalRejMsg : Type := mkChannelProposalRejMsg {
  ChannelProposalRejMsg_proposal_id : bytes;
  ChannelProposalRejMsg_reason : string;
}.

Record ChannelUpdate : Type := mkChannelUpdate {
  ChannelUpdate_state : option State;
  ChannelUpdate_actor_idx : Z;
}.

Record ChannelUpdateMsg : Type := mkChannelUpdateMsg {
  ChannelUpdateMsg_channel_update : option ChannelUpdate;
  ChannelUpdateMsg_sig : bytes;
}.

Record ChannelUpdateAccMsg : Type := mkChannelUpdateAccMsg {
  ChannelUpdateAccMsg_channel_id : bytes;
  ChannelUpdateAccMsg_version : u64;
  ChannelUpdateAccMsg_sig : bytes;
}.

Record ChannelUpdateRejMsg : Type := mkChannelUpdateRejMsg {
  ChannelUpdateRejMsg_channel_id : bytes;
  ChannelUpdateRejMsg_version : u64;
  ChannelUpdateRejMsg_reason : string;
}.

(** The payloads of the messages no code reads are left out. *)
Inductive envelope_Msg : Type :=
  | PingMsg
  | PongMsg
  | ShutdownMsg
  | AuthResponseMsg
  | Envelope_LedgerChannelProposalMsg (msg : LedgerChannelProposalMsg)
  | Envelope_LedgerChannelProposalAccMsg (msg : LedgerChannelProposalAccMsg)
  | SubChannelProposalMsg
  | SubChannelProposalAccMsg
  | VirtualChannelProposalMsg
  | VirtualChannelProposalAccMsg
  | Envelope_ChannelProposalRejMsg (msg : ChannelProposalRejMsg)
  | Envelope_ChannelUpdateMsg (msg : ChannelUpdateMsg)
  | VirtualChannelFundingProposalMsg
  | VirtualChannelSettlementProposalMsg
  | Envelope_ChannelUpdateAccMsg (msg : ChannelUpdateAccMsg)
  | Envelope_ChannelUpdateRejMsg (msg : ChannelUpdateRejMsg)
  | ChannelSyncMsg.

Record Envelope : Type := mkEnvelope {
  Envelope_sender : bytes;
  Envelope_recipient : bytes;
  Envelope_msg : option envelope_Msg;
}.

End perunwire.
