(* ===== verification/Instances.v ===== *)
(** * Concrete instances of the external crates

    Small executable implementations of the interfaces of Types.v, which show
    that their laws can hold and on which the theorems are applied to concrete
    inputs: 256-bit integers as bounded [Z], and a hash function that collects
    its input and reduces it modulo a prime (not a secure one). *)
From S2P Require Import Prelude Types.

Module ToyUint.

Record u256 : Type := MkU256 { val : Z; val_fits : bool_decide (fits 256 val) }.

Definition mk (z : Z) (H : fits 256 z) : u256 := MkU256 z (bool_decide_pack _ H).

Lemma val_range (x : u256) : fits 256 (val x).
Proof. apply (bool_decide_unpack _ (val_fits x)). Qed.

Lemma val_inj (x y : u256) : val x = val y -> x = y.
Proof. destruct x, y; cbn; intros ->. f_equal. apply proof_irrel. Qed.

Definition of_Z {E} (z : Z) : res E u256 :=
  match decide (fits 256 z) with left H => Ok (mk z H) | right _ => Panic end.

Lemma zero_fits : fits 256 0.
Proof. done. Qed.

Definition wrap (z : Z) : u256 :=
  match decide (fits 256 z) with left H => mk z H | right _ => mk 0 zero_fits end.

#[export] Instance u256_eq_dec : EqDecision u256.
Proof.
  refine (fun x y => cast_if (decide (val x = val y))).
  - by apply val_inj.
  - by intros ->.
Defined.

Definition from_bytes {E} (b : bytes) : res E u256 :=
  if decide (zlen b <= 32) then Ok (wrap (be_val b)) else Panic.

#[export] Instance toy_uint : UintCrate := {|
  U256 := u256;
  U256_default := wrap 0;
  U256_from := wrap;
  U256_add := fun E x y => of_Z (val x + val y);
  U256_sub := fun E x y => of_Z (val x - val y);
  U256_lt := fun x y => bool_decide (val x < val y);
  U256_eq_dec := u256_eq_dec;
  to_big_endian := fun x => be_bytes 32 (val x);
  from_big_endian := @from_bytes;
|}.

Lemma of_Z_spec E z :
  match @of_Z E z with
  | Ok x => val x = z
  | Err _ => False
  | Panic => ~ fits 256 z
  end.
Proof. unfold of_Z. by destruct (decide (fits 256 z)). Qed.

Lemma val_wrap z : fits 256 z -> val (wrap z) = z.
Proof. intros H. unfold wrap. by destruct (decide (fits 256 z)). Qed.

Lemma be_val_fits b : zlen b <= 32 -> fits 256 (be_val b).
Proof.
  intros Hb. pose proof (be_val_range b) as H.
  assert (256 ^ zlen b <= 256 ^ 32) by (apply Z.pow_le_mono_r; lia).
  change (256 ^ 32) with (2 ^ 256) in *. unfold fits. lia.
Qed.

#[export] Instance toy_uint_laws : UintLaws toy_uint.
Proof.
  unshelve refine {| u256_val := fun x : @U256 toy_uint => val x |}.
  - exact val_range.
  - exact val_inj.
  - done.
  - intros z Hz. apply val_wrap. assert (2 ^ 64 < 2 ^ 256) by done. unfold fits in *. lia.
  - intros E x y. cbn. pose proof (of_Z_spec E (val x + val y)) as H.
    pose proof (val_range x). pose proof (val_range y). destruct (of_Z _); [done|done|]. unfold fits in *. lia.
  - intros E x y. cbn. pose proof (of_Z_spec E (val x - val y)) as H.
    pose proof (val_range x). pose proof (val_range y). destruct (of_Z _); [done|done|]. unfold fits in *. lia.
  - done.
  - done.
  - intros E b. cbn. unfold from_bytes. case_decide; [|lia]. split; [done|].
    apply val_wrap, be_val_fits. done.
Defined.

End ToyUint.

Module ToyHash.

Lemma be_bytes_32 z : length (be_bytes 32 z) = 32%nat.
Proof. apply be_bytes_length. Qed.

(** A polynomial in [m] over the bytes, in 64 bits. *)
Definition sum (m : Z) (b : bytes) : array byte 32 :=
  mk_array (be_bytes 32 (foldl (fun h x => Z.land (h * m + byte_to_Z x) (2 ^ 64 - 1)) 1 b)) (be_bytes_32 _).

Definition toy_digest (m : Z) : Digest := {|
  Hasher := bytes;
  hasher_new := [];
  hasher_update := fun h b => h ++ b;
  hasher_finalize := sum m;
  digest := sum m;
|}.

#[export] Instance toy_digest_laws m : DigestLaws (toy_digest m).
Proof.
  intros chunks. cbn. f_equal. rewrite <- (app_nil_l (concat chunks)).
  generalize ([] : bytes). induction chunks as [|b l IH]; intros h; cbn; [by rewrite app_nil_r|].
  by rewrite IH, <- app_assoc.
Qed.

#[export] Instance toy_sha3 : Sha3Crate := {|
  Keccak256 := toy_digest 1099511628211;
  Sha3_256 := toy_digest 1000003;
|}.

#[export] Instance toy_sha3_laws : Sha3Laws toy_sha3.
Proof. split; apply toy_digest_laws. Qed.

End ToyHash.
