(* ===== verification/Payment.v ===== *)
(** * Fixed-size payment channels: the data

    Model of src/src/channel/fixed_size_payment.rs (with [Asset] of
    src/src/channel.rs and [ConversionError] of src/src/messages.rs): the
    parameters and the state of a channel with [A] assets and [P] participants,
    their Solidity encoding, and the conversions from and to the protobuf
    messages.  The theorems are in PaymentTheorems.v. *)
From S2P Require Import Prelude AbiSpec AbiSer AbiRefine Types PerunWire.

Inductive ConversionError : Type :=
  | ParticipantSizeMissmatch
  | AssetSizeMissmatch
  | ByteLengthMissmatch
  | ExptectedSome
  | StateChannelsNotSupported.

(** [.try_into().or(Err(ConversionError::ByteLengthMissmatch))?] on a vector
    of bytes. *)
Definition bytes_try_into {N} (b : bytes) : res ConversionError (bytesN N) :=
  ok_or ByteLengthMissmatch (array_try_from b).

(** [.ok_or(ConversionError::ExptectedSome)?]. *)
Definition expect_some {A} (o : option A) : res ConversionError A := ok_or ExptectedSome o.

Record Asset : Type := mkAsset { holder : Address }.
#[export] Instance Asset_eq_dec : EqDecision Asset.
Proof. solve_decision. Defined.
Definition Asset_default : Asset := mkAsset Address_default.
#[export] Instance Asset_ToValue : ToValue Asset :=
  fun self => VStruct "Asset" [("holder", to_value (holder self))].

Section Data.
Context `{U : UintCrate}.

Record Params (P : nat) : Type := mkParams {
  challenge_duration : u64;
  nonce : U256;
  participants : array Address P;
  app : Address;
  ledger_channel : bool;
  virtual_channel : bool;
}.

(** [struct ParticipantBalances<P>(pub [U256; P])]. *)
Record ParticipantBalances (P : nat) : Type := mkParticipantBalances { part_bals : array U256 P }.

(** [struct Balances<A, P>(pub [ParticipantBalances<P>; A])]. *)
Record Balances (A P : nat) : Type := mkBalances { asset_bals : array (ParticipantBalances P) A }.

Record Allocation (A P : nat) : Type := mkAllocation {
  assets : array Asset A;
  balances : Balances A P;
  locked : array unit 0;
}.

Record State (A P : nat) : Type := mkState {
  id : Hash;
  version : u64;
  outcome : Allocation A P;
  app_data : array byte 0;
  is_final : bool;
}.

End Data.

Arguments mkParams {U P} _ _ _ _ _ _.
Arguments challenge_duration {U P} _.
Arguments nonce {U P} _.
Arguments participants {U P} _.
Arguments app {U P} _.
Arguments ledger_channel {U P} _.
Arguments virtual_channel {U P} _.
Arguments mkParticipantBalances {U P} _.
Arguments part_bals {U P} _.
Arguments mkBalances {U A P} _.
Arguments asset_bals {U A P} _.
Arguments mkAllocation {U A P} _ _ _.
Arguments assets {U A P} _.
Arguments balances {U A P} _.
Arguments locked {U A P} _.
Arguments mkState {U A P} _ _ _ _ _.
Arguments id {U A P} _.
Arguments version {U A P} _.
Arguments outcome {U A P} _.
Arguments app_data {U A P} _.
Arguments is_final {U A P} _.

Section Operations.
Context `{Pl : Platform} `{U : UintCrate} `{S : Sha3Crate}.

(** ** The serde encodings *)

#[export] Instance Params_ToValue P : ToValue (Params P) := fun self =>
  VStruct "Params" [
    ("challenge_duration", VU64 (u64_val (challenge_duration self)));
    ("nonce", to_value (nonce self));
    ("participants", as_dyn_array (to_value <$> to_vec (participants self)));
    ("app", to_value (app self));
    ("ledger_channel", to_value (ledger_channel self));
    ("virtual_channel", to_value (virtual_channel self))].

#[export] Instance ParticipantBalances_ToValue P : ToValue (ParticipantBalances P) := fun self =>
  as_dyn_array (to_value <$> to_vec (part_bals self)).

#[export] Instance Balances_ToValue A P : ToValue (Balances A P) := fun self =>
  as_dyn_array (to_value <$> to_vec (asset_bals self)).

#[export] Instance Allocation_ToValue A P : ToValue (Allocation A P) := fun self =>
  VStruct "Allocation" [
    ("assets", as_dyn_array (to_value <$> to_vec (assets self)));
    ("balances", to_value (balances self));
    ("locked", as_dyn_array ((fun _ => VUnit) <$> to_vec (locked self)))].

#[export] Instance State_ToValue A P : ToValue (State A P) := fun self =>
  VStruct "State" [
    ("id", to_value (id self));
    ("version", VU64 (u64_val (version self)));
    ("outcome", to_value (outcome self));
    ("app_data", as_bytes (to_vec (app_data self)));
    ("is_final", to_value (is_final self))].

(** ** Operations *)

Definition channel_id {P} (self : Params P) : res Error Hash := to_hash (to_value self).

(** The two loops of [total_assets]. *)
Definition add_balances {E} (total : U256) (bals : list U256) : res E U256 :=
  foldl (fun acc amt => total ← acc; U256_add total amt) (Ok total) bals.

Definition total_assets {E A P} (self : Allocation A P) : res E (array U256 A) :=
  array_mapM (fun bals => add_balances (U256_from 0) (to_vec (part_bals bals)))
    (asset_bals (balances self)).

Definition MAX_NUM_ASSETS : Z := 1024.
Definition MAX_NUM_PARTICIPANTS : Z := 1024.

Definition debug_assert_valid {E A P} (self : Allocation A P) : res E unit :=
  debug_assert (bool_decide (to_vec (assets self) <> []));;
  debug_assert (bool_decide (to_vec (asset_bals (balances self)) <> []));;
  debug_assert (bool_decide (zlen (to_vec (assets self)) <= MAX_NUM_ASSETS));;
  debug_assert (bool_decide (zlen (to_vec (locked self)) <= MAX_NUM_ASSETS));;
  debug_assert (bool_decide (zlen (to_vec (assets self)) = zlen (to_vec (asset_bals (balances self)))));;
  b0 ← array_index (asset_bals (balances self)) 0;
  let num_parts := zlen (to_vec (part_bals b0)) in
  debug_assert (bool_decide (0 < num_parts));;
  debug_assert (bool_decide (num_parts <= MAX_NUM_PARTICIPANTS));;
  debug_assert (forallb (fun b => bool_decide (zlen (to_vec (part_bals b)) = num_parts))
    (to_vec (asset_bals (balances self))));;
  debug_assert (bool_decide (to_vec (locked self) = [])).

(** [State::new]. *)
Definition State_new {A P} (params : Params P) (init_bals : Allocation A P)
    : res Error (State A P) :=
  debug_assert_valid init_bals;;
  b0 ← array_index (asset_bals (balances init_bals)) 0;
  debug_assert (bool_decide (zlen (to_vec (participants params)) = zlen (to_vec (part_bals b0))));;
  cid ← channel_id params;
  Ok (mkState cid (u64_wrap 0) init_bals (mk_array [] eq_refl) false).

Definition make_next_state {E A P} (self : State A P) : res E (State A P) :=
  v ← u64_add (version self) (u64_wrap 1);
  Ok (mkState (id self) v (outcome self) (app_data self) (is_final self)).

(** [Allocation::new]. *)
Definition Allocation_new {A P} (assets : array Asset A) (balances : Balances A P) : Allocation A P :=
  mkAllocation assets balances (mk_array [] eq_refl).

(** ** Defaults *)

Definition ParticipantBalances_default {P} : ParticipantBalances P :=
  mkParticipantBalances (array_repeat P U256_default).
Definition Balances_default {A P} : Balances A P :=
  mkBalances (array_repeat A ParticipantBalances_default).

(** ** Conversions from and to the protobuf messages *)

(** [to_big_endian] into a fresh 32-byte buffer. *)
Definition ParticipantBalances_into {P} (value : ParticipantBalances P) : perunwire.Balance :=
  perunwire.mkBalance (to_big_endian <$> to_vec (part_bals value)).

Definition ParticipantBalances_try_from {P} (value : perunwire.Balance)
    : res ConversionError (ParticipantBalances P) :=
  if decide (zlen (perunwire.Balance_balance value) <> Z.of_nat P) then Err ParticipantSizeMissmatch
  else
    bals ← array_fill from_big_endian (part_bals (ParticipantBalances_default (P:=P)))
             (perunwire.Balance_balance value);
    Ok (mkParticipantBalances bals).

Definition Balances_into {A P} (value : Balances A P) : perunwire.Balances :=
  perunwire.mkBalances (ParticipantBalances_into <$> to_vec (asset_bals value)).

Definition Balances_try_from {A P} (value : perunwire.Balances) : res ConversionError (Balances A P) :=
  if decide (zlen (perunwire.Balances_balances value) <> Z.of_nat A) then Err AssetSizeMissmatch
  else
    bals ← array_fill ParticipantBalances_try_from (asset_bals (Balances_default (A:=A) (P:=P)))
             (perunwire.Balances_balances value);
    Ok (mkBalances bals).

Definition Asset_into (a : Asset) : bytes := to_vec (addr_bytes (holder a)).

(** [u16::from_le_bytes]. *)
Definition u16_from_le_bytes (b0 b1 : byte) : Z := byte_to_Z b0 + 256 * byte_to_Z b1.

(** The body of the loop over the assets: a length of two bytes, then the
    holder; [copy_from_slice] panics unless the rest is 20 bytes. *)
Definition Asset_try_from (b : bytes) : res ConversionError Asset :=
  match b with
  | b0 :: b1 :: rest =>
      let holder_length := u16_from_le_bytes b0 b1 in
      if decide (holder_length > 20) then Err ByteLengthMissmatch
      else if decide (holder_length > 0) then
        h ← unwrap (array_try_from rest); Ok (mkAsset (mkAddress h))
      else Ok (mkAsset Address_default)
  | _ => Err ByteLengthMissmatch
  end.

Definition Allocation_into {A P} (value : Allocation A P) : perunwire.Allocation :=
  perunwire.mkAllocation (Asset_into <$> to_vec (assets value))
    (Some (Balances_into (balances value))) [].

Definition Allocation_try_from {A P} (value : perunwire.Allocation)
    : res ConversionError (Allocation A P) :=
  assets ← array_fill Asset_try_from (array_repeat A Asset_default) (perunwire.Allocation_assets value);
  bals ← expect_some (perunwire.Allocation_balances value);
  balances ← Balances_try_from bals;
  Ok (mkAllocation assets balances (mk_array [] eq_refl)).

Definition Params_into {E P} (value : Params P) : res E perunwire.Params :=
  cid ← expect (channel_id value);
  Ok (perunwire.mkParams (to_vec cid) (challenge_duration value)
        ((fun a => to_vec (addr_bytes a)) <$> to_vec (participants value)) []
        (to_big_endian (nonce value)) (ledger_channel value) (virtual_channel value)).

Definition Address_try_from (b : bytes) : res ConversionError Address :=
  mkAddress <$> bytes_try_into b.

Definition Params_try_from {P} (value : perunwire.Params) : res ConversionError (Params P) :=
  participants ← array_fill Address_try_from (array_repeat P Address_default)
                   (perunwire.Params_parts value);
  nonce ← from_big_endian (perunwire.Params_nonce value);
  Ok (mkParams (perunwire.Params_challenge_duration value) nonce participants
        (mkAddress (array_repeat 20 x00))
        (perunwire.Params_ledger_channel value) (perunwire.Params_virtual_channel value)).

Definition State_into {A P} (value : State A P) : perunwire.State :=
  perunwire.mkState (to_vec (id value)) (version value) [] (Some (Allocation_into (outcome value)))
    (to_vec (app_data value)) (is_final value).

Definition State_try_from {A P} (value : perunwire.State) : res ConversionError (State A P) :=
  if decide (perunwire.State_data value <> []) then Err StateChannelsNotSupported
  else
    id ← bytes_try_into (perunwire.State_id value);
    alloc ← expect_some (perunwire.State_allocation value);
    outcome ← Allocation_try_from alloc;
    Ok (mkState id (perunwire.State_version value) outcome (mk_array [] eq_refl)
          (perunwire.State_is_final value)).

End Operations.
