(* ===== verification/PaymentTheorems.v ===== *)
(** * Fixed-size payment channels: theorems

    The Solidity type of the state and the parameters, their size, and with it
    that hashing them cannot fail; that the encoding determines the state; what
    [total_assets] and [make_next_state] compute; and which of the conversions
    from and to protobuf messages are inverse. *)
From S2P Require Import Prelude AbiSpec AbiInjective AbiSer AbiRefine Types PerunWire.
From S2P Require Import Instances Payment.

(** A number of assets or participants within go-perun's limit, the one
    [debug_assert_valid] asserts. *)
Class Dim (N : nat) : Prop := dim_le : Z.of_nat N <= MAX_NUM_PARTICIPANTS.
#[export] Instance Dim_1 : Dim 1. Proof. done. Qed.
#[export] Instance Dim_2 : Dim 2. Proof. done. Qed.

Lemma zlen_to_vec {A N} (a : array A N) : zlen (to_vec a) = Z.of_nat N.
Proof. unfold zlen. by rewrite array_length. Qed.

Lemma zlen_fmap {A B} (f : A -> B) l : zlen (f <$> l) = zlen l.
Proof. unfold zlen. by rewrite length_fmap. Qed.

Lemma Dim_usize `{Pl : Platform} {A} N `{!Dim N} (a : array A N) :
  zlen (to_vec a) < 2 ^ usize_bits.
Proof. rewrite zlen_to_vec. pose proof usize_pow_ge. unfold Dim, MAX_NUM_PARTICIPANTS in *. lia. Qed.

(* ------------------------------------------------------------------ *)
(** ** Solidity types                                                    *)
(* ------------------------------------------------------------------ *)

Lemma list_represents `{Pl : Platform} {A} `{SolType A} (l : list A) :
  Forall2 represents (to_value <$> l) (to_abi <$> l).
Proof. induction l; constructor; [apply to_value_represents|done]. Qed.

Lemma array_represents `{Pl : Platform} {A N} `{SolType A} `{!Dim N} (a : array A N) :
  represents (as_dyn_array (to_value <$> to_vec a)) (AArray (to_abi <$> to_vec a)).
Proof. apply rep_seq; [rewrite zlen_fmap; by apply Dim_usize|apply list_represents]. Qed.

#[export] Instance Asset_SolType : SolType Asset.
Proof.
  refine {| to_abi := fun a : Asset => ATuple [to_abi (holder a)] |}.
  intros Pl a. apply rep_struct. constructor; [apply to_value_represents|constructor].
Defined.

Section SolTypes.
Context `{U : UintCrate} `{L : !UintLaws U}.

#[export] Instance ParticipantBalances_SolType P `{!Dim P} : SolType (ParticipantBalances P).
Proof.
  refine {| to_abi := fun b : ParticipantBalances P => AArray (to_abi <$> to_vec (part_bals b)) |}.
  intros Pl b. apply array_represents.
Defined.

#[export] Instance Balances_SolType A P `{!Dim A, !Dim P} : SolType (Balances A P).
Proof.
  refine {| to_abi := fun b : Balances A P => AArray (to_abi <$> to_vec (asset_bals b)) |}.
  intros Pl b. apply array_represents.
Defined.

#[export] Instance Allocation_SolType A P `{!Dim A, !Dim P} : SolType (Allocation A P).
Proof.
  refine {| to_abi := fun a : Allocation A P =>
    ATuple [AArray (to_abi <$> to_vec (assets a)); to_abi (balances a); AArray []] |}.
  intros Pl a. apply rep_struct. repeat apply List.Forall2_cons; cbn [snd]; [| | |constructor].
  - apply array_represents.
  - apply to_value_represents.
  - pose proof (array_length (locked a)) as Hl. destruct (to_vec (locked a)); [|done].
    apply rep_seq; [|constructor]. pose proof usize_pow_ge. unfold zlen; cbn [length fmap list_fmap]. lia.
Defined.

#[export] Instance Params_SolType P `{!Dim P} : SolType (Params P).
Proof.
  refine {| to_abi := fun p : Params P =>
    ATuple [AUint (u64_val (challenge_duration p)); to_abi (nonce p);
            AArray (to_abi <$> to_vec (participants p)); to_abi (app p);
            to_abi (ledger_channel p); to_abi (virtual_channel p)] |}.
  intros Pl p. apply rep_struct. repeat apply List.Forall2_cons; cbn [snd]; [| | | | | |constructor];
    try apply to_value_represents.
  - apply rep_u64, u64_range.
  - apply array_represents.
Defined.

#[export] Instance State_SolType A P `{!Dim A, !Dim P} : SolType (State A P).
Proof.
  refine {| to_abi := fun s : State A P =>
    ATuple [to_abi (id s); AUint (u64_val (version s)); to_abi (outcome s);
            ABytes (to_vec (app_data s)); to_abi (is_final s)] |}.
  intros Pl s. apply rep_struct. repeat apply List.Forall2_cons; cbn [snd]; [| | | | |constructor];
    try apply to_value_represents.
  - apply rep_u64, u64_range.
  - apply rep_bytes. rewrite zlen_to_vec. done.
Defined.

End SolTypes.

(* ------------------------------------------------------------------ *)
(** ** Sizes                                                             *)
(* ------------------------------------------------------------------ *)

(** Parts of one kind and size. *)
Lemma zlen_enc_parts_all d k (xs : list abi) :
  Forall (fun x => abi_dynamic x = d /\ zlen (abi_enc x) = k) xs ->
  zlen (enc_parts (parts_of xs)) = zlen xs * (if d : bool then 32 + k else k).
Proof.
  intros H. rewrite zlen_enc_parts. induction H as [|x xs [Hd Hk] H IH]; [by destruct d|].
  cbn [fmap list_fmap]. rewrite sum_Z_cons, IH, zlen_cons.
  unfold part_head_len, part_tail. cbn [fst snd]. rewrite Hd. destruct d; rewrite ?Hk, ?zlen_nil; nia.
Qed.

Section Sizes.
Context `{U : UintCrate} `{L : !UintLaws U}.

Lemma participant_balances_size P `{!Dim P} (b : ParticipantBalances P) :
  zlen (abi_enc (to_abi b)) = 32 + 32 * Z.of_nat P.
Proof.
  cbn [to_abi ParticipantBalances_SolType abi_enc]. rewrite zlen_app, zlen_word.
  rewrite (zlen_enc_parts_all false 32), zlen_fmap, zlen_to_vec; [lia|].
  apply Forall_fmap, Forall_true. intros u. split; [done|apply zlen_word].
Qed.

Lemma balances_size A P `{!Dim A, !Dim P} (b : Balances A P) :
  zlen (abi_enc (to_abi b)) = 32 + Z.of_nat A * (64 + 32 * Z.of_nat P).
Proof.
  cbn [to_abi Balances_SolType abi_enc]. rewrite zlen_app, zlen_word.
  rewrite (zlen_enc_parts_all true (32 + 32 * Z.of_nat P)), zlen_fmap, zlen_to_vec; [lia|].
  apply Forall_fmap, Forall_true. intros x. split; [done|apply participant_balances_size].
Qed.

(** The size of a tuple from those of its components. *)
Lemma tuple_size xs :
  zlen (abi_enc (ATuple xs)) =
  sum_Z ((fun x => (if abi_dynamic x then 32 else 0) + zlen (abi_enc x)) <$> xs).
Proof.
  cbn [abi_enc]. rewrite zlen_enc_parts. induction xs as [|x xs IH]; [done|].
  cbn [fmap list_fmap]. rewrite !sum_Z_cons, IH. unfold part_head_len, part_tail. cbn [fst snd].
  destruct (abi_dynamic x); unfold zlen; cbn [length]; lia.
Qed.

Lemma assets_size N (a : array Asset N) :
  zlen (abi_enc (AArray (to_abi <$> to_vec a))) = 32 + 32 * Z.of_nat N.
Proof.
  cbn [abi_enc]. rewrite zlen_app, zlen_word.
  rewrite (zlen_enc_parts_all false 32), zlen_fmap, zlen_to_vec; [lia|].
  apply Forall_fmap, Forall_true. intros u. split; [done|]. unfold compose. cbn [to_abi Asset_SolType].
  rewrite tuple_size. cbn [fmap list_fmap]. rewrite sum_Z_cons. cbn [to_abi Address_SolType abi_dynamic abi_enc].
  by rewrite zlen_word.
Qed.

Lemma addresses_size N (a : array Address N) :
  zlen (abi_enc (AArray (to_abi <$> to_vec a))) = 32 + 32 * Z.of_nat N.
Proof.
  cbn [abi_enc]. rewrite zlen_app, zlen_word.
  rewrite (zlen_enc_parts_all false 32), zlen_fmap, zlen_to_vec; [lia|].
  apply Forall_fmap, Forall_true. intros u. split; [done|apply zlen_word].
Qed.

Lemma allocation_size A P `{!Dim A, !Dim P} (a : Allocation A P) :
  zlen (abi_enc (to_abi a)) = 192 + Z.of_nat A * (96 + 32 * Z.of_nat P).
Proof.
  change (to_abi a) with (ATuple [AArray (to_abi <$> to_vec (assets a)); to_abi (balances a); AArray []]).
  rewrite tuple_size. cbn [fmap list_fmap]. rewrite !sum_Z_cons, assets_size, balances_size.
  change (abi_dynamic (to_abi (balances a))) with true. change (zlen (abi_enc (AArray []))) with 32.
  cbn [abi_dynamic]. change (sum_Z []) with 0. lia.
Qed.

Lemma hash_size (h : Hash) : zlen (abi_enc (to_abi h)) = 32.
Proof.
  cbn [to_abi Bytes32_SolType abi_enc]. unfold pad32.
  by rewrite zlen_app, zlen_padding, zlen_to_vec.
Qed.

Lemma state_size A P `{!Dim A, !Dim P} (s : State A P) :
  zlen (abi_enc (to_abi s)) = 384 + Z.of_nat A * (96 + 32 * Z.of_nat P).
Proof.
  change (to_abi s) with (ATuple [to_abi (id s); AUint (u64_val (version s)); to_abi (outcome s);
            ABytes (to_vec (app_data s)); to_abi (is_final s)]).
  rewrite tuple_size. cbn [fmap list_fmap]. rewrite !sum_Z_cons, allocation_size, hash_size.
  change (abi_dynamic (to_abi (outcome s))) with true.
  change (abi_dynamic (to_abi (id s))) with false. change (abi_dynamic (to_abi (is_final s))) with false.
  cbn [abi_dynamic]. change (sum_Z []) with 0.
  assert (zlen (abi_enc (ABytes (to_vec (app_data s)))) = 32) as ->.
  { cbn [abi_enc]. unfold pad32. by rewrite !zlen_app, zlen_word, zlen_padding, zlen_to_vec. }
  assert (zlen (abi_enc (to_abi (is_final s))) = 32) as -> by apply zlen_word.
  cbn [abi_enc]. rewrite zlen_word. lia.
Qed.

Lemma params_size P `{!Dim P} (p : Params P) :
  zlen (abi_enc (to_abi p)) = 224 + 32 * Z.of_nat P.
Proof.
  change (to_abi p) with (ATuple [AUint (u64_val (challenge_duration p)); to_abi (nonce p);
            AArray (to_abi <$> to_vec (participants p)); to_abi (app p);
            to_abi (ledger_channel p); to_abi (virtual_channel p)]).
  rewrite tuple_size. cbn [fmap list_fmap]. rewrite !sum_Z_cons, addresses_size.
  cbn [to_abi U256_SolType Address_SolType bool_SolType abi_dynamic abi_enc].
  rewrite !zlen_word. change (sum_Z []) with 0. lia.
Qed.

End Sizes.

Lemma dims_bound A P `{!Dim A, !Dim P} `{Pl : Platform} :
  384 + Z.of_nat A * (96 + 32 * Z.of_nat P) < 2 ^ usize_bits.
Proof.
  pose proof usize_pow_ge. change (2 ^ 32) with 4294967296 in *.
  unfold Dim, MAX_NUM_PARTICIPANTS in *. nia.
Qed.

Section Hashing.
Context `{Pl : Platform} `{U : UintCrate} `{L : !UintLaws U} `{S : Sha3Crate} `{HS : !Sha3Laws S}.

Lemma state_hash A P `{!Dim A, !Dim P} (s : State A P) :
  to_hash (to_value s) = Ok (digest (Digest:=Keccak256) (abi_encode (to_abi s))).
Proof. apply to_hash_ok. rewrite state_size. apply dims_bound; apply _. Qed.

Lemma params_hash P `{!Dim P} (p : Params P) :
  channel_id p = Ok (digest (Digest:=Keccak256) (abi_encode (to_abi p))).
Proof.
  apply to_hash_ok. rewrite params_size. pose proof usize_pow_ge.
  unfold Dim, MAX_NUM_PARTICIPANTS in *. lia.
Qed.

End Hashing.

(* ------------------------------------------------------------------ *)
(** ** The encoding determines the value                                 *)
(* ------------------------------------------------------------------ *)

(** A Rust type all of whose values have the same Solidity type, with
    different values for different elements. *)
Class UniformType (A : Type) `{SolType A} : Prop := {
  uniform_same_type (x y : A) : same_type (to_abi x) (to_abi y);
  to_abi_inj (x y : A) : to_abi x = to_abi y -> x = y;
}.

Lemma list_same_type `{UniformType A} (l k : list A) :
  length l = length k -> Forall2 same_type (to_abi <$> l) (to_abi <$> k).
Proof.
  revert k. induction l as [|x l IH]; intros [|y k] Hl; try done; cbn [fmap list_fmap]; constructor.
  - apply uniform_same_type.
  - apply IH. by injection Hl.
Qed.

Lemma list_to_abi_inj `{UniformType A} (l k : list A) : to_abi <$> l = to_abi <$> k -> l = k.
Proof.
  revert k. induction l as [|x l IH]; intros [|y k] Hl; try done.
  cbn in Hl. injection Hl as Hx Hl. apply to_abi_inj in Hx as ->. f_equal. by apply IH.
Qed.

Lemma array_same_type `{UniformType A} {N} (a b : array A N) :
  same_type (AArray (to_abi <$> to_vec a)) (AArray (to_abi <$> to_vec b)).
Proof. constructor. apply list_same_type. by rewrite !array_length. Qed.

Lemma array_to_abi_inj `{UniformType A} {N} (a b : array A N) :
  AArray (to_abi <$> to_vec a) = AArray (to_abi <$> to_vec b) -> a = b.
Proof. intros [= Hl%list_to_abi_inj]. by apply array_eq. Qed.

Lemma same_tuple_cons x y xs ys :
  same_type x y -> same_type (ATuple xs) (ATuple ys) -> same_type (ATuple (x :: xs)) (ATuple (y :: ys)).
Proof. intros Hx H. inversion H; subst. by repeat constructor. Qed.

Lemma same_tuple_nil : same_type (ATuple []) (ATuple []).
Proof. repeat constructor. Qed.

#[export] Instance Address_Uniform : UniformType Address.
Proof.
  split; intros x y; cbn.
  - assert (2 ^ 160 < 2 ^ 256) by done.
    pose proof (address_val_range x); pose proof (address_val_range y).
    constructor; unfold fits in *; lia.
  - intros [= H]. by apply address_val_inj.
Qed.

#[export] Instance Hash_Uniform : UniformType Hash.
Proof.
  split; intros x y; cbn.
  - constructor. by rewrite !array_length.
  - intros [= H]. by apply array_eq.
Qed.

#[export] Instance bool_Uniform : UniformType bool.
Proof. split; intros [] []; cbn; try done; constructor; done. Qed.

#[export] Instance Asset_Uniform : UniformType Asset.
Proof.
  split; intros [x] [y]; cbn [to_abi Asset_SolType holder].
  - apply same_tuple_cons; [apply uniform_same_type|apply same_tuple_nil].
  - intros H. injection H as H. f_equal. by apply address_val_inj.
Qed.

Lemma u64_same_type (x y : u64) : same_type (AUint (u64_val x)) (AUint (u64_val y)).
Proof.
  assert (2 ^ 64 < 2 ^ 256) by done.
  pose proof (u64_range x); pose proof (u64_range y). constructor; unfold fits in *; lia.
Qed.

Section Uniform.
Context `{U : UintCrate} `{L : !UintLaws U}.

#[export] Instance U256_Uniform : UniformType U256.
Proof.
  split; intros x y; cbn.
  - constructor; apply u256_range.
  - intros [= H]. by apply u256_inj.
Qed.

#[export] Instance ParticipantBalances_Uniform P `{!Dim P} : UniformType (ParticipantBalances P).
Proof.
  split; intros [x] [y].
  - apply array_same_type.
  - intros H. f_equal. by apply array_to_abi_inj.
Qed.

#[export] Instance Balances_Uniform A P `{!Dim A, !Dim P} : UniformType (Balances A P).
Proof.
  split; intros [x] [y].
  - apply array_same_type.
  - intros H. f_equal. by apply array_to_abi_inj.
Qed.

Lemma empty_array_eq {A} (x y : array A 0) : x = y.
Proof.
  apply array_eq. pose proof (array_length x). pose proof (array_length y).
  destruct (to_vec x), (to_vec y); done.
Qed.

#[export] Instance Allocation_Uniform A P `{!Dim A, !Dim P} : UniformType (Allocation A P).
Proof.
  split; intros [a b c] [a' b' c']; cbn [to_abi Allocation_SolType assets balances].
  - repeat apply same_tuple_cons; [apply array_same_type|apply uniform_same_type| |apply same_tuple_nil].
    repeat constructor.
  - intros H. injection H as Ha Hb. assert (to_vec a = to_vec a') as Ha' by exact (list_to_abi_inj (to_vec a)
    (to_vec a') Ha).
    f_equal; [by apply array_eq| |apply empty_array_eq].
    apply to_abi_inj. cbn. by f_equal.
Qed.

#[export] Instance Params_Uniform P `{!Dim P} : UniformType (Params P).
Proof.
  split; intros [a b c d e f] [a' b' c' d' e' f']; cbn [to_abi Params_SolType challenge_duration nonce
    participants app ledger_channel virtual_channel].
  - repeat apply same_tuple_cons; try apply uniform_same_type;
      [apply u64_same_type|apply array_same_type|apply same_tuple_nil].
  - intros H. injection H as Ha Hb Hc Hd He Hf. f_equal.
    + by apply u64_eq.
    + by apply u256_inj.
    + apply array_eq. exact (list_to_abi_inj (to_vec c) (to_vec c') Hc).
    + by apply address_val_inj.
    + by destruct e, e'.
    + by destruct f, f'.
Qed.

#[export] Instance State_Uniform A P `{!Dim A, !Dim P} : UniformType (State A P).
Proof.
  split; intros [a b c d e] [a' b' c' d' e'].
  - apply same_tuple_cons; [apply uniform_same_type|].
    apply same_tuple_cons; [apply u64_same_type|].
    apply same_tuple_cons; [apply uniform_same_type|].
    apply same_tuple_cons; [constructor; by rewrite !array_length|].
    apply same_tuple_cons; [apply uniform_same_type|apply same_tuple_nil].
  - intros H. assert (to_abi c = to_abi c') as Hc by (injection H; intros; cbn; congruence).
    injection H as Ha Hb _ _ _ He. f_equal.
    + by apply array_eq.
    + by apply u64_eq.
    + by apply to_abi_inj.
    + apply empty_array_eq.
    + by destruct e, e'.
Qed.

End Uniform.

Lemma encode_inj `{UniformType A} (x y : A) :
  abi_encode (to_abi x) = abi_encode (to_abi y) -> x = y.
Proof. intros He. apply to_abi_inj, abi_encode_inj; [apply uniform_same_type|done]. Qed.

(* ------------------------------------------------------------------ *)
(** ** Totals                                                            *)
(* ------------------------------------------------------------------ *)

Section Totals.
Context `{U : UintCrate} `{L : !UintLaws U}.

(** The mathematical sum of a list of balances. *)
Definition balances_sum (bals : list U256) : Z := sum_Z (u256_val <$> bals).

Lemma balances_sum_cons x l : balances_sum (x :: l) = u256_val x + balances_sum l.
Proof. done. Qed.

Lemma balances_sum_nonneg l : 0 <= balances_sum l.
Proof.
  apply sum_Z_nonneg, Forall_fmap, Forall_true. intros x. pose proof (u256_range x). unfold fits, compose in *. lia.
Qed.

Lemma add_balances_panic {E} (bals : list U256) :
  foldl (fun acc amt => total ← acc; @U256_add _ E total amt) Panic bals = Panic.
Proof. induction bals; done. Qed.

(** The loop adds up, and panics exactly when the sum does not fit. *)
Lemma add_balances_spec {E} (total : U256) bals :
  match @add_balances _ E total bals with
  | Ok t => u256_val t = u256_val total + balances_sum bals
  | Err _ => False
  | Panic => 2 ^ 256 <= u256_val total + balances_sum bals
  end.
Proof.
  revert total. induction bals as [|x l IH]; intros total.
  - cbn. unfold balances_sum. cbn. lia.
  - unfold add_balances. cbn [foldl]. unfold mbind at 2, res_bind at 2.
    pose proof (u256_add_spec E total x) as Hadd. rewrite balances_sum_cons.
    destruct (U256_add total x) as [t| |]; [|done|].
    + specialize (IH t). unfold add_balances in IH. destruct (foldl _ _ _); [lia|done|lia].
    + rewrite add_balances_panic. pose proof (balances_sum_nonneg l). lia.
Qed.

Lemma add_balances_ok {E} total bals :
  u256_val total + balances_sum bals < 2 ^ 256 ->
  exists t, @add_balances _ E total bals = Ok t /\ u256_val t = u256_val total + balances_sum bals.
Proof.
  intros H. pose proof (@add_balances_spec E total bals) as Hs.
  destruct (add_balances total bals) as [t| |]; [by exists t|done|lia].
Qed.

(** The sums of an allocation, asset by asset. *)
Definition asset_sums {A P} (a : Allocation A P) : list Z :=
  (fun b => balances_sum (to_vec (part_bals b))) <$> to_vec (asset_bals (balances a)).

Lemma u256_zero_val : u256_val (U256_from 0) = 0.
Proof. by apply u256_from_val. Qed.

Lemma total_assets_sums {E A P} (a : Allocation A P) totals :
  @total_assets _ E A P a = Ok totals -> u256_val <$> to_vec totals = asset_sums a.
Proof.
  unfold total_assets. intros H%array_mapM_Ok. unfold asset_sums.
  induction H as [|b t l k Hb H IH]; [done|]. cbn. f_equal; [|done].
  pose proof (@add_balances_spec E (U256_from 0) (to_vec (part_bals b))) as Hs.
  rewrite Hb, u256_zero_val in Hs. lia.
Qed.

Lemma total_assets_ok {E A P} (a : Allocation A P) :
  Forall (fun s => s < 2 ^ 256) (asset_sums a) -> exists totals, @total_assets _ E A P a = Ok totals.
Proof.
  intros H. unfold total_assets, array_mapM.
  assert (exists l, mapM (fun b => @add_balances _ E (U256_from 0) (to_vec (part_bals b)))
    (to_vec (asset_bals (balances a))) = Ok l) as [l Hl].
  { unfold asset_sums in H. induction (to_vec (asset_bals (balances a))) as [|b l IH]; [by eexists|].
    cbn in H. apply Forall_cons_iff in H as [Hb H]. destruct (IH H) as [k Hk].
    destruct (@add_balances_ok E (U256_from 0) (to_vec (part_bals b))) as (t & Ht & _).
    { by rewrite u256_zero_val. }
    exists (t :: k). cbn. by rewrite Ht, Hk. }
  rewrite Hl. cbn. pose proof (mapM_length_Ok _ _ _ Hl) as Hlen. rewrite array_length in Hlen.
  unfold array_try_from. destruct (decide _); [by eexists|done].
Qed.

Lemma total_assets_overflow {E A P} (a : Allocation A P) :
  Exists (fun s => 2 ^ 256 <= s) (asset_sums a) -> @total_assets _ E A P a = Panic.
Proof.
  intros H. unfold total_assets, array_mapM, asset_sums in *.
  enough (mapM (fun b => @add_balances _ E (U256_from 0) (to_vec (part_bals b)))
    (to_vec (asset_bals (balances a))) = Panic) as -> by done.
  induction (to_vec (asset_bals (balances a))) as [|b l IH]; [by inversion H|].
  pose proof (@add_balances_spec E (U256_from 0) (to_vec (part_bals b))) as Hs. rewrite u256_zero_val in Hs.
  cbn [fmap list_fmap mapM] in H |- *. inversion H as [? ? Hb|? ? Hb]; subst.
  - destruct (add_balances _ _) as [t| |]; [|done|done]. pose proof (u256_range t). unfold fits in *. lia.
  - destruct (add_balances _ _); [|done|done]. cbn. by rewrite IH.
Qed.

End Totals.

(* ------------------------------------------------------------------ *)
(** ** Validity                                                          *)
(* ------------------------------------------------------------------ *)

Lemma debug_assert_true `{Pl : Platform} {E} b : b = true -> @debug_assert _ E b = Ok tt.
Proof. intros ->. unfold debug_assert. by destruct debug_build. Qed.

Lemma zlen_pos_ne {A} (l : list A) : 0 < zlen l -> l <> [].
Proof. by intros ? ->. Qed.

(** The assertions cannot fail on an allocation within go-perun's limits. *)
Lemma debug_assert_valid_ok `{Pl : Platform} `{U : UintCrate} {E A P} `{!Dim A, !Dim P}
    (a : Allocation A P) :
  (0 < A)%nat -> (0 < P)%nat -> @debug_assert_valid _ _ E A P a = Ok tt.
Proof.
  intros HA HP. unfold debug_assert_valid.
  destruct (@vec_index_in E _ (to_vec (asset_bals (balances a))) 0) as (b & Hb & Hi).
  { rewrite zlen_to_vec. lia. }
  unfold Dim, MAX_NUM_PARTICIPANTS, MAX_NUM_ASSETS in *.
  unfold array_index.
  repeat (rewrite debug_assert_true; [cbn [mbind res_bind]; rewrite ?Hi; cbn [mbind res_bind]|]).
  - done.
  - apply bool_decide_eq_true_2, zlen_pos_ne. rewrite zlen_to_vec. lia.
  - apply bool_decide_eq_true_2, zlen_pos_ne. rewrite zlen_to_vec. lia.
  - apply bool_decide_eq_true_2. by rewrite zlen_to_vec.
  - apply bool_decide_eq_true_2. by rewrite zlen_to_vec.
  - apply bool_decide_eq_true_2. by rewrite !zlen_to_vec.
  - apply bool_decide_eq_true_2. rewrite zlen_to_vec. lia.
  - apply bool_decide_eq_true_2. by rewrite zlen_to_vec.
  - apply forallb_forall. intros x _. apply bool_decide_eq_true_2. by rewrite !zlen_to_vec.
  - apply bool_decide_eq_true_2. pose proof (array_length (locked a)). by destruct (to_vec (locked a)).
Qed.

(** [State::new] on parameters and balances within the limits. *)
Lemma State_new_ok `{Pl : Platform} `{U : UintCrate} `{L : !UintLaws U} `{S : Sha3Crate} `{HS : !Sha3Laws S}
    {A P} `{!Dim A, !Dim P} (params : Params P) (init_bals : Allocation A P) :
  (0 < A)%nat -> (0 < P)%nat ->
  State_new params init_bals =
    Ok (mkState (digest (Digest:=Keccak256) (abi_encode (to_abi params))) (u64_wrap 0) init_bals
          (mk_array [] eq_refl) false).
Proof.
  intros HA HP. unfold State_new. rewrite debug_assert_valid_ok by done.
  destruct (@vec_index_in Error _ (to_vec (asset_bals (balances init_bals))) 0) as (b & Hb & Hi).
  { rewrite zlen_to_vec. lia. }
  unfold array_index. unfold mbind, res_bind. rewrite Hi.
  rewrite debug_assert_true by (apply bool_decide_eq_true_2; by rewrite !zlen_to_vec).
  by rewrite (params_hash P params).
Qed.

(* ------------------------------------------------------------------ *)
(** ** Conversions                                                       *)
(* ------------------------------------------------------------------ *)

Lemma bytes_try_into_to_vec {N} (b : bytesN N) : bytes_try_into (to_vec b) = Ok b.
Proof. unfold bytes_try_into. by rewrite array_try_from_to_vec. Qed.

Lemma Address_try_from_bytes a : Address_try_from (to_vec (addr_bytes a)) = Ok a.
Proof. unfold Address_try_from. rewrite bytes_try_into_to_vec. by destruct a. Qed.

Section Conversions.
Context `{U : UintCrate} `{L : !UintLaws U}.

Lemma from_to_big_endian {E} (x : U256) : @from_big_endian U E (to_big_endian x) = Ok x.
Proof.
  pose proof (from_big_endian_spec E (to_big_endian x)) as H.
  rewrite to_big_endian_spec in *. pose proof (u256_range x).
  destruct (from_big_endian _) as [y| |]; [|done|].
  - destruct H as [_ Hv]. f_equal. apply u256_inj. rewrite Hv, be_val_be_bytes.
    by apply Z.mod_small.
  - unfold zlen in H. rewrite be_bytes_length in H. lia.
Qed.

Lemma Forall2_fmap_id {A B} (f : A -> B) (g : B -> res ConversionError A) (l : list A) :
  (forall x, g (f x) = Ok x) -> Forall2 (fun x y => g x = Ok y) (f <$> l) l.
Proof. intros H. induction l; constructor; auto. Qed.

Lemma ParticipantBalances_roundtrip {P} (b : ParticipantBalances P) :
  ParticipantBalances_try_from (ParticipantBalances_into b) = Ok b.
Proof.
  unfold ParticipantBalances_try_from, ParticipantBalances_into. cbn [perunwire.Balance_balance].
  rewrite zlen_fmap, zlen_to_vec. case_decide as Hd; [done|].
  rewrite (array_fill_Ok _ _ (part_bals b)); [by destruct b|].
  apply (Forall2_fmap_id to_big_endian). intros x. apply from_to_big_endian.
Qed.

Lemma Balances_roundtrip {A P} (b : Balances A P) :
  Balances_try_from (Balances_into b) = Ok b.
Proof.
  unfold Balances_try_from, Balances_into. cbn [perunwire.Balances_balances].
  rewrite zlen_fmap, zlen_to_vec. case_decide as Hd; [done|].
  rewrite (array_fill_Ok _ _ (asset_bals b)); [by destruct b|].
  apply (Forall2_fmap_id ParticipantBalances_into). apply ParticipantBalances_roundtrip.
Qed.

(** What becomes of an asset that is sent and received. *)
Lemma Asset_try_from_into (a : Asset) :
  Asset_try_from (Asset_into a) = Ok a <-> a = Asset_default.
Proof.
  split; [|by intros ->].
  destruct a as [[[h Hh]]]. unfold Asset_into, Asset_try_from. cbn [holder addr_bytes to_vec].
  pose proof (bool_decide_unpack _ Hh) as Hl.
  destruct h as [|b0 [|b1 rest]]; [done|done|]. case_decide; [done|]. case_decide.
  - unfold array_try_from. destruct (decide (length rest = 20%nat)) as [Hr|]; [|done].
    cbn in Hl. lia.
  - intros He. by apply (f_equal (fun r => match r with Ok a => a | _ => Asset_default end)) in He.
Qed.

Lemma array_fill_inv {E A B N} (f : B -> res E A) (a b : array A N) k :
  length k = N -> array_fill f a k = Ok b -> Forall2 (fun x y => f x = Ok y) k (to_vec b).
Proof.
  intros Hk. unfold array_fill. rewrite zip_fill_mapM by (by rewrite array_length).
  destruct (mapM f k) as [l| |] eqn:E1; [|done|done]. cbn.
  destruct (array_try_from l) as [c|] eqn:E2; [|done]. intros [= ->].
  apply array_try_from_Some in E2 as ->. by apply mapM_Ok.
Qed.

(** An allocation that is sent and received: the holders are written without the
    length that is read. *)
Lemma Allocation_roundtrip_iff {A P} (a : Allocation A P) :
  Allocation_try_from (Allocation_into a) = Ok a <-> Forall (fun x => x = Asset_default) (to_vec (assets a)).
Proof.
  unfold Allocation_try_from, Allocation_into. cbn [perunwire.Allocation_assets perunwire.Allocation_balances].
  split.
  - destruct (array_fill _ _ _) as [x| |] eqn:Hx; [|done|done]. cbn [mbind res_bind expect_some ok_or].
    rewrite Balances_roundtrip. cbn [mbind res_bind]. intros [= Ha].
    apply array_fill_inv in Hx; [|by rewrite length_fmap, array_length].
    assert (assets a = x) as <- by by destruct a; injection Ha.
    clear Ha. induction (to_vec (assets a)) as [|y l IH]; [done|].
    cbn [fmap list_fmap] in Hx. inversion Hx; subst. constructor; [by apply Asset_try_from_into|by apply IH].
  - intros H. rewrite (array_fill_Ok _ _ (assets a)).
    + cbn [mbind res_bind expect_some ok_or]. rewrite Balances_roundtrip. cbn [mbind res_bind].
      destruct a as [x y z]. do 2 f_equal. apply empty_array_eq.
    + induction H as [|y l Hy H IH]; [constructor|]. cbn [fmap list_fmap].
      constructor; [by apply Asset_try_from_into|done].
Qed.

End Conversions.

(** Parameters that are sent and received. *)
Lemma Params_roundtrip `{Pl : Platform} `{U : UintCrate} `{L : !UintLaws U} `{S : Sha3Crate}
    `{HS : !Sha3Laws S} {E P} `{!Dim P} (p : Params P) :
  exists w, @Params_into _ _ _ E P p = Ok w /\
    Params_try_from w =
      Ok (mkParams (challenge_duration p) (nonce p) (participants p) Address_default
            (ledger_channel p) (virtual_channel p)).
Proof.
  unfold Params_into. rewrite (params_hash P p). cbn [expect mbind res_bind]. eexists. split; [done|].
  unfold Params_try_from. cbn [perunwire.Params_parts perunwire.Params_nonce perunwire.Params_challenge_duration
    perunwire.Params_ledger_channel perunwire.Params_virtual_channel].
  rewrite (array_fill_Ok _ _ (participants p)).
  - cbn [mbind res_bind]. by rewrite from_to_big_endian.
  - apply (Forall2_fmap_id (fun a => to_vec (addr_bytes a))). apply Address_try_from_bytes.
Qed.

(* ------------------------------------------------------------------ *)
(** ** What the channels rely on                                         *)
(* ------------------------------------------------------------------ *)

(** Hashing a state cannot fail: for up to 1024 assets and participants,
    whatever the balances, [to_hash] of a state is the Keccak digest of
    Solidity's encoding of the state. *)
Theorem state_to_hash_total `{Pl : Platform} `{U : UintCrate} `{L : !UintLaws U} `{S : Sha3Crate}
    `{HS : !Sha3Laws S} {A P} `{!Dim A, !Dim P} (s : State A P) :
  to_hash (to_value s) = Ok (digest (Digest:=Keccak256) (abi_encode (to_abi s))).
Proof. apply state_hash. Qed.

(** C28: what the serializer writes determines the state: two states for which
    [to_writer] writes the same bytes are equal.  A signature of a hash is
    therefore about one state, up to hash collisions. *)
Theorem state_encoding_injective `{Pl : Platform} `{U : UintCrate} `{L : !UintLaws U}
    {A P} `{!Dim A, !Dim P} (s1 s2 : State A P) :
  concat (to_writer (to_value s1) []).1 = concat (to_writer (to_value s2) []).1 -> s1 = s2.
Proof.
  assert (forall s : State A P, concat (to_writer (to_value s) []).1 = abi_encode (to_abi s)) as Hw.
  { intros s. destruct (to_writer_internal_refines (to_value s) (to_abi s) true [] )
      as (slots & _ & He & Hr); [apply to_value_represents|rewrite state_size; apply dims_bound; apply _|].
    unfold to_writer. rewrite Hr. cbn [fst].
    assert (forall l ws, writes ws l = ws ++ l) as ->.
    { intros l. induction l as [|b l IH]; intros ws; [by rewrite app_nil_r|].
      cbn [writes foldl]. unfold writes in IH. rewrite IH. cbn [wstep list_PureWriter]. by rewrite <- app_assoc. }
    by rewrite app_nil_l, He, abi_encode_alt, andb_true_r. }
  rewrite !Hw. apply encode_inj.
Qed.

(** C29: the identifier of a channel is the Keccak digest of the encoding of its
    parameters, it cannot fail, and different parameters are hashed from
    different bytes. *)
Theorem channel_id_binds_params `{Pl : Platform} `{U : UintCrate} `{L : !UintLaws U} `{S : Sha3Crate}
    `{HS : !Sha3Laws S} {P} `{!Dim P} (p1 p2 : Params P) :
  channel_id p1 = Ok (digest (Digest:=Keccak256) (abi_encode (to_abi p1))) /\
  (abi_encode (to_abi p1) = abi_encode (to_abi p2) -> p1 = p2).
Proof. split; [apply params_hash|apply encode_inj]. Qed.

(** [total_assets] returns the sum of every asset's balances; it panics
    exactly when one of the sums does not fit 256 bits. *)
Theorem total_assets_spec `{U : UintCrate} `{L : !UintLaws U} {E A P} (a : Allocation A P) :
  match @total_assets _ E A P a with
  | Ok totals => u256_val <$> to_vec totals = asset_sums a /\ Forall (fun s => s < 2 ^ 256) (asset_sums a)
  | Err _ => False
  | Panic => Exists (fun s => 2 ^ 256 <= s) (asset_sums a)
  end.
Proof.
  destruct (decide (Exists (fun s => 2 ^ 256 <= s) (asset_sums a))) as [Ho|Hn].
  - by rewrite total_assets_overflow.
  - assert (Forall (fun s => s < 2 ^ 256) (asset_sums a)) as Hf.
    { apply not_Exists_Forall in Hn; [|apply _]. eapply Forall_impl; [|exact Hn]. unfold compose.
      intros x Hx; cbn beta in Hx. lia. }
    destruct (@total_assets_ok _ _ E _ _ a Hf) as [totals Ht]. rewrite Ht.
    split; [|done]. by eapply total_assets_sums.
Qed.

(** The next state is the same state with the version counted up by one;
    at the last version a debug build panics and a release build wraps around
    to version 0. *)
Theorem make_next_state_spec `{Pl : Platform} `{U : UintCrate} {E A P} (s : State A P) :
  match @make_next_state _ _ E A P s with
  | Ok s' => id s' = id s /\ outcome s' = outcome s /\ app_data s' = app_data s /\
      is_final s' = is_final s /\
      (u64_val (version s') = u64_val (version s) + 1 \/
       u64_val (version s) = 2 ^ 64 - 1 /\ u64_val (version s') = 0 /\ debug_build = false)
  | Err _ => False
  | Panic => u64_val (version s) = 2 ^ 64 - 1 /\ debug_build = true
  end.
Proof.
  unfold make_next_state, u64_add. change (u64_val (u64_wrap 1)) with 1.
  pose proof (u64_range (version s)) as Hr. unfold fits in Hr.
  case_decide as Hf.
  - cbn [mbind res_bind id outcome app_data is_final version u64_wrap u64_val mk_u64].
    repeat split; try done. left. by apply Z.mod_small.
  - assert (u64_val (version s) = 2 ^ 64 - 1) as Hv by (unfold fits in Hf; lia).
    destruct debug_build; [done|].
    cbn [mbind res_bind id outcome app_data is_final version u64_wrap u64_val mk_u64].
    repeat split; try done. right. by rewrite Hv.
Qed.

(** A new state has version 0, the identifier of its parameters, the given
    balances and no application data, and is not final; creating it cannot fail
    for at least one asset and participant and at most 1024 of each. *)
Theorem State_new_total `{Pl : Platform} `{U : UintCrate} `{L : !UintLaws U} `{S : Sha3Crate}
    `{HS : !Sha3Laws S} {A P} `{!Dim A, !Dim P} (params : Params P) (init_bals : Allocation A P) :
  (0 < A)%nat -> (0 < P)%nat ->
  exists s, State_new params init_bals = Ok s /\ channel_id params = Ok (id s) /\
    u64_val (version s) = 0 /\ outcome s = init_bals /\ to_vec (app_data s) = [] /\ is_final s = false.
Proof.
  intros HA HP. eexists. split; [by apply State_new_ok|]. rewrite (params_hash P params). done.
Qed.

(** Balances survive the conversion to a protobuf message and back. *)
Theorem balances_wire_roundtrip `{U : UintCrate} `{L : !UintLaws U} {A P} (b : Balances A P) :
  Balances_try_from (Balances_into b) = Ok b.
Proof. apply Balances_roundtrip. Qed.

(** Parameters survive the conversion to a protobuf message and back except
    for the application, which is not sent: what comes back is the parameters
    with the zero address as the application. *)
Theorem params_wire_roundtrip `{Pl : Platform} `{U : UintCrate} `{L : !UintLaws U} `{S : Sha3Crate}
    `{HS : !Sha3Laws S} {P} `{!Dim P} (p : Params P) :
  (Params_into p ≫= Params_try_from) =
    Ok (mkParams (challenge_duration p) (nonce p) (participants p) Address_default
          (ledger_channel p) (virtual_channel p)).
Proof.
  destruct (Params_roundtrip (E:=ConversionError) p) as (w & Hw & Hback). rewrite Hw. cbn [mbind res_bind]. exact Hback.
Qed.

(** C34: an allocation survives the conversion to a protobuf message and back
    only when every asset holder is the zero address: the conversion to the
    message writes the holder without the two length bytes the conversion from
    the message reads. *)
Theorem allocation_wire_roundtrip_iff `{U : UintCrate} `{L : !UintLaws U} {A P} (a : Allocation A P) :
  Allocation_try_from (Allocation_into a) = Ok a <-> Forall (fun x => x = Asset_default) (to_vec (assets a)).
Proof. apply Allocation_roundtrip_iff. Qed.

(** The conversion of an asset from a protobuf message panics exactly when
    the declared length of the holder is between 1 and 20 and the rest of the
    bytes, whatever the declared length, is not 20 bytes. *)
Theorem asset_try_from_panics_iff (b : bytes) :
  Asset_try_from b = Panic <->
  exists b0 b1 rest, b = b0 :: b1 :: rest /\ 0 < u16_from_le_bytes b0 b1 <= 20 /\ length rest <> 20%nat.
Proof.
  unfold Asset_try_from. destruct b as [|b0 [|b1 rest]]; [by split; [|intros (?&?&?&?&_)]..|].
  split.
  - case_decide; [done|]. case_decide; [|done].
    destruct (array_try_from rest) as [h|] eqn:Hh; [done|]. intros _.
    exists b0, b1, rest. split; [done|]. split; [lia|]. by eapply array_try_from_None.
  - intros (x & y & z & [= <- <- <-] & Hl & Hz). rewrite decide_False, decide_True by lia.
    by apply (array_try_from_None (N:=20)) in Hz as ->.
Qed.

(* ------------------------------------------------------------------ *)
(** ** The theorems at concrete values                                   *)
(* ------------------------------------------------------------------ *)

Module PaymentSamples.
Export ToyUint ToyHash.

#[export] Instance sample_platform : Platform := host.

Definition address_of (z : Z) : Address := mkAddress (mk_array (be_bytes 20 z) (be_bytes_length 20 z)).
Definition u64_of (z : Z) : u64 := u64_wrap z.

Definition sample_balances : Balances 1 2 :=
  mkBalances (mk_array [mkParticipantBalances (mk_array [wrap 10; wrap 20] eq_refl)] eq_refl).

Definition sample_allocation : Allocation 1 2 :=
  Allocation_new (mk_array [mkAsset (address_of 4096)] eq_refl) sample_balances.

(** The same with the zero address as the holder of the asset. *)
Definition native_allocation : Allocation 1 2 :=
  Allocation_new (mk_array [Asset_default] eq_refl) sample_balances.

Definition sample_params : Params 2 :=
  mkParams (u64_of 60) (wrap 99) (mk_array [address_of 1; address_of 2] eq_refl) Address_default true false.

Definition sample_state : State 1 2 :=
  mkState (array_repeat 32 x2a) (u64_of 3) sample_allocation (mk_array [] eq_refl) false.

(** Balances whose sum does not fit 256 bits. *)
Definition overflow_allocation : Allocation 1 2 :=
  Allocation_new (mk_array [Asset_default] eq_refl)
    (mkBalances (mk_array [mkParticipantBalances (mk_array [wrap (2 ^ 256 - 1); wrap 1] eq_refl)] eq_refl)).

End PaymentSamples.

Section Witnesses.
Import PaymentSamples.

Example state_to_hash_total_witness :
  to_hash (to_value sample_state) = Ok (digest (Digest:=Keccak256) (abi_encode (to_abi sample_state))) /\
  zlen (abi_encode (to_abi sample_state)) = 18 * 32.
Proof. split; [apply (state_to_hash_total sample_state)|vm_compute; reflexivity]. Defined.

Example state_encoding_injective_witness : sample_state = sample_state.
Proof. apply (state_encoding_injective sample_state sample_state). reflexivity. Defined.

Example channel_id_binds_params_witness :
  channel_id sample_params = Ok (digest (Digest:=Keccak256) (abi_encode (to_abi sample_params))) /\
  sample_params = sample_params.
Proof.
  destruct (channel_id_binds_params sample_params sample_params) as [H1 H2].
  split; [exact H1|exact (H2 eq_refl)].
Defined.

Example total_assets_example :
  asset_sums sample_allocation = [30] /\ @total_assets _ Error _ _ overflow_allocation = Panic.
Proof. split; vm_compute; reflexivity. Qed.

Example State_new_total_witness :
  exists s, State_new sample_params sample_allocation = Ok s /\ channel_id sample_params = Ok (id s) /\
    u64_val (version s) = 0 /\ outcome s = sample_allocation /\ to_vec (app_data s) = [] /\ is_final s = false.
Proof. apply (State_new_total sample_params sample_allocation); lia. Defined.

Example balances_wire_roundtrip_witness :
  Balances_try_from (Balances_into sample_balances) = Ok sample_balances.
Proof. apply (balances_wire_roundtrip sample_balances). Defined.

Example params_wire_roundtrip_witness :
  (Params_into sample_params ≫= Params_try_from) = Ok sample_params.
Proof. apply (params_wire_roundtrip sample_params). Defined.

Example allocation_wire_roundtrip_iff_witness :
  Allocation_try_from (Allocation_into native_allocation) = Ok native_allocation /\
  Allocation_try_from (Allocation_into sample_allocation) <> Ok sample_allocation.
Proof.
  split.
  - apply (allocation_wire_roundtrip_iff native_allocation). repeat constructor.
  - intros H%(allocation_wire_roundtrip_iff sample_allocation). inversion H as [|x l Hx Hl].
    apply (f_equal (fun a => address_val (holder a))) in Hx. vm_compute in Hx. discriminate.
Defined.

End Witnesses.
