(* ===== verification/PaymentTypes.v ===== *)
(** * The Solidity types of the channel data

    The structs of src/src/channel/fixed_size_payment.rs and the withdrawal
    authorization of src/src/channel/withdrawal_auth.rs have the types of the
    contract's structs whatever their contents, so their encodings are decoded
    to the values they were made of. *)
From S2P Require Import Prelude AbiSpec AbiInjective AbiSer AbiRefine AbiTheorems AbiDecode.
From S2P Require Import Types PerunWire Instances Payment PaymentTheorems.

Definition BYTES32 : ty := TFixedBytes 32.
Definition UINT256 : ty := TUint 256.
Definition UINT64 : ty := TUint 64.
Definition ADDRESS : ty := TUint 160.
Definition BOOL : ty := TUint 1.

(** The locked funds, never used by the code, are an empty array of any type. *)
Definition ASSET : ty := TTuple [ADDRESS].
Definition BALANCES : ty := TArray (TArray UINT256).
Definition ALLOCATION (lock : ty) : ty := TTuple [TArray ASSET; BALANCES; TArray lock].
Definition STATE (lock : ty) : ty := TTuple [BYTES32; UINT64; ALLOCATION lock; TBytes; BOOL].
Definition PARAMS : ty := TTuple [UINT64; UINT256; TArray ADDRESS; ADDRESS; BOOL; BOOL].

(** A Rust type all of whose values are of one Solidity type. *)
Class Typed (A : Type) `{SolType A} (t : ty) : Prop := to_abi_typed (x : A) : has_type (to_abi x) t.

#[export] Instance Bytes32_Typed : Typed Bytes32 BYTES32.
Proof.
  intros b. pose proof (ty_fixed_bytes (to_vec b)) as H. rewrite array_length, zlen_to_vec in H. apply H. lia.
Qed.

#[export] Instance bool_Typed : Typed bool BOOL.
Proof. intros []; constructor; done. Qed.

#[export] Instance Address_Typed : Typed Address ADDRESS.
Proof. intros a. constructor; [lia|apply address_val_range]. Qed.

Lemma u64_typed (x : u64) : has_type (AUint (u64_val x)) UINT64.
Proof. constructor; [lia|apply u64_range]. Qed.

Lemma list_typed `{Typed A t} (l : list A) : fits 256 (zlen l) -> has_type (AArray (to_abi <$> l)) (TArray t).
Proof.
  intros Hl. constructor; [by rewrite zlen_fmap|]. apply Forall_fmap, Forall_true. intros x. apply to_abi_typed.
Qed.

Lemma array_typed `{Typed A t} {N} `{!Dim N} (a : array A N) :
  has_type (AArray (to_abi <$> to_vec a)) (TArray t).
Proof.
  apply list_typed. rewrite zlen_to_vec. unfold Dim, MAX_NUM_PARTICIPANTS in *.
  split; [lia|]. assert (1024 < 2 ^ 256) by done. lia.
Qed.

(** The components of a struct, field by field. *)
Ltac struct_typed :=
  apply ty_tuple;
  repeat (apply List.Forall2_cons; [first [apply u64_typed | apply to_abi_typed | apply array_typed | apply
    ty_bytes]|]);
  apply List.Forall2_nil.

#[export] Instance Asset_Typed : Typed Asset ASSET.
Proof. intros a. struct_typed. Qed.

Section Typed.
Context `{U : UintCrate} `{L : !UintLaws U}.

#[export] Instance U256_Typed : Typed U256 UINT256.
Proof. intros x. constructor; [lia|apply u256_range]. Qed.

#[export] Instance ParticipantBalances_Typed P `{!Dim P} : Typed (ParticipantBalances P) (TArray UINT256).
Proof. intros b. apply array_typed. Qed.

#[export] Instance Balances_Typed A P `{!Dim A, !Dim P} : Typed (Balances A P) BALANCES.
Proof. intros b. apply array_typed. Qed.

#[export] Instance Allocation_Typed A P `{!Dim A, !Dim P} lock : Typed (Allocation A P) (ALLOCATION lock).
Proof.
  intros a. apply ty_tuple.
  repeat apply List.Forall2_cons; [apply array_typed|apply to_abi_typed|by repeat constructor|constructor].
Qed.

#[export] Instance State_Typed A P `{!Dim A, !Dim P} lock : Typed (State A P) (STATE lock).
Proof. intros s. struct_typed. Qed.

#[export] Instance Params_Typed P `{!Dim P} : Typed (Params P) PARAMS.
Proof. intros p. struct_typed. Qed.

End Typed.

(* ------------------------------------------------------------------ *)
(** ** Decoding                                                          *)
(* ------------------------------------------------------------------ *)

Section Decode.
Context `{Pl : Platform} `{U : UintCrate} `{L : !UintLaws U}.
Context {W : Type} `{HW : !Writer W} `{PW : !PureWriter W}.

Lemma typed_decodes `{Typed A t} (x : A) (w : W) :
  zlen (abi_enc (to_abi x)) < 2 ^ usize_bits ->
  exists slots, to_writer (to_value x) w = (writes w slots, Ok tt) /\
    abi_decode t (concat slots) = Some (to_abi x).
Proof. intros Hl. apply to_writer_decoded; [apply to_value_represents|apply to_abi_typed|done]. Qed.


End Decode.

(* ------------------------------------------------------------------ *)
(** ** The theorems at concrete values                                   *)
(* ------------------------------------------------------------------ *)

Section Witnesses.
Import PaymentSamples.

(** The type [(uint64, uint32[], bytes, (bool, string))] of the sample. *)
Definition SAMPLE : ty := TTuple [UINT64; TArray (TUint 32); TBytes; TTuple [BOOL; TBytes]].

Lemma sample_typed : has_type sample_abi SAMPLE.
Proof. unfold sample_abi, SAMPLE, UINT64, BOOL. repeat constructor; done. Qed.

Example to_writer_decodes_witness :
  (exists slots, @to_writer host _ _ sample [] = (writes [] slots, Ok tt) /\
     abi_decode SAMPLE (concat slots) = Some sample_abi) /\
  abi_decode SAMPLE (concat sample_slots) = Some sample_abi.
Proof.
  split; [|vm_compute; reflexivity].
  destruct (to_writer_decodes (P:=host) sample sample_abi SAMPLE [] sample_represents sample_typed) as [H _];
    [vm_compute; reflexivity|exact H].
Defined.


End Witnesses.
