(* ===== verification/Sig.v ===== *)
(** * Signatures

    Model of src/src/sig.rs, its two back ends sig/k256.rs and
    sig/secp256k1.rs, and the fallback sig/dummy.rs.  [SignerImpl] is the interface the feature flags select
    an implementation of; [SignerLaws] is what the channels need of it: what a
    signer signs is recovered to its address.  Both back ends are shown to
    have the laws, from the documented behaviour of the cryptographic crates
    ([K256Crate], [SecpCrate]). *)
From S2P Require Import Prelude Types Instances.

(* ------------------------------------------------------------------ *)
(** ** The interface                                                     *)
(* ------------------------------------------------------------------ *)

(** [sig::Signer] and [sig::Error]. *)
Class SignerImpl := {
  Signer : Type;
  SigError : Type;
  address : Signer -> Address;
  sign_eth : forall {E}, Signer -> Hash -> res E Signature;
  recover_signer : Signer -> Hash -> Signature -> res SigError Address;
}.

Class SignerLaws (I : SignerImpl) := {
  (** The signers [Signer::new] makes; the fields of a signer are private. *)
  valid_signer : Signer -> Prop;
  sign_recover E s s' h :
    valid_signer s ->
    exists sig, @sign_eth _ E s h = Ok sig /\ recover_signer s' h sig = Ok (address s);
}.

(* ------------------------------------------------------------------ *)
(** ** sig.rs                                                            *)
(* ------------------------------------------------------------------ *)

(** The bytes [b"\x19Ethereum Signed Message:\n32"]. *)
Definition ETH_PREFIX : bytes :=
  x19 :: String.list_byte_of_string "Ethereum Signed Message:" ++
  x0a :: String.list_byte_of_string "32".

Section EthHash.
Context `{S : Sha3Crate}.

Definition hash_to_eth_signed_msg_hash (hash : Hash) : Hash :=
  hasher_finalize (Digest:=Keccak256)
    (hasher_update (hasher_update hasher_new ETH_PREFIX) (to_vec hash)).

Lemma eth_hash_digest `{L : !Sha3Laws S} hash :
  hash_to_eth_signed_msg_hash hash = digest (Digest:=Keccak256) (ETH_PREFIX ++ to_vec hash).
Proof.
  unfold hash_to_eth_signed_msg_hash.
  pose proof (digest_chunks (D:=Keccak256) [ETH_PREFIX; to_vec hash]) as H.
  cbn [foldl concat] in H. by rewrite app_nil_r in H.
Qed.

End EthHash.

(** [b[i] += 27] and [b[i] -= 27] on a byte. *)
Definition byte_add `{P : Platform} {E} (b : byte) (n : Z) : res E byte :=
  byte_of_Z <$> int_add 8 (byte_to_Z b) n.
Definition byte_sub `{P : Platform} {E} (b : byte) (n : Z) : res E byte :=
  byte_of_Z <$> int_sub 8 (byte_to_Z b) n.

(** The private key both [Signer::new] functions use. *)
Definition private_key_bytes : bytes :=
  [x24; x4f; xfc; x73; xc4; x48; xb5; x6d; xdb; xa6; xa7; xbf; xa8; xd5; x8e; xd3;
   x60; x12; x61; x1d; xa8; x3d; x4c; xb8; x30; x25; xea; x12; xac; xcf; x49; xfe].

(* ------------------------------------------------------------------ *)
(** ** sig/k256.rs                                                       *)
(* ------------------------------------------------------------------ *)

(** What the code uses of the [k256] crate.  A [Result] that is unwrapped at
    once is an [option]. *)
Class K256Crate := {
  SigningKey : Type;
  VerifyingKey : Type;
  K256Signature : Type;
  K256Error : Type;
  SigningKey_from_bytes : bytes -> option SigningKey;
  verifying_key : SigningKey -> VerifyingKey;
  to_encoded_point : VerifyingKey -> bytes;
  sign_prehash : SigningKey -> bytes -> option K256Signature;
  K256Signature_as_bytes : K256Signature -> bytes;
  K256Signature_from_bytes : bytes -> option K256Signature;
  recover_verifying_key_from_digest_bytes : K256Signature -> bytes -> res K256Error VerifyingKey;
}.

(** An uncompressed point is 65 bytes; a recoverable signature is r, s and a
    recovery id of 0 or 1, with the low one of the two values of s; recovery
    from the message that was signed gives the signing key's public key. *)
Class K256Laws (K : K256Crate) : Prop := {
  encoded_point_length vk : length (to_encoded_point vk) = 65%nat;
  sign_prehash_spec sk (h : Hash) : exists sig,
    sign_prehash sk (to_vec h) = Some sig /\
    recover_verifying_key_from_digest_bytes sig (to_vec h) = Ok (verifying_key sk);
  k256_as_bytes sig : exists (rs : array byte 64) v,
    K256Signature_as_bytes sig = to_vec rs ++ [v] /\ 0 <= byte_to_Z v <= 1 /\
    exists s0, to_vec rs !! 32%nat = Some s0 /\ Z.land (byte_to_Z s0) 128 = 0;
  k256_from_as_bytes sig : K256Signature_from_bytes (K256Signature_as_bytes sig) = Some sig;
}.

Module K256.
Section K256.
Context `{P : Platform} `{S : Sha3Crate} `{K : K256Crate}.

Record Signer : Type := mkSigner { key : SigningKey; addr : Address }.

(** [impl From<VerifyingKey> for Address]. *)
Definition Address_from_verifying_key {E} (key : VerifyingKey) : res E Address :=
  pk_bytes ← unwrap (array_try_from (N:=65) (to_encoded_point key));
  Ok (address_of_hash (digest (Digest:=Keccak256) (drop 1 (to_vec pk_bytes)))).

(** [Signer::new]: the random number generator is not used. *)
Definition new {E} : res E Signer :=
  key ← unwrap (SigningKey_from_bytes private_key_bytes);
  addr ← Address_from_verifying_key (verifying_key key);
  Ok (mkSigner key addr).

Definition address (self : Signer) : Address := addr self.

Definition sign_eth {E} (self : Signer) (msg : Hash) : res E Signature :=
  let hash := hash_to_eth_signed_msg_hash msg in
  sig ← unwrap (sign_prehash (key self) (to_vec hash));
  sig_bytes ← unwrap (array_try_from (N:=65) (K256Signature_as_bytes sig));
  s0 ← array_index sig_bytes 32;
  debug_assert (bool_decide (Z.land (byte_to_Z s0) 128 = 0));;
  v ← array_index sig_bytes 64;
  v' ← byte_add v 27;
  array_set sig_bytes 64 v'.

Definition recover_signer (self : Signer) (msg : Hash) (eth_sig : Signature) : res K256Error Address :=
  let hash := hash_to_eth_signed_msg_hash msg in
  v ← array_index eth_sig 64;
  v' ← byte_sub v 27;
  sig_bytes ← array_set eth_sig 64 v';
  sig ← unwrap (K256Signature_from_bytes (to_vec sig_bytes));
  verifying_key ← recover_verifying_key_from_digest_bytes sig (to_vec hash);
  Address_from_verifying_key verifying_key.

#[export] Instance k256_signer : SignerImpl := {|
  Sig.Signer := Signer;
  SigError := K256Error;
  Sig.address := address;
  Sig.sign_eth := @sign_eth;
  Sig.recover_signer := recover_signer;
|}.

End K256.
End K256.

(* ------------------------------------------------------------------ *)
(** ** sig/secp256k1.rs                                                  *)
(* ------------------------------------------------------------------ *)

(** What the code uses of the [secp256k1] crate. *)
Class SecpCrate := {
  Secp256k1 : Type;
  SecretKey : Type;
  PublicKey : Type;
  RecoverableSignature : Type;
  RecoveryId : Type;
  SecpError : Type;
  PublicKey_from_secret_key : Secp256k1 -> SecretKey -> PublicKey;
  serialize_uncompressed : PublicKey -> bytes;
  sign_ecdsa_recoverable : Secp256k1 -> Hash -> SecretKey -> RecoverableSignature;
  serialize_compact : RecoverableSignature -> RecoveryId * array byte 64;
  to_i32 : RecoveryId -> Z;
  RecoveryId_from_i32 : Z -> res SecpError RecoveryId;
  from_compact : bytes -> RecoveryId -> res SecpError RecoverableSignature;
  recover_ecdsa : Secp256k1 -> Hash -> RecoverableSignature -> res SecpError PublicKey;
}.

Class SecpLaws (K : SecpCrate) : Prop := {
  recovery_id_range id : 0 <= to_i32 id <= 3;
  recovery_id_roundtrip id : RecoveryId_from_i32 (to_i32 id) = Ok id;
  compact_roundtrip sig :
    from_compact (to_vec (serialize_compact sig).2) (serialize_compact sig).1 = Ok sig;
  compact_low_s sig : exists s0,
    to_vec (serialize_compact sig).2 !! 32%nat = Some s0 /\ Z.land (byte_to_Z s0) 128 = 0;
  recover_signed secp secp' h sk :
    recover_ecdsa secp' h (sign_ecdsa_recoverable secp h sk) = Ok (PublicKey_from_secret_key secp sk);
}.

Module Secp.
Section Secp.
Context `{P : Platform} `{S : Sha3Crate} `{K : SecpCrate}.

Record Signer : Type := mkSigner { secp : Secp256k1; sk : SecretKey; addr : Address }.

Definition address (self : Signer) : Address := addr self.

Definition sign_eth {E} (self : Signer) (msg : Hash) : res E Signature :=
  let hash := hash_to_eth_signed_msg_hash msg in
  let sig := sign_ecdsa_recoverable (secp self) hash (sk self) in
  let (v, rs) := serialize_compact sig in
  s0 ← array_index rs 32;
  debug_assert (bool_decide (Z.land (byte_to_Z s0) 128 = 0));;
  v ← int_add 8 27 (to_i32 v mod 256);
  Ok (Signature_new rs (byte_of_Z v)).

Definition recover_signer (self : Signer) (hash : Hash) (eth_sig : Signature) : res SecpError Address :=
  let hash := hash_to_eth_signed_msg_hash hash in
  let rs := take 64 (to_vec eth_sig) in
  v ← array_index eth_sig 64;
  v ← int_sub 8 (byte_to_Z v) 27;
  recid ← RecoveryId_from_i32 v;
  sig ← from_compact rs recid;
  pk ← recover_ecdsa (secp self) hash sig;
  Ok (Address_from_public_key serialize_uncompressed pk).

#[export] Instance secp_signer : SignerImpl := {|
  Sig.Signer := Signer;
  SigError := SecpError;
  Sig.address := address;
  Sig.sign_eth := @sign_eth;
  Sig.recover_signer := recover_signer;
|}.

End Secp.
End Secp.

(* ------------------------------------------------------------------ *)
(** ** sig/dummy.rs                                                      *)
(* ------------------------------------------------------------------ *)

(** The fallback without a feature flag, which the crate refuses to be built
    with: every method is [unimplemented!()], [address] too, so that it is no
    [SignerImpl]. *)
Module Dummy.

Inductive Error : Type := mkError.
Inductive Signer : Type := mkSigner.

Definition new {E R} (rng : R) : res E Signer := Panic.
Definition address {E} (self : Signer) : res E Address := Panic.
Definition sign_eth {E} (self : Signer) (msg : Hash) : res E Signature := Panic.
Definition recover_signer (self : Signer) (hash : Hash) (eth_sig : Signature) : res Error Address := Panic.

End Dummy.

(* ------------------------------------------------------------------ *)
(** ** Both back ends have the laws                                      *)
(* ------------------------------------------------------------------ *)

Lemma array_index_lookup {E A N} (a : array A N) i x :
  0 <= i -> to_vec a !! Z.to_nat i = Some x -> @array_index E A N a i = Ok x.
Proof. intros Hi Hx. unfold array_index, vec_index. by rewrite decide_True, Hx. Qed.

Lemma array_set_Ok {E A N} (a : array A N) i x :
  0 <= i < Z.of_nat N ->
  exists b, @array_set E A N a i x = Ok b /\ to_vec b = <[Z.to_nat i := x]> (to_vec a).
Proof. intros Hi. unfold array_set. rewrite decide_True by done. by eexists. Qed.

(** The last element of a vector that is a prefix of known length and one
    element. *)
Lemma insert_last {A} (l : list A) x y n : length l = n -> <[n := y]> (l ++ [x]) = l ++ [y].
Proof. intros <-. rewrite insert_app_r_alt by lia. by rewrite Nat.sub_diag. Qed.

Lemma lookup_last {A} (l : list A) x n : length l = n -> (l ++ [x]) !! n = Some x.
Proof. intros <-. rewrite lookup_app_r by lia. by rewrite Nat.sub_diag. Qed.

Lemma byte_add_ok `{P : Platform} {E} b n :
  0 <= n -> byte_to_Z b + n < 256 ->
  exists c, @byte_add P E b n = Ok c /\ byte_to_Z c = byte_to_Z b + n.
Proof.
  intros Hn Hb. pose proof (byte_to_Z_range b). unfold byte_add, int_add.
  rewrite int_result_ok by (unfold fits; lia). eexists. split; [reflexivity|].
  rewrite byte_to_of_Z. apply Z.mod_small. lia.
Qed.

Lemma byte_sub_ok `{P : Platform} {E} b n :
  0 <= n <= byte_to_Z b ->
  exists c, @byte_sub P E b n = Ok c /\ byte_to_Z c = byte_to_Z b - n.
Proof.
  intros Hn. pose proof (byte_to_Z_range b). unfold byte_sub, int_sub.
  rewrite int_result_ok by (unfold fits; lia). eexists. split; [reflexivity|].
  rewrite byte_to_of_Z. apply Z.mod_small. lia.
Qed.

Section K256Correct.
Context `{P : Platform} `{S : Sha3Crate} `{K : K256Crate} `{L : !K256Laws K}.

(** A signer whose address belongs to its key. *)
Definition k256_valid (s : K256.Signer) : Prop :=
  K256.Address_from_verifying_key (E:=K256Error) (verifying_key (K256.key s)) = Ok (K256.addr s).

Lemma verifying_key_address {E E'} vk a :
  K256.Address_from_verifying_key (E:=E) vk = Ok a -> K256.Address_from_verifying_key (E:=E') vk = Ok a.
Proof.
  unfold K256.Address_from_verifying_key. destruct (array_try_from _); [|done]. cbn. by intros [= <-].
Qed.

Lemma k256_new_valid {E} s : K256.new (E:=E) = Ok s -> k256_valid s.
Proof.
  unfold K256.new. destruct (SigningKey_from_bytes _) as [k|]; [|done]. cbn.
  destruct (K256.Address_from_verifying_key _) as [a| |] eqn:Ha; [|done|done].
  cbn. intros [= <-]. unfold k256_valid. cbn. by eapply verifying_key_address.
Qed.

(** Signing in closed form: the crate's signature with 27 added to its last
    byte. *)
Lemma k256_sign_eth_spec {E} (s : K256.Signer) (msg : Hash) :
  exists sig (rs : array byte 64) v v',
    sign_prehash (K256.key s) (to_vec (hash_to_eth_signed_msg_hash msg)) = Some sig /\
    K256Signature_as_bytes sig = to_vec rs ++ [v] /\ byte_to_Z v' = byte_to_Z v + 27 /\
    exists es, @K256.sign_eth _ _ _ E s msg = Ok es /\ to_vec es = to_vec rs ++ [v'].
Proof.
  destruct (sign_prehash_spec (K256.key s) (hash_to_eth_signed_msg_hash msg)) as (sig & Hs & Hr).
  destruct (k256_as_bytes sig) as (rs & v & Hb & Hv & s0 & Hs0 & Hlow).
  pose proof (array_length rs) as Hrs.
  destruct (byte_add_ok (E:=E) v 27) as (v' & Hadd & Hv'); [lia|lia|].
  exists sig, rs, v, v'. split_and!; try done.
  assert (length (to_vec rs ++ [v]) = 65%nat) as Hlen by (rewrite length_app, Hrs; done).
  assert (array_try_from (K256Signature_as_bytes sig) = Some (mk_array _ Hlen)) as Htry
    by by apply array_try_from_Some.
  destruct (@array_set_Ok E _ _ (mk_array _ Hlen) 64 v') as (es & Hes & Hvec); [lia|].
  exists es. split.
  - unfold K256.sign_eth. rewrite Hs. cbn [unwrap mbind res_bind]. rewrite Htry. cbn [unwrap mbind res_bind].
    rewrite (array_index_lookup _ 32 s0); [|lia|].
    2: { cbn [to_vec mk_array]. by rewrite lookup_app_l by (rewrite Hrs; lia). }
    cbn [mbind res_bind]. unfold debug_assert. rewrite bool_decide_eq_true_2 by done. rewrite andb_false_r.
    cbn [mbind res_bind]. rewrite (array_index_lookup _ 64 v); [|lia|].
    2: { cbn [to_vec mk_array]. by apply lookup_last. }
    cbn [mbind res_bind]. rewrite Hadd. cbn [mbind res_bind]. exact Hes.
  - rewrite Hvec. cbn [to_vec mk_array]. by apply insert_last.
Qed.

Lemma k256_recover_spec (s' : K256.Signer) msg (es : Signature) sig (rs : array byte 64) v v' :
  K256Signature_as_bytes sig = to_vec rs ++ [v] -> byte_to_Z v' = byte_to_Z v + 27 ->
  to_vec es = to_vec rs ++ [v'] ->
  K256.recover_signer s' msg es =
    (vk ← recover_verifying_key_from_digest_bytes sig (to_vec (hash_to_eth_signed_msg_hash msg));
     K256.Address_from_verifying_key vk).
Proof.
  intros Hb Hv Hes. pose proof (array_length rs) as Hrs. pose proof (byte_to_Z_range v).
  unfold K256.recover_signer. rewrite (array_index_lookup _ 64 v'); [|lia|].
  2: { rewrite Hes. by apply lookup_last. }
  cbn [mbind res_bind]. destruct (byte_sub_ok (E:=K256Error) v' 27) as (w & Hsub & Hw); [lia|].
  rewrite Hsub. cbn [mbind res_bind].
  destruct (@array_set_Ok K256Error _ _ es 64 w) as (eb & Heb & Hvec); [lia|].
  rewrite Heb. cbn [mbind res_bind].
  assert (w = v) as -> by (apply byte_to_Z_inj; lia).
  rewrite Hvec, Hes. change (Z.to_nat 64) with 64%nat. rewrite insert_last by done.
  by rewrite <- Hb, k256_from_as_bytes.
Qed.

#[export] Instance k256_signer_laws : SignerLaws K256.k256_signer.
Proof.
  unshelve refine (Build_SignerLaws K256.k256_signer k256_valid _).
  intros E s s' h Hs. cbn.
  destruct (k256_sign_eth_spec (E:=E) s h) as (sig & rs & v & v' & Hsign & Hb & Hv & es & Hes & Hvec).
  exists es. split; [done|].
  rewrite (k256_recover_spec s' h es sig rs v v') by done.
  destruct (sign_prehash_spec (K256.key s) (hash_to_eth_signed_msg_hash h)) as (sig' & Hs' & Hr).
  rewrite Hsign in Hs'. injection Hs' as <-. rewrite Hr. exact Hs.
Defined.

End K256Correct.

Section SecpCorrect.
Context `{P : Platform} `{S : Sha3Crate} `{K : SecpCrate} `{L : !SecpLaws K}.

Definition secp_valid (s : Secp.Signer) : Prop :=
  Secp.addr s = Address_from_public_key serialize_uncompressed
                  (PublicKey_from_secret_key (Secp.secp s) (Secp.sk s)).

#[export] Instance secp_signer_laws : SignerLaws Secp.secp_signer.
Proof.
  unshelve refine (Build_SignerLaws Secp.secp_signer secp_valid _).
  intros E s s' h Hs. cbn. unfold Secp.sign_eth.
  set (sig := sign_ecdsa_recoverable _ _ _).
  destruct (serialize_compact sig) as [rid rs] eqn:Hc.
  pose proof (compact_low_s sig) as (s0 & Hs0 & Hlow). rewrite Hc in Hs0. cbn in Hs0.
  rewrite (array_index_lookup rs 32 s0) by done. cbn [mbind res_bind].
  unfold debug_assert. rewrite bool_decide_eq_true_2 by done. rewrite andb_false_r. cbn [mbind res_bind].
  pose proof (recovery_id_range rid) as Hrid. rewrite Z.mod_small by lia.
  unfold int_add. rewrite int_result_ok by (unfold fits; lia). cbn [mbind res_bind].
  eexists. split; [reflexivity|]. unfold Secp.recover_signer.
  rewrite (array_index_lookup _ 64 (byte_of_Z (27 + to_i32 rid))); [|lia|].
  2: { cbn. apply lookup_last, array_length. }
  cbn [mbind res_bind]. rewrite byte_to_of_Z, Z.mod_small by lia.
  unfold int_sub. rewrite int_result_ok by (unfold fits; lia). cbn [mbind res_bind].
  replace (27 + to_i32 rid - 27) with (to_i32 rid) by lia.
  rewrite recovery_id_roundtrip. cbn [mbind res_bind].
  cbn [to_vec Signature_new mk_array]. rewrite take_app_length' by (by rewrite array_length).
  pose proof (compact_roundtrip sig) as Hrt. rewrite Hc in Hrt. cbn [fst snd] in Hrt.
  rewrite Hrt. cbn [mbind res_bind]. unfold sig. rewrite recover_signed. cbn [mbind res_bind].
  unfold Secp.address. by rewrite Hs.
Defined.

End SecpCorrect.

(* ------------------------------------------------------------------ *)
(** ** A concrete signature scheme                                       *)
(* ------------------------------------------------------------------ *)

(** Two keys; a signature is the signed hash and the key (it can be forged, but
    it has the shape and the laws of the real one). *)
Module ToyK256.

Definition key_byte (k : bool) : byte := if k then x01 else x00.
Definition toy_as_bytes (sig : bool * Hash) : bytes :=
  (to_vec sig.2 ++ key_byte sig.1 :: replicate 31 x00) ++ [x00].

Definition toy_from_bytes (b : bytes) : option (bool * Hash) :=
  h ← array_try_from (N:=32) (take 32 b);
  Some (bool_decide (b !! 32%nat = Some x01), h).

#[export] Instance toy_k256 : K256Crate := {|
  SigningKey := bool;
  VerifyingKey := bool;
  K256Signature := bool * Hash;
  K256Error := unit;
  SigningKey_from_bytes := fun _ => Some true;
  verifying_key := fun k => k;
  to_encoded_point := fun k => replicate 65 (key_byte k);
  sign_prehash := fun k b => h ← array_try_from (N:=32) b; Some (k, h);
  K256Signature_as_bytes := toy_as_bytes;
  K256Signature_from_bytes := toy_from_bytes;
  recover_verifying_key_from_digest_bytes := fun sig b =>
    if decide (to_vec sig.2 = b) then Ok sig.1 else Err tt;
|}.

Lemma toy_rs_length (sig : bool * Hash) :
  length (to_vec sig.2 ++ key_byte sig.1 :: replicate 31 x00) = 64%nat.
Proof. by rewrite length_app, array_length. Qed.

Lemma toy_lookup (sig : bool * Hash) l :
  (to_vec sig.2 ++ key_byte sig.1 :: l) !! 32%nat = Some (key_byte sig.1).
Proof. rewrite lookup_app_r by by rewrite array_length. by rewrite array_length. Qed.

#[export] Instance toy_k256_laws : K256Laws toy_k256.
Proof.
  split.
  - done.
  - intros sk h. exists (sk, h). cbn. rewrite array_try_from_to_vec. by rewrite decide_True.
  - intros sig. exists (mk_array _ (toy_rs_length sig)), x00. split_and!; [done|done|done|].
    exists (key_byte sig.1). cbn [to_vec mk_array]. rewrite toy_lookup. by destruct sig.1.
  - intros [k h]. cbn. unfold toy_from_bytes, toy_as_bytes. rewrite <- app_assoc. cbn [fst snd app].
    rewrite (toy_lookup (k, h)). cbn [fst].
    rewrite take_app_length' by by rewrite array_length. rewrite array_try_from_to_vec. cbn.
    by destruct k.
Qed.

End ToyK256.

(* ------------------------------------------------------------------ *)
(** ** What the channels rely on                                         *)
(* ------------------------------------------------------------------ *)

(** C30: with the k256 back end, the signature of a hash by a signer
    [Signer::new] makes is recovered, by any signer, to the address of the
    one that signed it, and its last byte is 27 or 28, as the EVM requires. *)
Theorem k256_signature_recovers `{P : Platform} `{S : Sha3Crate} `{K : K256Crate} `{L : !K256Laws K}
    {E} (s s' : K256.Signer) (h : Hash) :
  @K256.new _ _ E = Ok s ->
  exists sig v, @K256.sign_eth _ _ _ E s h = Ok sig /\
    K256.recover_signer s' h sig = Ok (K256.address s) /\
    to_vec sig !! 64%nat = Some v /\ (byte_to_Z v = 27 \/ byte_to_Z v = 28).
Proof.
  intros Hs%k256_new_valid.
  destruct (@sign_recover K256.k256_signer k256_signer_laws E s s' h Hs) as (es & Hes & Hr).
  destruct (k256_sign_eth_spec (E:=E) s h) as (sig & rs & v & v' & _ & Hb & Hv & es' & Hes' & Hvec).
  cbn in Hes. rewrite Hes' in Hes. injection Hes as <-.
  destruct (k256_as_bytes sig) as (rs2 & v2 & Hb2 & Hv2 & _).
  rewrite Hb in Hb2. apply app_inj_2 in Hb2 as [_ [= <-]]; [|done].
  exists es', v'. split_and!; [done|done| |lia].
  rewrite Hvec. apply lookup_last, array_length.
Qed.

(** With the secp256k1 back end, the signature of a hash by a signer whose
    address is that of its key is recovered, by any signer, to that address. *)
Theorem secp_signature_recovers `{P : Platform} `{S : Sha3Crate} `{K : SecpCrate} `{L : !SecpLaws K}
    {E} (s s' : Secp.Signer) (h : Hash) :
  Secp.addr s = Address_from_public_key serialize_uncompressed
                  (PublicKey_from_secret_key (Secp.secp s) (Secp.sk s)) ->
  exists sig, @Secp.sign_eth _ _ _ E s h = Ok sig /\
    Secp.recover_signer s' h sig = Ok (Secp.address s).
Proof. intros Hs. exact (@sign_recover Secp.secp_signer secp_signer_laws E s s' h Hs). Qed.

(** A signature whose last byte is below 27 makes [recover_signer] panic in
    a debug build, with either back end, before anything of it is verified;
    such a signature can be part of a message of another participant. *)
Theorem recover_signer_panics_on_small_v `{P : Platform} `{S : Sha3Crate} `{K : K256Crate} `{K' : SecpCrate}
    (s : K256.Signer) (s' : Secp.Signer) (h : Hash) (sig : Signature) (v : byte) :
  debug_build = true -> to_vec sig !! 64%nat = Some v -> byte_to_Z v < 27 ->
  K256.recover_signer s h sig = Panic /\ Secp.recover_signer s' h sig = Panic.
Proof.
  intros Hd Hv Hlt. pose proof (byte_to_Z_range v).
  assert (forall E, @int_sub P E 8 (byte_to_Z v) 27 = Panic) as Hsub.
  { intros E. unfold int_sub, int_result. rewrite decide_False by (unfold fits; lia). by rewrite Hd. }
  unfold K256.recover_signer, Secp.recover_signer.
  rewrite !(array_index_lookup sig 64 v) by done. cbn [mbind res_bind].
  unfold byte_sub. by rewrite !Hsub.
Qed.

Section Witnesses.
Import ToyHash ToyK256.
#[local] Instance witness_platform : Platform := host.

Definition toy_signer : K256.Signer :=
  match @K256.new _ _ unit with Ok s => s | _ => K256.mkSigner true Address_default end.

Example k256_signature_recovers_witness :
  exists sig v, @K256.sign_eth _ _ _ unit toy_signer (array_repeat 32 x07) = Ok sig /\
    K256.recover_signer toy_signer (array_repeat 32 x07) sig = Ok (K256.address toy_signer) /\
    to_vec sig !! 64%nat = Some v /\ (byte_to_Z v = 27 \/ byte_to_Z v = 28).
Proof. apply (k256_signature_recovers toy_signer toy_signer). reflexivity. Defined.

(** The same scheme behind the interface of the other crate. *)
#[local] Instance toy_secp : SecpCrate := {|
  Secp256k1 := unit; SecretKey := bool; PublicKey := bool; RecoverableSignature := bool * Hash;
  RecoveryId := unit; SecpError := unit;
  PublicKey_from_secret_key := fun _ k => k;
  serialize_uncompressed := fun k => replicate 65 (key_byte k);
  sign_ecdsa_recoverable := fun _ h k => (k, h);
  serialize_compact := fun sig => (tt, mk_array _ (toy_rs_length sig));
  to_i32 := fun _ => 0;
  RecoveryId_from_i32 := fun _ => Ok tt;
  from_compact := fun b _ => ok_or tt (toy_from_bytes b);
  recover_ecdsa := fun _ h sig => if decide (sig.2 = h) then Ok sig.1 else Err tt;
|}.

Lemma toy_secp_laws : SecpLaws toy_secp.
Proof.
  split.
  - done.
  - by intros [].
  - intros [k h]. pose proof (k256_from_as_bytes (K:=toy_k256) (k, h)) as Hrt. cbn in Hrt |- *.
    unfold toy_from_bytes, toy_as_bytes in *. cbn [fst snd] in *.
    rewrite <- app_assoc in Hrt. cbn [app] in Hrt. rewrite (toy_lookup (k, h)) in *.
    rewrite take_app_length' in * by by rewrite array_length. by rewrite Hrt.
  - intros sig. exists (key_byte sig.1). cbn. split; [apply toy_lookup|by destruct sig.1].
  - intros [] [] h sk. cbn. by rewrite decide_True.
Qed.

Definition toy_secp_signer : Secp.Signer :=
  Secp.mkSigner tt false (Address_from_public_key serialize_uncompressed false).

Example secp_signature_recovers_witness :
  exists sig, @Secp.sign_eth _ _ _ unit toy_secp_signer (array_repeat 32 x07) = Ok sig /\
    Secp.recover_signer toy_secp_signer (array_repeat 32 x07) sig = Ok (Secp.address toy_secp_signer).
Proof. apply (secp_signature_recovers (L:=toy_secp_laws) toy_secp_signer toy_secp_signer). reflexivity. Defined.

Example recover_signer_panics_witness :
  K256.recover_signer toy_signer (array_repeat 32 x07) (array_repeat 65 x03) = Panic /\
  Secp.recover_signer toy_secp_signer (array_repeat 32 x07) (array_repeat 65 x03) = Panic.
Proof. apply (recover_signer_panics_on_small_v _ _ _ _ x03); reflexivity. Defined.

End Witnesses.
