(* ===== verification/Messages.v ===== *)
(** * Messages

    Model of src/src/messages.rs and the message types of src/src/messages/:
    what the library exchanges with the other participant, the watcher and the
    funder, and the conversions of the messages from and to their protobuf
    counterparts. *)
From S2P Require Import Prelude AbiSer Types PerunWire Payment.

(** The channels have one asset and two participants. *)
Definition ASSETS : nat := 1.
Definition PARTICIPANTS : nat := 2.

Abbreviation PartIdx := Z (only parsing).
Abbreviation NonceShare := (bytesN 32) (only parsing).
Abbreviation Identity := (list byte) (only parsing).
Abbreviation Peers := (list (list byte)) (only parsing).

Section Messages.
Context `{Pl : Platform} `{U : UintCrate} `{S : Sha3Crate}.

Abbreviation CState := (State ASSETS PARTICIPANTS).
Abbreviation CParams := (Params PARTICIPANTS).
Abbreviation CAllocation := (Allocation ASSETS PARTICIPANTS).
Abbreviation CBalances := (Balances ASSETS PARTICIPANTS).

(* ------------------------------------------------------------------ *)
(** ** Types                                                             *)
(* ------------------------------------------------------------------ *)

Record LedgerChannelProposal : Type := mkLedgerChannelProposal {
  prop_proposal_id : Hash;
  prop_challenge_duration : u64;
  prop_nonce_share : NonceShare;
  prop_init_bals : CAllocation;
  prop_funding_agreement : CBalances;
  prop_participant : Address;
  prop_peers : Peers;
}.

Record LedgerChannelProposalAcc : Type := mkLedgerChannelProposalAcc {
  acc_proposal_id : Hash;
  acc_nonce_share : NonceShare;
  acc_participant : Address;
}.

Record LedgerChannelUpdate : Type := mkLedgerChannelUpdate {
  upd_state : CState;
  upd_actor_idx : PartIdx;
  upd_sig : Signature;
}.

Record LedgerChannelUpdateAccepted : Type := mkLedgerChannelUpdateAccepted {
  upacc_channel : Hash;
  upacc_version : u64;
  upacc_sig : Signature;
}.

Record LedgerChannelFundingRequest : Type := mkLedgerChannelFundingRequest {
  fund_part_idx : PartIdx;
  fund_funding_agreement : CBalances;
  fund_params : CParams;
  fund_state : CState;
}.

Record Transaction : Type := mkTransaction {
  tx_state : CState;
  tx_sigs : array Signature PARTICIPANTS;
}.

Record AdjudicatorReq : Type := mkAdjudicatorReq {
  adj_params : CParams;
  adj_acc : Address;
  adj_tx : Transaction;
  adj_idx : PartIdx;
  adj_secondary : bool;
}.

Record RegisterReq : Type := mkRegisterReq { register_adj_req : AdjudicatorReq }.
Record WithdrawReq : Type := mkWithdrawReq { withdraw_adj_req : AdjudicatorReq }.

Record SignedWithdrawalAuth : Type := mkSignedWithdrawalAuth {
  auth_sig : Signature;
  auth_receiver : Address;
}.

Record WatchInfo : Type := mkWatchInfo {
  watch_part_idx : PartIdx;
  watch_params : CParams;
  watch_state : CState;
  watch_signatures : array Signature PARTICIPANTS;
  watch_withdrawal_auths : array SignedWithdrawalAuth ASSETS;
}.

Record StartWatchingLedgerChannelReq : Type := mkStartWatchingLedgerChannelReq {
  start_params : CParams;
  start_state : CState;
  start_sigs : array Signature PARTICIPANTS;
}.

Inductive WatcherRequestMessage : Type :=
  | WatchRequest (req : StartWatchingLedgerChannelReq)
  | StartDispute (info : WatchInfo).

Inductive WatcherReplyMessage : Type :=
  | Ack (id : Hash) (version : u64)
  | DisputeAck (id : Hash)
  | DisputeNotification (id : Hash).

Inductive FunderRequestMessage : Type :=
  | FundReq (req : LedgerChannelFundingRequest)
  | RegisterReqMsg (req : RegisterReq)
  | WithdrawReqMsg (req : WithdrawReq).

Inductive FunderReplyMessage : Type :=
  | Funded (id : Hash).

Inductive ParticipantMessage : Type :=
  | Auth
  | ChannelProposal (msg : LedgerChannelProposal)
  | ProposalAccepted (msg : LedgerChannelProposalAcc)
  | ProposalRejected (id : Hash) (reason : string)
  | ChannelUpdateMsg (msg : LedgerChannelUpdate)
  | ChannelUpdateAccepted (msg : LedgerChannelUpdateAccepted)
  | ChannelUpdateRejected (id : Hash) (version : u64) (reason : string).

(* ------------------------------------------------------------------ *)
(** ** Conversions                                                       *)
(* ------------------------------------------------------------------ *)

(** [x as u32] of a [usize]; [x as usize] of a [u32] is the identity. *)
Definition as_u32 (x : Z) : Z := x mod 2 ^ 32.

Definition Signature_default : Signature := bytesN_default.
Definition Signature_try_from (b : bytes) : res ConversionError Signature := bytes_try_into b.

(** Every list of signatures is converted by the same loop, after the check of
    its length. *)
Definition sigs_try_from (sigs : list bytes) : res ConversionError (array Signature PARTICIPANTS) :=
  if decide (zlen sigs <> Z.of_nat PARTICIPANTS) then Err ParticipantSizeMissmatch
  else array_fill Signature_try_from (array_repeat PARTICIPANTS Signature_default) sigs.

Definition sigs_into {N} (sigs : array Signature N) : list bytes := to_vec <$> to_vec sigs.

(** *** proposal.rs *)

Definition LedgerChannelProposal_try_from (value : perunwire.LedgerChannelProposalMsg)
    : res ConversionError LedgerChannelProposal :=
  base ← expect_some (perunwire.LedgerChannelProposalMsg_base_channel_proposal value);
  init_bals ← expect_some (perunwire.BaseChannelProposal_init_bals base);
  funding_agreement ← expect_some (perunwire.BaseChannelProposal_funding_agreement base);
  proposal_id ← bytes_try_into (perunwire.BaseChannelProposal_proposal_id base);
  nonce_share ← bytes_try_into (perunwire.BaseChannelProposal_nonce_share base);
  init_bals ← Allocation_try_from init_bals;
  funding_agreement ← Balances_try_from funding_agreement;
  participant ← Address_try_from (perunwire.LedgerChannelProposalMsg_participant value);
  Ok (mkLedgerChannelProposal proposal_id (perunwire.BaseChannelProposal_challenge_duration base)
        nonce_share init_bals funding_agreement participant
        (perunwire.LedgerChannelProposalMsg_peers value)).

Definition LedgerChannelProposal_into (value : LedgerChannelProposal)
    : perunwire.LedgerChannelProposalMsg :=
  perunwire.mkLedgerChannelProposalMsg
    (Some (perunwire.mkBaseChannelProposal
       (to_vec (prop_proposal_id value)) (prop_challenge_duration value)
       (to_vec (prop_nonce_share value)) [] []
       (Some (Allocation_into (prop_init_bals value)))
       (Some (Balances_into (prop_funding_agreement value)))))
    (to_vec (addr_bytes (prop_participant value))) (prop_peers value).

Definition LedgerChannelProposalAcc_try_from (value : perunwire.LedgerChannelProposalAccMsg)
    : res ConversionError LedgerChannelProposalAcc :=
  base ← expect_some (perunwire.LedgerChannelProposalAccMsg_base_channel_proposal_acc value);
  proposal_id ← bytes_try_into (perunwire.BaseChannelProposalAcc_proposal_id base);
  nonce_share ← bytes_try_into (perunwire.BaseChannelProposalAcc_nonce_share base);
  participant ← Address_try_from (perunwire.LedgerChannelProposalAccMsg_participant value);
  Ok (mkLedgerChannelProposalAcc proposal_id nonce_share participant).

Definition LedgerChannelProposalAcc_into (value : LedgerChannelProposalAcc)
    : perunwire.LedgerChannelProposalAccMsg :=
  perunwire.mkLedgerChannelProposalAccMsg
    (Some (perunwire.mkBaseChannelProposalAcc (to_vec (acc_proposal_id value))
             (to_vec (acc_nonce_share value))))
    (to_vec (addr_bytes (acc_participant value))).

(** *** update.rs *)

Definition LedgerChannelUpdate_try_from (value : perunwire.ChannelUpdateMsg)
    : res ConversionError LedgerChannelUpdate :=
  update ← expect_some (perunwire.ChannelUpdateMsg_channel_update value);
  state ← expect_some (perunwire.ChannelUpdate_state update);
  state ← State_try_from state;
  sig ← Signature_try_from (perunwire.ChannelUpdateMsg_sig value);
  Ok (mkLedgerChannelUpdate state (perunwire.ChannelUpdate_actor_idx update) sig).

Definition LedgerChannelUpdate_into (value : LedgerChannelUpdate) : perunwire.ChannelUpdateMsg :=
  perunwire.mkChannelUpdateMsg
    (Some (perunwire.mkChannelUpdate (Some (State_into (upd_state value)))
             (as_u32 (upd_actor_idx value))))
    (to_vec (upd_sig value)).

Definition LedgerChannelUpdateAccepted_try_from (value : perunwire.ChannelUpdateAccMsg)
    : res ConversionError LedgerChannelUpdateAccepted :=
  channel ← bytes_try_into (perunwire.ChannelUpdateAccMsg_channel_id value);
  sig ← Signature_try_from (perunwire.ChannelUpdateAccMsg_sig value);
  Ok (mkLedgerChannelUpdateAccepted channel (perunwire.ChannelUpdateAccMsg_version value) sig).

Definition LedgerChannelUpdateAccepted_into (value : LedgerChannelUpdateAccepted)
    : perunwire.ChannelUpdateAccMsg :=
  perunwire.mkChannelUpdateAccMsg (to_vec (upacc_channel value)) (upacc_version value)
    (to_vec (upacc_sig value)).

(** *** funding_request.rs *)

Definition LedgerChannelFundingRequest_try_from (value : perunwire.FundReq)
    : res ConversionError LedgerChannelFundingRequest :=
  agreement ← expect_some (perunwire.FundReq_agreement value);
  funding_agreement ← Balances_try_from agreement;
  params ← expect_some (perunwire.FundReq_params value);
  params ← Params_try_from params;
  state ← expect_some (perunwire.FundReq_state value);
  state ← State_try_from state;
  Ok (mkLedgerChannelFundingRequest (perunwire.FundReq_idx value) funding_agreement params state).

Definition LedgerChannelFundingRequest_into {E} (value : LedgerChannelFundingRequest)
    : res E perunwire.FundReq :=
  params ← Params_into (fund_params value);
  Ok (perunwire.mkFundReq "" (Some params) (Some (State_into (fund_state value)))
        (as_u32 (fund_part_idx value)) (Some (Balances_into (fund_funding_agreement value)))).

Definition Transaction_try_from (value : perunwire.Transaction) : res ConversionError Transaction :=
  signed_state ← expect_some (perunwire.Transaction_state value);
  sigs ← sigs_try_from (perunwire.Transaction_sigs value);
  state ← State_try_from signed_state;
  Ok (mkTransaction state sigs).

Definition Transaction_into (value : Transaction) : perunwire.Transaction :=
  perunwire.mkTransaction (Some (State_into (tx_state value))) (sigs_into (tx_sigs value)).

Definition AdjudicatorReq_try_from (value : perunwire.AdjudicatorReq)
    : res ConversionError AdjudicatorReq :=
  params ← expect_some (perunwire.AdjudicatorReq_params value);
  params ← Params_try_from params;
  acc ← Address_try_from (perunwire.AdjudicatorReq_acc value);
  tx ← expect_some (perunwire.AdjudicatorReq_tx value);
  tx ← Transaction_try_from tx;
  Ok (mkAdjudicatorReq params acc tx (perunwire.AdjudicatorReq_idx value)
        (perunwire.AdjudicatorReq_secondary value)).

Definition AdjudicatorReq_into {E} (value : AdjudicatorReq) : res E perunwire.AdjudicatorReq :=
  params ← Params_into (adj_params value);
  Ok (perunwire.mkAdjudicatorReq (Some params) (to_vec (addr_bytes (adj_acc value)))
        (Some (Transaction_into (adj_tx value))) (as_u32 (adj_idx value)) (adj_secondary value)).

Definition RegisterReq_try_from (value : perunwire.RegisterReq) : res ConversionError RegisterReq :=
  req ← expect_some (perunwire.RegisterReq_adj_req value);
  req ← AdjudicatorReq_try_from req;
  Ok (mkRegisterReq req).

Definition RegisterReq_into {E} (value : RegisterReq) : res E perunwire.RegisterReq :=
  req ← AdjudicatorReq_into (register_adj_req value);
  Ok (perunwire.mkRegisterReq "" (Some req)).

Definition WithdrawReq_try_from (value : perunwire.WithdrawReq) : res ConversionError WithdrawReq :=
  req ← expect_some (perunwire.WithdrawReq_adj_req value);
  req ← AdjudicatorReq_try_from req;
  Ok (mkWithdrawReq req).

Definition WithdrawReq_into {E} (value : WithdrawReq) : res E perunwire.WithdrawReq :=
  req ← AdjudicatorReq_into (withdraw_adj_req value);
  Ok (perunwire.mkWithdrawReq "" (Some req)).

(** *** watch_request.rs *)

Definition StartWatchingLedgerChannelReq_try_from (value : perunwire.StartWatchingLedgerChannelReq)
    : res ConversionError StartWatchingLedgerChannelReq :=
  sigs ← sigs_try_from (perunwire.StartWatching_sigs value);
  params ← expect_some (perunwire.StartWatching_params value);
  params ← Params_try_from params;
  state ← expect_some (perunwire.StartWatching_state value);
  state ← State_try_from state;
  Ok (mkStartWatchingLedgerChannelReq params state sigs).

Definition StartWatchingLedgerChannelReq_into {E} (value : StartWatchingLedgerChannelReq)
    : res E perunwire.StartWatchingLedgerChannelReq :=
  params ← Params_into (start_params value);
  Ok (perunwire.mkStartWatchingLedgerChannelReq "" (Some params)
        (Some (State_into (start_state value))) (sigs_into (start_sigs value))).

Definition SignedWithdrawalAuth_default : SignedWithdrawalAuth :=
  mkSignedWithdrawalAuth Signature_default Address_default.

Definition SignedWithdrawalAuth_try_from (value : perunwire.SignedWithdrawalAuth)
    : res ConversionError SignedWithdrawalAuth :=
  sig ← Signature_try_from (perunwire.SignedWithdrawalAuth_sig value);
  receiver ← Address_try_from (perunwire.SignedWithdrawalAuth_receiver value);
  Ok (mkSignedWithdrawalAuth sig receiver).

Definition SignedWithdrawalAuth_into (value : SignedWithdrawalAuth) : perunwire.SignedWithdrawalAuth :=
  perunwire.mkSignedWithdrawalAuth (to_vec (auth_sig value)) (to_vec (addr_bytes (auth_receiver value))).

Definition WatchInfo_try_from (value : perunwire.WatchRequestMsg) : res ConversionError WatchInfo :=
  signed_state ← expect_some (perunwire.WatchRequestMsg_state value);
  if decide (zlen (perunwire.SignedState_sigs signed_state) <> Z.of_nat PARTICIPANTS) then
    Err ParticipantSizeMissmatch
  else if decide (zlen (perunwire.WatchRequestMsg_withdrawal_auths value) <> Z.of_nat ASSETS) then
    Err ParticipantSizeMissmatch
  else
    signatures ← array_fill Signature_try_from (array_repeat PARTICIPANTS Signature_default)
                   (perunwire.SignedState_sigs signed_state);
    withdrawal_auths ← array_fill SignedWithdrawalAuth_try_from
                         (array_repeat ASSETS SignedWithdrawalAuth_default)
                         (perunwire.WatchRequestMsg_withdrawal_auths value);
    params ← expect_some (perunwire.SignedState_params signed_state);
    params ← Params_try_from params;
    state ← expect_some (perunwire.SignedState_state signed_state);
    state ← State_try_from state;
    Ok (mkWatchInfo (perunwire.WatchRequestMsg_participant value) params state signatures withdrawal_auths).

Definition WatchInfo_into {E} (value : WatchInfo) : res E perunwire.WatchRequestMsg :=
  params ← Params_into (watch_params value);
  Ok (perunwire.mkWatchRequestMsg (as_u32 (watch_part_idx value))
        (Some (perunwire.mkSignedState (Some params) (Some (State_into (watch_state value)))
                 (sigs_into (watch_signatures value))))
        (SignedWithdrawalAuth_into <$> to_vec (watch_withdrawal_auths value))).

Definition WatchInfo_try_from_force_close (value : perunwire.ForceCloseRequestMsg)
    : res ConversionError WatchInfo :=
  latest ← expect_some (perunwire.ForceCloseRequestMsg_latest value);
  WatchInfo_try_from latest.

Definition WatchInfo_into_force_close {E} (value : WatchInfo) : res E perunwire.ForceCloseRequestMsg :=
  latest ← WatchInfo_into value;
  Ok (perunwire.mkForceCloseRequestMsg (to_vec (id (watch_state value))) (Some latest)).

End Messages.
