(* ===== verification/Wire.v ===== *)
(** * The network

    Model of src/src/wire.rs and wire/encoding.rs: the message bus the channels
    send to, broadcasting to the other participants, and the layer that turns
    messages into length-prefixed protobuf bytes.  A bus is the state its
    methods act on; every effect of the library on its environment goes
    through it. *)
From S2P Require Import Prelude AbiSer Types PerunWire Payment Messages.

(** [trait BytesBus]. *)
Class BytesBus (B : Type) := {
  bytes_to_watcher : forall {E}, bytes -> M B E unit;
  bytes_to_funder : forall {E}, bytes -> M B E unit;
  bytes_to_participant : forall {E}, Identity -> Identity -> bytes -> M B E unit;
}.

Section Wire.
Context `{Pl : Platform} `{U : UintCrate} `{S : Sha3Crate}.

(** [trait MessageBus]. *)
Class MessageBus (B : Type) := {
  send_to_watcher : forall {E}, WatcherRequestMessage -> M B E unit;
  send_to_funder : forall {E}, FunderRequestMessage -> M B E unit;
  send_to_participant : forall {E}, Identity -> Identity -> ParticipantMessage -> M B E unit;
}.

(** The loop of [broadcast_to_participants]. *)
Fixpoint broadcast_loop {B} `{MessageBus B} {E} (i part_idx : Z) (sender : Identity)
    (peers : Peers) (msg : ParticipantMessage) : M B E unit :=
  match peers with
  | [] => mret tt
  | peer :: peers =>
      (if decide (i = part_idx) then mret tt else send_to_participant sender peer msg);;
      broadcast_loop (i + 1) part_idx sender peers msg
  end.

Definition broadcast_to_participants {B} `{MessageBus B} {E} (part_idx : PartIdx) (peers : Peers)
    (msg : ParticipantMessage) : M B E unit :=
  sender ← mlift (vec_index peers part_idx);
  broadcast_loop 0 part_idx sender peers msg.

(* ------------------------------------------------------------------ *)
(** ** encoding.rs                                                       *)
(* ------------------------------------------------------------------ *)

(** [prost::Message]: the protobuf encoding of the generated types. *)
Class ProstMessage (T : Type) := prost_encode : T -> bytes.

Context `{PM : ProstMessage perunwire.Message} `{PE : ProstMessage perunwire.Envelope}.

(** [ProtoBufEncodingLayer::encode]: panics on a message of 2^16 bytes or
    more. *)
Definition encode {T} `{ProstMessage T} {E} (msg : T) : res E bytes :=
  let len := zlen (prost_encode msg) in
  assert_ (bool_decide (len < 2 ^ 16));;
  Ok (be_bytes 2 len ++ prost_encode msg).

Record ProtoBufEncodingLayer (B : Type) : Type := mkProtoBufEncodingLayer { bus : B }.
Arguments mkProtoBufEncodingLayer {B} bus.
Arguments bus {B} p.

(** A call of the wrapped bus. *)
Definition on_bus {B E A} (m : M B E A) : M (ProtoBufEncodingLayer B) E A :=
  fun self => let (b, r) := m (bus self) in (mkProtoBufEncodingLayer b, r).

Definition encoding_send_to_watcher {B} `{BytesBus B} {E} (msg : WatcherRequestMessage)
    : M (ProtoBufEncodingLayer B) E unit :=
  wiremsg ← mlift
    match msg with
    | WatchRequest msg =>
        perunwire.Msg_StartWatchingLedgerChannelReq <$> StartWatchingLedgerChannelReq_into msg
    | StartDispute msg => perunwire.Msg_ForceCloseRequest <$> WatchInfo_into_force_close msg
    end;
  buf ← mlift (encode (perunwire.mkMessage (Some wiremsg)));
  on_bus (bytes_to_watcher buf).

Definition encoding_send_to_funder {B} `{BytesBus B} {E} (msg : FunderRequestMessage)
    : M (ProtoBufEncodingLayer B) E unit :=
  wiremsg ← mlift
    match msg with
    | FundReq msg => perunwire.Msg_FundReq <$> LedgerChannelFundingRequest_into msg
    | RegisterReqMsg msg => perunwire.Msg_RegisterReq <$> RegisterReq_into msg
    | WithdrawReqMsg msg => perunwire.Msg_WithdrawReq <$> WithdrawReq_into msg
    end;
  buf ← mlift (encode (perunwire.mkMessage (Some wiremsg)));
  on_bus (bytes_to_funder buf).

(** The envelope's message for each participant message. *)
Definition participant_wiremsg (msg : ParticipantMessage) : perunwire.envelope_Msg :=
  match msg with
  | Auth => perunwire.AuthResponseMsg
  | ChannelProposal msg => perunwire.Envelope_LedgerChannelProposalMsg (LedgerChannelProposal_into msg)
  | ProposalAccepted msg => perunwire.Envelope_LedgerChannelProposalAccMsg (LedgerChannelProposalAcc_into msg)
  | ProposalRejected id reason =>
      perunwire.Envelope_ChannelProposalRejMsg (perunwire.mkChannelProposalRejMsg (to_vec id) reason)
  | ChannelUpdateMsg msg => perunwire.Envelope_ChannelUpdateMsg (LedgerChannelUpdate_into msg)
  | ChannelUpdateAccepted msg => perunwire.Envelope_ChannelUpdateAccMsg (LedgerChannelUpdateAccepted_into msg)
  | ChannelUpdateRejected id version reason =>
      perunwire.Envelope_ChannelUpdateRejMsg (perunwire.mkChannelUpdateRejMsg (to_vec id) version reason)
  end.

Definition encoding_send_to_participant {B} `{BytesBus B} {E} (sender recipient : Identity)
    (msg : ParticipantMessage) : M (ProtoBufEncodingLayer B) E unit :=
  buf ← mlift (encode (perunwire.mkEnvelope sender recipient (Some (participant_wiremsg msg))));
  on_bus (bytes_to_participant sender recipient buf).

#[export] Instance ProtoBufEncodingLayer_MessageBus {B} `{BytesBus B}
    : MessageBus (ProtoBufEncodingLayer B) := {|
  send_to_watcher := @encoding_send_to_watcher B _;
  send_to_funder := @encoding_send_to_funder B _;
  send_to_participant := @encoding_send_to_participant B _;
|}.

(* ------------------------------------------------------------------ *)
(** ** Buses that do not fail                                            *)
(* ------------------------------------------------------------------ *)

(** A message the library sent. *)
Inductive Sent : Type :=
  | ToWatcher (msg : WatcherRequestMessage)
  | ToFunder (msg : FunderRequestMessage)
  | ToParticipant (sender recipient : Identity) (msg : ParticipantMessage).

(** A bus on which sending always returns. *)
Class PureBus (B : Type) {HB : MessageBus B} := {
  sent : B -> Sent -> B;
  watcher_ok E b m : @send_to_watcher B HB E m b = (sent b (ToWatcher m), Ok tt);
  funder_ok E b m : @send_to_funder B HB E m b = (sent b (ToFunder m), Ok tt);
  participant_ok E b s r m :
    @send_to_participant B HB E s r m b = (sent b (ToParticipant s r m), Ok tt);
}.

(** The bus that records what is sent, oldest first. *)
#[export] Instance log_MessageBus : MessageBus (list Sent) := {|
  send_to_watcher := fun E m b => (b ++ [ToWatcher m], Ok tt);
  send_to_funder := fun E m b => (b ++ [ToFunder m], Ok tt);
  send_to_participant := fun E s r m b => (b ++ [ToParticipant s r m], Ok tt);
|}.
#[export] Instance log_PureBus : PureBus (list Sent) := {|
  sent := fun b m => b ++ [m];
  watcher_ok := fun _ _ _ => eq_refl;
  funder_ok := fun _ _ _ => eq_refl;
  participant_ok := fun _ _ _ _ _ => eq_refl;
|}.

(** Sending several messages. *)
Definition sends {B} `{PureBus B} (b : B) (l : list Sent) : B := foldl sent b l.

Lemma sends_app {B} `{PureBus B} (b : B) l k : sends b (l ++ k) = sends (sends b l) k.
Proof. apply foldl_app. Qed.

Lemma sends_log (b : list Sent) l : sends b l = b ++ l.
Proof.
  revert b. induction l as [|m l IH]; intros b; [by rewrite app_nil_r|].
  unfold sends in *. cbn [foldl]. rewrite IH. cbn. by rewrite <- app_assoc.
Qed.

(** What a broadcast sends: the message to every other peer, in their order. *)
Definition broadcast_messages (part_idx : PartIdx) (peers : Peers) (msg : ParticipantMessage) : list Sent :=
  match peers !! Z.to_nat part_idx with
  | Some sender => (fun p => ToParticipant sender p msg) <$> delete (Z.to_nat part_idx) peers
  | None => []
  end.

Section Broadcast.
Context {B : Type} `{HB : !MessageBus B} `{PB : !PureBus B}.

Lemma broadcast_loop_rest {E} i part_idx sender peers msg (b : B) :
  part_idx < i ->
  @broadcast_loop B _ E i part_idx sender peers msg b =
    (sends b ((fun p => ToParticipant sender p msg) <$> peers), Ok tt).
Proof.
  revert i b. induction peers as [|p peers IH]; intros i b Hi; [done|].
  cbn [broadcast_loop]. rewrite decide_False by lia.
  erewrite M_bind_ok by apply participant_ok. by rewrite IH by lia.
Qed.

Lemma broadcast_loop_spec {E} i part_idx sender peers msg (b : B) :
  i <= part_idx ->
  @broadcast_loop B _ E i part_idx sender peers msg b =
    (sends b ((fun p => ToParticipant sender p msg) <$> delete (Z.to_nat (part_idx - i)) peers), Ok tt).
Proof.
  revert i b. induction peers as [|p peers IH]; intros i b Hi; [done|].
  cbn [broadcast_loop]. case_decide as Heq.
  - subst i. erewrite M_bind_ok by reflexivity. rewrite broadcast_loop_rest by lia.
    by rewrite Z.sub_diag.
  - erewrite M_bind_ok by apply participant_ok. rewrite IH by lia.
    replace (Z.to_nat (part_idx - i)) with (Datatypes.S (Z.to_nat (part_idx - (i + 1)))) by lia. done.
Qed.

Lemma broadcast_ok {E} part_idx peers msg (b : B) :
  0 <= part_idx < zlen peers ->
  @broadcast_to_participants B _ E part_idx peers msg b =
    (sends b (broadcast_messages part_idx peers msg), Ok tt).
Proof.
  intros Hi. unfold broadcast_to_participants, broadcast_messages.
  destruct (@vec_index_in E _ peers part_idx Hi) as (s & Hs & Hv). rewrite Hs.
  erewrite M_bind_lift_ok by exact Hv. rewrite broadcast_loop_spec by lia. by rewrite Z.sub_0_r.
Qed.

Lemma broadcast_panics {E} part_idx peers msg (b : B) :
  ~ 0 <= part_idx < zlen peers ->
  @broadcast_to_participants B _ E part_idx peers msg b = (b, Panic).
Proof.
  intros Hi. unfold broadcast_to_participants. apply M_bind_panic. unfold mlift.
  by rewrite vec_index_out.
Qed.

End Broadcast.
End Wire.

Arguments mkProtoBufEncodingLayer {B} bus.
Arguments bus {B} p.

(* ------------------------------------------------------------------ *)
(** ** What the applications use besides the library                     *)
(* ------------------------------------------------------------------ *)

(** [StdRng], with what is drawn from it. *)
Class RngCore (R : Type) := {
  gen_bytes32 : R -> R * bytesN 32;
  next_u32 : R -> R * Z;
}.

(** [prost::Message::decode]. *)
Class ProstDecode (DE T : Type) := prost_decode : bytes -> res DE T.
