(* ===== verification/WireTheorems.v ===== *)
(** * Messages and the network: theorems

    The frames of the byte stream, the recipients of a broadcast, and which
    messages survive the conversion to their protobuf counterpart and back. *)
From S2P Require Import Prelude AbiSpec AbiSer Types PerunWire Payment PaymentTheorems.
From S2P Require Import Messages Wire.

(* ------------------------------------------------------------------ *)
(** ** Frames                                                            *)
(* ------------------------------------------------------------------ *)

Section Frames.
Context `{Pl : Platform} {T : Type} `{PT : !ProstMessage T}.

Lemma encode_inv {E} (msg : T) buf :
  @encode T _ E msg = Ok buf ->
  zlen (prost_encode msg) < 2 ^ 16 /\ buf = be_bytes 2 (zlen (prost_encode msg)) ++ prost_encode msg.
Proof.
  unfold encode, assert_. case_bool_decide as Hl; [|done]. cbn [mbind res_bind]. by intros [= <-].
Qed.

Lemma frame_take n (l : bytes) : take 2 (be_bytes 2 n ++ l) = be_bytes 2 n.
Proof. apply take_app_length'. symmetry. apply be_bytes_length. Qed.

Lemma frame_drop n (l : bytes) : drop 2 (be_bytes 2 n ++ l) = l.
Proof. apply drop_app_length'. symmetry. apply be_bytes_length. Qed.

Lemma frame_length_val n : 0 <= n < 2 ^ 16 -> be_val (be_bytes 2 n) = n.
Proof. intros H. rewrite be_val_be_bytes. by apply Z.mod_small. Qed.

End Frames.

(* ------------------------------------------------------------------ *)
(** ** Conversions                                                       *)
(* ------------------------------------------------------------------ *)

Section Conversions.
Context `{Pl : Platform} `{U : UintCrate} `{UL : !UintLaws U} `{S : Sha3Crate} `{SL : !Sha3Laws S}.

Lemma bytes_try_into_Ok {N} (b : bytes) (a : bytesN N) : bytes_try_into b = Ok a <-> b = to_vec a.
Proof.
  split; [|intros ->; apply bytes_try_into_to_vec].
  unfold bytes_try_into. destruct (array_try_from b) as [c|] eqn:Hc; [|done]. intros [= ->].
  symmetry. by apply array_try_from_Some.
Qed.

(** A state that is sent and received. *)
Lemma State_roundtrip_iff {A P} (s : State A P) :
  State_try_from (State_into s) = Ok s <-> Allocation_try_from (Allocation_into (outcome s)) = Ok (outcome s).
Proof.
  unfold State_try_from, State_into. cbn [perunwire.State_data perunwire.State_id perunwire.State_allocation
    perunwire.State_version perunwire.State_is_final].
  rewrite (empty_array_eq (app_data s) (mk_array [] eq_refl)). rewrite decide_False by (by intros []).
  rewrite bytes_try_into_to_vec. cbn [mbind res_bind expect_some ok_or].
  destruct (Allocation_try_from (Allocation_into (outcome s))) as [o|e|]; cbn [mbind res_bind].
  - destruct s as [i v o' ad f]; cbn. rewrite (empty_array_eq ad (mk_array [] eq_refl)).
    split; [by intros [= ->]|by intros [= ->]].
  - by split.
  - by split.
Qed.

Lemma sigs_try_from_into (sigs : array Signature PARTICIPANTS) : sigs_try_from (sigs_into sigs) = Ok sigs.
Proof.
  unfold sigs_try_from, sigs_into. rewrite zlen_fmap, zlen_to_vec. rewrite decide_False by (by intros []).
  apply array_fill_Ok. apply (Forall2_fmap_id to_vec). intros x. apply bytes_try_into_to_vec.
Qed.

Lemma sigs_try_from_inv (l : list bytes) sigs : sigs_try_from l = Ok sigs -> l = sigs_into sigs.
Proof.
  unfold sigs_try_from. case_decide as Hl; [done|]. intros H.
  apply array_fill_inv in H; [|unfold zlen in Hl; lia]. unfold sigs_into. clear Hl.
  induction H as [|x y k k' Hx H IH]; [done|]. cbn [fmap list_fmap]. f_equal; [|exact IH].
  by apply bytes_try_into_Ok.
Qed.

Lemma as_u32_id z : as_u32 z = z <-> 0 <= z < 2 ^ 32.
Proof.
  unfold as_u32. split; [|intros; by apply Z.mod_small].
  intros <-. apply Z.mod_pos_bound. done.
Qed.

End Conversions.

(* ------------------------------------------------------------------ *)
(** ** What the peers rely on                                            *)
(* ------------------------------------------------------------------ *)

(** [encode] prefixes the protobuf bytes of a message with their number in
    two bytes, most significant first; it panics exactly on a message whose
    length does not fit them. *)
Theorem encode_spec `{Pl : Platform} {T : Type} `{PT : !ProstMessage T} {E} (msg : T) :
  match @encode T _ E msg with
  | Ok buf => be_val (take 2 buf) = zlen (prost_encode msg) /\ drop 2 buf = prost_encode msg
  | Err _ => False
  | Panic => 2 ^ 16 <= zlen (prost_encode msg)
  end.
Proof.
  destruct (@encode T _ E msg) as [buf|e|] eqn:He.
  - apply encode_inv in He as [Hl ->]. rewrite frame_take, frame_drop. split; [|done].
    apply frame_length_val. split; [apply zlen_nonneg|done].
  - unfold encode, assert_ in He. by destruct (bool_decide _).
  - unfold encode, assert_ in He. case_bool_decide; [done|lia].
Qed.

(** The frames of a stream are self-delimiting: whatever bytes follow, a
    stream that starts with the frame of a message and also with that of
    another one carries the same message bytes, and the same bytes remain. *)
Theorem frames_self_delimiting `{Pl : Platform} {T : Type} `{PT : !ProstMessage T} {E} (m1 m2 : T)
    (f1 f2 rest1 rest2 : bytes) :
  @encode T _ E m1 = Ok f1 -> @encode T _ E m2 = Ok f2 -> f1 ++ rest1 = f2 ++ rest2 ->
  prost_encode m1 = prost_encode m2 /\ rest1 = rest2.
Proof.
  intros [H1 ->]%encode_inv [H2 ->]%encode_inv. rewrite <- !app_assoc.
  intros [Hn H]%app_inj_1; [|by rewrite !be_bytes_length].
  apply (f_equal be_val) in Hn. rewrite !frame_length_val in Hn by (split; [apply zlen_nonneg|done]).
  apply app_inj_1 in H; [done|]. unfold zlen in Hn. lia.
Qed.

(** A broadcast sends the message to every peer but the sender, once, in
    the order of the peers; it panics before anything is sent exactly when the
    index of the sender is not that of a peer. *)
Theorem broadcast_spec `{U : UintCrate} {B : Type} `{HB : !MessageBus B} `{PB : !PureBus B} {E}
    (part_idx : PartIdx) (peers : Peers) (msg : ParticipantMessage) (b : B) :
  @broadcast_to_participants _ B _ E part_idx peers msg b =
    if decide (0 <= part_idx < zlen peers)
    then (sends b ((fun p => ToParticipant (nth (Z.to_nat part_idx) peers []) p msg)
                     <$> (take (Z.to_nat part_idx) peers ++ drop (Datatypes.S (Z.to_nat part_idx)) peers)),
          Ok tt)
    else (b, Panic).
Proof.
  case_decide as Hi; [|by apply broadcast_panics]. rewrite broadcast_ok by done.
  unfold broadcast_messages.
  destruct (lookup_lt_is_Some_2 peers (Z.to_nat part_idx)) as [s Hs]; [unfold zlen in Hi; lia|].
  rewrite Hs, (nth_lookup_Some _ _ _ _ Hs), delete_take_drop. done.
Qed.

(** A proposal survives the conversion to a protobuf message and back
    exactly when the holder of its asset is the zero address. *)
Lemma proposal_wire_roundtrip_iff `{U : UintCrate} `{UL : !UintLaws U} (p : LedgerChannelProposal) :
  LedgerChannelProposal_try_from (LedgerChannelProposal_into p) = Ok p <->
  Forall (fun x => x = Asset_default) (to_vec (assets (prop_init_bals p))).
Proof.
  rewrite <- Allocation_roundtrip_iff.
  unfold LedgerChannelProposal_try_from, LedgerChannelProposal_into.
  cbn [perunwire.LedgerChannelProposalMsg_base_channel_proposal perunwire.LedgerChannelProposalMsg_participant
    perunwire.LedgerChannelProposalMsg_peers perunwire.BaseChannelProposal_init_bals
    perunwire.BaseChannelProposal_funding_agreement perunwire.BaseChannelProposal_proposal_id
    perunwire.BaseChannelProposal_nonce_share perunwire.BaseChannelProposal_challenge_duration
    expect_some ok_or mbind res_bind].
  rewrite !bytes_try_into_to_vec, Address_try_from_bytes. cbn [mbind res_bind].
  destruct (Allocation_try_from _) as [a|e|]; cbn [mbind res_bind]; [|by split..].
  rewrite Balances_roundtrip. cbn [mbind res_bind]. destruct p as [pid cd ns ib fa pt ps]; cbn.
  split; by intros [= ->].
Qed.

(** An update survives the conversion to a protobuf message and back exactly
    when the holder of its asset is the zero address and the index of the actor
    fits 32 bits. *)
Lemma update_wire_roundtrip_iff `{U : UintCrate} `{UL : !UintLaws U} (u : LedgerChannelUpdate) :
  LedgerChannelUpdate_try_from (LedgerChannelUpdate_into u) = Ok u <->
  Forall (fun x => x = Asset_default) (to_vec (assets (outcome (upd_state u)))) /\ 0 <= upd_actor_idx u < 2 ^ 32.
Proof.
  rewrite <- Allocation_roundtrip_iff, <- State_roundtrip_iff, <- as_u32_id.
  unfold LedgerChannelUpdate_try_from, LedgerChannelUpdate_into, Signature_try_from.
  cbn [perunwire.ChannelUpdateMsg_channel_update perunwire.ChannelUpdateMsg_sig perunwire.ChannelUpdate_state
    perunwire.ChannelUpdate_actor_idx expect_some ok_or mbind res_bind].
  destruct (State_try_from _) as [st|e|]; cbn [mbind res_bind]; [|by split; [|intros [? _]]..].
  rewrite bytes_try_into_to_vec. cbn [mbind res_bind]. destruct u as [us ui sg]; cbn.
  split; [by intros [= -> ->]|]. by intros [[= ->] ->].
Qed.

(** The acceptance of a proposal survives the conversion to a protobuf message
    and back. *)
Lemma acceptance_wire_roundtrip (acc : LedgerChannelProposalAcc) :
  LedgerChannelProposalAcc_try_from (LedgerChannelProposalAcc_into acc) = Ok acc.
Proof.
  unfold LedgerChannelProposalAcc_try_from, LedgerChannelProposalAcc_into.
  cbn [perunwire.LedgerChannelProposalAccMsg_base_channel_proposal_acc
    perunwire.LedgerChannelProposalAccMsg_participant perunwire.BaseChannelProposalAcc_proposal_id
    perunwire.BaseChannelProposalAcc_nonce_share expect_some ok_or mbind res_bind].
  rewrite !bytes_try_into_to_vec, Address_try_from_bytes. by destruct acc.
Qed.

(** So does that of an update. *)
Lemma update_acceptance_wire_roundtrip (upacc : LedgerChannelUpdateAccepted) :
  LedgerChannelUpdateAccepted_try_from (LedgerChannelUpdateAccepted_into upacc) = Ok upacc.
Proof.
  unfold LedgerChannelUpdateAccepted_try_from, LedgerChannelUpdateAccepted_into, Signature_try_from.
  cbn [perunwire.ChannelUpdateAccMsg_channel_id perunwire.ChannelUpdateAccMsg_version
    perunwire.ChannelUpdateAccMsg_sig].
  rewrite !bytes_try_into_to_vec. by destruct upacc.
Qed.

(** A list of signatures is accepted from the wire exactly when it has one
    entry of 65 bytes per participant, and then nothing of it is lost. *)
Theorem signatures_from_wire_iff (l : list bytes) (sigs : array Signature PARTICIPANTS) :
  sigs_try_from l = Ok sigs <-> l = sigs_into sigs.
Proof. split; [apply sigs_try_from_inv|]. intros ->. apply sigs_try_from_into. Qed.

(** What the watcher is asked to watch survives the conversion to a
    protobuf message and back, if the application and the holder of the asset
    are the zero address: parameters, state and the signatures in their
    order. *)
Theorem watch_request_wire_roundtrip `{Pl : Platform} `{U : UintCrate} `{UL : !UintLaws U} `{S : Sha3Crate}
    `{SL : !Sha3Laws S} (r : StartWatchingLedgerChannelReq) :
  app (start_params r) = Address_default ->
  Forall (fun x => x = Asset_default) (to_vec (assets (outcome (start_state r)))) ->
  (StartWatchingLedgerChannelReq_into r ≫= StartWatchingLedgerChannelReq_try_from) = Ok r.
Proof.
  intros Happ Hass. unfold StartWatchingLedgerChannelReq_into.
  pose proof (Params_roundtrip (E:=ConversionError) (start_params r)) as (pw & Hpw & Hback). rewrite Hpw.
  cbn [mbind res_bind].
  unfold StartWatchingLedgerChannelReq_try_from. cbn [perunwire.StartWatching_sigs perunwire.StartWatching_params
    perunwire.StartWatching_state]. rewrite sigs_try_from_into. cbn [mbind res_bind expect_some ok_or].
  rewrite Hback. cbn [mbind res_bind].
  apply Allocation_roundtrip_iff, State_roundtrip_iff in Hass. rewrite Hass. cbn [mbind res_bind].
  destruct r as [[cd n ps ap lc vc] st sg]. cbn in Happ |- *. by rewrite Happ.
Qed.
