(* ===== verification/ChannelTypes.v ===== *)
(** * The phases of a channel: data

    The structs and error types of src/src/channel/ and src/src/client.rs.  A
    channel is proposed ([ProposedChannel]), agreed upon ([AgreedUponChannel]),
    signed and waiting for funding ([SignedChannel]) and active
    ([ActiveChannel]); a [ChannelUpdate] is a pending next state of an active
    channel.  Where the code holds a reference to the [PerunClient], the model
    holds the signer; the bus of the client is the state the operations run
    on. *)
From S2P Require Import Prelude AbiSer Types Payment Sig Messages.

(** ** Errors *)

Record AlreadyAcceptedError : Type := mkAlreadyAcceptedError {}.

Inductive HandleAcceptError : Type :=
  | HA_InvalidProposalID
  | HA_AlreadyAccepted.

Inductive ProposalBuildError : Type :=
  | PB_AbiEncodeError (e : Error)
  | PB_MissingAccResponse (part_idx : PartIdx).

Inductive SignError : Type :=
  | S_AbiEncodeError (e : Error)
  | S_AlreadySigned.

Inductive BuildError : Type :=
  | B_MissingSignatureResponse (part_idx : PartIdx)
  | B_AbiEncodeError (e : Error).

Inductive InvalidUpdate : Type :=
  | InvalidChannelID
  | InvalidVersionNumber
  | CurrentStateIsFinal
  | AssetsMismatch
  | TotalAllocationAmountMismatch.

Inductive ProposeUpdateError : Type :=
  | PU_AbiEncodeError (e : Error)
  | PU_InvalidUpdate (e : InvalidUpdate).

Inductive InvalidChannel : Type :=
  | WrongVersion
  | WrongChannelId.

Inductive AcceptError : Type :=
  | A_AbiEncodeError (e : Error)
  | A_AlreadyAccepted
  | A_WrongVersion
  | A_WrongChannelId.

Inductive ApplyError : Type :=
  | Ap_MissingSignature (part_idx : PartIdx)
  | Ap_SignError (e : SignError)
  | Ap_WrongVersion
  | Ap_WrongChannelId.

Inductive InvalidProposal : Type :=
  | NoChallengeDurationSet
  | PeerParticipantCountMismatch.

Section Errors.
Context `{I : SignerImpl}.

Inductive AddSignatureError : Type :=
  | AS_AbiEncodeError (e : Error)
  | AS_RecoveryFailed (e : SigError)
  | AS_AlreadySigned
  | AS_InvalidSignature (addr : Address)
  | AS_InvalidChannelID
  | AS_InvalidVersionNumber
  | AS_WrongVersion
  | AS_WrongChannelId.

Inductive HandleUpdateError : Type :=
  | HU_AbiEncodeError (e : Error)
  | HU_RecoveryFailed (e : SigError)
  | HU_InvalidSignature (addr : Address)
  | HU_InvalidUpdate (e : InvalidUpdate).

End Errors.

(** The [From<InvalidChannel>] conversions. *)
Definition AcceptError_from_InvalidChannel (e : InvalidChannel) : AcceptError :=
  match e with WrongVersion => A_WrongVersion | WrongChannelId => A_WrongChannelId end.
Definition ApplyError_from_InvalidChannel (e : InvalidChannel) : ApplyError :=
  match e with WrongVersion => Ap_WrongVersion | WrongChannelId => Ap_WrongChannelId end.
Definition AddSignatureError_from_InvalidChannel `{I : SignerImpl} (e : InvalidChannel)
    : AddSignatureError :=
  match e with WrongVersion => AS_WrongVersion | WrongChannelId => AS_WrongChannelId end.

(** ** Channels *)

Section Channels.
Context `{U : UintCrate} `{I : SignerImpl}.

Record ProposedChannel : Type := mkProposedChannel {
  pc_part_idx : PartIdx;
  pc_withdraw_receiver : Address;
  pc_signer : Signer;
  pc_proposal : LedgerChannelProposal;
  pc_responses : array (option LedgerChannelProposalAcc) 1;
}.

Record AgreedUponChannel : Type := mkAgreedUponChannel {
  au_part_idx : PartIdx;
  au_withdraw_receiver : Address;
  au_signer : Signer;
  au_funding_agreement : Balances ASSETS PARTICIPANTS;
  au_init_state : State ASSETS PARTICIPANTS;
  au_params : Params PARTICIPANTS;
  au_signatures : array (option Signature) 2;
  au_peers : Peers;
}.

Record ActiveChannel : Type := mkActiveChannel {
  ac_part_idx : PartIdx;
  ac_withdraw_receiver : Address;
  ac_signer : Signer;
  ac_state : State ASSETS PARTICIPANTS;
  ac_params : Params PARTICIPANTS;
  ac_signatures : array Signature PARTICIPANTS;
  ac_peers : Peers;
}.

(** [struct SignedChannel(ActiveChannel)]. *)
Record SignedChannel : Type := mkSignedChannel { sc_channel : ActiveChannel }.

Record ChannelUpdate : Type := mkChannelUpdate {
  cu_channel_id : Hash;
  cu_new_state : State ASSETS PARTICIPANTS;
  cu_signatures : array (option Signature) PARTICIPANTS;
}.

(** [struct PerunClient], without its bus. *)
Record PerunClient : Type := mkPerunClient { cl_signer : Signer }.

End Channels.
