(* ===== verification/Active.v ===== *)
(** * Active channels and their updates

    Model of src/src/channel/active.rs, channel_update.rs, signed.rs and
    withdrawal_auth.rs. *)
From S2P Require Import Prelude AbiSer Types Payment Sig Messages Wire ChannelTypes.

Section Active.
Context `{Pl : Platform} `{U : UintCrate} `{S : Sha3Crate} `{I : SignerImpl}.
Context {B : Type} `{HB : !MessageBus B}.

Abbreviation CState := (State ASSETS PARTICIPANTS).
Abbreviation CParams := (Params PARTICIPANTS).

(* ------------------------------------------------------------------ *)
(** ** withdrawal_auth.rs                                                *)
(* ------------------------------------------------------------------ *)

Record WithdrawalAuth : Type := mkWithdrawalAuth {
  wa_channel_id : Hash;
  wa_participant : Address;
  wa_receiver : Address;
  wa_amount : U256;
}.

#[export] Instance WithdrawalAuth_ToValue : ToValue WithdrawalAuth := fun self =>
  VStruct "WithdrawalAuth" [
    ("channel_id", to_value (wa_channel_id self));
    ("participant", to_value (wa_participant self));
    ("receiver", to_value (wa_receiver self));
    ("amount", to_value (wa_amount self))].

Definition make_signed_withdrawal_auths (signer : Signer) (channel_id : Hash) (params : CParams)
    (state : CState) (withdraw_receiver : Address) (part_idx : PartIdx)
    : res Error (array SignedWithdrawalAuth ASSETS) :=
  debug_assert (bool_decide (Z.of_nat ASSETS = zlen (to_vec (asset_bals (balances (outcome state))))));;
  array_mapM (fun bals =>
    participant ← array_index (participants params) part_idx;
    amount ← array_index (part_bals bals) part_idx;
    hash ← to_hash (to_value (mkWithdrawalAuth channel_id participant withdraw_receiver amount));
    sig ← sign_eth signer hash;
    Ok (mkSignedWithdrawalAuth sig withdraw_receiver))
  (asset_bals (balances (outcome state))).

(* ------------------------------------------------------------------ *)
(** ** active.rs                                                         *)
(* ------------------------------------------------------------------ *)

Definition ActiveChannel_new {E} (signer : Signer) (part_idx : PartIdx) (withdraw_receiver : Address)
    (init_state : CState) (params : CParams) (signatures : array Signature PARTICIPANTS)
    (peers : Peers) : res E ActiveChannel :=
  debug_assert (bool_decide (part_idx < zlen (to_vec (participants params))));;
  Ok (mkActiveChannel part_idx withdraw_receiver signer init_state params signatures peers).

Definition ac_channel_id (self : ActiveChannel) : Hash := id (ac_state self).
Definition ac_version (self : ActiveChannel) : u64 := version (ac_state self).

Definition check_valid_transition (self : ActiveChannel) (new_state : CState) : res InvalidUpdate unit :=
  debug_assert (bool_decide (zlen (to_vec (locked (outcome new_state))) = 0));;
  debug_assert_valid (outcome new_state);;
  if decide (id new_state <> id (ac_state self)) then Err InvalidChannelID
  else if is_final (ac_state self) then Err CurrentStateIsFinal
  else
    next ← u64_add (version (ac_state self)) (u64_wrap 1);
    if decide (version new_state <> next) then Err InvalidVersionNumber
    else if decide (assets (outcome new_state) <> assets (outcome (ac_state self))) then Err AssetsMismatch
    else
      new_total ← total_assets (outcome new_state);
      total ← total_assets (outcome (ac_state self));
      if decide (new_total <> total) then Err TotalAllocationAmountMismatch else Ok tt.

(** [ChannelUpdate::new]. *)
Definition ChannelUpdate_new {E} (channel : ActiveChannel) (new_state : CState) (sig_part_idx : PartIdx)
    (sig : Signature) : res E ChannelUpdate :=
  signatures ← array_set (array_repeat PARTICIPANTS None) sig_part_idx (Some sig);
  Ok (mkChannelUpdate (ac_channel_id channel) new_state signatures).

Definition ac_update (self : ActiveChannel) (new_state : CState) : M B ProposeUpdateError ChannelUpdate :=
  mlift (map_err PU_InvalidUpdate (check_valid_transition self new_state));;
  hash ← mlift (map_err PU_AbiEncodeError (to_hash (to_value new_state)));
  sig ← mlift (sign_eth (ac_signer self) hash);
  broadcast_to_participants (ac_part_idx self) (ac_peers self)
    (ChannelUpdateMsg (mkLedgerChannelUpdate new_state (ac_part_idx self) sig));;
  mlift (ChannelUpdate_new self new_state (ac_part_idx self) sig).

Definition handle_update (self : ActiveChannel) (msg : LedgerChannelUpdate)
    : res HandleUpdateError ChannelUpdate :=
  map_err HU_InvalidUpdate (check_valid_transition self (upd_state msg));;
  hash ← map_err HU_AbiEncodeError (to_hash (to_value (upd_state msg)));
  signer ← map_err HU_RecoveryFailed (recover_signer (ac_signer self) hash (upd_sig msg));
  participant ← array_index (participants (ac_params self)) (upd_actor_idx msg);
  if decide (participant <> signer) then Err (HU_InvalidSignature signer)
  else ChannelUpdate_new self (upd_state msg) (upd_actor_idx msg) (upd_sig msg).

Definition make_watch_info (self : ActiveChannel) : res SignError StartWatchingLedgerChannelReq :=
  Ok (mkStartWatchingLedgerChannelReq (ac_params self) (ac_state self) (ac_signatures self)).

Definition send_current_state_to_watcher (self : ActiveChannel) : M B SignError unit :=
  send_to_watcher (WatchRequest
    (mkStartWatchingLedgerChannelReq (ac_params self) (ac_state self) (ac_signatures self)));;
  mret tt.

(** The assignments to [self.state] and [self.signatures]. *)
Definition set_state (self : ActiveChannel) (state : CState) (signatures : array Signature PARTICIPANTS)
    : ActiveChannel :=
  mkActiveChannel (ac_part_idx self) (ac_withdraw_receiver self) (ac_signer self) state
    (ac_params self) signatures (ac_peers self).

Definition force_update (new_state : CState) (signatures : array Signature PARTICIPANTS)
    : M (ActiveChannel * B) SignError unit :=
  fun '(self, b) =>
    let old_state := ac_state self in
    let old_sigs := ac_signatures self in
    let self := set_state self new_state signatures in
    match send_current_state_to_watcher self b with
    | (b, Ok _) => ((self, b), Ok tt)
    | (b, Err e) => ((set_state self old_state old_sigs, b), Err e)
    | (b, Panic) => ((self, b), Panic)
    end.

Definition close_normal (self : ActiveChannel) : M B ProposeUpdateError ChannelUpdate :=
  next ← mlift (make_next_state (ac_state self));
  ac_update self (mkState (id next) (version next) (outcome next) (app_data next) true).

(** The request [force_close] and [withdraw] send. *)
Definition make_adjudicator_req (self : ActiveChannel) : AdjudicatorReq :=
  mkAdjudicatorReq (ac_params self) (ac_withdraw_receiver self)
    (mkTransaction (ac_state self) (ac_signatures self)) (ac_part_idx self) false.

Definition force_close (self : ActiveChannel) : M B (ActiveChannel * SignError) ActiveChannel :=
  send_to_funder (RegisterReqMsg (mkRegisterReq (make_adjudicator_req self)));;
  mret self.

Definition withdraw (self : ActiveChannel) : M B SignError ActiveChannel :=
  send_to_funder (WithdrawReqMsg (mkWithdrawReq (make_adjudicator_req self)));;
  mret self.

(* ------------------------------------------------------------------ *)
(** ** signed.rs                                                         *)
(* ------------------------------------------------------------------ *)

Definition SignedChannel_new {E} (signer : Signer) (part_idx : PartIdx) (withdraw_receiver : Address)
    (init_state : CState) (params : CParams) (signatures : array Signature PARTICIPANTS)
    (peers : Peers) : res E SignedChannel :=
  ch ← ActiveChannel_new signer part_idx withdraw_receiver init_state params signatures peers;
  Ok (mkSignedChannel ch).

Definition mark_funded (self : SignedChannel) : ActiveChannel := sc_channel self.
Definition sc_channel_id (self : SignedChannel) : Hash := ac_channel_id (sc_channel self).

(* ------------------------------------------------------------------ *)
(** ** channel_update.rs                                                 *)
(* ------------------------------------------------------------------ *)

Definition ensure_valid_channel (self : ChannelUpdate) (channel : ActiveChannel) : res InvalidChannel unit :=
  next ← u64_add (ac_version channel) (u64_wrap 1);
  if decide (version (cu_new_state self) <> next) then Err WrongVersion
  else if decide (cu_channel_id self <> ac_channel_id channel) then Err WrongChannelId
  else Ok tt.

Definition set_signatures (self : ChannelUpdate) (signatures : array (option Signature) PARTICIPANTS)
    : ChannelUpdate :=
  mkChannelUpdate (cu_channel_id self) (cu_new_state self) signatures.

(** [ChannelUpdate::accept]; the channel is only read. *)
Definition cu_accept (channel : ActiveChannel) : M (ChannelUpdate * B) AcceptError unit :=
  '(self, _) ← mget;
  mlift (map_err AcceptError_from_InvalidChannel (ensure_valid_channel self channel));;
  s ← mlift (array_index (cu_signatures self) (ac_part_idx channel));
  match s with
  | Some _ => mthrow A_AlreadyAccepted
  | None =>
      hash ← mlift (map_err A_AbiEncodeError (to_hash (to_value (cu_new_state self))));
      sig ← mlift (sign_eth (ac_signer channel) hash);
      let acc := mkLedgerChannelUpdateAccepted (cu_channel_id self) (version (cu_new_state self)) sig in
      signatures ← mlift (array_set (cu_signatures self) (ac_part_idx channel) (Some sig));
      on_fst (mput (set_signatures self signatures));;
      on_snd (broadcast_to_participants (ac_part_idx channel) (ac_peers channel)
                (ChannelUpdateAccepted acc))
  end.

(** [ChannelUpdate::reject]. *)
Definition cu_reject (self : ChannelUpdate) (channel : ActiveChannel) (reason : string)
    : M B InvalidChannel unit :=
  mlift (ensure_valid_channel self channel);;
  broadcast_to_participants (ac_part_idx channel) (ac_peers channel)
    (ChannelUpdateRejected (cu_channel_id self) (version (cu_new_state self)) reason).

(** [ChannelUpdate::participant_accepted]. *)
Definition cu_participant_accepted (channel : ActiveChannel) (part_idx : PartIdx)
    (msg : LedgerChannelUpdateAccepted) : M ChannelUpdate AddSignatureError unit :=
  self ← mget;
  mlift (map_err AddSignatureError_from_InvalidChannel (ensure_valid_channel self channel));;
  if decide (upacc_channel msg <> cu_channel_id self) then mthrow AS_InvalidChannelID
  else if decide (upacc_version msg <> version (cu_new_state self)) then mthrow AS_InvalidVersionNumber
  else
    hash ← mlift (map_err AS_AbiEncodeError (to_hash (to_value (cu_new_state self))));
    signer ← mlift (map_err AS_RecoveryFailed (recover_signer (ac_signer channel) hash (upacc_sig msg)));
    participant ← mlift (array_index (participants (ac_params channel)) part_idx);
    if decide (participant <> signer) then mthrow (AS_InvalidSignature signer)
    else
      s ← mlift (array_index (cu_signatures self) part_idx);
      match s with
      | Some _ => mthrow AS_AlreadySigned
      | None =>
          signatures ← mlift (array_set (cu_signatures self) part_idx (Some (upacc_sig msg)));
          mput (set_signatures self signatures)
      end.

(** The loop of [signatures]: the signatures, or the first missing one. *)
Fixpoint collect_signatures (part_idx : PartIdx) (sigs : list (option Signature))
    : res ApplyError (list Signature) :=
  match sigs with
  | [] => Ok []
  | s :: sigs =>
      sig ← ok_or (Ap_MissingSignature part_idx) s;
      rest ← collect_signatures (part_idx + 1) sigs;
      Ok (sig :: rest)
  end.

Definition cu_all_signatures (self : ChannelUpdate) : res ApplyError (array Signature PARTICIPANTS) :=
  sigs ← collect_signatures 0 (to_vec (cu_signatures self));
  unwrap (array_try_from sigs).

(** [ChannelUpdate::apply]; the update is only read. *)
Definition cu_apply (self : ChannelUpdate) : M (ActiveChannel * B) ApplyError unit :=
  '(channel, _) ← mget;
  mlift (map_err ApplyError_from_InvalidChannel (ensure_valid_channel self channel));;
  signatures ← mlift (cu_all_signatures self);
  mmap_err Ap_SignError (force_update (cu_new_state self) signatures).

End Active.
