(* ===== verification/Proposal.v ===== *)
(** * Opening a channel

    Model of src/src/client.rs, src/src/channel/proposal.rs and
    agreed_upon.rs: proposing a channel and accepting a proposal, combining the
    nonce shares into the parameters, and exchanging the signatures of the
    initial state. *)
From S2P Require Import Prelude AbiSer Types Payment Sig Messages Wire ChannelTypes Active.

Section Opening.
Context `{Pl : Platform} `{U : UintCrate} `{S : Sha3Crate} `{I : SignerImpl}.
Context {B : Type} `{HB : !MessageBus B}.

Abbreviation CState := (State ASSETS PARTICIPANTS).
Abbreviation CParams := (Params PARTICIPANTS).

(* ------------------------------------------------------------------ *)
(** ** agreed_upon.rs                                                    *)
(* ------------------------------------------------------------------ *)

Definition AgreedUponChannel_new (signer : Signer) (funding_agreement : Balances ASSETS PARTICIPANTS)
    (part_idx : PartIdx) (withdraw_receiver : Address) (init_state : CState) (params : CParams)
    (peers : Peers) : AgreedUponChannel :=
  mkAgreedUponChannel part_idx withdraw_receiver signer funding_agreement init_state params
    (array_repeat PARTICIPANTS None) peers.

Definition au_set_signatures (self : AgreedUponChannel) (signatures : array (option Signature) 2)
    : AgreedUponChannel :=
  mkAgreedUponChannel (au_part_idx self) (au_withdraw_receiver self) (au_signer self)
    (au_funding_agreement self) (au_init_state self) (au_params self) signatures (au_peers self).

(** [AgreedUponChannel::sign]. *)
Definition sign : M (AgreedUponChannel * B) SignError unit :=
  '(self, _) ← mget;
  s ← mlift (array_index (au_signatures self) (au_part_idx self));
  match s with
  | Some _ => mthrow S_AlreadySigned
  | None =>
      hash ← mlift (map_err S_AbiEncodeError (to_hash (to_value (au_init_state self))));
      sig ← mlift (sign_eth (au_signer self) hash);
      signatures ← mlift (array_set (au_signatures self) (au_part_idx self) (Some sig));
      on_fst (mput (au_set_signatures self signatures));;
      on_snd (broadcast_to_participants (au_part_idx self) (au_peers self)
        (ChannelUpdateAccepted
           (mkLedgerChannelUpdateAccepted (id (au_init_state self)) (version (au_init_state self)) sig)))
  end.

(** [.iter().enumerate().find(|(_, &addr)| addr == signer)]. *)
Fixpoint find_participant (i : PartIdx) (signer : Address) (participants : list Address) : option PartIdx :=
  match participants with
  | [] => None
  | addr :: participants =>
      if decide (addr = signer) then Some i else find_participant (i + 1) signer participants
  end.

Definition add_signature (msg : LedgerChannelUpdateAccepted) : M AgreedUponChannel AddSignatureError unit :=
  self ← mget;
  if decide (upacc_channel msg <> id (au_init_state self)) then mthrow AS_InvalidChannelID
  else if decide (u64_val (upacc_version msg) <> 0) then mthrow AS_InvalidVersionNumber
  else
    hash ← mlift (map_err AS_AbiEncodeError (to_hash (to_value (au_init_state self))));
    signer ← mlift (map_err AS_RecoveryFailed (recover_signer (au_signer self) hash (upacc_sig msg)));
    part_idx ← mlift (ok_or (AS_InvalidSignature signer)
                        (find_participant 0 signer (to_vec (participants (au_params self)))));
    s ← mlift (array_index (au_signatures self) part_idx);
    match s with
    | Some _ => mthrow AS_AlreadySigned
    | None =>
        signatures ← mlift (array_set (au_signatures self) part_idx (Some (upacc_sig msg)));
        mput (au_set_signatures self signatures)
    end.

(** The loop of [build] over the signatures. *)
Fixpoint build_signatures (part_idx : PartIdx) (sigs : list (option Signature))
    : res BuildError (list Signature) :=
  match sigs with
  | [] => Ok []
  | s :: sigs =>
      sig ← ok_or (B_MissingSignatureResponse part_idx) s;
      rest ← build_signatures (part_idx + 1) sigs;
      Ok (sig :: rest)
  end.

(** [AgreedUponChannel::build]: on an error the channel is given back. *)
Definition au_build (self : AgreedUponChannel) : M B (AgreedUponChannel * BuildError) SignedChannel :=
  sigs ← mlift (map_err (pair self) (build_signatures 0 (to_vec (au_signatures self))));
  signatures ← mlift (unwrap (array_try_from sigs));
  send_to_watcher (WatchRequest
    (mkStartWatchingLedgerChannelReq (au_params self) (au_init_state self) signatures));;
  send_to_funder (FundReq
    (mkLedgerChannelFundingRequest (au_part_idx self) (au_funding_agreement self)
       (au_params self) (au_init_state self)));;
  mlift (SignedChannel_new (au_signer self) (au_part_idx self) (au_withdraw_receiver self)
    (au_init_state self) (au_params self) signatures (au_peers self)).

(* ------------------------------------------------------------------ *)
(** ** proposal.rs                                                       *)
(* ------------------------------------------------------------------ *)

Definition ProposedChannel_new (signer : Signer) (part_idx : PartIdx) (withdraw_receiver : Address)
    (proposal : LedgerChannelProposal) : ProposedChannel :=
  mkProposedChannel part_idx withdraw_receiver signer proposal (array_repeat 1 None).

Definition pc_set_responses (self : ProposedChannel)
    (responses : array (option LedgerChannelProposalAcc) 1) : ProposedChannel :=
  mkProposedChannel (pc_part_idx self) (pc_withdraw_receiver self) (pc_signer self)
    (pc_proposal self) responses.

(** [ProposedChannel::accept]. *)
Definition pc_accept (nonce_share : NonceShare) (address : Address)
    : M (ProposedChannel * B) AlreadyAcceptedError unit :=
  '(self, _) ← mget;
  let acc := mkLedgerChannelProposalAcc (prop_proposal_id (pc_proposal self)) nonce_share address in
  index ← mlift (usize_sub (pc_part_idx self) 1);
  responses ← mlift (array_set (pc_responses self) index (Some acc));
  on_fst (mput (pc_set_responses self responses));;
  on_snd (broadcast_to_participants (pc_part_idx self) (prop_peers (pc_proposal self))
            (ProposalAccepted acc)).

(** [ProposedChannel::reject]. *)
Definition pc_reject {E} (self : ProposedChannel) (reason : string) : M B E unit :=
  broadcast_to_participants (pc_part_idx self) (prop_peers (pc_proposal self))
    (ProposalRejected (prop_proposal_id (pc_proposal self)) reason).

(** [ProposedChannel::participant_accepted]. *)
Definition pc_participant_accepted (part_idx : PartIdx) (msg : LedgerChannelProposalAcc)
    : M ProposedChannel HandleAcceptError unit :=
  self ← mget;
  if decide (acc_proposal_id msg <> prop_proposal_id (pc_proposal self)) then mthrow HA_InvalidProposalID
  else
    index ← mlift (usize_sub part_idx 1);
    r ← mlift (array_index (pc_responses self) index);
    match r with
    | Some _ => mthrow HA_AlreadyAccepted
    | None =>
        responses ← mlift (array_set (pc_responses self) index (Some msg));
        mput (pc_set_responses self responses)
    end.

(** The loop of [build] over the responses: the participants and the hasher,
    or the first missing response. *)
Fixpoint build_responses (index : PartIdx) (responses : list (option LedgerChannelProposalAcc))
    (participants : array Address PARTICIPANTS) (hasher : Hasher (Digest:=Sha3_256))
    : res ProposalBuildError (array Address PARTICIPANTS * Hasher (Digest:=Sha3_256)) :=
  match responses with
  | [] => Ok (participants, hasher)
  | r :: responses =>
      res ← ok_or (PB_MissingAccResponse (index + 1)) r;
      participants ← array_set participants (index + 1) (acc_participant res);
      build_responses (index + 1) responses participants
        (hasher_update hasher (to_vec (acc_nonce_share res)))
  end.

(** [ProposedChannel::build]: on an error the channel is given back. *)
Definition pc_build (self : ProposedChannel) : res (ProposedChannel * ProposalBuildError) AgreedUponChannel :=
  let proposal := pc_proposal self in
  participants ← array_set (array_repeat PARTICIPANTS Address_default) 0 (prop_participant proposal);
  let hasher := hasher_update hasher_new (to_vec (prop_nonce_share proposal)) in
  '(participants, hasher) ←
    map_err (pair self) (build_responses 0 (to_vec (pc_responses self)) participants hasher);
  nonce ← from_big_endian (to_vec (hasher_finalize hasher));
  let params := mkParams (prop_challenge_duration proposal) nonce participants
                  (mkAddress (array_repeat 20 x00)) true false in
  init_state ← map_err (fun e => (self, PB_AbiEncodeError e)) (State_new params (prop_init_bals proposal));
  Ok (AgreedUponChannel_new (pc_signer self) (prop_funding_agreement proposal) (pc_part_idx self)
        (pc_withdraw_receiver self) init_state params (prop_peers proposal)).

(* ------------------------------------------------------------------ *)
(** ** client.rs                                                         *)
(* ------------------------------------------------------------------ *)

Definition PerunClient_new (signer : Signer) : PerunClient := mkPerunClient signer.

Definition send_handshake_msg {E} (self : PerunClient) (sender recipient : Identity) : M B E unit :=
  send_to_participant sender recipient Auth.

Definition check_valid_proposal (prop : LedgerChannelProposal) : res InvalidProposal unit :=
  debug_assert_valid (prop_init_bals prop);;
  debug_assert (bool_decide (zlen (to_vec (locked (prop_init_bals prop))) = 0));;
  if decide (u64_val (prop_challenge_duration prop) = 0) then Err NoChallengeDurationSet
  else
    bals ← array_index (asset_bals (balances (prop_init_bals prop))) 0;
    if decide (zlen (prop_peers prop) <> zlen (to_vec (part_bals bals))) then
      Err PeerParticipantCountMismatch
    else Ok tt.

Definition propose_channel (self : PerunClient) (prop : LedgerChannelProposal)
    (withdraw_receiver : Address) : M B InvalidProposal ProposedChannel :=
  mlift (check_valid_proposal prop);;
  broadcast_to_participants 0 (prop_peers prop) (ChannelProposal prop);;
  mret (ProposedChannel_new (cl_signer self) 0 withdraw_receiver prop).

Definition handle_proposal (self : PerunClient) (prop : LedgerChannelProposal)
    (withdraw_receiver : Address) : res InvalidProposal ProposedChannel :=
  Ok (ProposedChannel_new (cl_signer self) 1 withdraw_receiver prop).

End Opening.
