(* ===== verification/DemoChannel.v ===== *)
(** * The demo's channel

    Model of src/cortex-m-demo/src/channel.rs: one struct that holds a channel
    in whatever phase it is in, moves it to the next phase when a message of
    the other participant, the watcher or the funder arrives, and refuses what
    does not belong to the phase. *)
From S2P Require Import Prelude AbiSer Types Payment Sig Messages Wire ChannelTypes Active.
From S2P Require Import Proposal.

Section DemoChannel.
Context `{Pl : Platform} `{U : UintCrate} `{S : Sha3Crate} `{I : SignerImpl}.
Context {B : Type} `{HB : !MessageBus B}.

Inductive ChannelInner : Type :=
  | Proposed (ch : ProposedChannel)
  | AgreedUpon (ch : AgreedUponChannel)
  | Signed (ch : SignedChannel) (watching funded : bool)
  | Active (ch : ActiveChannel) (update : option ChannelUpdate)
  | TemporaryInvalidState
  | Closing (ch : ActiveChannel)
  | ForceClosing
  | Closed.

Record Channel : Type := mkChannel { inner : ChannelInner }.

Inductive DemoError : Type :=
  | InvalidState
  | HandleAccept (e : HandleAcceptError)
  | Rejected (reason : string)
  | ProposalBuild (e : ProposalBuildError)
  | Signing (e : SignError)
  | AddSignature (e : AddSignatureError)
  | Build (e : BuildError)
  | ProposeUpdate (e : ProposeUpdateError)
  | HandleUpdate (e : HandleUpdateError)
  | Accept (e : AcceptError)
  | ApplyUpdate (e : ApplyError)
  | NotEnoughFunds
  | DemoClosed.

Definition Channel_new (ch : ProposedChannel) : Channel := mkChannel (Proposed ch).
Definition new_agreed_upon (ch : AgreedUponChannel) : Channel := mkChannel (AgreedUpon ch).

Definition is_closed (self : Channel) : bool :=
  match inner self with Closed => true | _ => false end.

(** [progress]: the inner channel is moved out while [f] runs; a panic of [f]
    leaves the temporary state behind. *)
Definition progress (f : ChannelInner -> M B (ChannelInner * DemoError) ChannelInner)
    : M (Channel * B) DemoError unit :=
  fun '(self, b) =>
    match f (inner self) b with
    | (b, Ok ch) => ((mkChannel ch, b), Ok tt)
    | (b, Err (ch, e)) => ((mkChannel ch, b), Err e)
    | (b, Panic) => ((mkChannel TemporaryInvalidState, b), Panic)
    end.

(** The state [update] proposes: [amount] moves from us to the other
    participant. *)
Definition transfer_state {E} (ch : ActiveChannel) (amount : U256) (final : bool)
    : res E (res DemoError (State ASSETS PARTICIPANTS)) :=
  next ← make_next_state (ac_state ch);
  bals ← array_index (asset_bals (balances (outcome next))) 0;
  b1 ← array_index (part_bals bals) 1;
  if U256_lt b1 amount then Ok (Err NotEnoughFunds)
  else
    let part_idx := ac_part_idx ch in
    other ← usize_sub 1 part_idx;
    theirs ← array_index (part_bals bals) other;
    theirs' ← U256_add theirs amount;
    bals' ← array_set (part_bals bals) other theirs';
    ours ← array_index bals' part_idx;
    ours' ← U256_sub ours amount;
    bals'' ← array_set bals' part_idx ours';
    asset_bals' ← array_set (asset_bals (balances (outcome next))) 0 (mkParticipantBalances bals'');
    Ok (Ok (mkState (id next) (version next)
              (mkAllocation (assets (outcome next)) (mkBalances asset_bals') (locked (outcome next)))
              (app_data next) final)).

(** [Channel::update]: it replaces a pending update of ours. *)
Definition demo_update (amount : U256) (final : bool) : M (Channel * B) DemoError unit :=
  '(self, _) ← mget;
  match inner self with
  | Active ch update =>
      r ← mlift (transfer_state ch amount final);
      new_state ← mlift r;
      u ← on_snd (mmap_err ProposeUpdate (ac_update ch new_state));
      on_fst (mput (mkChannel (Active ch (Some u))))
  | TemporaryInvalidState => mpanic
  | _ => mthrow InvalidState
  end.

Definition demo_force_close : M (Channel * B) DemoError unit :=
  progress (fun inner =>
    match inner with
    | Active ch update => fun b =>
        match force_close ch b with
        | (b, Ok _) => (b, Ok ForceClosing)
        | (b, Err (new_ch, e)) => (b, Err (Active new_ch update, Signing e))
        | (b, Panic) => (b, Panic)
        end
    | TemporaryInvalidState => mpanic
    | inner => mthrow (inner, InvalidState)
    end).

Definition process_watcher_reply (msg : WatcherReplyMessage) : M (Channel * B) DemoError unit :=
  progress (fun inner =>
    match inner, msg with
    | Signed ch watching funded, Ack _ _ =>
        if funded : bool then mret (Active (mark_funded ch) None) else mret (Signed ch true funded)
    | Active _ _, Ack _ _ => mret inner
    | Active _ _, DisputeNotification _ => mret Closed
    | Closing _, Ack _ _ => mret Closed
    | Closing _, DisputeNotification _ => mret Closed
    | ForceClosing, DisputeAck _ => mret Closed
    | ForceClosing, DisputeNotification _ => mret inner
    | Closed, DisputeNotification _ => mret inner
    | ForceClosing, _ => mthrow (inner, DemoClosed)
    | TemporaryInvalidState, _ => mpanic
    | inner, _ => mthrow (inner, InvalidState)
    end).

Definition process_funder_reply (msg : FunderReplyMessage) : M (Channel * B) DemoError unit :=
  progress (fun inner =>
    match inner, msg with
    | Signed ch watching _, Funded _ =>
        if watching : bool then mret (Active (mark_funded ch) None) else mret (Signed ch watching true)
    | Closing _, _ => mthrow (inner, DemoClosed)
    | ForceClosing, _ => mthrow (inner, DemoClosed)
    | Closed, _ => mthrow (inner, DemoClosed)
    | TemporaryInvalidState, _ => mpanic
    | inner, _ => mthrow (inner, InvalidState)
    end).

(** The transition of a proposed channel on an acceptance. *)
Definition proposed_accepted (ch : ProposedChannel) (msg : LedgerChannelProposalAcc)
    : M B (ChannelInner * DemoError) ChannelInner := fun b =>
  match pc_participant_accepted 1 msg ch with
  | (ch, Err e) => (b, Err (Proposed ch, HandleAccept e))
  | (_, Panic) => (b, Panic)
  | (ch, Ok _) =>
      match pc_build ch with
      | Err (ch, e) => (b, Err (Proposed ch, ProposalBuild e))
      | Panic => (b, Panic)
      | Ok ch =>
          match sign (ch, b) with
          | ((ch, b), Ok _) => (b, Ok (AgreedUpon ch))
          | ((_, b), _) => (b, Panic)
          end
      end
  end.

(** The transition of an agreed-upon channel on a signature. *)
Definition agreed_signature (ch : AgreedUponChannel) (msg : LedgerChannelUpdateAccepted)
    : M B (ChannelInner * DemoError) ChannelInner := fun b =>
  match add_signature msg ch with
  | (ch, Err e) => (b, Err (AgreedUpon ch, AddSignature e))
  | (_, Panic) => (b, Panic)
  | (ch, Ok _) =>
      match au_build ch b with
      | (b, Ok ch) => (b, Ok (Signed ch false false))
      | (b, Err (ch, e)) => (b, Err (AgreedUpon ch, Build e))
      | (b, Panic) => (b, Panic)
      end
  end.

(** The channel after an update has been applied. *)
Definition after_update (ch : ActiveChannel) (u : ChannelUpdate) : ChannelInner :=
  if is_final (cu_new_state u) then Closing ch else Active ch None.

(** The transition of an active channel on an update of the other participant:
    it is accepted and applied at once. *)
Definition active_update (ch : ActiveChannel) (msg : LedgerChannelUpdate)
    : M B (ChannelInner * DemoError) ChannelInner := fun b =>
  match handle_update ch msg with
  | Err e => (b, Err (Active ch None, HandleUpdate e))
  | Panic => (b, Panic)
  | Ok u =>
      match cu_accept ch (u, b) with
      | ((_, b), Err e) => (b, Err (Active ch None, Accept e))
      | ((_, b), Panic) => (b, Panic)
      | ((u, b), Ok _) =>
          match cu_apply u (ch, b) with
          | ((ch, b), Err e) => (b, Err (Active ch None, ApplyUpdate e))
          | ((_, b), Panic) => (b, Panic)
          | ((ch, b), Ok _) => (b, Ok (after_update ch u))
          end
      end
  end.

(** The transition of an active channel with a pending update of ours on its
    acceptance. *)
Definition active_accepted (ch : ActiveChannel) (u : ChannelUpdate) (msg : LedgerChannelUpdateAccepted)
    : M B (ChannelInner * DemoError) ChannelInner := fun b =>
  match usize_sub 1 (ac_part_idx ch) with
  | Ok other =>
      match cu_participant_accepted ch other msg u with
      | (u, Err e) => (b, Err (Active ch (Some u), AddSignature e))
      | (_, Panic) => (b, Panic)
      | (u, Ok _) =>
          match cu_apply u (ch, b) with
          | ((ch, b), Ok _) => (b, Ok (after_update ch u))
          | ((ch, b), Err e) => (b, Err (Active ch (Some u), ApplyUpdate e))
          | ((_, b), Panic) => (b, Panic)
          end
      end
  | Err e => (b, Err e)
  | Panic => (b, Panic)
  end.

Definition process_participant_msg (msg : ParticipantMessage) : M (Channel * B) DemoError unit :=
  progress (fun inner =>
    match inner, msg with
    | Proposed ch, ProposalAccepted msg => proposed_accepted ch msg
    | Proposed _, ProposalRejected _ reason => mthrow (inner, Rejected reason)
    | AgreedUpon ch, ChannelUpdateAccepted msg => agreed_signature ch msg
    | AgreedUpon _, ChannelUpdateRejected _ _ reason => mthrow (inner, Rejected reason)
    | Active ch None, ChannelUpdateMsg msg => active_update ch msg
    | Active ch (Some u), ChannelUpdateAccepted msg => active_accepted ch u msg
    | Active ch (Some _), ChannelUpdateRejected _ _ _ => mret (Active ch None)
    | Closing _, _ => mthrow (inner, DemoClosed)
    | ForceClosing, _ => mthrow (inner, DemoClosed)
    | Closed, _ => mthrow (inner, DemoClosed)
    | TemporaryInvalidState, _ => mpanic
    | inner, _ => mthrow (inner, InvalidState)
    end).

End DemoChannel.
