(* ===== verification/Net.v ===== *)
(** * The demo's network

    The TCP sockets of the demo and src/cortex-m-demo/src/bus.rs, the byte bus
    over them.  The [smoltcp] crate is not part of the repository: [TcpStack]
    is what the demo calls of it, [TcpLaws] its documented behaviour.  The
    interface is shared behind a [RefCell] that every function borrows for the
    time of its calls, so it is threaded as the state. *)
From S2P Require Import Prelude AbiSer Types PerunWire Payment Messages Wire.

(** ** smoltcp *)

(** An address and a port. *)
Record Endpoint : Type := mkEndpoint { ip_address : Z; port : Z }.

(** [TcpSocket], reached through the interface by its handle. *)
Class TcpStack (N : Type) := {
  SocketHandle : Type;
  NetError : Type;
  is_active : SocketHandle -> N -> bool;
  is_open : SocketHandle -> N -> bool;
  is_listening : SocketHandle -> N -> bool;
  may_recv : SocketHandle -> N -> bool;
  may_send : SocketHandle -> N -> bool;
  can_recv : SocketHandle -> N -> bool;
  recv_queue : SocketHandle -> N -> Z;
  recv_capacity : SocketHandle -> N -> Z;
  peek_slice : SocketHandle -> Z -> M N NetError bytes;
  recv : forall {A}, SocketHandle -> (bytes -> Z * A) -> M N NetError A;
  recv_slice : SocketHandle -> Z -> M N NetError bytes;
  send_slice : SocketHandle -> bytes -> M N NetError Z;
  connect : SocketHandle -> Endpoint -> Z -> M N NetError unit;
  listen : SocketHandle -> Z -> M N NetError unit;
  close : SocketHandle -> N -> N;
  abort : SocketHandle -> N -> N;
}.

(** The receive buffer of a socket: [rx] is what has been received and not
    been read, [contiguous] how much of it lies before the end of the ring
    buffer.  [peek_slice] and [recv] see only that part, [recv_slice] all of
    it; a read of a socket that may receive does not fail. *)
Class TcpLaws (N : Type) {T : TcpStack N} := {
  rx : SocketHandle -> N -> bytes;
  contiguous : SocketHandle -> N -> nat;
  recv_queue_spec h n : recv_queue h n = zlen (rx h n);
  peek_slice_spec h k n :
    may_recv h n = true -> 0 <= k ->
    peek_slice h k n = (n, Ok (take (Z.to_nat k `min` contiguous h n) (rx h n)));
  recv_spec {A} h (f : bytes -> Z * A) n :
    may_recv h n = true ->
    0 <= (f (take (contiguous h n) (rx h n))).1 <= zlen (take (contiguous h n) (rx h n)) ->
    exists n', recv h f n = (n', Ok (f (take (contiguous h n) (rx h n))).2) /\
      rx h n' = drop (Z.to_nat (f (take (contiguous h n) (rx h n))).1) (rx h n) /\
      (rx h n' <> [] -> may_recv h n' = true);
  recv_slice_spec h k n :
    may_recv h n = true -> 0 <= k ->
    exists n', recv_slice h k n = (n', Ok (take (Z.to_nat k) (rx h n))) /\
      rx h n' = drop (Z.to_nat k) (rx h n);
}.

(* ------------------------------------------------------------------ *)
(** ** bus.rs                                                            *)
(* ------------------------------------------------------------------ *)

Section Bus.
Context {N : Type} `{T : !TcpStack N}.

Record Bus : Type := mkBus {
  iface : N;
  participant_handle : SocketHandle;
  service_handle : SocketHandle;
}.

(** A call of the interface. *)
Definition on_iface {E A} (m : M N E A) : M Bus E A :=
  fun self =>
    let (n, r) := m (iface self) in (mkBus n (participant_handle self) (service_handle self), r).

(** [send]: the whole message must fit the send buffer. *)
Definition send {E} (handle : SocketHandle) (msg : bytes) : M Bus E unit :=
  fun self =>
    match on_iface (send_slice handle msg) self with
    | (self, Ok count_written) =>
        if decide (count_written <> zlen msg) then (self, Panic) else (self, Ok tt)
    | (self, _) => (self, Panic)
    end.

#[export] Instance Bus_BytesBus : BytesBus Bus := {|
  bytes_to_watcher := fun E msg self => send (service_handle self) msg self;
  bytes_to_funder := fun E msg self => send (service_handle self) msg self;
  bytes_to_participant := fun E _ _ msg self => send (participant_handle self) msg self;
|}.

End Bus.
Arguments Bus N {T}.

(* ------------------------------------------------------------------ *)
(** ** The interface behind the encoding layer                           *)
(* ------------------------------------------------------------------ *)

(** The application and the bus share the interface: the calls of the
    application act on the interface of the bus its client sends to. *)
Section Shared.
Context {N : Type} `{T : !TcpStack N}.

Abbreviation Shared := (ProtoBufEncodingLayer (Bus N)).
Definition shared_iface (b : Shared) : N := iface (bus b).
Definition on_shared {E A} (m : M N E A) : M Shared E A := on_bus (on_iface m).
Definition modify_shared (f : N -> N) (b : Shared) : Shared :=
  mkProtoBufEncodingLayer (mkBus (f (iface (bus b))) (participant_handle (bus b)) (service_handle (bus b))).

#[export] Instance shared_TcpStack : TcpStack Shared := {|
  SocketHandle := @SocketHandle N T;
  NetError := @NetError N T;
  is_active h b := is_active h (shared_iface b);
  is_open h b := is_open h (shared_iface b);
  is_listening h b := is_listening h (shared_iface b);
  may_recv h b := may_recv h (shared_iface b);
  may_send h b := may_send h (shared_iface b);
  can_recv h b := can_recv h (shared_iface b);
  recv_queue h b := recv_queue h (shared_iface b);
  recv_capacity h b := recv_capacity h (shared_iface b);
  peek_slice h k := on_shared (peek_slice h k);
  recv A h f := on_shared (recv h f);
  recv_slice h k := on_shared (recv_slice h k);
  send_slice h msg := on_shared (send_slice h msg);
  connect h e p := on_shared (connect h e p);
  listen h p := on_shared (listen h p);
  close h := modify_shared (close h);
  abort h := modify_shared (abort h);
|}.

#[export] Instance shared_TcpLaws `{L : !TcpLaws N} : TcpLaws Shared.
Proof.
  unshelve refine {| rx := fun (h : @SocketHandle Shared shared_TcpStack) b => @rx N T L h (shared_iface b);
    contiguous := fun (h : @SocketHandle Shared shared_TcpStack) b => @contiguous N T L h (shared_iface b) |}.
  - intros h [[n p s]]. apply (@recv_queue_spec N T L).
  - intros h k [[n p s]] Hm Hk. cbn. unfold on_shared, on_bus, on_iface. cbn.
    by rewrite (@peek_slice_spec N T L).
  - intros A h f [[n p s]] Hm Hf. destruct (@recv_spec N T L A h f n Hm Hf) as (n' & Hr & Hrx & Hm').
    exists (mkProtoBufEncodingLayer (mkBus n' p s)). split; [|by split].
    cbn. unfold on_shared, on_bus, on_iface. cbn. by rewrite Hr.
  - intros h k [[n p s]] Hm Hk. destruct (@recv_slice_spec N T L h k n Hm Hk) as (n' & Hr & Hrx).
    exists (mkProtoBufEncodingLayer (mkBus n' p s)). split; [|done].
    cbn. unfold on_shared, on_bus, on_iface. cbn. by rewrite Hr.
Defined.

End Shared.
