(* ===== verification/BusRefinement.v ===== *)
(** * Buses that may panic

    The theorems about channels are proved for a bus on which sending always
    returns.  A real bus may also stop the program: the demo's panics when the
    send buffer is full.  Here every operation that sends is shown to run on
    such a bus as it does on the one that records what is sent, as long as the
    bus does not panic; and the buses of the program are shown to do nothing
    but deliver or panic. *)
From S2P Require Import Prelude AbiSer Types Payment Sig PerunWire Messages Wire ChannelTypes.
From S2P Require Import Active Proposal DemoChannel Net.

(** Sending has no error to return: it returns or it panics. *)

Class LawfulBus `{U : UintCrate} (B : Type) {HB : MessageBus B} : Prop := {
  watcher_lawful (E : Type) m b (e : E) : (send_to_watcher m b).2 <> Err e;
  funder_lawful (E : Type) m b (e : E) : (send_to_funder m b).2 <> Err e;
  participant_lawful (E : Type) s r m b (e : E) : (send_to_participant s r m b).2 <> Err e;
}.

#[export] Instance pure_lawful `{PB : PureBus} : LawfulBus B.
Proof. split; intros; by rewrite ?watcher_ok, ?funder_ok, ?participant_ok. Qed.

(** The bus delivered one message. *)
Definition deliver `{HB : MessageBus} (b : B) (m : Sent) (b' : B) : Prop :=
  exists E, match m with
  | ToWatcher m => send_to_watcher (E:=E) m b = (b', Ok tt)
  | ToFunder m => send_to_funder (E:=E) m b = (b', Ok tt)
  | ToParticipant s r m => send_to_participant (E:=E) s r m b = (b', Ok tt)
  end.

(** It delivered several messages, one after the other. *)
Inductive delivers `{HB : MessageBus} : B -> list Sent -> B -> Prop :=
  | delivers_nil b : delivers b [] b
  | delivers_cons b m b' l b'' : deliver b m b' -> delivers b' l b'' -> delivers b (m :: l) b''.

Lemma delivers_app `{HB : MessageBus} (b b' b'' : B) l k :
  delivers b l b' -> delivers b' k b'' -> delivers b (l ++ k) b''.
Proof. induction 1; [done|]. intros. econstructor; eauto. Qed.

Lemma delivers_one `{HB : MessageBus} (b b' : B) m : deliver b m b' -> delivers b [m] b'.
Proof. intros. econstructor; [done|constructor]. Qed.

(** On a bus that cannot panic, what is delivered determines the bus. *)
Lemma delivers_sends `{PB : PureBus} (b b' : B) l : delivers b l b' -> b' = sends b l.
Proof.
  induction 1 as [b|b m b' l b'' Hd _ IH]; [done|]. rewrite IH. unfold sends. cbn [foldl]. f_equal.
  destruct Hd as [E Hd]. destruct m; rewrite ?watcher_ok, ?funder_ok, ?participant_ok in Hd; by injection Hd.
Qed.

(* ------------------------------------------------------------------ *)
(** ** Running on two buses                                              *)
(* ------------------------------------------------------------------ *)

Section Runs.
Context `{U : UintCrate} {B : Type} `{HB : !MessageBus B} `{LB : !LawfulBus B}.

(** The bus does not take a message: sending it panics. *)
Definition blocked (b : B) (m : Sent) : Prop :=
  exists E, match m with
  | ToWatcher m => (send_to_watcher (E:=E) m b).2 = Panic
  | ToFunder m => (send_to_funder (E:=E) m b).2 = Panic
  | ToParticipant s r m => (send_to_participant (E:=E) s r m b).2 = Panic
  end.

(** Of several messages the bus delivers some, and does not take the next. *)
Definition stuck (b : B) (l : list Sent) : Prop :=
  exists l1 m l2 b1, l = l1 ++ m :: l2 /\ delivers b l1 b1 /\ blocked b1 m.

Lemma stuck_one b m : blocked b m -> stuck b [m].
Proof. intros H. exists [], m, [], b. split; [done|]. split; [constructor|done]. Qed.

Lemma stuck_more b l k : stuck b l -> stuck b (l ++ k).
Proof.
  intros (l1 & m & l2 & b1 & -> & Hd & Hb). exists l1, m, (l2 ++ k), b1. split; [by rewrite <- app_assoc|done].
Qed.

Lemma stuck_later b b' l k : delivers b l b' -> stuck b' k -> stuck b (l ++ k).
Proof.
  intros Hd (l1 & m & l2 & b1 & -> & Hd' & Hb). exists (l ++ l1), m, l2, b1. split; [by rewrite <- app_assoc|].
  split; [by eapply delivers_app|done].
Qed.

(** Either the recording bus gives the same result and has recorded what the bus
    delivered; or the run on the bus panics, at a message that the recording bus
    has recorded and the bus does not take. *)
Definition tracks {X E A} (b : B) (log : list Sent) (out : (X * B) * res E A)
    (out' : (X * list Sent) * res E A) : Prop :=
  (exists l, out' = ((out.1.1, log ++ l), out.2) /\ delivers b l out.1.2) \/
  (out.2 = Panic /\ exists l, out'.1.2 = log ++ l /\ stuck b l).

Definition runs {X E A} (m : M (X * B) E A) (m' : M (X * list Sent) E A) : Prop :=
  forall x b log, tracks b log (m (x, b)) (m' (x, log)).

(** The same for a computation on the bus alone. *)
Definition sends_as {E A} (m : M B E A) (m' : M (list Sent) E A) : Prop :=
  runs (X:=unit) (on_snd m) (on_snd m').

Definition bus_tracks {E A} (b : B) (log : list Sent) (out : B * res E A) (out' : list Sent * res E A) : Prop :=
  (exists l, out' = (log ++ l, out.2) /\ delivers b l out.1) \/
  (out.2 = Panic /\ exists l, out'.1 = log ++ l /\ stuck b l).

Lemma sends_as_alt {E A} (m : M B E A) (m' : M (list Sent) E A) b log :
  sends_as m m' -> bus_tracks b log (m b) (m' log).
Proof.
  intros H. specialize (H tt b log). unfold tracks, on_snd in H. unfold bus_tracks. cbn [fst snd] in H.
  destruct (m b) as [b' r]. destruct (m' log) as [log' r'] eqn:Hm'. cbn [fst snd] in *.
  destruct H as [(l & [= -> ->] & ?)|H]; [left; by exists l|by right].
Qed.

(** What is recorded is recorded after what was there. *)
Lemma tracks_log {X E A} (b : B) log (out : (X * B) * res E A) out' :
  tracks b log out out' -> exists l, out'.1.2 = log ++ l.
Proof. intros [(l & -> & _)|(_ & l & Hl & _)]; by exists l. Qed.

Lemma bus_tracks_log {E A} (b : B) log (out : B * res E A) out' :
  bus_tracks b log out out' -> exists l, out'.1 = log ++ l.
Proof. intros [(l & -> & _)|(_ & l & Hl & _)]; by exists l. Qed.

(** A run that returns. *)
Lemma runs_out {X E A} (m : M (X * B) E A) m' log s s' r :
  runs m m' -> m s = (s', r) -> r <> Panic ->
  exists l, m' (s.1, log) = ((s'.1, log ++ l), r) /\ delivers s.2 l s'.2.
Proof.
  intros Hm Hs Hr. destruct s as [x b]. destruct (Hm x b log) as [(l & Hl & Hd)|[Hp _]]; rewrite Hs in *;
    cbn [fst snd] in *; [|done]. by exists l.
Qed.

(** A recorded run whose messages the bus takes. *)
Lemma runs_replay {X E A} (m : M (X * B) E A) m' x b log x' log' r :
  runs m m' -> m' (x, log) = ((x', log'), r) ->
  exists l, log' = log ++ l /\ (~ stuck b l -> exists b', m (x, b) = ((x', b'), r) /\ delivers b l b').
Proof.
  intros Hm Hr. destruct (Hm x b log) as [(k & Hk & Hd)|(_ & k & Hk & Hst)]; rewrite Hr in Hk; cbn in Hk.
  - injection Hk as -> -> ->. exists k. split; [done|]. intros _. destruct (m (x, b)) as [[x1 b1] r1]. by exists b1.
  - exists k. by split.
Qed.

Lemma runs_complete {X E A} (m : M (X * B) E A) m' x b x' l r :
  runs m m' -> m' (x, []) = ((x', l), r) -> ~ stuck b l ->
  exists b', m (x, b) = ((x', b'), r) /\ delivers b l b'.
Proof. intros Hm Hr Hl. destruct (runs_replay m m' x b [] x' l r Hm Hr) as (k & Hk & H). cbn in Hk. subst. auto. Qed.

(** Nothing is sent. *)
Lemma tracks_same {X E A} (x : X) b log (r : res E A) : tracks b log ((x, b), r) ((x, log), r).
Proof. left. exists []. cbn. rewrite app_nil_r. split; [done|constructor]. Qed.

Lemma runs_ret {X E A} (a : A) : runs (mret a : M (X * B) E A) (mret a).
Proof. intros x b log. apply tracks_same. Qed.

Lemma runs_lift {X E A} (r : res E A) : runs (mlift r : M (X * B) E A) (mlift r).
Proof. intros x b log. apply tracks_same. Qed.

Lemma runs_throw {X E A} (e : E) : runs (mthrow e : M (X * B) E A) (mthrow e).
Proof. apply (runs_lift (Err e)). Qed.

Lemma runs_panic {X E A} : runs (mpanic : M (X * B) E A) mpanic.
Proof. apply (runs_lift Panic). Qed.

Lemma runs_bind {X E A C} (m : M (X * B) E A) m' (f : A -> M (X * B) E C) f' :
  runs m m' -> (forall a, runs (f a) (f' a)) -> runs (m ≫= f) (m' ≫= f').
Proof.
  intros Hm Hf x b log. specialize (Hm x b log). unfold mbind, M_bind.
  destruct (m (x, b)) as [[x1 b1] r], Hm as [(l & Hl & Hd)|(Hp & l & Hl & Hst)]; cbn [fst snd] in *.
  - rewrite Hl. destruct r as [a|e|]; [|by left; exists l..].
    destruct (Hf a x1 b1 (log ++ l)) as [(k & Hk & Hd')|(Hp & k & Hk & Hst)]; [left|right].
    + exists (l ++ k). rewrite Hk, app_assoc. split; [done|]. by eapply delivers_app.
    + split; [done|]. exists (l ++ k). rewrite Hk, app_assoc. split; [done|]. by eapply stuck_later.
  - subst r. right. split; [done|]. destruct (m' (x, log)) as [[x2 log2] [a|e|]]; cbn [fst snd] in *; subst log2;
      [|by exists l..].
    destruct (tracks_log _ _ _ _ (Hf a x2 b (log ++ l))) as [k Hk]. exists (l ++ k).
    rewrite Hk, app_assoc. split; [done|]. by apply stuck_more.
Qed.

Lemma runs_get {X E A} (f : X -> B -> M (X * B) E A) (f' : X -> list Sent -> M (X * list Sent) E A) :
  (forall x b log, runs (f x b) (f' x log)) ->
  runs ('(x, b) ← mget; f x b) ('(x, log) ← mget; f' x log).
Proof. intros Hf x b log. exact (Hf x b log x b log). Qed.

Lemma runs_on_fst {X E A} (m : M X E A) : runs (on_fst m) (on_fst m).
Proof. intros x b log. unfold on_fst. cbn [fst snd]. destruct (m x) as [x' r]. apply tracks_same. Qed.

(** The state beside the bus follows from the result. *)
Lemma tracks_with {X E A} (x : res E A -> X) (b : B) log (out : B * res E A) (out' : list Sent * res E A) :
  bus_tracks b log out out' -> tracks b log ((x out.2, out.1), out.2) ((x out'.2, out'.1), out'.2).
Proof. intros [(l & -> & Hd)|(Hp & l & Hl & Hst)]; [left|right; split; [done|]]; by exists l. Qed.

Lemma sends_as_intro {E A} (m : M B E A) m' :
  (forall b log, bus_tracks b log (m b) (m' log)) -> sends_as m m'.
Proof.
  intros H x b log. unfold on_snd. cbn [fst snd]. specialize (H b log). apply (tracks_with (fun _ => x)) in H.
  by destruct (m b), (m' log).
Qed.

Lemma runs_on_snd {X E A} (m : M B E A) m' : sends_as m m' -> runs (X:=X) (on_snd m) (on_snd m').
Proof.
  intros Hm x b log. unfold on_snd. cbn [fst snd]. pose proof (sends_as_alt m m' b log Hm) as H.
  apply (tracks_with (fun _ => x)) in H. by destruct (m b), (m' log).
Qed.

(** The results are changed in the same way. *)
Lemma bus_tracks_map {E A E' A'} (g : res E A -> res E' A') (b : B) log out out' :
  g Panic = Panic -> bus_tracks b log out out' -> bus_tracks b log (out.1, g out.2) (out'.1, g out'.2).
Proof.
  intros Hg [(l & -> & Hd)|(Hp & l & Hl & Hst)].
  - left. by exists l.
  - right. cbn [fst snd]. rewrite Hp. split; [exact Hg|]. by exists l.
Qed.

Lemma tracks_map {X E A E' A'} (g : res E A -> res E' A') (b : B) log (out : (X * B) * res E A) out' :
  g Panic = Panic -> tracks b log out out' -> tracks b log (out.1, g out.2) (out'.1, g out'.2).
Proof.
  intros Hg [(l & -> & Hd)|(Hp & l & Hl & Hst)].
  - left. by exists l.
  - right. cbn [fst snd]. rewrite Hp. split; [exact Hg|]. by exists l.
Qed.

Lemma runs_map_err {X E E' A} (g : E -> E') (m : M (X * B) E A) m' :
  runs m m' -> runs (mmap_err g m) (mmap_err g m').
Proof.
  intros Hm x b log. unfold mmap_err. pose proof (tracks_map (map_err g) _ _ _ _ eq_refl (Hm x b log)) as H.
  by destruct (m (x, b)), (m' (x, log)).
Qed.

(** A result that sends nothing. *)
Lemma bus_tracks_same {E A} (b : B) log (r : res E A) : bus_tracks b log (b, r) (log, r).
Proof. left. exists []. rewrite app_nil_r. split; [done|constructor]. Qed.

Lemma sends_as_lift {E A} (r : res E A) : sends_as (mlift r) (mlift r).
Proof. apply sends_as_intro. intros b log. apply bus_tracks_same. Qed.

Lemma sends_as_ret {E A} (a : A) : sends_as (mret a : M B E A) (mret a).
Proof. apply (sends_as_lift (Ok a)). Qed.

Lemma sends_as_throw {E A} (e : E) : sends_as (mthrow e : M B E A) (mthrow e).
Proof. apply (sends_as_lift (Err e)). Qed.

Lemma sends_as_panic {E A} : sends_as (mpanic : M B E A) mpanic.
Proof. apply (sends_as_lift Panic). Qed.

Lemma sends_as_bind {E A C} (m : M B E A) m' (f : A -> M B E C) f' :
  sends_as m m' -> (forall a, sends_as (f a) (f' a)) -> sends_as (m ≫= f) (m' ≫= f').
Proof.
  intros Hm Hf. assert (forall (X : Type) (g : M X E A) (h : A -> M X E C) s,
    on_snd (g ≫= h) s = ((on_snd g : M (unit * X) E A) ≫= fun a => on_snd (h a)) s) as Hon.
  { intros X g h [[] y]. unfold on_snd, mbind, M_bind. cbn [fst snd]. by destruct (g y) as [y' [a|e|]]. }
  intros x b log. unfold sends_as in *. rewrite !Hon. by apply runs_bind.
Qed.

Lemma sends_as_map_err {E E' A} (g : E -> E') (m : M B E A) m' :
  sends_as m m' -> sends_as (mmap_err g m) (mmap_err g m').
Proof.
  intros Hm. apply sends_as_intro. intros b log. unfold mmap_err.
  pose proof (bus_tracks_map (map_err g) _ _ _ _ eq_refl (sends_as_alt m m' b log Hm)) as H.
  by destruct (m b), (m' log).
Qed.

(** What returns does so on the recording bus as well. *)
Lemma sends_as_out {E A} (m : M B E A) m' b b' r :
  sends_as m m' -> m b = (b', r) -> r <> Panic -> exists l, m' [] = (l, r) /\ delivers b l b'.
Proof.
  intros Hm Hb Hr. destruct (sends_as_alt m m' b [] Hm) as [(l & Hl & Hd)|[Hp _]]; rewrite Hb in *; [by exists l|done].
Qed.

Lemma sends_as_ok {E A} (m : M B E A) m' b b' a :
  sends_as m m' -> m b = (b', Ok a) -> exists l, m' [] = (l, Ok a).
Proof. intros Hm Hb. destruct (sends_as_out m m' b b' _ Hm Hb) as (l & Hl & _); [done|]. by exists l. Qed.

Lemma runs_ok {X E A} (m : M (X * B) E A) m' x x' b b' a :
  runs m m' -> m (x, b) = ((x', b'), Ok a) -> exists l, m' (x, []) = ((x', l), Ok a).
Proof. intros Hm Hb. destruct (runs_out m m' [] _ _ _ Hm Hb) as (l & Hl & _); [done|]. by exists l. Qed.

(** Sending one message. *)
Lemma sends_as_one {E} (m : M B E unit) m' msg :
  (forall b e, (m b).2 <> Err e) -> (forall b b', m b = (b', Ok tt) -> deliver b msg b') ->
  (forall b, (m b).2 = Panic -> blocked b msg) -> (forall log, m' log = (log ++ [msg], Ok tt)) -> sends_as m m'.
Proof.
  intros He Hd Hp Hm'. apply sends_as_intro. intros b log. specialize (He b). specialize (Hd b). specialize (Hp b).
  rewrite Hm'. destruct (m b) as [b' [[]|e|]]; [left|by destruct (He e)|right; split; [done|]]; exists [msg].
  - split; [done|]. by apply delivers_one, Hd.
  - split; [done|]. by apply stuck_one, Hp.
Qed.

Lemma sends_as_watcher {E} msg : sends_as (send_to_watcher (E:=E) msg) (send_to_watcher msg).
Proof.
  apply (sends_as_one _ _ (ToWatcher msg)); [intros; apply watcher_lawful| | |done]; intros; by exists E.
Qed.

Lemma sends_as_funder {E} msg : sends_as (send_to_funder (E:=E) msg) (send_to_funder msg).
Proof.
  apply (sends_as_one _ _ (ToFunder msg)); [intros; apply funder_lawful| | |done]; intros; by exists E.
Qed.

Lemma sends_as_participant {E} s r msg :
  sends_as (send_to_participant (E:=E) s r msg) (send_to_participant s r msg).
Proof.
  apply (sends_as_one _ _ (ToParticipant s r msg)); [intros; apply participant_lawful| | |done]; intros; by exists E.
Qed.

End Runs.

Create HintDb bus discriminated.
#[export] Hint Resolve runs_ret runs_lift runs_throw runs_panic runs_on_fst runs_on_snd runs_map_err : bus.
#[export] Hint Resolve sends_as_ret sends_as_lift sends_as_throw sends_as_panic sends_as_map_err
  sends_as_watcher sends_as_funder sends_as_participant : bus.

(** Both runs statement by statement. *)
Ltac run :=
  repeat match goal with
    | |- forall _, _ => intro
    | |- runs (mget ≫= _) _ => apply runs_get
    | |- runs (_ ≫= _) _ => apply runs_bind
    | |- sends_as (_ ≫= _) _ => apply sends_as_bind
    | |- runs (match ?x with _ => _ end) _ => destruct x
    | |- sends_as (match ?x with _ => _ end) _ => destruct x
    | |- _ => solve [auto 3 with bus nocore]
    end.

(* ------------------------------------------------------------------ *)
(** ** The operations                                                    *)
(* ------------------------------------------------------------------ *)

Section Operations.
Context `{Pl : Platform} `{U : UintCrate} `{S : Sha3Crate} `{I : SignerImpl}.
Context {B : Type} `{HB : !MessageBus B} `{LB : !LawfulBus B}.

Lemma sends_as_broadcast_loop {E} i part_idx sender peers msg :
  sends_as (broadcast_loop (B:=B) (E:=E) i part_idx sender peers msg)
    (broadcast_loop i part_idx sender peers msg).
Proof. revert i. induction peers; intros i; cbn [broadcast_loop]; run. Qed.
#[local] Hint Resolve sends_as_broadcast_loop : bus.

Lemma sends_as_broadcast {E} part_idx peers msg :
  sends_as (broadcast_to_participants (B:=B) (E:=E) part_idx peers msg)
    (broadcast_to_participants part_idx peers msg).
Proof. unfold broadcast_to_participants. run. Qed.
#[local] Hint Resolve sends_as_broadcast : bus.

Lemma sends_as_propose_channel cl prop receiver :
  sends_as (propose_channel (B:=B) cl prop receiver) (propose_channel cl prop receiver).
Proof. unfold propose_channel. run. Qed.

Lemma runs_pc_accept share addr : runs (pc_accept (B:=B) share addr) (pc_accept share addr).
Proof. unfold pc_accept. run. Qed.

Lemma runs_sign : runs (sign (B:=B)) sign.
Proof. unfold sign. run. Qed.

Lemma sends_as_au_build au : sends_as (au_build (B:=B) au) (au_build au).
Proof. unfold au_build. run. Qed.

Lemma sends_as_ac_update ch st : sends_as (ac_update (B:=B) ch st) (ac_update ch st).
Proof. unfold ac_update. run. Qed.

Lemma sends_as_force_close ch : sends_as (force_close (B:=B) ch) (force_close ch).
Proof. unfold force_close. run. Qed.

Lemma sends_as_withdraw ch : sends_as (withdraw (B:=B) ch) (withdraw ch).
Proof. unfold withdraw. run. Qed.

Lemma runs_cu_accept ch : runs (cu_accept (B:=B) ch) (cu_accept ch).
Proof. unfold cu_accept. run. Qed.

Lemma sends_as_watch_current ch :
  sends_as (send_current_state_to_watcher (B:=B) ch) (send_current_state_to_watcher ch).
Proof. unfold send_current_state_to_watcher. run. Qed.

Lemma runs_force_update st sigs : runs (force_update (B:=B) st sigs) (force_update st sigs).
Proof.
  intros ch b log. unfold force_update. set (ch' := set_state ch st sigs).
  pose proof (tracks_with (fun r => match r with Err _ => set_state ch' (ac_state ch) (ac_signatures ch) | _ => ch' end)
    b log _ _ (sends_as_alt _ _ b log (sends_as_watch_current ch'))) as H.
  destruct (send_current_state_to_watcher ch' b) as [? [[]| |]],
    (send_current_state_to_watcher ch' log) as [? [[]| |]]; exact H.
Qed.
#[local] Hint Resolve runs_force_update : bus.

Lemma runs_cu_apply u : runs (cu_apply (B:=B) u) (cu_apply u).
Proof. unfold cu_apply. run. Qed.

(** A result that is made from that of a run on some object, which is dropped or
    kept. *)
Definition with_result {X E A E' A'} {Y} (g : X -> res E A -> res E' A') (out : (X * Y) * res E A) : Y * res E' A' :=
  let '((x, y), r) := out in (y, g x r).

Lemma bus_tracks_result {X E A E' A'} (g : X -> res E A -> res E' A') (b : B) log out out' :
  (forall x, g x Panic = Panic) -> tracks b log out out' ->
  bus_tracks b log (with_result g out) (with_result g out').
Proof.
  intros Hg. destruct out as [[x b'] r]. intros [(l & -> & Hd)|(Hp & l & Hl & Hst)]; cbn [fst snd] in *.
  - left. by exists l.
  - right. destruct out' as [[x' log'] r']. cbn in *. subst. split; [apply Hg|]. by exists l.
Qed.

Lemma sends_as_proposed_accepted ch msg :
  sends_as (proposed_accepted (B:=B) ch msg) (proposed_accepted ch msg).
Proof.
  apply sends_as_intro. intros b log. unfold proposed_accepted.
  destruct (pc_participant_accepted 1 msg ch) as [ch' [[]|e|]]; [|apply bus_tracks_same..].
  destruct (pc_build ch') as [au|[pc e]|]; [|apply bus_tracks_same..].
  pose proof (bus_tracks_result (fun au (r : res SignError unit) => match r with
    Ok _ => Ok (AgreedUpon au) | _ => Panic end : res (ChannelInner * DemoError) ChannelInner) b log _ _
    (fun _ => eq_refl) (runs_sign au b log)) as H.
  destruct (sign (au, b)) as [[? ?] []], (sign (au, log)) as [[? ?] []]; exact H.
Qed.

Lemma sends_as_agreed_signature ch msg :
  sends_as (agreed_signature (B:=B) ch msg) (agreed_signature ch msg).
Proof.
  apply sends_as_intro. intros b log. unfold agreed_signature.
  destruct (add_signature msg ch) as [ch' [[]|e|]]; [|apply bus_tracks_same..].
  pose proof (bus_tracks_map (fun r => match r with
    Ok ch => Ok (Signed ch false false) | Err (ch, e) => Err (AgreedUpon ch, Build e) | Panic => Panic end)
    b log _ _ eq_refl (sends_as_alt _ _ b log (sends_as_au_build ch'))) as H.
  destruct (au_build ch' b) as [? [|[]|]], (au_build ch' log) as [? [|[]|]]; exact H.
Qed.

(** What becomes of the channel once its update has been applied. *)
Lemma bus_tracks_applied ch u b log (f : ActiveChannel -> ApplyError -> ChannelInner * DemoError) :
  bus_tracks b log
    (with_result (fun ch r => match r with Ok _ => Ok (after_update ch u) | Err e => Err (f ch e) | Panic => Panic end)
      (cu_apply u (ch, b)))
    (with_result (fun ch r => match r with Ok _ => Ok (after_update ch u) | Err e => Err (f ch e) | Panic => Panic end)
      (cu_apply u (ch, log))).
Proof. by apply bus_tracks_result, runs_cu_apply. Qed.

Lemma sends_as_active_accepted ch u msg :
  sends_as (active_accepted (B:=B) ch u msg) (active_accepted ch u msg).
Proof.
  apply sends_as_intro. intros b log. unfold active_accepted.
  destruct (usize_sub 1 (ac_part_idx ch)) as [other|e|]; [|apply bus_tracks_same..].
  destruct (cu_participant_accepted ch other msg u) as [u' [[]|e|]]; [|apply bus_tracks_same..].
  pose proof (bus_tracks_applied ch u' b log (fun ch e => (Active ch (Some u'), ApplyUpdate e))) as H.
  destruct (cu_apply u' (ch, b)) as [[? ?] []], (cu_apply u' (ch, log)) as [[? ?] []]; exact H.
Qed.

(** A computation on the bus that goes on after it has run on some object. *)
Lemma bus_tracks_then {X E A E' A'} (b : B) log (out : (X * B) * res E A) out'
    (f : X -> res E A -> M B E' A') (f' : X -> res E A -> M (list Sent) E' A') :
  (forall x r, sends_as (f x r) (f' x r)) -> (forall x b, (f x Panic b).2 = Panic) -> tracks b log out out' ->
  bus_tracks b log (f out.1.1 out.2 out.1.2) (f' out'.1.1 out'.2 out'.1.2).
Proof.
  intros Hf Hp [(l & -> & Hd)|(Hpan & l & Hl & Hst)]; cbn [fst snd] in *.
  - destruct (sends_as_alt _ _ out.1.2 (log ++ l) (Hf out.1.1 out.2)) as [(k & -> & Hd')|(Hpan & k & Hk & Hst)].
    + left. exists (l ++ k). rewrite app_assoc. split; [done|]. by eapply delivers_app.
    + right. split; [done|]. exists (l ++ k). rewrite app_assoc. split; [done|]. by eapply stuck_later.
  - right. rewrite Hpan. split; [apply Hp|]. rewrite Hl.
    destruct (bus_tracks_log _ _ _ _ (sends_as_alt _ _ b (log ++ l) (Hf out'.1.1 out'.2))) as [k Hk].
    exists (l ++ k). rewrite Hk, app_assoc. split; [done|]. by apply stuck_more.
Qed.

(** The end of [active_update]. *)
Definition apply_accepted {Y} `{!MessageBus Y} (ch : ActiveChannel) (u : ChannelUpdate) (r : res AcceptError unit)
    : M Y (ChannelInner * DemoError) ChannelInner := fun b =>
  match r with
  | Err e => (b, Err (Active ch None, Accept e))
  | Panic => (b, Panic)
  | Ok _ =>
      with_result (fun ch r => match r with
        Ok _ => Ok (after_update ch u) | Err e => Err (Active ch None, ApplyUpdate e) | Panic => Panic end)
        (cu_apply u (ch, b))
  end.

Lemma active_update_alt {Y} `{!MessageBus Y} ch msg (b : Y) :
  active_update ch msg b =
    match handle_update ch msg with
    | Err e => (b, Err (Active ch None, HandleUpdate e))
    | Panic => (b, Panic)
    | Ok u =>
        let out := cu_accept ch (u, b) in apply_accepted ch out.1.1 out.2 out.1.2
    end.
Proof.
  unfold active_update, apply_accepted. destruct (handle_update ch msg) as [u|e|]; [|done..].
  destruct (cu_accept ch (u, b)) as [[u' b'] [[]|e|]]; [|done..]. cbn [fst snd].
  by destruct (cu_apply u' (ch, b')) as [[? ?] []].
Qed.

Lemma sends_as_active_update ch msg :
  sends_as (active_update (B:=B) ch msg) (active_update ch msg).
Proof.
  apply sends_as_intro. intros b log. rewrite !active_update_alt.
  destruct (handle_update ch msg) as [u|e|]; [|apply bus_tracks_same..].
  apply bus_tracks_then; [|done|apply runs_cu_accept]. intros u' r. apply sends_as_intro. intros b' log'.
  destruct r as [[]|e|]; [|apply bus_tracks_same..]. apply bus_tracks_applied.
Qed.

Lemma runs_progress (f : ChannelInner -> M B (ChannelInner * DemoError) ChannelInner) f' :
  (forall i, sends_as (f i) (f' i)) -> runs (progress f) (progress f').
Proof.
  intros Hf ch b log. unfold progress.
  destruct (sends_as_alt _ _ b log (Hf (inner ch))) as [(l & -> & Hd)|(Hp & l & Hl & Hst)].
  - left. exists l. by destruct (f (inner ch) b) as [b' [i|[i e]|]].
  - right. destruct (f (inner ch) b) as [b' r], (f' (inner ch) log) as [log' r']. cbn [fst snd] in *. subst.
    split; [done|]. exists l. by destruct r' as [i|[i e]|].
Qed.
#[local] Hint Resolve sends_as_proposed_accepted sends_as_agreed_signature sends_as_active_accepted
  sends_as_active_update sends_as_ac_update : bus.

(** The methods of the demo's channel. *)
Lemma runs_demo_update amount final : runs (demo_update (B:=B) amount final) (demo_update amount final).
Proof. unfold demo_update. run. Qed.

Lemma runs_demo_force_close : runs (demo_force_close (B:=B)) demo_force_close.
Proof.
  apply runs_progress. intros []; try (run; done). apply sends_as_intro. intros b log.
  pose proof (bus_tracks_map (fun r => match r with
    Ok _ => Ok ForceClosing | Err (ch, e) => Err (Active ch update, Signing e) | Panic => Panic end)
    b log _ _ eq_refl (sends_as_alt _ _ b log (sends_as_force_close ch))) as H.
  destruct (force_close ch b) as [? [|[]|]], (force_close ch log) as [? [|[]|]]; exact H.
Qed.

Lemma runs_watcher_reply msg : runs (process_watcher_reply (B:=B) msg) (process_watcher_reply msg).
Proof. apply runs_progress. intros i. run. Qed.

Lemma runs_funder_reply msg : runs (process_funder_reply (B:=B) msg) (process_funder_reply msg).
Proof. apply runs_progress. intros i. run. Qed.

Lemma runs_participant_msg msg : runs (process_participant_msg (B:=B) msg) (process_participant_msg msg).
Proof. apply runs_progress. intros i. run. Qed.

End Operations.

(* ------------------------------------------------------------------ *)
(** ** The buses of the program                                          *)
(* ------------------------------------------------------------------ *)

(** A byte bus, whose methods have no error either. *)
Class LawfulBytesBus (B : Type) {HB : BytesBus B} : Prop := {
  bytes_watcher_lawful (E : Type) m b (e : E) : (bytes_to_watcher m b).2 <> Err e;
  bytes_funder_lawful (E : Type) m b (e : E) : (bytes_to_funder m b).2 <> Err e;
  bytes_participant_lawful (E : Type) s r m b (e : E) : (bytes_to_participant s r m b).2 <> Err e;
}.

Definition no_err {E A} (r : res E A) : Prop := forall e, r <> Err e.

Lemma no_err_ok {E A} (a : A) : no_err (Ok a : res E A).
Proof. done. Qed.

Lemma no_err_panic {E A} : no_err (Panic : res E A).
Proof. done. Qed.

Lemma no_err_bind {E A C} (r : res E A) (f : A -> res E C) :
  no_err r -> (forall a, no_err (f a)) -> no_err (r ≫= f).
Proof. intros Hr Hf. destruct r as [a|e|]; cbn; [apply Hf|by destruct (Hr e)|done]. Qed.

Lemma no_err_fmap {E A C} (r : res E A) (f : A -> C) : no_err r -> no_err (f <$> r).
Proof. intros Hr. destruct r as [a|e|]; cbn; [done|by destruct (Hr e)|done]. Qed.

Lemma no_err_expect {E F A} (r : res F A) : no_err (expect r : res E A).
Proof. by destruct r. Qed.

Section Encoding.
Context `{Pl : Platform} `{U : UintCrate} `{S : Sha3Crate}.
Context `{PM : ProstMessage perunwire.Message} `{PE : ProstMessage perunwire.Envelope}.

Lemma no_err_encode {T} `{ProstMessage T} {E} (msg : T) : no_err (encode (E:=E) msg).
Proof. unfold encode, assert_. apply no_err_bind; [by case_match|done]. Qed.

Lemma no_err_params {E P} (p : Params P) : no_err (Params_into (E:=E) p).
Proof. unfold Params_into. apply no_err_bind; [apply no_err_expect|done]. Qed.

Lemma no_err_adjudicator {E} r : no_err (AdjudicatorReq_into (E:=E) r).
Proof. unfold AdjudicatorReq_into. apply no_err_bind; [apply no_err_params|done]. Qed.

(** Encoding a message and handing it to the byte bus. *)
Lemma encoded_lawful {B T X} `{ProstMessage T} {E} (r : res E X) (env : X -> T) (m : bytes -> M B E unit) b e :
  no_err r -> (forall buf b', no_err (m buf b').2) ->
  ((wiremsg ← mlift r; buf ← mlift (encode (env wiremsg)); on_bus (m buf)) b).2 <> Err e.
Proof.
  intros Hr Hm. unfold mbind, M_bind, mlift. destruct r as [x|e'|]; [|by destruct (Hr e')|done].
  pose proof (no_err_encode (E:=E) (env x)) as He. destruct (encode (env x)) as [buf|e'|]; [|by destruct (He e')|done].
  unfold on_bus. specialize (Hm buf (bus b)). destruct (m buf (bus b)) as [b' r']. apply Hm.
Qed.

(** The encoding layer over a byte bus. *)
#[export] Instance encoding_lawful {B} `{LB : LawfulBytesBus B} : LawfulBus (ProtoBufEncodingLayer B).
Proof.
  split; intros.
  - apply (encoded_lawful _ (fun w => perunwire.mkMessage (Some w))).
    + destruct m; apply no_err_fmap; [|apply no_err_bind; [|done]]; (apply no_err_bind; [apply no_err_params|done]).
    + intros buf b' e'. apply bytes_watcher_lawful.
  - apply (encoded_lawful _ (fun w => perunwire.mkMessage (Some w))).
    + destruct m; apply no_err_fmap; (apply no_err_bind; [first [apply no_err_params|apply no_err_adjudicator]|done]).
    + intros buf b' e'. apply bytes_funder_lawful.
  - apply (encoded_lawful (Ok tt) (fun _ => perunwire.mkEnvelope s r (Some (participant_wiremsg m)))); [done|].
    intros buf b' e'. apply bytes_participant_lawful.
Qed.

End Encoding.

(** The demo's bus over its sockets. *)
#[export] Instance Bus_lawful {N} `{T : !TcpStack N} : LawfulBytesBus (Bus N).
Proof.
  assert (forall E h msg (b : Bus N) (e : E), (send h msg b).2 <> Err e) as Hs.
  { intros. unfold send. destruct (on_iface _ b) as [b' [n|e'|]]; [|done..]. by case_match. }
  split; intros; apply Hs.
Qed.
