(* ===== verification/ActiveTheorems.v ===== *)
(** * Active channels: theorems

    What each operation of an active channel and of its updates does, on every
    branch; the invariant of a channel (its identifier is that of its
    parameters, its state carries the signatures of both participants), and
    the conditions a new state must meet. *)
From S2P Require Import Prelude AbiSpec AbiSer AbiRefine Types Instances Payment.
From S2P Require Import PaymentTheorems Sig Messages Wire ChannelTypes Active.

#[export] Instance Dim_ASSETS : Dim ASSETS := Dim_1.
#[export] Instance Dim_PARTICIPANTS : Dim PARTICIPANTS := Dim_2.

Section ActiveTheorems.
Context `{Pl : Platform} `{U : UintCrate} `{UL : !UintLaws U} `{S : Sha3Crate} `{SL : !Sha3Laws S}.
Context `{I : SignerImpl}.

Abbreviation CState := (State ASSETS PARTICIPANTS).
Abbreviation CParams := (Params PARTICIPANTS).

(** The hash a state is signed under. *)
Definition state_digest (s : CState) : Hash := digest (Digest:=Keccak256) (abi_encode (to_abi s)).

Lemma to_hash_state (s : CState) : to_hash (to_value s) = Ok (state_digest s).
Proof. apply state_hash. Qed.

(** The version after another one. *)
Definition next_version (v : u64) : res InvalidUpdate u64 := u64_add v (u64_wrap 1).

(** What [check_valid_transition] demands of a new state. *)
Record valid_transition (old new : CState) : Prop := {
  vt_id : id new = id old;
  vt_not_final : is_final old = false;
  vt_version : next_version (version old) = Ok (version new);
  vt_assets : assets (outcome new) = assets (outcome old);
  vt_sums : asset_sums (outcome new) = asset_sums (outcome old);
  vt_fit : Forall (fun s => s < 2 ^ 256) (asset_sums (outcome old));
}.

(** Totals of two allocations are equal exactly when their sums are. *)
Lemma totals_eq_iff {E A P} (a b : Allocation A P) ta tb :
  @total_assets _ E A P a = Ok ta -> @total_assets _ E A P b = Ok tb ->
  ta = tb <-> asset_sums a = asset_sums b.
Proof.
  intros <-%total_assets_sums <-%total_assets_sums. split; [by intros ->|].
  intros H. apply array_eq. revert H. generalize (to_vec ta) (to_vec tb). intros l.
  induction l as [|x l IH]; intros [|y k] H; try done. cbn in H. injection H as Hx H.
  apply u256_inj in Hx as ->. f_equal. by apply IH.
Qed.

Lemma asset_sums_fit {E A P} (a : Allocation A P) t :
  @total_assets _ E A P a = Ok t -> Forall (fun s => s < 2 ^ 256) (asset_sums a).
Proof.
  intros <-%total_assets_sums. apply Forall_fmap, Forall_true. intros x.
  pose proof (u256_range x). unfold fits, compose in *. lia.
Qed.

Lemma locked_assert {E} (a : Allocation ASSETS PARTICIPANTS) :
  @debug_assert _ E (bool_decide (zlen (to_vec (locked a)) = 0)) = Ok tt.
Proof. apply debug_assert_true, bool_decide_eq_true_2. by rewrite zlen_to_vec. Qed.

Lemma valid_assert {E} (a : Allocation ASSETS PARTICIPANTS) : @debug_assert_valid _ _ E _ _ a = Ok tt.
Proof. apply debug_assert_valid_ok; unfold ASSETS, PARTICIPANTS; lia. Qed.

Lemma u64_add_no_err {E} x y (e : E) : u64_add x y <> Err e.
Proof. unfold u64_add. by repeat case_match. Qed.

(** The error type of an addition does not matter. *)
Lemma u64_add_retype {E E'} x y z : @u64_add _ E x y = Ok z -> @u64_add _ E' x y = Ok z.
Proof. unfold u64_add. case_decide; [|destruct debug_build]; try done; by intros [= <-]. Qed.

Lemma check_valid_transition_Ok ch new :
  check_valid_transition ch new = Ok tt <-> valid_transition (ac_state ch) new.
Proof.
  unfold check_valid_transition. rewrite locked_assert. cbn [mbind res_bind].
  rewrite valid_assert. cbn [mbind res_bind]. split.
  - case_decide as Hid; [done|]. destruct (is_final (ac_state ch)) eqn:Hf; [done|].
    destruct (u64_add _ _) as [v| |] eqn:Hv; [|done|done]. cbn [mbind res_bind].
    case_decide as Hver; [done|]. case_decide as Has; [done|].
    destruct (total_assets (outcome new)) as [tn| |] eqn:Htn; [|done|done]. cbn [mbind res_bind].
    destruct (total_assets (outcome (ac_state ch))) as [to| |] eqn:Hto; [|done|done]. cbn [mbind res_bind].
    case_decide as Ht; [done|]. intros _.
    subst.
    split; [done|done|done|done| |by eapply asset_sums_fit].
    by eapply (totals_eq_iff (E:=InvalidUpdate)).
  - intros [Hid Hf Hv Has Hs Hfit]. rewrite decide_False by (by intros []).
    rewrite Hf. unfold next_version in Hv. rewrite Hv. cbn [mbind res_bind].
    rewrite !decide_False by (by intros []).
    destruct (@total_assets_ok _ _ InvalidUpdate _ _ (outcome (ac_state ch)) Hfit) as [to Hto].
    destruct (@total_assets_ok _ _ InvalidUpdate _ _ (outcome new)) as [tn Htn]; [by rewrite Hs|].
    rewrite Htn, Hto. cbn [mbind res_bind]. rewrite decide_False; [done|].
    intros Hne. apply Hne. by eapply (totals_eq_iff (E:=InvalidUpdate)).
Qed.

(** A signature of a state by the owner of an address, as the verification of
    the signer [s] sees it. *)
Definition signed_by (s : Signer) (st : CState) (addr : Address) (sig : Signature) : Prop :=
  recover_signer s (state_digest st) sig = Ok addr.

(** The participant at an index. *)
Definition participant_at (params : CParams) (i : PartIdx) : option Address :=
  if decide (0 <= i) then to_vec (participants params) !! Z.to_nat i else None.

Lemma array_index_Ok {E A N} (a : array A N) i x :
  @array_index E A N a i = Ok x <-> 0 <= i /\ to_vec a !! Z.to_nat i = Some x.
Proof.
  unfold array_index, vec_index. case_decide; [|split; [done|lia]].
  destruct (to_vec a !! Z.to_nat i); cbn; split; intros Hx; [by injection Hx as ->| |done|]; by destruct Hx;
    simplify_eq.
Qed.

Lemma array_index_no_err {E A N} (a : array A N) i (e : E) : array_index a i <> Err e.
Proof. unfold array_index, vec_index. case_decide; [|done]. by destruct (_ !! _). Qed.

Lemma array_set_inv {E A N} (a b : array A N) i x :
  @array_set E A N a i x = Ok b -> 0 <= i < Z.of_nat N /\ to_vec b = <[Z.to_nat i := x]> (to_vec a).
Proof. unfold array_set. case_decide; [|done]. by intros [= <-]. Qed.

(** What a pending update holds: at most one signature per participant, all of
    them verified. *)
Definition update_signed (ch : ActiveChannel) (u : ChannelUpdate) : Prop :=
  forall i sig, to_vec (cu_signatures u) !! i = Some (Some sig) ->
    exists addr, to_vec (participants (ac_params ch)) !! i = Some addr /\
      signed_by (ac_signer ch) (cu_new_state u) addr sig.

Lemma ChannelUpdate_new_Ok {E} ch st i sig u :
  @ChannelUpdate_new _ _ E ch st i sig = Ok u ->
  0 <= i < 2 /\ cu_channel_id u = id (ac_state ch) /\ cu_new_state u = st /\
  forall j s, to_vec (cu_signatures u) !! j = Some (Some s) -> j = Z.to_nat i /\ s = sig.
Proof.
  unfold ChannelUpdate_new. destruct (array_set _ _ _) as [a| |] eqn:Ha; [|done|done].
  cbn. intros [= <-]. apply array_set_inv in Ha as [Hi Ha]. cbn.
  split; [exact Hi|]. split; [done|]. split; [done|]. intros j s Hj. rewrite Ha in Hj.
  apply list_lookup_insert_Some in Hj as [(-> & [= ->] & _)|(_ & Hj)]; [done|].
  destruct j as [|[|j]]; cbn in Hj; simplify_eq.
Qed.

(** [handle_update] returns an update only for a valid next state signed by the
    participant the message names. *)
Lemma handle_update_sound ch msg u :
  handle_update ch msg = Ok u ->
  valid_transition (ac_state ch) (upd_state msg) /\
  cu_channel_id u = id (ac_state ch) /\ cu_new_state u = upd_state msg /\ update_signed ch u.
Proof.
  unfold handle_update. destruct (check_valid_transition ch (upd_state msg)) as [[]| |] eqn:Hc; [|done|done].
  apply check_valid_transition_Ok in Hc. cbn [map_err mbind res_bind]. rewrite to_hash_state.
  cbn [map_err mbind res_bind].
  destruct (recover_signer _ _ _) as [signer| |] eqn:Hr; [|done|done]. cbn [map_err mbind res_bind].
  destruct (array_index _ _) as [p| |] eqn:Hp; [|done|done]. cbn [mbind res_bind].
  case_decide as Hd; [done|]. subst signer. intros Hu.
  apply ChannelUpdate_new_Ok in Hu as (Hi & Hid & Hst & Hsig).
  apply array_index_Ok in Hp as [_ Hp].
  split; [done|]. split; [done|]. split; [done|]. intros j s Hj.
  apply Hsig in Hj as [-> ->]. exists p. split; [done|]. unfold signed_by. by rewrite Hst.
Qed.

(** [ensure_valid_channel] *)
Lemma ensure_valid_channel_Ok u ch :
  ensure_valid_channel u ch = Ok tt <->
  @u64_add _ InvalidChannel (version (ac_state ch)) (u64_wrap 1) = Ok (version (cu_new_state u)) /\
  cu_channel_id u = id (ac_state ch).
Proof.
  unfold ensure_valid_channel, ac_version, ac_channel_id.
  destruct (u64_add _ _) as [v| |]; [|by split; [|intros []]..]. cbn [mbind res_bind]. split.
  - case_decide as Hv; [done|]. case_decide as Hi; [done|]. by subst.
  - intros [[= ->] ->]. by rewrite !decide_False by (by intros []).
Qed.

End ActiveTheorems.

(* ------------------------------------------------------------------ *)
(** ** Operations on a bus that does not fail                            *)
(* ------------------------------------------------------------------ *)

Section ActiveOps.
Context `{Pl : Platform} `{U : UintCrate} `{UL : !UintLaws U} `{S : Sha3Crate} `{SL : !Sha3Laws S}.
Context `{I : SignerImpl} `{IL : !SignerLaws I}.
Context {B : Type} `{HB : !MessageBus B} `{PB : !PureBus B}.

Abbreviation CState := (State ASSETS PARTICIPANTS).

(** The channel is ours: we are one of its participants and hold the key, and
    every participant has a network identity. *)
Record owned (ch : ActiveChannel) : Prop := {
  own_part : 0 <= ac_part_idx ch < 2;
  own_peers : 2 <= zlen (ac_peers ch);
  own_signer : valid_signer (ac_signer ch);
  own_addr : to_vec (participants (ac_params ch)) !! Z.to_nat (ac_part_idx ch) = Some (address (ac_signer ch));
}.

Lemma own_broadcast {E} ch msg (b : B) :
  owned ch ->
  @broadcast_to_participants _ B _ E (ac_part_idx ch) (ac_peers ch) msg b =
    (sends b (broadcast_messages (ac_part_idx ch) (ac_peers ch) msg), Ok tt).
Proof. intros [Hp Hl _ _]. apply broadcast_ok. lia. Qed.

(** What a broadcast of the channel sends. *)
Definition ch_broadcast (ch : ActiveChannel) (msg : ParticipantMessage) : list Sent :=
  broadcast_messages (ac_part_idx ch) (ac_peers ch) msg.

Lemma own_sign {E} ch (st : CState) :
  owned ch ->
  exists sig, @sign_eth _ E (ac_signer ch) (state_digest st) = Ok sig /\
    forall s', signed_by s' st (address (ac_signer ch)) sig.
Proof.
  intros [_ _ Hv _].
  destruct (sign_recover E (ac_signer ch) (ac_signer ch) (state_digest st) Hv) as (sig & Hs & _).
  exists sig. split; [done|]. intros s'.
  destruct (sign_recover E (ac_signer ch) s' (state_digest st) Hv) as (sig' & Hs' & Hr').
  rewrite Hs in Hs'. injection Hs' as <-. exact Hr'.
Qed.

Lemma array_set_2 {E A} (a : array A PARTICIPANTS) i x :
  0 <= i < 2 -> exists b, @array_set E A PARTICIPANTS a i x = Ok b /\ to_vec b = <[Z.to_nat i := x]> (to_vec a).
Proof. intros Hi. apply array_set_Ok. unfold PARTICIPANTS. lia. Qed.

(** [update] of a valid next state: our signature is broadcast with it. *)
Lemma ac_update_ok ch (st : CState) (b : B) :
  owned ch -> valid_transition (ac_state ch) st ->
  exists sig u,
    ac_update ch st b =
      (sends b (ch_broadcast ch (ChannelUpdateMsg (mkLedgerChannelUpdate st (ac_part_idx ch) sig))), Ok u) /\
    (forall s', signed_by s' st (address (ac_signer ch)) sig) /\
    ChannelUpdate_new (E:=ProposeUpdateError) ch st (ac_part_idx ch) sig = Ok u.
Proof.
  intros Ho Hv. pose proof (own_part _ Ho) as Hp.
  destruct (own_sign (E:=ProposeUpdateError) ch st Ho) as (sig & Hs & Hr).
  destruct (@array_set_2 ProposeUpdateError _ (array_repeat PARTICIPANTS None) (ac_part_idx ch) (Some sig) Hp)
    as (a & Ha & _).
  exists sig, (mkChannelUpdate (ac_channel_id ch) st a). split; [|split; [done|]].
  - unfold ac_update. apply check_valid_transition_Ok in Hv. rewrite Hv. cbn [map_err].
    erewrite M_bind_lift_ok by reflexivity. rewrite to_hash_state. erewrite M_bind_lift_ok by reflexivity.
    erewrite M_bind_lift_ok by exact Hs. erewrite M_bind_ok by by apply own_broadcast.
    unfold mlift, ChannelUpdate_new. rewrite Ha. done.
  - unfold ChannelUpdate_new. by rewrite Ha.
Qed.

(** An invalid next state is refused before anything is signed or sent. *)
Lemma ac_update_refused ch (st : CState) (b : B) e :
  check_valid_transition ch st = Err e -> ac_update ch st b = (b, Err (PU_InvalidUpdate e)).
Proof. intros H. unfold ac_update. by rewrite H. Qed.

Lemma ac_update_sound ch (st : CState) (b b' : B) u :
  owned ch -> ac_update ch st b = (b', Ok u) ->
  valid_transition (ac_state ch) st /\
  cu_channel_id u = id (ac_state ch) /\ cu_new_state u = st /\ update_signed ch u.
Proof.
  intros Ho Hu. assert (valid_transition (ac_state ch) st) as Hv.
  { apply check_valid_transition_Ok. unfold ac_update in Hu.
    destruct (check_valid_transition ch st) as [[]| |]; [done|done|done]. }
  destruct (ac_update_ok ch st b Ho Hv) as (sig & u' & Hok & Hr & Hnew).
  rewrite Hok in Hu. injection Hu as _ <-.
  apply ChannelUpdate_new_Ok in Hnew as (Hi & Hid & Hst & Hsig).
  split; [done|]. split; [done|]. split; [done|]. intros j s Hj. apply Hsig in Hj as [-> ->].
  exists (address (ac_signer ch)). split; [by apply own_addr|]. rewrite Hst. apply Hr.
Qed.

(** [accept]: our signature is added and broadcast. *)
Lemma cu_accept_ok ch u (b : B) :
  owned ch -> ensure_valid_channel u ch = Ok tt ->
  to_vec (cu_signatures u) !! Z.to_nat (ac_part_idx ch) = Some None ->
  exists sig sigs,
    cu_accept ch (u, b) =
      ((set_signatures u sigs,
        sends b (ch_broadcast ch (ChannelUpdateAccepted
          (mkLedgerChannelUpdateAccepted (cu_channel_id u) (version (cu_new_state u)) sig)))), Ok tt) /\
    to_vec sigs = <[Z.to_nat (ac_part_idx ch) := Some sig]> (to_vec (cu_signatures u)) /\
    forall s', signed_by s' (cu_new_state u) (address (ac_signer ch)) sig.
Proof.
  intros Ho He Hn. pose proof (own_part _ Ho) as Hp.
  destruct (own_sign (E:=AcceptError) ch (cu_new_state u) Ho) as (sig & Hs & Hr).
  destruct (@array_set_2 AcceptError _ (cu_signatures u) (ac_part_idx ch) (Some sig) Hp) as (a & Ha & Hvec).
  exists sig, a. split; [|done]. unfold cu_accept.
  erewrite M_bind_ok by reflexivity. cbn beta iota. rewrite He. cbn [map_err].
  erewrite M_bind_lift_ok by reflexivity.
  erewrite M_bind_lift_ok by (apply array_index_Ok; split; [lia|exact Hn]).
  rewrite to_hash_state. erewrite M_bind_lift_ok by reflexivity.
  erewrite M_bind_lift_ok by exact Hs. erewrite M_bind_lift_ok by exact Ha.
  erewrite M_bind_ok by reflexivity. unfold on_snd. cbn [fst snd]. by rewrite own_broadcast.
Qed.

(** Whatever [accept] does to an update, its signatures stay verified, its state
    and channel stay the same, and the channel it is for is the one it names. *)
Lemma cu_accept_sound ch u u' (b b' : B) r :
  owned ch -> update_signed ch u -> cu_accept ch (u, b) = ((u', b'), r) ->
  cu_channel_id u' = cu_channel_id u /\ cu_new_state u' = cu_new_state u /\ update_signed ch u'.
Proof.
  intros Ho Hu Ha. pose proof (own_part _ Ho).
  destruct (ensure_valid_channel u ch) as [[]|e|] eqn:He.
  2, 3: unfold cu_accept in Ha; mrun_in Ha; rewrite He in Ha; cbn [map_err] in Ha; mrun_in Ha; by simplify_eq.
  destruct (to_vec (cu_signatures u) !! Z.to_nat (ac_part_idx ch)) as [[sig|]|] eqn:Hl.
  - unfold cu_accept in Ha. mrun_in Ha. rewrite He in Ha. cbn [map_err] in Ha. mrun_in Ha.
    erewrite M_bind_lift_ok in Ha by (apply array_index_Ok; split; [lia|exact Hl]).
    mrun_in Ha. by simplify_eq.
  - destruct (cu_accept_ok ch u b Ho He Hl) as (sig & sigs & Hok & Hvec & Hr).
    rewrite Hok in Ha. simplify_eq. split; [done|]. split; [done|]. intros j s. cbn [cu_signatures set_signatures].
    rewrite Hvec. intros [(<- & [= ->] & _)|(_ & Hj)]%list_lookup_insert_Some; [|by apply Hu].
    exists (address (ac_signer ch)). split; [by apply own_addr|apply Hr].
  - apply lookup_ge_None in Hl. rewrite array_length in Hl. unfold PARTICIPANTS in Hl. lia.
Qed.

(** [participant_accepted] only adds a verified signature; otherwise it leaves
    the update as it is. *)
Lemma cu_participant_accepted_sound ch u u' i msg r :
  update_signed ch u -> cu_participant_accepted ch i msg u = (u', r) ->
  (u' = u /\ r <> Ok tt) \/
  (r = Ok tt /\ cu_channel_id u' = cu_channel_id u /\ cu_new_state u' = cu_new_state u /\
   update_signed ch u' /\
   to_vec (cu_signatures u') = <[Z.to_nat i := Some (upacc_sig msg)]> (to_vec (cu_signatures u))).
Proof.
  intros Hu Ha. unfold cu_participant_accepted in Ha. mrun_in Ha.
  destruct (ensure_valid_channel u ch) as [[]|e|]; cbn [map_err] in Ha; mrun_in Ha;
    [|left; by simplify_eq..].
  case_decide; [mrun_in Ha; left; by simplify_eq|].
  case_decide; [mrun_in Ha; left; by simplify_eq|].
  rewrite to_hash_state in Ha. cbn [map_err] in Ha. mrun_in Ha.
  destruct (recover_signer _ _ _) as [signer|e|] eqn:Hr; cbn [map_err] in Ha; mrun_in Ha; [|left; by simplify_eq..].
  destruct (array_index (participants _) i) as [p|e|] eqn:Hp; mrun_in Ha; [|left; by simplify_eq..].
  case_decide; [mrun_in Ha; left; by simplify_eq|]. subst p.
  destruct (array_index (cu_signatures u) i) as [[s|]|e|] eqn:Hs; mrun_in Ha;
    [left; by simplify_eq| |left; by simplify_eq..].
  destruct (array_set _ _ _) as [sigs|e|] eqn:Hset; mrun_in Ha; [|left; by simplify_eq..].
  unfold mput in Ha. simplify_eq. right. apply array_set_inv in Hset as [Hi Hvec].
  apply array_index_Ok in Hp as [_ Hp]. cbn [cu_channel_id cu_new_state set_signatures cu_signatures].
  split_and!; [done|done|done| |done].
  intros j s. cbn [cu_signatures set_signatures]. rewrite Hvec.
  intros [(<- & [= <-] & _)|(_ & Hj)]%list_lookup_insert_Some; [|by apply Hu].
  exists signer. by split.
Qed.

(** [signatures]: all of them, or the index of the first missing one. *)
Lemma collect_signatures_Ok i l sigs :
  collect_signatures i l = Ok sigs <-> l = Some <$> sigs.
Proof.
  revert i sigs. induction l as [|[s|] l IH]; intros i sigs; cbn.
  - split; [by intros [= <-]|]. by destruct sigs.
  - destruct (collect_signatures (i + 1) l) as [k| |] eqn:Hk; cbn.
    + apply IH in Hk as ->. split; [by intros [= <-]|]. destruct sigs as [|s' sigs]; [done|].
      intros [= -> Hf]. f_equal. f_equal.
      apply (f_equal (omap (fun x => x))) in Hf. revert Hf. clear.
      revert sigs. induction k as [|x k IH]; intros [|y sigs] Hf; try done.
      cbn in Hf. injection Hf as -> Hf. f_equal. by apply IH.
    + split; [done|]. destruct sigs as [|s' sigs]; [done|]. intros [= _ Hf].
      apply (IH (i + 1)) in Hf. by rewrite Hk in Hf.
    + split; [done|]. destruct sigs as [|s' sigs]; [done|]. intros [= _ Hf].
      apply (IH (i + 1)) in Hf. by rewrite Hk in Hf.
  - split; [done|]. by destruct sigs.
Qed.

Lemma cu_all_signatures_Ok u sigs :
  cu_all_signatures u = Ok sigs <-> to_vec (cu_signatures u) = Some <$> to_vec sigs.
Proof.
  unfold cu_all_signatures. split.
  - destruct (collect_signatures 0 _) as [l| |] eqn:Hl; [|done|done]. cbn.
    destruct (array_try_from l) as [a|] eqn:Ha; [|done]. intros [= ->].
    apply array_try_from_Some in Ha as ->. by apply (collect_signatures_Ok 0).
  - intros H. apply (collect_signatures_Ok 0) in H. rewrite H. cbn. by rewrite array_try_from_to_vec.
Qed.

(** [apply]: the new state with all its signatures replaces the old one and is
    sent to the watcher, or nothing happens at all. *)
Lemma cu_apply_spec u ch (b : B) :
  match cu_apply u (ch, b) with
  | ((ch', b'), Ok tt) =>
      ensure_valid_channel u ch = Ok tt /\
      exists sigs, to_vec (cu_signatures u) = Some <$> to_vec sigs /\
        ch' = set_state ch (cu_new_state u) sigs /\
        b' = sent b (ToWatcher (WatchRequest
               (mkStartWatchingLedgerChannelReq (ac_params ch) (cu_new_state u) sigs)))
  | ((ch', b'), _) => ch' = ch /\ b' = b
  end.
Proof.
  unfold cu_apply. erewrite M_bind_ok by reflexivity. cbn beta iota. unfold mbind at 1, M_bind at 1, mlift at 1.
  destruct (ensure_valid_channel u ch) as [[]|e|] eqn:He; [|done|done]. cbn [map_err].
  unfold mbind, M_bind, mlift.
  destruct (cu_all_signatures u) as [sigs|e|] eqn:Hs; [|done|done].
  unfold mmap_err, force_update, send_current_state_to_watcher.
  unfold mbind, M_bind. rewrite watcher_ok. cbn. split; [done|].
  exists sigs. split; [by apply cu_all_signatures_Ok|]. done.
Qed.

End ActiveOps.

(* ------------------------------------------------------------------ *)
(** ** Two participants                                                  *)
(* ------------------------------------------------------------------ *)

Section Protocol.
Context `{Pl : Platform} `{U : UintCrate} `{UL : !UintLaws U} `{S : Sha3Crate} `{SL : !Sha3Laws S}.
Context `{I : SignerImpl} `{IL : !SignerLaws I}.
Context {B : Type} `{HB : !MessageBus B} `{PB : !PureBus B}.

Abbreviation CState := (State ASSETS PARTICIPANTS).

Definition no_signatures : list (option Signature) := [None; None].

Lemma ChannelUpdate_new_ok {E} ch (st : CState) i sig :
  0 <= i < 2 ->
  exists u, @ChannelUpdate_new _ _ E ch st i sig = Ok u /\ cu_channel_id u = id (ac_state ch) /\
    cu_new_state u = st /\ to_vec (cu_signatures u) = <[Z.to_nat i := Some sig]> no_signatures.
Proof.
  intros Hi. unfold ChannelUpdate_new.
  destruct (@array_set_2 E _ (array_repeat PARTICIPANTS None) i (Some sig) Hi) as (a & Ha & Hv).
  rewrite Ha. cbn [mbind res_bind]. eexists. split; [done|]. done.
Qed.

(** [handle_update] of a valid state with the signature of its sender. *)
Lemma handle_update_ok ch msg addr :
  valid_transition (ac_state ch) (upd_state msg) -> 0 <= upd_actor_idx msg < 2 ->
  to_vec (participants (ac_params ch)) !! Z.to_nat (upd_actor_idx msg) = Some addr ->
  signed_by (ac_signer ch) (upd_state msg) addr (upd_sig msg) ->
  exists u, handle_update ch msg = Ok u /\ cu_channel_id u = id (ac_state ch) /\
    cu_new_state u = upd_state msg /\
    to_vec (cu_signatures u) = <[Z.to_nat (upd_actor_idx msg) := Some (upd_sig msg)]> no_signatures.
Proof.
  intros Hv Hi Ha Hs. destruct (ChannelUpdate_new_ok (E:=HandleUpdateError) ch (upd_state msg) _ (upd_sig msg) Hi)
    as (u & Hu & Hrest).
  exists u. split; [|done]. unfold handle_update. apply check_valid_transition_Ok in Hv. rewrite Hv.
  cbn [map_err mbind res_bind]. rewrite to_hash_state. cbn [map_err mbind res_bind].
  unfold signed_by in Hs. rewrite Hs. cbn [map_err mbind res_bind].
  assert (@array_index HandleUpdateError _ _ (participants (ac_params ch)) (upd_actor_idx msg) = Ok addr) as ->
    by (apply array_index_Ok; split; [lia|done]).
  cbn [mbind res_bind]. by rewrite decide_False by (by intros []).
Qed.

(** [participant_accepted] with the signature of the participant. *)
Lemma cu_participant_accepted_ok ch u i msg addr :
  ensure_valid_channel u ch = Ok tt -> 0 <= i < 2 ->
  upacc_channel msg = cu_channel_id u -> upacc_version msg = version (cu_new_state u) ->
  to_vec (participants (ac_params ch)) !! Z.to_nat i = Some addr ->
  signed_by (ac_signer ch) (cu_new_state u) addr (upacc_sig msg) ->
  to_vec (cu_signatures u) !! Z.to_nat i = Some None ->
  exists sigs, cu_participant_accepted ch i msg u = (set_signatures u sigs, Ok tt) /\
    to_vec sigs = <[Z.to_nat i := Some (upacc_sig msg)]> (to_vec (cu_signatures u)).
Proof.
  intros He Hi Hc Hv Ha Hs Hn.
  destruct (@array_set_2 AddSignatureError _ (cu_signatures u) i (Some (upacc_sig msg)) Hi) as (a & Hset & Hvec).
  exists a. split; [|done]. unfold cu_participant_accepted. mrun. rewrite He. mrun.
  rewrite decide_False by (by intros []). rewrite decide_False by (by intros []).
  rewrite to_hash_state. mrun. unfold signed_by in Hs. rewrite Hs. mrun.
  erewrite M_bind_lift_ok by (apply array_index_Ok; split; [lia|exact Ha]).
  rewrite decide_False by (by intros []).
  erewrite M_bind_lift_ok by (apply array_index_Ok; split; [lia|exact Hn]).
  mrun. rewrite Hset. mrun. done.
Qed.

(** [apply] of a complete update. *)
Lemma cu_apply_ok ch u (b : B) sigs :
  ensure_valid_channel u ch = Ok tt -> to_vec (cu_signatures u) = Some <$> to_vec sigs ->
  cu_apply u (ch, b) =
    ((set_state ch (cu_new_state u) sigs,
      sent b (ToWatcher (WatchRequest
        (mkStartWatchingLedgerChannelReq (ac_params ch) (cu_new_state u) sigs)))), Ok tt).
Proof.
  intros He Hs%cu_all_signatures_Ok. unfold cu_apply. mrun. rewrite He. mrun. rewrite Hs. mrun.
  unfold mmap_err, force_update, send_current_state_to_watcher, mbind, M_bind. by rewrite watcher_ok.
Qed.

(** The signatures of both participants, in their order. *)
Definition sig_pair (i : PartIdx) (s t : Signature) : array Signature PARTICIPANTS :=
  if decide (i = 0) then mk_array [s; t] eq_refl else mk_array [t; s] eq_refl.

Lemma sig_pair_first i j s t :
  0 <= i < 2 -> 0 <= j < 2 -> i <> j ->
  <[Z.to_nat j := Some t]> (<[Z.to_nat i := Some s]> no_signatures) = Some <$> to_vec (sig_pair i s t).
Proof.
  intros Hi Hj Hij. assert ((i = 0 /\ j = 1) \/ (i = 1 /\ j = 0)) as [[-> ->]|[-> ->]] by lia; done.
Qed.

Lemma other_free i j s :
  0 <= i < 2 -> 0 <= j < 2 -> i <> j ->
  <[Z.to_nat i := Some s]> no_signatures !! Z.to_nat j = Some None.
Proof.
  intros Hi Hj Hij. assert ((i = 0 /\ j = 1) \/ (i = 1 /\ j = 0)) as [[-> ->]|[-> ->]] by lia; done.
Qed.

(** Both ends of a channel: two participants with the same parameters and the
    same current state. *)
Record channel_ends (a b : ActiveChannel) : Prop := {
  ends_a : owned a;
  ends_b : owned b;
  ends_params : ac_params a = ac_params b;
  ends_state : ac_state a = ac_state b;
  ends_idx : ac_part_idx a <> ac_part_idx b;
}.

Lemma valid_ensure {u ch st} :
  valid_transition (ac_state ch) st -> cu_new_state u = st -> cu_channel_id u = id (ac_state ch) ->
  ensure_valid_channel u ch = Ok tt.
Proof.
  intros [_ _ Hv _ _ _] Hst Hid. apply ensure_valid_channel_Ok. subst st. split; [|done].
  by eapply u64_add_retype.
Qed.

End Protocol.

(* ------------------------------------------------------------------ *)
(** ** What the applications rely on                                     *)
(* ------------------------------------------------------------------ *)

(** C14: an update is accepted as the next state of a channel exactly when it is
    for the same channel, the current state is not final, its version is the
    next one, and it has the same assets and the same total of every asset
    (which must fit 256 bits). *)
Theorem check_valid_transition_iff `{Pl : Platform} `{U : UintCrate} `{UL : !UintLaws U}
    `{I : SignerImpl} (ch : ActiveChannel) (new : State ASSETS PARTICIPANTS) :
  check_valid_transition ch new = Ok tt <->
  id new = id (ac_state ch) /\ is_final (ac_state ch) = false /\
  @u64_add _ InvalidUpdate (version (ac_state ch)) (u64_wrap 1) = Ok (version new) /\
  assets (outcome new) = assets (outcome (ac_state ch)) /\
  asset_sums (outcome new) = asset_sums (outcome (ac_state ch)) /\
  Forall (fun s => s < 2 ^ 256) (asset_sums (outcome (ac_state ch))).
Proof.
  rewrite check_valid_transition_Ok. split; [by intros []|].
  intros (? & ? & ? & ? & ? & ?). by split.
Qed.



(** A valid and correctly signed update of a message that names a participant
    the channel does not have makes [handle_update] panic instead of returning
    an error. *)
Theorem handle_update_panics_on_actor_idx `{Pl : Platform} `{U : UintCrate} `{UL : !UintLaws U}
    `{S : Sha3Crate} `{SL : !Sha3Laws S} `{I : SignerImpl} (ch : ActiveChannel)
    (msg : LedgerChannelUpdate) (addr : Address) :
  check_valid_transition ch (upd_state msg) = Ok tt ->
  recover_signer (ac_signer ch) (state_digest (upd_state msg)) (upd_sig msg) = Ok addr ->
  2 <= upd_actor_idx msg -> handle_update ch msg = Panic.
Proof.
  intros Hc Hr Hi. unfold handle_update. rewrite Hc. cbn [map_err mbind res_bind].
  rewrite to_hash_state. cbn [map_err mbind res_bind]. rewrite Hr. cbn [map_err mbind res_bind].
  unfold array_index. rewrite vec_index_out; [done|]. rewrite zlen_to_vec. unfold PARTICIPANTS. lia.
Qed.


(** An update completes: when one participant proposes a valid next state,
    the other accepts the message it is sent and applies the update, and the
    first processes the acceptance and applies it too, no call fails, and both
    channels have the new state with the same two signatures. *)
Theorem update_protocol_completes `{Pl : Platform} `{U : UintCrate} `{UL : !UintLaws U}
    `{S : Sha3Crate} `{SL : !Sha3Laws S} `{I : SignerImpl} `{IL : !SignerLaws I}
    {B : Type} `{HB : !MessageBus B} `{PB : !PureBus B}
    (chA chB : ActiveChannel) (bA bB : B) (new : State ASSETS PARTICIPANTS) :
  channel_ends chA chB -> check_valid_transition chA new = Ok tt ->
  exists sigA sigB uA uA' uB uB' bA' bB',
    let msg := mkLedgerChannelUpdate new (ac_part_idx chA) sigA in
    let acc := mkLedgerChannelUpdateAccepted (id new) (version new) sigB in
    let sigs := sig_pair (ac_part_idx chA) sigA sigB in
    ac_update chA new bA = (sends bA (ch_broadcast chA (ChannelUpdateMsg msg)), Ok uA) /\
    handle_update chB msg = Ok uB /\
    cu_accept chB (uB, bB) = ((uB', sends bB (ch_broadcast chB (ChannelUpdateAccepted acc))), Ok tt) /\
    cu_apply uB' (chB, sends bB (ch_broadcast chB (ChannelUpdateAccepted acc))) =
      ((set_state chB new sigs, bB'), Ok tt) /\
    cu_participant_accepted chA (ac_part_idx chB) acc uA = (uA', Ok tt) /\
    cu_apply uA' (chA, sends bA (ch_broadcast chA (ChannelUpdateMsg msg))) =
      ((set_state chA new sigs, bA'), Ok tt).
Proof.
  intros [Ha Hb Hpar Hst Hidx] Hv%check_valid_transition_Ok.
  pose proof (own_part _ Ha) as Hia. pose proof (own_part _ Hb) as Hib.
  destruct (ac_update_ok chA new bA Ha Hv) as (sigA & uA & HuA & HsA & HnA).
  destruct (ChannelUpdate_new_ok (E:=ProposeUpdateError) chA new (ac_part_idx chA) sigA Hia)
    as (uA2 & HnA2 & HidA & HstA & HvecA).
  rewrite HnA in HnA2. injection HnA2 as <-.
  set (msg := mkLedgerChannelUpdate new (ac_part_idx chA) sigA) in *.
  assert (valid_transition (ac_state chB) new) as HvB by by rewrite <- Hst.
  destruct (handle_update_ok chB msg (address (ac_signer chA))) as (uB & HuB & HidB & HstB & HvecB).
  { exact HvB. } { exact Hia. } { rewrite <- Hpar. apply (own_addr _ Ha). } { apply HsA. }
  pose proof (valid_ensure HvB HstB HidB) as HeB. pose proof (valid_ensure Hv HstA HidA) as HeA.
  cbn [upd_actor_idx upd_sig upd_state msg] in HvecB, HstB.
  destruct (cu_accept_ok chB uB bB Hb HeB) as (sigB & sigsB & HaccB & HvecB' & HsB).
  { rewrite HvecB. apply other_free; done || lia. }
  assert (cu_channel_id uB = id new) as HidB' by (rewrite HidB; symmetry; apply (vt_id _ _ HvB)).
  rewrite HidB', HstB in HaccB. rewrite HvecB in HvecB'.
  destruct (cu_participant_accepted_ok chA uA (ac_part_idx chB)
    (mkLedgerChannelUpdateAccepted (id new) (version new) sigB) (address (ac_signer chB)))
    as (sigsA & HpA & HvecA').
  { exact HeA. } { exact Hib. } { cbn. rewrite HidA. apply (vt_id _ _ Hv). } { cbn. by rewrite HstA. }
  { rewrite Hpar. apply (own_addr _ Hb). } { rewrite HstA, <- HstB. apply HsB. }
  { rewrite HvecA. apply other_free; done || lia. }
  rewrite HvecA in HvecA'. cbn [upacc_sig] in HvecA'.
  rewrite sig_pair_first in HvecA', HvecB' by done || lia.
  exists sigA, sigB, uA, (set_signatures uA sigsA), uB, (set_signatures uB sigsB). do 2 eexists.
  split; [exact HuA|]. split; [exact HuB|]. split; [exact HaccB|].
  split; [|split; [exact HpA|]].
  - rewrite <- HstB. exact (cu_apply_ok chB (set_signatures uB sigsB) _ _ HeB HvecB').
  - rewrite <- HstA. exact (cu_apply_ok chA (set_signatures uA sigsA) _ _ HeA HvecA').
Qed.
