(* ===== verification/ChannelSystem.v ===== *)
(** * An active channel as a state machine

    The application drives an [ActiveChannel] and any number of pending
    [ChannelUpdate]s with the operations of Active.v, in any order and with any
    messages of the other participant.  The invariants of every reachable state
    are shown by induction on the steps. *)
From stdpp Require Import relations.
From S2P Require Import Prelude AbiSpec AbiSer Types Payment PaymentTheorems Sig Messages Wire.
From S2P Require Import ChannelTypes Active BusRefinement ActiveTheorems.

Section System.
Context `{Pl : Platform} `{U : UintCrate} `{UL : !UintLaws U} `{S : Sha3Crate} `{SL : !Sha3Laws S}.
Context `{I : SignerImpl} `{IL : !SignerLaws I}.
Context {B : Type} `{HB : !MessageBus B} `{LB : !LawfulBus B}.

Abbreviation CState := (State ASSETS PARTICIPANTS).

(** The channel, the pending updates the application holds, and the bus. *)
Record sys : Type := mkSys {
  sys_channel : ActiveChannel;
  sys_pending : list ChannelUpdate;
  sys_bus : B;
}.

(** One call of the application.  A call that panics has no next state. *)
Inductive step : sys -> sys -> Prop :=
  | step_update ch pend b b' st u :
      ac_update ch st b = (b', Ok u) -> step (mkSys ch pend b) (mkSys ch (u :: pend) b')
  | step_update_err ch pend b b' st e :
      ac_update ch st b = (b', Err e) -> step (mkSys ch pend b) (mkSys ch pend b')
  | step_close ch pend b b' u :
      close_normal ch b = (b', Ok u) -> step (mkSys ch pend b) (mkSys ch (u :: pend) b')
  | step_handle_update ch pend b msg u :
      handle_update ch msg = Ok u -> step (mkSys ch pend b) (mkSys ch (u :: pend) b)
  | step_accept ch pre u u' post b b' r :
      cu_accept ch (u, b) = ((u', b'), r) -> r <> Panic ->
      step (mkSys ch (pre ++ u :: post) b) (mkSys ch (pre ++ u' :: post) b')
  | step_participant_accepted ch pre u u' post b i msg r :
      cu_participant_accepted ch i msg u = (u', r) ->
      step (mkSys ch (pre ++ u :: post) b) (mkSys ch (pre ++ u' :: post) b)
  | step_reject ch pre u post b b' reason r :
      cu_reject u ch reason b = (b', r) ->
      step (mkSys ch (pre ++ u :: post) b) (mkSys ch (pre ++ post) b')
  | step_drop ch pre u post b :
      step (mkSys ch (pre ++ u :: post) b) (mkSys ch (pre ++ post) b)
  | step_apply ch ch' pre u post b b' r :
      cu_apply u (ch, b) = ((ch', b'), r) -> r <> Panic ->
      step (mkSys ch (pre ++ u :: post) b) (mkSys ch' (pre ++ u :: post) b')
  | step_force_close ch ch' pend b b' :
      force_close ch b = (b', Ok ch') -> step (mkSys ch pend b) (mkSys ch' pend b')
  | step_withdraw ch ch' pend b b' :
      withdraw ch b = (b', Ok ch') -> step (mkSys ch pend b) (mkSys ch' pend b').

(* ------------------------------------------------------------------ *)
(** ** The invariant                                                     *)
(* ------------------------------------------------------------------ *)

(** Every participant has signed the state. *)
Definition fully_signed (ch : ActiveChannel) : Prop :=
  forall i sig, to_vec (ac_signatures ch) !! i = Some sig ->
    exists addr, to_vec (participants (ac_params ch)) !! i = Some addr /\
      signed_by (ac_signer ch) (ac_state ch) addr sig.

(** A state of the same channel with the same assets and totals. *)
Definition same_funds (st st' : CState) : Prop :=
  id st = id st' /\ assets (outcome st) = assets (outcome st') /\
  asset_sums (outcome st) = asset_sums (outcome st').

Lemma valid_transition_same_funds st st' : valid_transition st st' -> same_funds st' st.
Proof. intros []. by split_and!. Qed.

Lemma same_funds_trans a b c : same_funds a b -> same_funds b c -> same_funds a c.
Proof. intros (? & ? & ?) (? & ? & ?). unfold same_funds. split_and!; congruence. Qed.

(** What an operation leaves of a channel apart from its state. *)
Definition same_identity (ch ch' : ActiveChannel) : Prop :=
  ac_part_idx ch = ac_part_idx ch' /\ ac_signer ch = ac_signer ch' /\
  ac_params ch = ac_params ch' /\ ac_peers ch = ac_peers ch' /\
  ac_withdraw_receiver ch = ac_withdraw_receiver ch'.

Lemma same_identity_owned ch ch' : same_identity ch ch' -> owned ch' -> owned ch.
Proof. intros (H1 & H2 & H3 & H4 & _) []. split; congruence. Qed.

Lemma same_identity_update_signed ch ch' u :
  same_identity ch ch' -> update_signed ch' u -> update_signed ch u.
Proof. intros (_ & H2 & H3 & _) Hu i sig Hi. rewrite H2, H3. by apply Hu. Qed.

(** A pending update of the channel: for a state with the same funds, verified
    signatures, and no later than the next version. *)
Record pending_ok (ch : ActiveChannel) (u : ChannelUpdate) : Prop := {
  pend_id : cu_channel_id u = id (ac_state ch);
  pend_funds : same_funds (cu_new_state u) (ac_state ch);
  pend_signed : update_signed ch u;
  pend_version : debug_build = true ->
    u64_val (version (cu_new_state u)) <= u64_val (version (ac_state ch)) +
      (if is_final (ac_state ch) then 0 else 1);
}.

Record sys_ok (ch0 : ActiveChannel) (s : sys) : Prop := {
  sys_identity : same_identity (sys_channel s) ch0;
  sys_funds : same_funds (ac_state (sys_channel s)) (ac_state ch0);
  sys_signed : fully_signed (sys_channel s);
  sys_pending_ok : Forall (pending_ok (sys_channel s)) (sys_pending s);
}.

Lemma u64_add_one_debug {E} v w :
  debug_build = true -> @u64_add _ E v (u64_wrap 1) = Ok w -> u64_val w = u64_val v + 1.
Proof.
  intros Hd. unfold u64_add. change (u64_val (u64_wrap 1)) with 1. rewrite Hd.
  case_decide as Hf; [|done]. intros [= <-]. cbn. by apply Z.mod_small.
Qed.

(** A new update is pending and no other changes. *)
Lemma new_pending ch u st :
  valid_transition (ac_state ch) st -> cu_channel_id u = id (ac_state ch) -> cu_new_state u = st ->
  update_signed ch u -> pending_ok ch u.
Proof.
  intros Hv Hid Hst Hsig. subst st. split; [done|by apply valid_transition_same_funds|done|].
  intros Hd. rewrite (vt_not_final _ _ Hv).
  rewrite (u64_add_one_debug _ _ Hd (vt_version _ _ Hv)). lia.
Qed.

(** The signatures of a complete update are those of its participants. *)
Lemma apply_fully_signed ch u sigs :
  update_signed ch u -> to_vec (cu_signatures u) = Some <$> to_vec sigs ->
  fully_signed (set_state ch (cu_new_state u) sigs).
Proof.
  intros Hu Hs i sig Hi. cbn in Hi. apply Hu. rewrite Hs, list_lookup_fmap, Hi. done.
Qed.

(** After an update has been applied, the pending updates are those of the new
    state; none of them can be applied to a final one. *)
Lemma apply_pending ch u sigs v :
  @u64_add _ InvalidChannel (version (ac_state ch)) (u64_wrap 1) = Ok (version (cu_new_state u)) ->
  pending_ok ch u -> pending_ok ch v -> pending_ok (set_state ch (cu_new_state u) sigs) v.
Proof.
  intros Hver [Hid Hf _ _] [Hid' Hf' Hs' Hv'].
  assert (same_funds (cu_new_state v) (cu_new_state u)) as Hsame.
  { destruct Hf as (? & ? & ?), Hf' as (? & ? & ?). unfold same_funds. split_and!; congruence. }
  split; [|done| |].
  - cbn. rewrite Hid'. symmetry. by destruct Hf.
  - intros i sig Hi. by apply Hs'.
  - intros Hd. specialize (Hv' Hd). apply (u64_add_one_debug _ _ Hd) in Hver. cbn.
    destruct (is_final (ac_state ch)), (is_final (cu_new_state u)); lia.
Qed.

Lemma update_pending ch st (b b' : B) u :
  owned ch -> ac_update ch st b = (b', Ok u) -> pending_ok ch u.
Proof.
  intros Ho Hu. apply (sends_as_ok _ _ _ _ _ (sends_as_ac_update ch st)) in Hu as [l Hu].
  destruct (ac_update_sound ch st _ _ u Ho Hu) as (Hv & Hid & Hst & Hs).
  by eapply new_pending.
Qed.

Lemma Forall_replace {A} (Q : A -> Prop) pre x y post :
  Forall Q (pre ++ x :: post) -> (Q x -> Q y) -> Forall Q (pre ++ y :: post).
Proof. rewrite !Forall_app, !Forall_cons_iff. naive_solver. Qed.

Lemma Forall_remove {A} (Q : A -> Prop) pre x post :
  Forall Q (pre ++ x :: post) -> Forall Q (pre ++ post).
Proof. rewrite !Forall_app, !Forall_cons_iff. naive_solver. Qed.

(** What a call that returns does, on any bus. *)
Lemma cu_apply_out u ch (b : B) ch' b' r :
  cu_apply u (ch, b) = ((ch', b'), r) -> r <> Panic ->
  match r with
  | Ok _ => ensure_valid_channel u ch = Ok tt /\
      exists sigs, to_vec (cu_signatures u) = Some <$> to_vec sigs /\ ch' = set_state ch (cu_new_state u) sigs /\
        deliver b (ToWatcher (WatchRequest
          (mkStartWatchingLedgerChannelReq (ac_params ch) (cu_new_state u) sigs))) b'
  | _ => ch' = ch
  end.
Proof.
  intros H Hr. destruct (runs_out _ _ [] _ _ _ (runs_cu_apply u) H Hr) as (l & Hl & Hd). cbn [fst snd] in *.
  pose proof (cu_apply_spec u ch ([] : list Sent)) as Hs. rewrite Hl in Hs.
  destruct r as [[]|e|]; [|by destruct Hs|done].
  destruct Hs as (He & sigs & Hsig & -> & Hlog). split; [done|]. exists sigs. split; [done|]. split; [done|].
  cbn in Hlog. subst l. inversion Hd as [|? ? b1 ? ? Hd1 Hd2]. by inversion Hd2; subst.
Qed.

Lemma force_close_out ch (b : B) ch' b' : force_close ch b = (b', Ok ch') -> ch' = ch.
Proof.
  intros H. apply (sends_as_ok _ _ _ _ _ (sends_as_force_close ch)) in H as [l H].
  unfold force_close in H. erewrite M_bind_ok in H by apply funder_ok. by injection H.
Qed.

Lemma withdraw_out ch (b : B) ch' b' : withdraw ch b = (b', Ok ch') -> ch' = ch.
Proof.
  intros H. apply (sends_as_ok _ _ _ _ _ (sends_as_withdraw ch)) in H as [l H].
  unfold withdraw in H. erewrite M_bind_ok in H by apply funder_ok. by injection H.
Qed.

Lemma step_sys_ok ch0 s s' : owned ch0 -> step s s' -> sys_ok ch0 s -> sys_ok ch0 s'.
Proof.
  intros Ho0 Hstep [Hi Hf Hs Hp].
  assert (owned (sys_channel s)) as Ho by by eapply same_identity_owned.
  destruct Hstep as [ch pend b b' st u H|ch pend b b' st e H|ch pend b b' u H|ch pend b msg u H
    |ch pre u u' post b b' r H Hr|ch pre u u' post b i msg r H|ch pre u post b b' reason r H|ch pre u post b
    |ch ch' pre u post b b' r H Hr|ch ch' pend b b' H|ch ch' pend b b' H];
    cbn [sys_channel sys_pending] in *; try done.
  - split; [done..|]. constructor; [by eapply update_pending|done].
  - split; [done..|]. unfold close_normal in H.
    destruct (make_next_state (ac_state ch)) as [n|e|] eqn:Hn; mrun_in H; [|done|done].
    constructor; [by eapply update_pending|done].
  - split; [done..|]. apply handle_update_sound in H as (Hv & Hid & Hst & Hsig).
    constructor; [by eapply new_pending|done].
  - split; [done..|]. eapply Forall_replace; [exact Hp|]. intros [Hid Hfu Hsu Hv].
    destruct (runs_out _ _ [] _ _ _ (runs_cu_accept ch) H Hr) as (l & Hl & _). cbn [fst snd] in Hl.
    destruct (cu_accept_sound ch u u' _ _ r Ho Hsu Hl) as (E1 & E2 & E3).
    split; [by rewrite E1|by rewrite E2|done|by rewrite E2].
  - split; [done..|]. eapply Forall_replace; [exact Hp|]. intros [Hid Hfu Hsu Hv].
    destruct (cu_participant_accepted_sound ch u u' i msg r Hsu H) as [[-> _]|(_ & E1 & E2 & E3 & _)]; [done|].
    split; [by rewrite E1|by rewrite E2|done|by rewrite E2].
  - split; [done..|]. by eapply Forall_remove.
  - split; [done..|]. by eapply Forall_remove.
  - pose proof (cu_apply_out u ch b ch' b' r H Hr) as Hap. destruct r as [[]|e|]; [|by rewrite Hap|done].
    destruct Hap as (He & sigs & Hsig & -> & _). apply ensure_valid_channel_Ok in He as [Hver Hcid].
    assert (pending_ok ch u) as Hu by (apply Forall_app in Hp as [_ [Hu _]%Forall_cons_iff]; done).
    split; cbn [sys_channel sys_pending].
    + exact Hi.
    + eapply same_funds_trans; [|exact Hf]. apply (pend_funds _ _ Hu).
    + apply apply_fully_signed; [apply (pend_signed _ _ Hu)|done].
    + eapply Forall_impl; [|exact Hp]. intros v Hv. by apply apply_pending.
  - by rewrite (force_close_out ch b ch' b' H).
  - by rewrite (withdraw_out ch b ch' b' H).
Qed.

Lemma reachable_ok ch0 b0 s :
  owned ch0 -> fully_signed ch0 -> rtc step (mkSys ch0 [] b0) s -> sys_ok ch0 s.
Proof.
  intros Ho Hs Hr. assert (sys_ok ch0 (mkSys ch0 [] b0)) as H0 by (split; done).
  revert Hr H0. generalize (mkSys ch0 [] b0). intros s0 Hr.
  induction Hr as [|x y z Hxy Hyz IH]; intros H0; [done|]. apply IH. by eapply step_sys_ok.
Qed.

(** A single step keeps the state or moves it to the next version. *)
Lemma step_state s s' :
  step s s' ->
  sys_channel s' = sys_channel s \/
  exists u, u ∈ sys_pending s /\ ensure_valid_channel u (sys_channel s) = Ok tt /\
    ac_state (sys_channel s') = cu_new_state u /\
    exists msg, deliver (sys_bus s) (ToWatcher (WatchRequest msg)) (sys_bus s') /\
      start_state msg = cu_new_state u.
Proof.
  intros Hstep. destruct Hstep as [| | | | | | | |ch ch' pre u post b b' r H Hr|ch ch' pend b b' H|ch ch' pend b b' H];
    try (by left).
  - pose proof (cu_apply_out u ch b ch' b' r H Hr) as Hap. destruct r as [[]|e|]; [|by left|done].
    destruct Hap as (He & sigs & Hsig & -> & Hd). right. exists u. cbn.
    split; [apply elem_of_app; right; by left|]. split; [done|]. split; [done|].
    by eexists.
  - left. exact (force_close_out ch b ch' b' H).
  - left. exact (withdraw_out ch b ch' b' H).
Qed.

Lemma final_no_step ch0 s s' :
  owned ch0 -> debug_build = true -> sys_ok ch0 s -> is_final (ac_state (sys_channel s)) = true ->
  step s s' -> sys_channel s' = sys_channel s.
Proof.
  intros Ho Hd Hok Hfin Hstep. destruct (step_state s s' Hstep) as [|(u & Hu & He & _)]; [done|].
  destruct Hok as [_ _ _ Hp]. rewrite Forall_forall in Hp.
  apply list_elem_of_In in Hu. specialize (Hp u Hu).
  pose proof (pend_version _ _ Hp Hd) as Hv. rewrite Hfin in Hv.
  apply ensure_valid_channel_Ok in He as [He _]. apply (u64_add_one_debug _ _ Hd) in He. lia.
Qed.

(* ------------------------------------------------------------------ *)
(** ** What holds in every reachable state                               *)
(* ------------------------------------------------------------------ *)

(** C2: whatever updates are proposed, received, accepted, rejected and applied,
    in whatever order and with whatever messages, the channel keeps its
    identifier, its parameters and assets, and the total of every asset. *)
Theorem reachable_conserves_funds (ch0 : ActiveChannel) (b0 : B) (s : sys) :
  owned ch0 -> fully_signed ch0 -> rtc step (mkSys ch0 [] b0) s ->
  id (ac_state (sys_channel s)) = id (ac_state ch0) /\
  ac_params (sys_channel s) = ac_params ch0 /\
  assets (outcome (ac_state (sys_channel s))) = assets (outcome (ac_state ch0)) /\
  asset_sums (outcome (ac_state (sys_channel s))) = asset_sums (outcome (ac_state ch0)).
Proof.
  intros Ho Hs Hr. destruct (reachable_ok ch0 b0 s Ho Hs Hr) as [(_ & _ & Hp & _) (H1 & H2 & H3) _ _].
  by split_and!.
Qed.

(** C1: in every reachable state the channel holds, for each participant, a
    signature of the current state that verifies for that participant: the
    state can always be enforced on-chain. *)
Theorem reachable_fully_signed (ch0 : ActiveChannel) (b0 : B) (s : sys) (i : nat) (addr : Address) :
  owned ch0 -> fully_signed ch0 -> rtc step (mkSys ch0 [] b0) s ->
  to_vec (participants (ac_params ch0)) !! i = Some addr ->
  exists sig, to_vec (ac_signatures (sys_channel s)) !! i = Some sig /\
    recover_signer (ac_signer ch0) (state_digest (ac_state (sys_channel s))) sig = Ok addr.
Proof.
  intros Ho Hs Hr Hi. destruct (reachable_ok ch0 b0 s Ho Hs Hr) as [(_ & Hsg & Hp & _) _ Hfs _].
  assert (i < 2)%nat as Hlt by (apply lookup_lt_Some in Hi; by rewrite array_length in Hi).
  destruct (lookup_lt_is_Some_2 (to_vec (ac_signatures (sys_channel s))) i) as [sig Hsig].
  { rewrite array_length. exact Hlt. }
  exists sig. split; [done|]. destruct (Hfs i sig Hsig) as (a & Ha & Hv).
  rewrite Hp, Hi in Ha. injection Ha as <-. unfold signed_by in Hv. by rewrite Hsg in Hv.
Qed.

(** A step either leaves the state of the channel as it is or replaces it
    by the state of a pending update with exactly the next version, and then
    the new state has been sent to the watcher. *)
Theorem step_advances_version (s s' : sys) :
  step s s' ->
  sys_channel s' = sys_channel s \/
  (@u64_add _ InvalidChannel (version (ac_state (sys_channel s))) (u64_wrap 1) =
     Ok (version (ac_state (sys_channel s'))) /\
   exists msg, deliver (sys_bus s) (ToWatcher (WatchRequest msg)) (sys_bus s') /\
     start_state msg = ac_state (sys_channel s')).
Proof.
  intros Hstep. destruct (step_state s s' Hstep) as [|(u & Hu & He & Hst & msg & Hb & Hm)]; [by left|].
  right. apply ensure_valid_channel_Ok in He as [He _]. rewrite Hst. split; [done|]. by exists msg.
Qed.


End System.
