(* ===== verification/OpeningTheorems.v ===== *)
(** * Opening a channel: theorems

    What proposing, accepting and signing do on every branch, and that an
    opening between two participants completes with both ends of an active
    channel that both have signed. *)
From S2P Require Import Prelude AbiSpec AbiSer AbiRefine Types Payment PaymentTheorems Sig.
From S2P Require Import Messages Wire ChannelTypes Active Proposal BusRefinement ActiveTheorems.
From S2P Require Import ChannelSystem.

Section Opening.
Context `{Pl : Platform} `{U : UintCrate} `{UL : !UintLaws U} `{S : Sha3Crate} `{SL : !Sha3Laws S}.
Context `{I : SignerImpl}.

Abbreviation CState := (State ASSETS PARTICIPANTS).
Abbreviation CParams := (Params PARTICIPANTS).

(* ------------------------------------------------------------------ *)
(** ** Building the initial state                                        *)
(* ------------------------------------------------------------------ *)

(** The combined nonce of two shares. *)
Definition combined_nonce (share0 share1 : NonceShare) : Z :=
  be_val (to_vec (digest (Digest:=Sha3_256) (to_vec share0 ++ to_vec share1))).

Lemma sha3_two (share0 share1 : NonceShare) :
  hasher_finalize (Digest:=Sha3_256)
    (hasher_update (hasher_update hasher_new (to_vec share0)) (to_vec share1)) =
  digest (Digest:=Sha3_256) (to_vec share0 ++ to_vec share1).
Proof.
  pose proof (digest_chunks (D:=Sha3_256) [to_vec share0; to_vec share1]) as H.
  cbn [foldl concat] in H. by rewrite app_nil_r in H.
Qed.

Lemma hash_to_nonce {E} (h : Hash) :
  exists n, @from_big_endian U E (to_vec h) = Ok n /\ u256_val n = be_val (to_vec h).
Proof.
  pose proof (from_big_endian_spec E (to_vec h)) as H.
  destruct (from_big_endian (to_vec h)) as [n| |]; [|done|].
  - exists n. by destruct H.
  - rewrite zlen_to_vec in H. lia.
Qed.

(** The parameters of the channel of a proposal and its acceptance. *)
Definition channel_params (prop : LedgerChannelProposal) (acc : LedgerChannelProposalAcc) (nonce : U256)
    : CParams :=
  mkParams (prop_challenge_duration prop) nonce
    (mk_array [prop_participant prop; acc_participant acc] eq_refl) Address_default true false.

Definition initial_state (prop : LedgerChannelProposal) (params : CParams) : CState :=
  mkState (digest (Digest:=Keccak256) (abi_encode (to_abi params))) (u64_wrap 0) (prop_init_bals prop)
    (mk_array [] eq_refl) false.

Lemma pc_build_accepted (pc : ProposedChannel) acc :
  to_vec (pc_responses pc) = [Some acc] ->
  exists nonce,
    u256_val nonce = combined_nonce (prop_nonce_share (pc_proposal pc)) (acc_nonce_share acc) /\
    let params := channel_params (pc_proposal pc) acc nonce in
    pc_build pc = Ok (AgreedUponChannel_new (pc_signer pc) (prop_funding_agreement (pc_proposal pc))
      (pc_part_idx pc) (pc_withdraw_receiver pc) (initial_state (pc_proposal pc) params) params
      (prop_peers (pc_proposal pc))).
Proof.
  intros Hr. unfold pc_build. rewrite Hr. cbn [build_responses ok_or mbind res_bind].
  destruct (@array_set_2 (ProposedChannel * ProposalBuildError) _ (array_repeat PARTICIPANTS Address_default) 0
    (prop_participant (pc_proposal pc)) ltac:(lia)) as (a & Ha & Hav).
  destruct (@array_set_2 ProposalBuildError _ a (0 + 1) (acc_participant acc) ltac:(lia)) as (a' & Ha' & Hav').
  rewrite Ha. cbn [mbind res_bind]. rewrite Ha'. cbn [map_err mbind res_bind].
  rewrite sha3_two.
  destruct (@hash_to_nonce (ProposedChannel * ProposalBuildError)
    (digest (Digest:=Sha3_256) (to_vec (prop_nonce_share (pc_proposal pc)) ++ to_vec (acc_nonce_share acc))))
    as (n & Hn & Hnv).
  exists n. split; [exact Hnv|]. rewrite Hn. cbn [mbind res_bind].
  assert (a' = mk_array [prop_participant (pc_proposal pc); acc_participant acc] eq_refl) as ->.
  { apply array_eq. rewrite Hav', Hav. done. }
  rewrite State_new_ok by (unfold ASSETS, PARTICIPANTS; lia). done.
Qed.

Lemma pc_build_missing (pc : ProposedChannel) :
  to_vec (pc_responses pc) = [None] -> pc_build pc = Err (pc, PB_MissingAccResponse 1).
Proof.
  intros Hr. unfold pc_build. rewrite Hr.
  destruct (@array_set_2 (ProposedChannel * ProposalBuildError) _ (array_repeat PARTICIPANTS Address_default) 0
    (prop_participant (pc_proposal pc)) ltac:(lia)) as (a & Ha & Hav).
  by rewrite Ha.
Qed.

Lemma check_valid_proposal_Ok prop :
  check_valid_proposal prop = Ok tt <->
  u64_val (prop_challenge_duration prop) <> 0 /\ zlen (prop_peers prop) = 2.
Proof.
  unfold check_valid_proposal. rewrite valid_assert. cbn [mbind res_bind].
  rewrite locked_assert. cbn [mbind res_bind]. case_decide as Hc; [by split; [|intros [? _]]|].
  destruct (@vec_index_in InvalidProposal _ (to_vec (asset_bals (balances (prop_init_bals prop)))) 0)
    as (bals & _ & Hb); [by rewrite zlen_to_vec|].
  unfold array_index. rewrite Hb. cbn [mbind res_bind]. rewrite zlen_to_vec.
  change (Z.of_nat PARTICIPANTS) with 2. case_decide as Hp; [|done]. by split; [|intros [_ ?]].
Qed.

(* ------------------------------------------------------------------ *)
(** ** Accepting                                                         *)
(* ------------------------------------------------------------------ *)

Context {B : Type} `{HB : !MessageBus B} `{PB : !PureBus B}.

Lemma array_1_set {E A} (a : array A 1) x : @array_set E A 1 a 0 x = Ok (mk_array [x] eq_refl).
Proof.
  unfold array_set. rewrite decide_True by lia. f_equal. apply array_eq.
  destruct (array_1 a) as [y Hy]. cbn. by rewrite Hy.
Qed.

Lemma array_1_set_out {E A} (a : array A 1) i x : i <> 0 -> @array_set E A 1 a i x = Panic.
Proof. intros Hi. unfold array_set. by rewrite decide_False by lia. Qed.

Lemma usize_sub_1_1 {E} : @usize_sub _ E 1 1 = Ok 0.
Proof. apply usize_sub_ok. pose proof usize_pow_ge. lia. Qed.

(** The index computed from participant 0, which has no response. *)
Lemma usize_sub_0_1 {E} :
  @usize_sub _ E 0 1 = Panic \/ exists i, @usize_sub _ E 0 1 = Ok i /\ i <> 0.
Proof.
  unfold usize_sub, int_sub, int_result. rewrite decide_False by (unfold fits; lia).
  destruct debug_build; [by left|right]. eexists. split; [done|].
  pose proof usize_pow_ge. change (2 ^ 32) with 4294967296 in *.
  intros Hz. assert (0 - 1 = 2 ^ usize_bits * ((0 - 1) / 2 ^ usize_bits)) by (apply Z.div_exact; lia).
  assert ((0 - 1) / 2 ^ usize_bits = -1) as Hd by (symmetry; apply Z.div_unique with (2 ^ usize_bits - 1); lia).
  rewrite Hd in *. lia.
Qed.

(** The acceptance of a proposal. *)
Definition acceptance (pc : ProposedChannel) (share : NonceShare) (addr : Address) : LedgerChannelProposalAcc :=
  mkLedgerChannelProposalAcc (prop_proposal_id (pc_proposal pc)) share addr.

Lemma pc_accept_ok pc share addr (b : B) :
  pc_part_idx pc = 1 -> 2 <= zlen (prop_peers (pc_proposal pc)) ->
  pc_accept share addr (pc, b) =
    ((pc_set_responses pc (mk_array [Some (acceptance pc share addr)] eq_refl),
      sends b (broadcast_messages 1 (prop_peers (pc_proposal pc))
        (ProposalAccepted (acceptance pc share addr)))), Ok tt).
Proof.
  intros Hi Hp. unfold pc_accept. mrun. rewrite Hi, usize_sub_1_1. mrun. rewrite array_1_set. mrun.
  erewrite M_bind_ok by reflexivity. unfold on_snd. cbn [fst snd]. by rewrite broadcast_ok by lia.
Qed.

Lemma pc_accept_proposer pc share addr (b : B) :
  pc_part_idx pc = 0 -> pc_accept share addr (pc, b) = ((pc, b), Panic).
Proof.
  intros Hi. unfold pc_accept. mrun. rewrite Hi.
  destruct (@usize_sub_0_1 AlreadyAcceptedError) as [->|(i & -> & Hne)]; mrun; [done|].
  rewrite array_1_set_out by done. by mrun.
Qed.

(** [participant_accepted] for the only response there is. *)
Lemma pc_participant_accepted_1 pc msg :
  pc_participant_accepted 1 msg pc =
    if decide (acc_proposal_id msg <> prop_proposal_id (pc_proposal pc)) then (pc, Err HA_InvalidProposalID)
    else match to_vec (pc_responses pc) with
         | [None] => (pc_set_responses pc (mk_array [Some msg] eq_refl), Ok tt)
         | _ => (pc, Err HA_AlreadyAccepted)
         end.
Proof.
  unfold pc_participant_accepted. mrun. case_decide; [done|]. rewrite usize_sub_1_1. mrun.
  destruct (array_1 (pc_responses pc)) as [r Hr]. rewrite Hr.
  erewrite M_bind_lift_ok by (apply array_index_Ok; split; [lia|by rewrite Hr]).
  destruct r as [r|]; mrun; [done|]. rewrite array_1_set. by mrun.
Qed.

End Opening.

(* ------------------------------------------------------------------ *)
(** ** Signing the initial state                                         *)
(* ------------------------------------------------------------------ *)

Section Signing.
Context `{Pl : Platform} `{U : UintCrate} `{UL : !UintLaws U} `{S : Sha3Crate} `{SL : !Sha3Laws S}.
Context `{I : SignerImpl} `{IL : !SignerLaws I}.
Context {B : Type} `{HB : !MessageBus B} `{PB : !PureBus B}.

Lemma find_participant_Some i a l j :
  find_participant i a l = Some j -> i <= j /\ l !! Z.to_nat (j - i) = Some a.
Proof.
  revert i. induction l as [|x l IH]; intros i H; [done|]. cbn in H. case_decide as Hx.
  - injection H as <-. subst x. split; [lia|]. by rewrite Z.sub_diag.
  - apply IH in H as [Hle Hl]. split; [lia|].
    replace (Z.to_nat (j - i)) with (Datatypes.S (Z.to_nat (j - (i + 1)))) by lia. exact Hl.
Qed.

(** The participant the code finds for an address, in a list of different
    addresses. *)
Lemma find_participant_at i a l n :
  NoDup l -> l !! n = Some a -> find_participant i a l = Some (i + Z.of_nat n).
Proof.
  revert i n. induction l as [|x l IH]; intros i n Hnd Hn; [done|].
  apply list.NoDup_cons in Hnd as [Hx Hnd]. destruct n as [|n]; cbn in Hn |- *.
  - injection Hn as ->. rewrite decide_True by done. f_equal. lia.
  - rewrite decide_False; [rewrite (IH (i + 1) n) by done; f_equal; lia|].
    intros ->. apply Hx. by eapply list_elem_of_lookup_2.
Qed.

(** What the signatures of an agreed-upon channel are: verified ones. *)
Definition au_signed (au : AgreedUponChannel) : Prop :=
  forall i sig, to_vec (au_signatures au) !! i = Some (Some sig) ->
    exists addr, to_vec (participants (au_params au)) !! i = Some addr /\
      signed_by (au_signer au) (au_init_state au) addr sig.

(** [add_signature] only adds a signature that verifies for the participant it
    is stored for. *)
Lemma add_signature_sound au au' msg r :
  au_signed au -> add_signature msg au = (au', r) ->
  (au' = au /\ r <> Ok tt) \/
  (r = Ok tt /\ au_signed au' /\ exists sigs i, au' = au_set_signatures au sigs /\
     to_vec (au_signatures au) !! i = Some None /\
     to_vec sigs = <[i := Some (upacc_sig msg)]> (to_vec (au_signatures au))).
Proof.
  intros Hs Ha. unfold add_signature in Ha. mrun_in Ha.
  case_decide; [mrun_in Ha; left; by simplify_eq|].
  case_decide; [mrun_in Ha; left; by simplify_eq|].
  rewrite to_hash_state in Ha. mrun_in Ha.
  destruct (recover_signer _ _ _) as [signer|e|] eqn:Hr; mrun_in Ha; [|left; by simplify_eq..].
  destruct (find_participant _ _ _) as [i|] eqn:Hf; cbn [ok_or] in Ha; mrun_in Ha; [|left; by simplify_eq].
  destruct (array_index (au_signatures au) i) as [[s|]|e|] eqn:Hi; mrun_in Ha;
    [left; by simplify_eq| |left; by simplify_eq..].
  destruct (array_set _ _ _) as [sigs|e|] eqn:Hset; mrun_in Ha; [|left; by simplify_eq..].
  unfold mput in Ha. simplify_eq. right. split; [done|].
  apply array_set_inv in Hset as [Hlt Hvec]. apply find_participant_Some in Hf as [_ Hf].
  rewrite Z.sub_0_r in Hf. apply array_index_Ok in Hi as [_ Hi].
  split; [|by exists sigs, (Z.to_nat i)].
  intros j s. cbn [au_signatures au_set_signatures]. rewrite Hvec.
  intros [(<- & [= <-] & _)|(_ & Hj)]%list_lookup_insert_Some; [|by apply Hs].
  exists signer. by split.
Qed.

(** [add_signature] of a signature of the initial state by a participant whose
    signature is still missing. *)
Lemma add_signature_ok au msg n addr :
  upacc_channel msg = id (au_init_state au) -> u64_val (upacc_version msg) = 0 ->
  signed_by (au_signer au) (au_init_state au) addr (upacc_sig msg) ->
  NoDup (to_vec (participants (au_params au))) ->
  to_vec (participants (au_params au)) !! n = Some addr ->
  to_vec (au_signatures au) !! n = Some None ->
  exists sigs, add_signature msg au = (au_set_signatures au sigs, Ok tt) /\
    to_vec sigs = <[n := Some (upacc_sig msg)]> (to_vec (au_signatures au)).
Proof.
  intros Hc Hv Hs Hnd Hn Hsig. assert (n < 2)%nat as Hlt.
  { apply lookup_lt_Some in Hn. by rewrite array_length in Hn. }
  destruct (@array_set_Ok (AddSignatureError) _ _ (au_signatures au) (Z.of_nat n) (Some (upacc_sig msg)))
    as (sigs & Hset & Hvec); [lia|]. rewrite Nat2Z.id in Hvec.
  exists sigs. split; [|done]. unfold add_signature. mrun.
  rewrite decide_False by (by intros []). rewrite decide_False by (by intros []).
  rewrite to_hash_state. mrun. unfold signed_by in Hs. rewrite Hs. mrun.
  rewrite (find_participant_at 0 addr _ n) by done. cbn [ok_or]. mrun. rewrite Z.add_0_l.
  erewrite M_bind_lift_ok by (apply array_index_Ok; split; [lia|by rewrite Nat2Z.id]).
  mrun. rewrite Hset. by mrun.
Qed.

(** Our end of an agreed-upon channel. *)
Record au_owned (au : AgreedUponChannel) : Prop := {
  auo_part : 0 <= au_part_idx au < 2;
  auo_peers : 2 <= zlen (au_peers au);
  auo_signer : valid_signer (au_signer au);
  auo_addr : to_vec (participants (au_params au)) !! Z.to_nat (au_part_idx au) = Some (address (au_signer au));
}.

(** [sign]: our signature of the initial state is stored and broadcast. *)
Lemma sign_ok au (b : B) :
  au_owned au -> to_vec (au_signatures au) !! Z.to_nat (au_part_idx au) = Some None ->
  exists sig sigs,
    sign (au, b) =
      ((au_set_signatures au sigs,
        sends b (broadcast_messages (au_part_idx au) (au_peers au) (ChannelUpdateAccepted
          (mkLedgerChannelUpdateAccepted (id (au_init_state au)) (version (au_init_state au)) sig)))), Ok tt) /\
    to_vec sigs = <[Z.to_nat (au_part_idx au) := Some sig]> (to_vec (au_signatures au)) /\
    forall s', signed_by s' (au_init_state au) (address (au_signer au)) sig.
Proof.
  intros [Hp Hl Hv _] Hn.
  destruct (sign_recover SignError (au_signer au) (au_signer au) (state_digest (au_init_state au)) Hv)
    as (sig & Hs & _).
  destruct (@array_set_Ok SignError _ _ (au_signatures au) (au_part_idx au) (Some sig)) as (sigs & Hset & Hvec); [lia|].
  exists sig, sigs. split; [|split; [done|]].
  - unfold sign. mrun. erewrite M_bind_lift_ok by (apply array_index_Ok; split; [lia|exact Hn]).
    mrun. rewrite to_hash_state. mrun. rewrite Hs. mrun. rewrite Hset. mrun.
    erewrite M_bind_ok by reflexivity. unfold on_snd. cbn [fst snd]. by rewrite broadcast_ok by lia.
  - intros s'. destruct (sign_recover SignError (au_signer au) s' (state_digest (au_init_state au)) Hv)
      as (sig' & Hs' & Hr'). rewrite Hs in Hs'. injection Hs' as <-. exact Hr'.
Qed.

(** What [propose_channel] returns. *)
Lemma propose_channel_inv cl prop receiver (b b' : B) pc :
  propose_channel cl prop receiver b = (b', Ok pc) ->
  zlen (prop_peers prop) = 2 /\ pc = ProposedChannel_new (cl_signer cl) 0 receiver prop.
Proof.
  unfold propose_channel. intros H. destruct (check_valid_proposal prop) as [[]|e|] eqn:Hc; mrun_in H; [|done|done].
  apply check_valid_proposal_Ok in Hc as [_ Hp]. split; [done|].
  erewrite M_bind_ok in H by (apply broadcast_ok; lia). by injection H as _ <-.
Qed.

(** The signature of a channel that was just built. *)
Lemma sign_fresh au (b : B) :
  au_owned au -> to_vec (au_signatures au) = no_signatures ->
  exists au' b', sign (au, b) = ((au', b'), Ok tt) /\ au_owned au' /\ au_signed au' /\
    exists sigs, au' = au_set_signatures au sigs.
Proof.
  intros Hau Hn. destruct (sign_ok au b Hau) as (sig & sigs & Hs & Hvec & Hr).
  { rewrite Hn. destruct (auo_part _ Hau) as [Hlo Hhi].
    destruct (decide (au_part_idx au = 0)) as [->|]; [done|]. by replace (au_part_idx au) with 1 by lia. }
  eexists _, _. split; [exact Hs|]. split; [by destruct Hau|]. split; [|by exists sigs].
  intros j s. cbn [au_signatures au_set_signatures]. rewrite Hvec, Hn.
  intros [(<- & [= <-] & _)|(_ & Hj)]%list_lookup_insert_Some.
  - exists (address (au_signer au)). split; [apply Hau|apply Hr].
  - destruct j as [|[|j]]; cbn in Hj; simplify_eq.
Qed.

(** The collected signatures, or the index of the first missing one. *)
Lemma build_signatures_Ok i l sigs : build_signatures i l = Ok sigs <-> l = Some <$> sigs.
Proof.
  revert i sigs. induction l as [|[s|] l IH]; intros i sigs; cbn.
  - split; [by intros [= <-]|]. by destruct sigs.
  - specialize (IH (i + 1)). destruct (build_signatures (i + 1) l) as [k|e|]; cbn.
    + assert (l = Some <$> k) as -> by by apply IH.
      split; [by intros [= <-]|]. destruct sigs as [|s' sigs]; [done|].
      intros [= -> Hf]. do 2 f_equal. by eapply list_fmap_eq_inj in Hf; [|apply _].
    + split; [done|]. destruct sigs as [|s' sigs]; [done|]. intros [= _ Hf]. by apply IH in Hf.
    + split; [done|]. destruct sigs as [|s' sigs]; [done|]. intros [= _ Hf]. by apply IH in Hf.
  - split; [done|]. by destruct sigs.
Qed.

(** The active channel a complete agreed-upon channel becomes. *)
Definition opened (au : AgreedUponChannel) (sigs : array Signature PARTICIPANTS) : ActiveChannel :=
  mkActiveChannel (au_part_idx au) (au_withdraw_receiver au) (au_signer au) (au_init_state au)
    (au_params au) sigs (au_peers au).

Lemma opened_signed au sigs :
  au_signed au -> to_vec (au_signatures au) = Some <$> to_vec sigs -> fully_signed (opened au sigs).
Proof. intros Hs Hsig i sig Hi. apply Hs. rewrite Hsig, list_lookup_fmap. cbn in Hi. by rewrite Hi. Qed.

(** The requests a complete agreed-upon channel sends. *)
Definition opening_requests (au : AgreedUponChannel) (sigs : array Signature PARTICIPANTS) : list Sent :=
  [ToWatcher (WatchRequest (mkStartWatchingLedgerChannelReq (au_params au) (au_init_state au) sigs));
   ToFunder (FundReq (mkLedgerChannelFundingRequest (au_part_idx au) (au_funding_agreement au)
     (au_params au) (au_init_state au)))].

Lemma au_build_ok au (b : B) sigs :
  0 <= au_part_idx au < 2 -> to_vec (au_signatures au) = Some <$> to_vec sigs ->
  au_build au b = (sends b (opening_requests au sigs), Ok (mkSignedChannel (opened au sigs))).
Proof.
  intros Hp Hs%(build_signatures_Ok 0). unfold au_build. rewrite Hs. mrun.
  rewrite array_try_from_to_vec. cbn [unwrap]. mrun.
  erewrite M_bind_ok by apply watcher_ok. erewrite M_bind_ok by apply funder_ok.
  unfold mlift, SignedChannel_new, ActiveChannel_new.
  rewrite debug_assert_true; [done|]. apply bool_decide_eq_true_2. rewrite zlen_to_vec.
  unfold PARTICIPANTS. lia.
Qed.

(** Whatever [build] does, it opens a channel only with all signatures, and
    sends nothing otherwise. *)
Lemma au_build_sound au (b b' : B) sc :
  0 <= au_part_idx au < 2 -> au_build au b = (b', Ok sc) ->
  exists sigs, to_vec (au_signatures au) = Some <$> to_vec sigs /\
    sc = mkSignedChannel (opened au sigs) /\ b' = sends b (opening_requests au sigs).
Proof.
  intros Hp Hb. pose proof Hb as Hb0. unfold au_build in Hb.
  destruct (build_signatures 0 _) as [l|e|] eqn:Hl; mrun_in Hb; [|done|done].
  destruct (array_try_from l) as [sigs|] eqn:Ha; cbn [unwrap] in Hb; mrun_in Hb; [|done].
  apply array_try_from_Some in Ha as <-. apply build_signatures_Ok in Hl.
  exists sigs. rewrite (au_build_ok au b sigs Hp Hl) in Hb0. by simplify_eq.
Qed.

End Signing.

(* ------------------------------------------------------------------ *)
(** ** Two participants open a channel                                   *)
(* ------------------------------------------------------------------ *)

Section TwoParties.
Context `{Pl : Platform} `{U : UintCrate} `{UL : !UintLaws U} `{S : Sha3Crate} `{SL : !Sha3Laws S}.
Context `{I : SignerImpl} `{IL : !SignerLaws I}.
Context {B : Type} `{HB : !MessageBus B} `{PB : !PureBus B}.

(** The agreed-upon channel of one end of an opening. *)
Definition agreed (prop : LedgerChannelProposal) (params : Params PARTICIPANTS) (signer : Signer)
    (part_idx : PartIdx) (receiver : Address) : AgreedUponChannel :=
  AgreedUponChannel_new signer (prop_funding_agreement prop) part_idx receiver
    (initial_state prop params) params (prop_peers prop).

(** Both ends sign, exchange the signatures and build. *)
Lemma exchange_signatures (auA auB : AgreedUponChannel) (bA bB : B) :
  au_owned auA -> au_owned auB ->
  au_part_idx auA = 0 -> au_part_idx auB = 1 ->
  au_params auA = au_params auB -> au_init_state auA = au_init_state auB ->
  u64_val (version (au_init_state auA)) = 0 ->
  to_vec (participants (au_params auA)) = [address (au_signer auA); address (au_signer auB)] ->
  address (au_signer auA) <> address (au_signer auB) ->
  to_vec (au_signatures auA) = [None; None] -> to_vec (au_signatures auB) = [None; None] ->
  exists sigA sigB auA' auB' bA' bB',
    let msg sig := mkLedgerChannelUpdateAccepted (id (au_init_state auA)) (version (au_init_state auA)) sig in
    let sent_to au sig := broadcast_messages (au_part_idx au) (au_peers au) (ChannelUpdateAccepted (msg sig)) in
    let sigs := mk_array [sigA; sigB] eq_refl in
    sign (auA, bA) = ((auA', sends bA (sent_to auA sigA)), Ok tt) /\
    sign (auB, bB) = ((auB', sends bB (sent_to auB sigB)), Ok tt) /\
    exists auA'' auB'',
      add_signature (msg sigB) auA' = (auA'', Ok tt) /\ add_signature (msg sigA) auB' = (auB'', Ok tt) /\
      au_build auA'' (sends bA (sent_to auA sigA)) = (bA', Ok (mkSignedChannel (opened auA sigs))) /\
      au_build auB'' (sends bB (sent_to auB sigB)) = (bB', Ok (mkSignedChannel (opened auB sigs))) /\
      fully_signed (opened auA sigs) /\ fully_signed (opened auB sigs).
Proof.
  intros HA HB' Hia Hib Hpar Hst Hver Hparts Hne HsA HsB.
  destruct (sign_ok auA bA HA) as (sigA & sgA & HsignA & HvecA & HrA); [by rewrite HsA, Hia|].
  destruct (sign_ok auB bB HB') as (sigB & sgB & HsignB & HvecB & HrB); [by rewrite HsB, Hib|].
  rewrite Hia, HsA in HvecA. rewrite Hib, HsB in HvecB. cbn in HvecA, HvecB.
  assert (NoDup (to_vec (participants (au_params auA)))) as Hnd.
  { rewrite Hparts. apply list.NoDup_cons. split; [|apply NoDup_singleton].
    intros Heq%list_elem_of_singleton. done. }
  rewrite <- Hst in HsignB.
  destruct (add_signature_ok (au_set_signatures auA sgA)
    (mkLedgerChannelUpdateAccepted (id (au_init_state auA)) (version (au_init_state auA)) sigB)
    1 (address (au_signer auB))) as (sgA' & HaddA & HvecA'); cbn; try done.
  { rewrite Hst. apply HrB. } { by rewrite Hparts. } { by rewrite HvecA. }
  destruct (add_signature_ok (au_set_signatures auB sgB)
    (mkLedgerChannelUpdateAccepted (id (au_init_state auA)) (version (au_init_state auA)) sigA)
    0 (address (au_signer auA))) as (sgB' & HaddB & HvecB'); cbn; try done.
  { by rewrite Hst. } { rewrite <- Hst. apply HrA. } { by rewrite <- Hpar. } { by rewrite <- Hpar, Hparts. }
  { by rewrite HvecB. }
  cbn in HvecA', HvecB'. rewrite HvecA in HvecA'. rewrite HvecB in HvecB'. cbn in HvecA', HvecB'.
  exists sigA, sigB, (au_set_signatures auA sgA), (au_set_signatures auB sgB). do 2 eexists.
  split; [exact HsignA|]. split; [exact HsignB|].
  exists (au_set_signatures auA sgA'), (au_set_signatures auB sgB').
  split; [exact HaddA|]. split; [exact HaddB|].
  split; [apply (au_build_ok (au_set_signatures auA sgA') _ (mk_array [sigA; sigB] eq_refl));
    [apply HA|exact HvecA']|].
  split; [apply (au_build_ok (au_set_signatures auB sgB') _ (mk_array [sigA; sigB] eq_refl));
    [apply HB'|exact HvecB']|].
  split; intros [|[|i]] sig Hi; cbn in Hi; simplify_eq; cbn [ac_params ac_signer ac_state opened];
    eexists; rewrite <- ?Hpar, Hparts, <- ?Hst; (split; [done|]);
    first [apply HrA|rewrite Hst; apply HrB].
Qed.

End TwoParties.

(* ------------------------------------------------------------------ *)
(** ** What the applications rely on                                     *)
(* ------------------------------------------------------------------ *)

(** [propose_channel] refuses a proposal without a challenge duration or
    with another number of peers than participants, sending nothing; any other
    it broadcasts to the peers. *)
Theorem propose_channel_spec `{Pl : Platform} `{U : UintCrate} `{I : SignerImpl}
    {B : Type} `{HB : !MessageBus B} `{PB : !PureBus B}
    (cl : PerunClient) (prop : LedgerChannelProposal) (receiver : Address) (b : B) :
  propose_channel cl prop receiver b =
    if decide (u64_val (prop_challenge_duration prop) = 0) then (b, Err NoChallengeDurationSet)
    else if decide (zlen (prop_peers prop) <> 2) then (b, Err PeerParticipantCountMismatch)
    else (sends b (broadcast_messages 0 (prop_peers prop) (ChannelProposal prop)),
          Ok (ProposedChannel_new (cl_signer cl) 0 receiver prop)).
Proof.
  unfold propose_channel, check_valid_proposal. rewrite valid_assert. cbn [mbind res_bind].
  rewrite locked_assert. cbn [mbind res_bind]. case_decide; [done|].
  destruct (@vec_index_in InvalidProposal _ (to_vec (asset_bals (balances (prop_init_bals prop)))) 0)
    as (bals & _ & Hb); [by rewrite zlen_to_vec|].
  unfold array_index. rewrite Hb. cbn [mbind res_bind]. rewrite zlen_to_vec.
  change (Z.of_nat PARTICIPANTS) with 2. case_decide; [done|].
  mrun. by erewrite M_bind_ok by (apply broadcast_ok; lia).
Qed.

(** [handle_proposal] does not check the proposal it is given: it returns a
    channel for a proposal with fewer than two peers, which [propose_channel]
    would refuse, and accepting that channel panics without sending
    anything. *)
Theorem handle_proposal_accepts_invalid `{Pl : Platform} `{U : UintCrate} `{I : SignerImpl}
    {B : Type} `{HB : !MessageBus B} (cl : PerunClient) (prop : LedgerChannelProposal) (receiver : Address)
    (share : NonceShare) (addr : Address) (b : B) :
  zlen (prop_peers prop) < 2 ->
  check_valid_proposal prop <> Ok tt /\
  exists pc pc', handle_proposal cl prop receiver = Ok pc /\
    pc_accept share addr (pc, b) = ((pc', b), Panic).
Proof.
  intros Hp. split; [intros [_ H]%check_valid_proposal_Ok; lia|].
  do 2 eexists. split; [reflexivity|]. unfold pc_accept. mrun.
  cbn [pc_part_idx ProposedChannel_new]. rewrite usize_sub_1_1. mrun. rewrite array_1_set. mrun.
  erewrite M_bind_ok by reflexivity. unfold on_snd. cbn [fst snd]. rewrite broadcast_panics; [reflexivity|].
  cbn. lia.
Qed.

(** [accept] never returns an error: called by the proposer it panics, and
    called again by the other participant it replaces the acceptance that was
    sent before and broadcasts the new one. *)
Theorem accept_never_refuses `{Pl : Platform} `{U : UintCrate} `{I : SignerImpl}
    {B : Type} `{HB : !MessageBus B} `{PB : !PureBus B}
    (pc : ProposedChannel) (share : NonceShare) (addr : Address) (b : B) :
  2 <= zlen (prop_peers (pc_proposal pc)) ->
  (pc_part_idx pc = 0 -> pc_accept share addr (pc, b) = ((pc, b), Panic)) /\
  (pc_part_idx pc = 1 ->
   pc_accept share addr (pc, b) =
     ((pc_set_responses pc (mk_array [Some (acceptance pc share addr)] eq_refl),
       sends b (broadcast_messages 1 (prop_peers (pc_proposal pc))
         (ProposalAccepted (acceptance pc share addr)))), Ok tt)).
Proof.
  intros Hp. split; intros Hi; [by apply pc_accept_proposer|by apply pc_accept_ok].
Qed.

(** [build] gives the channel back when the acceptance is missing; otherwise
    the nonce of the parameters is the SHA3-256 digest of the two nonce shares,
    the participants are the proposer and the one that accepted, and the
    initial state is that of the parameters with the proposed balances and
    version 0. *)
Theorem proposal_build_spec `{Pl : Platform} `{U : UintCrate} `{UL : !UintLaws U} `{S : Sha3Crate}
    `{SL : !Sha3Laws S} `{I : SignerImpl} (pc : ProposedChannel) :
  match to_vec (pc_responses pc) with
  | [Some acc] =>
      exists au, pc_build pc = Ok au /\
        u256_val (nonce (au_params au)) =
          be_val (to_vec (digest (Digest:=Sha3_256)
            (to_vec (prop_nonce_share (pc_proposal pc)) ++ to_vec (acc_nonce_share acc)))) /\
        to_vec (participants (au_params au)) = [prop_participant (pc_proposal pc); acc_participant acc] /\
        channel_id (au_params au) = Ok (id (au_init_state au)) /\
        outcome (au_init_state au) = prop_init_bals (pc_proposal pc) /\
        u64_val (version (au_init_state au)) = 0 /\ is_final (au_init_state au) = false /\
        to_vec (au_signatures au) = [None; None]
  | _ => pc_build pc = Err (pc, PB_MissingAccResponse 1)
  end.
Proof.
  destruct (array_1 (pc_responses pc)) as [[acc|] Hr]; rewrite Hr; [|by apply pc_build_missing].
  destruct (pc_build_accepted pc acc Hr) as (n & Hn & Hb). cbn zeta in Hb.
  eexists. split; [exact Hb|]. split_and!; try done. apply (params_hash PARTICIPANTS).
Qed.

(** Every signature an agreed-upon channel holds verifies for the participant
    it is stored for, and [add_signature] keeps it so: it adds one verified
    signature where there was none, or leaves the channel as it is. *)
Theorem add_signature_only_verified `{Pl : Platform} `{U : UintCrate} `{UL : !UintLaws U}
    `{S : Sha3Crate} `{SL : !Sha3Laws S} `{I : SignerImpl}
    (au au' : AgreedUponChannel) (msg : LedgerChannelUpdateAccepted) (r : res AddSignatureError unit) :
  au_signed au -> add_signature msg au = (au', r) ->
  au_signed au' /\
  match r with
  | Ok _ => exists sigs i, au' = au_set_signatures au sigs /\
      to_vec (au_signatures au) !! i = Some None /\
      to_vec sigs = <[i := Some (upacc_sig msg)]> (to_vec (au_signatures au))
  | _ => au' = au
  end.
Proof.
  intros Hs Ha. destruct (add_signature_sound au au' msg r Hs Ha) as [[-> Hr]|(-> & Hs' & Hex)]; [|done].
  split; [done|]. by destruct r as [[]| |].
Qed.

(** C17: a channel is opened only with the signatures of both participants: when
    [build] of an agreed-upon channel with verified signatures succeeds, every
    signature of the active channel verifies for its participant on the initial
    state, and the watcher and the funder have been asked to watch and to fund
    that state. *)
Theorem opened_channel_fully_signed `{Pl : Platform} `{U : UintCrate} `{UL : !UintLaws U}
    `{S : Sha3Crate} `{SL : !Sha3Laws S} `{I : SignerImpl}
    {B : Type} `{HB : !MessageBus B} `{LB : !LawfulBus B}
    (au : AgreedUponChannel) (b b' : B) (sc : SignedChannel) :
  0 <= au_part_idx au < 2 -> au_signed au -> au_build au b = (b', Ok sc) ->
  fully_signed (mark_funded sc) /\ ac_state (mark_funded sc) = au_init_state au /\
  ac_params (mark_funded sc) = au_params au /\
  delivers b (opening_requests au (ac_signatures (mark_funded sc))) b'.
Proof.
  intros Hp Hs Hb. destruct (sends_as_out _ _ _ _ _ (sends_as_au_build au) Hb) as (l & Hl & Hd); [done|].
  destruct (au_build_sound au _ _ sc Hp Hl) as (sigs & Hsig & -> & ->). rewrite sends_log in Hd.
  split; [by apply opened_signed|done].
Qed.

