(* ===== verification/Button.v ===== *)
(** * The demo's buttons

    Model of src/cortex-m-demo/src/button.rs: a button whose level is sampled
    by the main loop, with bounces removed and edges detected.  The pin is an
    input of each sample. *)
From S2P Require Import Prelude.

Module Button.
Section Button.
Context `{P : Platform}.

Inductive State : Type := High | Low.
#[export] Instance State_eq_dec : EqDecision State.
Proof. solve_decision. Defined.

Record DebouncedButton : Type := mkDebouncedButton {
  debounce_threshhold : u64;
  last_time : u64;
  last_state : State;
}.

(** [get_state]: [pin.is_high()]. *)
Definition get_state (is_high : bool) : State := if is_high then High else Low.

Definition new (is_high : bool) (debounce_threshhold : u64) : DebouncedButton :=
  mkDebouncedButton debounce_threshhold (u64_wrap 0) (get_state is_high).

(** A sample at [time] with the pin at [is_high]. *)
Definition debounced_state {E} (is_high : bool) (time : u64) : M DebouncedButton E State :=
  self ← mget;
  let state := get_state is_high in
  if decide (state <> last_state self) then
    deadline ← mlift (u64_add (last_time self) (debounce_threshhold self));
    let last_state := if decide (u64_val deadline < u64_val time) then state else last_state self in
    mput (mkDebouncedButton (debounce_threshhold self) time last_state);;
    mret last_state
  else mret (last_state self).

Definition is_rising_edge {E} (is_high : bool) (time : u64) : M DebouncedButton E bool :=
  self ← mget;
  new_state ← debounced_state is_high time;
  mret (bool_decide (last_state self = Low) && bool_decide (new_state = High)).

Definition is_falling_edge {E} (is_high : bool) (time : u64) : M DebouncedButton E bool :=
  self ← mget;
  new_state ← debounced_state is_high time;
  mret (bool_decide (last_state self = High) && bool_decide (new_state = Low)).

(* ------------------------------------------------------------------ *)
(** ** One sample                                                        *)
(* ------------------------------------------------------------------ *)

(** The button after a sample, where the addition of the threshold does not
    overflow. *)
Definition sampled (self : DebouncedButton) (is_high : bool) (time : u64) : DebouncedButton :=
  if decide (get_state is_high = last_state self) then self
  else mkDebouncedButton (debounce_threshhold self) time
         (if decide (u64_val (last_time self) + u64_val (debounce_threshhold self) < u64_val time)
          then get_state is_high else last_state self).

Definition no_overflow (self : DebouncedButton) : Prop :=
  u64_val (last_time self) + u64_val (debounce_threshhold self) < 2 ^ 64.

Lemma debounced_state_sampled {E} self is_high time :
  no_overflow self ->
  @debounced_state E is_high time self = (sampled self is_high time, Ok (last_state (sampled self is_high time))).
Proof.
  intros Ho. unfold debounced_state, sampled. mrun.
  destruct (decide (get_state is_high = last_state self)) as [Heq|Hne].
  - by rewrite decide_False by (by intros []).
  - rewrite decide_True by done. destruct (@u64_add_fits _ E _ _ Ho) as (z & Hz & Hv). rewrite Hz. mrun.
    rewrite Hv. by erewrite M_bind_ok by reflexivity.
Qed.

(** Samples in their order: the level of the pin and the time. *)
Abbreviation sample := (bool * u64)%type.

(** The loop that asks for an edge at every sample. *)
Fixpoint poll_edges {E} (edge : bool -> u64 -> M DebouncedButton E bool) (l : list sample)
    : M DebouncedButton E (list bool) :=
  match l with
  | [] => mret []
  | (h, t) :: l =>
      e ← edge h t;
      es ← poll_edges edge l;
      mret (e :: es)
  end.

Definition samples (self : DebouncedButton) (l : list sample) : DebouncedButton :=
  foldl (fun b s => sampled b s.1 s.2) self l.

(** The times of the samples do not decrease and leave room for the
    threshold. *)
Inductive clock (threshold : Z) : Z -> list sample -> Prop :=
  | clock_nil from : clock threshold from []
  | clock_cons from h t l :
      from <= u64_val t -> u64_val t + threshold < 2 ^ 64 -> clock threshold (u64_val t) l ->
      clock threshold from ((h, t) :: l).

Lemma sampled_threshold self h t : debounce_threshhold (sampled self h t) = debounce_threshhold self.
Proof. unfold sampled. by case_decide. Qed.

Lemma sampled_time self h t :
  u64_val (last_time self) <= u64_val t ->
  u64_val (last_time self) <= u64_val (last_time (sampled self h t)) <= u64_val t.
Proof. unfold sampled. case_decide; cbn; lia. Qed.

(** The time of the last sample at another level never goes back. *)
Lemma samples_time threshold from self l :
  clock threshold from l -> u64_val (last_time self) <= from ->
  u64_val (last_time self) <= u64_val (last_time (samples self l)) /\
  debounce_threshhold (samples self l) = debounce_threshhold self.
Proof.
  intros Hc. revert self. induction Hc as [from|from h t l Hft Ht Hc IH]; intros self Hle; [done|].
  destruct (sampled_time self h t) as [H1 H2]; [lia|]. destruct (IH (sampled self h t) H2) as [H3 H4].
  rewrite sampled_threshold in H4. split; [|done]. change (samples self ((h, t) :: l)) with (samples (sampled
    self h t) l). lia.
Qed.

Lemma clock_app threshold from l k : clock threshold from (l ++ k) -> clock threshold from l.
Proof.
  revert from. induction l as [|[h t] l IH]; intros from Hc; [constructor|].
  inversion Hc; subst. constructor; auto.
Qed.

(** A level other than the debounced one, sampled again within the threshold
    each time. *)
Fixpoint unsettled (threshold : Z) (level : State) (from : Z) (l : list sample) : Prop :=
  match l with
  | [] => True
  | (h, t) :: l =>
      get_state h = level /\ from <= u64_val t <= from + threshold /\ u64_val t + threshold < 2 ^ 64 /\
      unsettled threshold level (u64_val t) l
  end.

(** Asking for either edge is sampling. *)
Lemma edge_no_change {E} (rising : bool) self h t :
  no_overflow self -> last_state (sampled self h t) = last_state self ->
  (if rising then @is_rising_edge E h t else @is_falling_edge E h t) self = (sampled self h t, Ok false).
Proof.
  intros Ho Hs. destruct rising; unfold is_rising_edge, is_falling_edge; mrun;
    erewrite M_bind_ok by (by apply debounced_state_sampled); rewrite Hs; by destruct (last_state self).
Qed.

(* ------------------------------------------------------------------ *)
(** ** What the main loop sees                                           *)
(* ------------------------------------------------------------------ *)

(** A rising edge is reported exactly when the debounced level was low, the
    pin is high and more than the threshold has passed since the level of the
    pin last differed from the debounced one; a falling edge likewise. *)
Theorem button_edge_spec {E} (self : DebouncedButton) (h : bool) (t : u64) :
  no_overflow self ->
  @is_rising_edge E h t self =
    (sampled self h t,
     Ok (bool_decide (last_state self = Low /\ h = true /\
       u64_val (last_time self) + u64_val (debounce_threshhold self) < u64_val t))) /\
  @is_falling_edge E h t self =
    (sampled self h t,
     Ok (bool_decide (last_state self = High /\ h = false /\
       u64_val (last_time self) + u64_val (debounce_threshhold self) < u64_val t))).
Proof.
  intros Ho. unfold is_rising_edge, is_falling_edge. mrun.
  erewrite !M_bind_ok by (by apply debounced_state_sampled).
  assert (last_state (sampled self h t) =
    if decide (u64_val (last_time self) + u64_val (debounce_threshhold self) < u64_val t)
    then get_state h else last_state self) as ->.
  { unfold sampled. case_decide as Heq; [|done]. rewrite Heq. by case_decide. }
  unfold mret, M_ret. split; do 2 f_equal; destruct (last_state self), h; cbn [get_state];
    repeat case_decide; repeat case_bool_decide; naive_solver.
Qed.

(** The debounced level never changes twice within the threshold: after a
    change at [t1], whatever is sampled, the next change is more than the
    threshold later. *)
Theorem button_changes_apart (self : DebouncedButton) (h1 h2 : bool) (t1 t2 : u64) (l : list sample) :
  clock (u64_val (debounce_threshhold self)) (u64_val (last_time self)) ((h1, t1) :: l ++ [(h2, t2)]) ->
  last_state (sampled self h1 t1) <> last_state self ->
  last_state (samples (sampled self h1 t1) (l ++ [(h2, t2)])) <> last_state (samples (sampled self h1 t1) l) ->
  u64_val t1 + u64_val (debounce_threshhold self) < u64_val t2.
Proof.
  intros Hc H1 H2. inversion Hc as [|from h t k Hft Ht Hc']; subst.
  set (self1 := sampled self h1 t1) in *.
  assert (u64_val (last_time self1) = u64_val t1) as Ht1.
  { unfold self1, sampled in *. case_decide; [done|]. done. }
  assert (debounce_threshhold self1 = debounce_threshhold self) as Hth by apply sampled_threshold.
  apply clock_app in Hc'. destruct (samples_time _ _ self1 l Hc') as [H3 H4]; [lia|].
  set (self2 := samples self1 l) in *. unfold samples in H2. rewrite foldl_app in H2. cbn [foldl fst snd] in H2.
  change (foldl _ self1 l) with self2 in H2. unfold sampled in H2.
  case_decide; [done|]. cbn [last_state] in H2. case_decide as Hlt; [|done].
  rewrite H4, Hth in Hlt. lia.
Qed.

(** A change of the level is missed when it comes too soon after the last
    one: as long as the pin is sampled at least once per threshold, no edge is
    reported and the debounced level stays the old one, however long the pin
    keeps the new level. *)
Theorem button_change_missed {E} (rising : bool) (self : DebouncedButton) (level : State) (l : list sample) :
  level <> last_state self -> no_overflow self ->
  unsettled (u64_val (debounce_threshhold self)) level (u64_val (last_time self)) l ->
  poll_edges (if rising then @is_rising_edge E else @is_falling_edge E) l self =
    (samples self l, Ok (replicate (length l) false)) /\
  last_state (samples self l) = last_state self.
Proof.
  revert self. induction l as [|[h t] l IH]; intros self Hl Ho Hu; [done|].
  destruct Hu as (Hh & Ht & Hlt & Hu).
  assert (last_state (sampled self h t) = last_state self) as Hs.
  { unfold sampled. case_decide; [done|]. cbn [last_state]. by rewrite decide_False by lia. }
  assert (last_time (sampled self h t) = t) as Hlast.
  { unfold sampled. rewrite decide_False by congruence. done. }
  destruct (IH (sampled self h t)) as [Hp Hls].
  { by rewrite Hs. } { unfold no_overflow. by rewrite Hlast, sampled_threshold. }
  { by rewrite Hlast, sampled_threshold. }
  change (samples self ((h, t) :: l)) with (samples (sampled self h t) l). split; [|congruence].
  cbn [poll_edges]. erewrite M_bind_ok; [|destruct rising; by apply (edge_no_change (E:=E) true) || by apply
    (edge_no_change (E:=E) false)].
  by erewrite M_bind_ok by exact Hp.
Qed.

End Button.

(* ------------------------------------------------------------------ *)
(** ** A button of the demo                                              *)
(* ------------------------------------------------------------------ *)

Section Witnesses.
#[local] Instance witness_host : Platform := host.

(** Pressed at 1000, with the threshold of the demo. *)
Definition pressed : DebouncedButton := mkDebouncedButton (u64_wrap 100) (u64_wrap 1000) High.

Example button_edge_spec_witness :
  @is_falling_edge _ unit false (u64_wrap 1200) pressed = (sampled pressed false (u64_wrap 1200), Ok true).
Proof. apply (button_edge_spec (E:=unit) pressed false (u64_wrap 1200)). reflexivity. Defined.

Example button_changes_apart_witness : 1200 + 100 < 1301.
Proof.
  apply (button_changes_apart pressed false true (u64_wrap 1200) (u64_wrap 1301) [(false, u64_wrap 1250)]).
  - repeat constructor; discriminate.
  - discriminate.
  - discriminate.
Defined.

(** Released 50 milliseconds after the press and sampled every 100
    milliseconds: never reported. *)
Example button_change_missed_witness :
  (poll_edges (@is_falling_edge _ unit)
    [(false, u64_wrap 1050); (false, u64_wrap 1150); (false, u64_wrap 1250); (false, u64_wrap 1350)] pressed).2 =
  Ok [false; false; false; false].
Proof.
  destruct (button_change_missed (E:=unit) false pressed Low
    [(false, u64_wrap 1050); (false, u64_wrap 1150); (false, u64_wrap 1250); (false, u64_wrap 1350)]) as [H _].
  - discriminate.
  - reflexivity.
  - repeat split; discriminate.
  - rewrite H. reflexivity.
Defined.

End Witnesses.
End Button.
