(* ===== verification/DemoTheorems.v ===== *)
(** * The demo's channel: theorems

    The phases of the demo's channel as a state machine: its invariant, the
    order of the phases, what an error leaves behind, and the check of the
    balances that looks at the wrong participant. *)
From stdpp Require Import relations.
From S2P Require Import Prelude AbiSpec AbiSer Types Payment PaymentTheorems Sig Messages Wire.
From S2P Require Import ChannelTypes Active Proposal ActiveTheorems ChannelSystem.
From S2P Require Import OpeningTheorems DemoChannel BusRefinement.

Section Demo.
Context `{Pl : Platform} `{U : UintCrate} `{UL : !UintLaws U} `{S : Sha3Crate} `{SL : !Sha3Laws S}.
Context `{I : SignerImpl} `{IL : !SignerLaws I}.
Context {B : Type} `{HB : !MessageBus B} `{PB : !PureBus B}.

(** A proposed channel of ours. *)
Record pc_owned (pc : ProposedChannel) : Prop := {
  pco_part : pc_part_idx pc = 0;
  pco_peers : 2 <= zlen (prop_peers (pc_proposal pc));
  pco_signer : valid_signer (pc_signer pc);
  pco_addr : prop_participant (pc_proposal pc) = address (pc_signer pc);
}.

(** What holds of the channel in each phase. *)
Definition inner_ok (i : ChannelInner) : Prop :=
  match i with
  | Proposed pc => pc_owned pc
  | AgreedUpon au => au_owned au /\ au_signed au
  | Signed sc _ _ => owned (sc_channel sc) /\ fully_signed (sc_channel sc)
  | Active ch update =>
      owned ch /\ fully_signed ch /\
      match update with Some u => pending_ok ch u | None => True end
  | Closing ch => owned ch /\ fully_signed ch /\ is_final (ac_state ch) = true
  | TemporaryInvalidState => False
  | ForceClosing | Closed => True
  end.

(** The order of the phases. *)
Definition phase (i : ChannelInner) : Z :=
  match i with
  | Proposed _ => 0
  | AgreedUpon _ => 1
  | Signed _ _ _ => 2
  | Active _ _ => 3
  | Closing _ | ForceClosing => 4
  | Closed => 5
  | TemporaryInvalidState => -1
  end.

(** The outcome of a transition function: on success the new channel is well
    formed and not of an earlier phase; an error gives back a well-formed
    channel of the same phase, and nothing has been sent. *)
Definition transition_ok (i : ChannelInner) (b : B)
    (out : B * res (ChannelInner * DemoError) ChannelInner) : Prop :=
  match out with
  | (_, Ok i') => inner_ok i' /\ phase i <= phase i'
  | (b', Err (i', _)) => inner_ok i' /\ phase i' = phase i /\ b' = b
  | (_, Panic) => True
  end.

(** ** The transitions *)

Lemma proposed_accepted_ok ch msg (b : B) :
  pc_owned ch -> transition_ok (Proposed ch) b (proposed_accepted ch msg b).
Proof.
  intros Ho. unfold proposed_accepted. rewrite pc_participant_accepted_1.
  case_decide; [by split_and!|]. destruct (array_1 (pc_responses ch)) as [r Hr]. rewrite Hr.
  destruct r as [r|]; [by split_and!|].
  destruct (pc_build_accepted (pc_set_responses ch (mk_array [Some msg] eq_refl)) msg eq_refl)
    as (n & _ & Hb). cbn zeta in Hb. rewrite Hb.
  destruct Ho as [Hp Hl Hv Ha]. cbn [pc_set_responses pc_signer pc_proposal pc_part_idx pc_withdraw_receiver].
  set (au := AgreedUponChannel_new _ _ _ _ _ _ _).
  assert (au_owned au) as Hau.
  { split; cbn; rewrite ?Hp; [lia|done|done|]. cbn. by rewrite Ha. }
  destruct (sign_fresh au b Hau eq_refl) as (au' & b' & Hs & Ho' & Hsig & _). by rewrite Hs.
Qed.

Lemma add_signature_owned au au' msg r :
  au_owned au -> add_signature msg au = (au', r) -> au_signed au ->
  au_owned au' /\ au_signed au' /\ au_part_idx au' = au_part_idx au.
Proof.
  intros Ho Ha Hs. destruct (add_signature_sound au au' msg r Hs Ha) as [[-> _]|(_ & Hs' & sigs & i & -> & _)]; [done|].
  split; [|done]. by destruct Ho.
Qed.

Lemma opened_owned au sigs : au_owned au -> owned (opened au sigs).
Proof. intros []. by split. Qed.

(** [build] of an agreed-upon channel fails without sending anything. *)
Lemma au_build_err au (b b' : B) au' e :
  au_build au b = (b', Err (au', e)) -> au' = au /\ b' = b.
Proof.
  unfold au_build. destruct (build_signatures 0 _) as [l|e'|]; mrun; intros Hb.
  - destruct (array_try_from l); cbn [unwrap] in Hb; mrun_in Hb; [|done].
    erewrite M_bind_ok in Hb by apply watcher_ok. erewrite M_bind_ok in Hb by apply funder_ok.
    unfold mlift, SignedChannel_new, ActiveChannel_new, debug_assert in Hb. by destruct (_ && _).
  - by simplify_eq.
  - done.
Qed.

Lemma agreed_signature_ok au msg (b : B) :
  au_owned au -> au_signed au -> transition_ok (AgreedUpon au) b (agreed_signature au msg b).
Proof.
  intros Ho Hs. unfold agreed_signature. destruct (add_signature msg au) as [au' r] eqn:Ha.
  destruct (add_signature_owned au au' msg r Ho Ha Hs) as (Ho' & Hs' & _).
  destruct r as [[]|e|]; [|done|done].
  destruct (au_build au' b) as [b' [sc|[au'' e]|]] eqn:Hb; [|by apply au_build_err in Hb as [-> ->]|done].
  destruct (au_build_sound au' b b' sc (auo_part _ Ho') Hb) as (sigs & Hsig & -> & _).
  split; [|done]. split; [by apply opened_owned|by apply opened_signed].
Qed.

(** The channel an applied update leaves. *)
Lemma after_update_ok ch u sigs :
  owned ch -> update_signed ch u -> to_vec (cu_signatures u) = Some <$> to_vec sigs ->
  inner_ok (after_update (set_state ch (cu_new_state u) sigs) u).
Proof.
  intros Ho Hu Hs. unfold after_update.
  assert (owned (set_state ch (cu_new_state u) sigs)) as Ho' by by destruct Ho.
  pose proof (apply_fully_signed ch u sigs Hu Hs) as Hf.
  destruct (is_final (cu_new_state u)) eqn:Hfin; by split_and!.
Qed.

Lemma after_update_phase ch u : 3 <= phase (after_update ch u).
Proof. unfold after_update. by destruct (is_final _). Qed.

(** An update with one signature is complete after the other one is added. *)
Lemma two_signatures (l : list (option Signature)) i j s t :
  l = <[Z.to_nat i := Some s]> no_signatures -> 0 <= i < 2 -> 0 <= j < 2 -> i <> j ->
  <[Z.to_nat j := Some t]> l = Some <$> to_vec (sig_pair i s t).
Proof. intros ->. apply sig_pair_first. Qed.

Lemma accept_already ch u (b : B) sig :
  owned ch -> ensure_valid_channel u ch = Ok tt ->
  to_vec (cu_signatures u) !! Z.to_nat (ac_part_idx ch) = Some (Some sig) ->
  cu_accept ch (u, b) = ((u, b), Err A_AlreadyAccepted).
Proof.
  intros Ho He Hn. unfold cu_accept. mrun. rewrite He. mrun.
  erewrite M_bind_lift_ok by (apply array_index_Ok; split; [apply Ho|exact Hn]). by mrun.
Qed.

(** What [handle_update] returns. *)
Lemma handle_update_inv ch msg u :
  handle_update ch msg = Ok u ->
  valid_transition (ac_state ch) (upd_state msg) /\ cu_channel_id u = id (ac_state ch) /\
  cu_new_state u = upd_state msg /\ update_signed ch u /\ 0 <= upd_actor_idx msg < 2 /\
  to_vec (cu_signatures u) = <[Z.to_nat (upd_actor_idx msg) := Some (upd_sig msg)]> no_signatures.
Proof.
  intros Hu. pose proof (handle_update_sound ch msg u Hu) as (Hv & Hid & Hst & Hs).
  split_and!; try done; unfold handle_update in Hu;
    destruct (check_valid_transition _ _) as [[]| |]; try done; cbn [map_err mbind res_bind] in Hu;
    rewrite to_hash_state in Hu; cbn [map_err mbind res_bind] in Hu;
    destruct (recover_signer _ _ _); try done; cbn [map_err mbind res_bind] in Hu;
    destruct (array_index _ _); try done; cbn [mbind res_bind] in Hu; case_decide; try done;
    unfold ChannelUpdate_new in Hu; destruct (array_set _ _ _) as [arr| |] eqn:Harr; try done;
    apply array_set_inv in Harr as [Hi Ha].
  - apply Hi.
  - apply Hi.
  - cbn [mbind res_bind] in Hu. injection Hu as <-. exact Ha.
Qed.

Lemma active_update_ok ch msg (b : B) :
  owned ch -> fully_signed ch -> transition_ok (Active ch None) b (active_update ch msg b).
Proof.
  intros Ho Hf. unfold active_update.
  destruct (handle_update ch msg) as [u|e|] eqn:Hu; [|by split_and!|done].
  destruct (handle_update_inv ch msg u Hu) as (Hv & Hid & Hst & Hs & Hi & Hvec).
  pose proof (valid_ensure Hv Hst Hid) as He. pose proof (own_part _ Ho) as Hp.
  destruct (decide (upd_actor_idx msg = ac_part_idx ch)) as [Heq|Hne].
  - rewrite (accept_already ch u b (upd_sig msg) Ho He); [by split_and!|].
    rewrite Hvec, Heq. apply list_lookup_insert_eq. cbn. lia.
  - destruct (cu_accept_ok ch u b Ho He) as (sig & sigs & Ha & Hvec' & Hr).
    { rewrite Hvec. by apply other_free. }
    rewrite Ha. rewrite Hvec in Hvec'. rewrite sig_pair_first in Hvec' by done.
    rewrite (cu_apply_ok ch (set_signatures u sigs) _ _ He Hvec').
    assert (update_signed ch (set_signatures u sigs)) as Hs'.
    { by destruct (cu_accept_sound ch u _ b _ _ Ho Hs Ha) as (_ & _ & H'). }
    split; [exact (after_update_ok ch (set_signatures u sigs) _ Ho Hs' Hvec')|apply after_update_phase].
Qed.

Lemma active_accepted_ok ch u msg (b : B) :
  owned ch -> fully_signed ch -> pending_ok ch u ->
  transition_ok (Active ch (Some u)) b (active_accepted ch u msg b).
Proof.
  intros Ho Hf Hu. unfold active_accepted. pose proof (own_part _ Ho) as Hp.
  pose proof usize_pow_ge. rewrite usize_sub_ok by lia.
  destruct (cu_participant_accepted ch _ msg u) as [u' r] eqn:Ha.
  destruct Hu as [Hid Hfu Hs Hv].
  destruct (cu_participant_accepted_sound ch u u' _ msg r Hs Ha) as [[-> Hr]|(-> & E1 & E2 & Hs' & _)].
  - destruct r as [[]|e|]; [done|by split_and!|done].
  - pose proof (cu_apply_spec u' ch b) as Hap. destruct (cu_apply u' (ch, b)) as [[ch' b'] [[]|e|]]; [| |done].
    + destruct Hap as (_ & sigs & Hsig & -> & ->).
      split; [by apply after_update_ok|apply after_update_phase].
    + destruct Hap as [-> ->]. split; [|done]. cbn [inner_ok]. split; [done|]. split; [done|].
      split; [by rewrite E1|by rewrite E2|done|by rewrite E2].
Qed.

(** ** The methods *)

(** One call of a method, with its result. *)
Inductive demo_call : Channel * B -> Channel * B -> res DemoError unit -> Prop :=
  | call_update amount final s s' r : demo_update amount final s = (s', r) -> demo_call s s' r
  | call_force_close s s' r : demo_force_close s = (s', r) -> demo_call s s' r
  | call_watcher msg s s' r : process_watcher_reply msg s = (s', r) -> demo_call s s' r
  | call_funder msg s s' r : process_funder_reply msg s = (s', r) -> demo_call s s' r
  | call_participant msg s s' r : process_participant_msg msg s = (s', r) -> demo_call s s' r.

(** The result of a method: as for a transition. *)
Definition call_ok (s s' : Channel * B) (r : res DemoError unit) : Prop :=
  match r with
  | Ok _ => inner_ok (inner s'.1) /\ phase (inner s.1) <= phase (inner s'.1)
  | Err _ => inner_ok (inner s'.1) /\ phase (inner s'.1) = phase (inner s.1) /\ s'.2 = s.2
  | Panic => True
  end.

Lemma progress_ok (f : ChannelInner -> M B (ChannelInner * DemoError) ChannelInner) s s' r :
  transition_ok (inner s.1) s.2 (f (inner s.1) s.2) -> progress f s = (s', r) -> call_ok s s' r.
Proof.
  destruct s as [self b]. cbn [fst snd]. unfold progress.
  destruct (f (inner self) b) as [b' [i|[i e]|]]; intros Ht [= <- <-]; exact Ht.
Qed.

Lemma force_close_ok ch (b : B) :
  force_close ch b = (sent b (ToFunder (RegisterReqMsg (mkRegisterReq (make_adjudicator_req ch)))), Ok ch).
Proof. unfold force_close. by erewrite M_bind_ok by apply funder_ok. Qed.

(** Closes a conjunction of trivial facts. *)
Local Ltac splits := first [done|by split_and!].

(** [update] of an active channel: an error leaves it as it is, a success makes a
    valid update pending. *)
Lemma demo_update_cases ch up amount final (b : B) s' r :
  owned ch -> demo_update amount final (mkChannel (Active ch up), b) = (s', r) ->
  match r with
  | Ok _ => exists st u b', ac_update ch st b = (b', Ok u) /\ s' = (mkChannel (Active ch (Some u)), b')
  | Err _ => s' = (mkChannel (Active ch up), b)
  | Panic => True
  end.
Proof.
  intros Ho Hc. unfold demo_update in Hc. mrun_in Hc. cbn [inner] in Hc. mrun_in Hc.
  destruct (@transfer_state _ _ _ DemoError ch amount final) as [[st|e|]|e|]; mrun_in Hc; try by simplify_eq.
  unfold on_snd, mmap_err, mbind, M_bind in Hc. cbn [fst snd] in Hc.
  destruct (ac_update ch st b) as [b' [u|e|]] eqn:Hu; cbn in Hc; simplify_eq; [by exists st, u, b'| |done].
  unfold ac_update in Hu. destruct (check_valid_transition ch st) as [[]|e'|] eqn:Hcv; mrun_in Hu;
    [|by simplify_eq|done].
  destruct (ac_update_ok ch st b Ho) as (sig & u & Hok' & _); [by apply check_valid_transition_Ok|].
  unfold ac_update in Hok'. rewrite Hcv in Hok'. mrun_in Hok'. by rewrite Hok' in Hu.
Qed.

Lemma demo_update_ok amount final s s' r :
  inner_ok (inner s.1) -> demo_update amount final s = (s', r) -> call_ok s s' r.
Proof.
  intros Hok Hc. destruct s as [[i] b]. cbn [fst snd inner] in *.
  destruct i as [pc|au|sc w fd|ch up| |ch| |]; try (unfold demo_update in Hc; mrun_in Hc; cbn [inner] in Hc; mrun_in
    Hc; simplify_eq; cbn; splits).
  destruct Hok as (Ho & Hf & Hup). pose proof (demo_update_cases ch up amount final b s' r Ho Hc) as H.
  destruct r as [[]|e|]; [|by subst s'|done].
  destruct H as (st & u & b' & Hu & ->). split; [|done]. split_and!; try done. by eapply update_pending.
Qed.

Lemma demo_call_pure s s' r : inner_ok (inner s.1) -> demo_call s s' r -> call_ok s s' r.
Proof.
  intros Hok Hcall. destruct Hcall as [amount final s s' r Hc|s s' r Hc|msg s s' r Hc|msg s s' r Hc|msg s s' r Hc].
  - by eapply demo_update_ok.
  - eapply progress_ok; [|exact Hc]. destruct (inner s.1) as [pc|au|sc w fd|ch up| |ch| |]; try splits.
    rewrite force_close_ok. splits.
  - eapply progress_ok; [|exact Hc].
    destruct (inner s.1) as [pc|au|sc w fd|ch up| |ch| |], msg; try splits.
    destruct fd; [|done]. destruct Hok as [Ho Hf]. splits.
  - eapply progress_ok; [|exact Hc].
    destruct (inner s.1) as [pc|au|sc w fd|ch up| |ch| |], msg; try splits.
    destruct w; [|done]. destruct Hok as [Ho Hf]. splits.
  - eapply progress_ok; [|exact Hc].
    destruct (inner s.1) as [pc|au|sc w fd|ch [u|]| |ch| |], msg; try splits;
      cbn [inner_ok] in Hok; destruct_and?; try splits.
    + by apply proposed_accepted_ok.
    + by apply agreed_signature_ok.
    + by apply active_accepted_ok.
    + by apply active_update_ok.
Qed.

(** Calls that return. *)
Definition demo_step (s s' : Channel * B) : Prop := exists r, demo_call s s' r /\ r <> Panic.

End Demo.

(* ------------------------------------------------------------------ *)
(** ** On any bus                                                        *)
(* ------------------------------------------------------------------ *)

Section AnyBus.
Context `{Pl : Platform} `{U : UintCrate} `{UL : !UintLaws U} `{S : Sha3Crate} `{SL : !Sha3Laws S}.
Context `{I : SignerImpl} `{IL : !SignerLaws I}.
Context {B : Type} `{HB : !MessageBus B} `{LB : !LawfulBus B}.

(** A call that returns does to the channel what it does on the recording bus. *)
Lemma demo_call_tracks s s' r log :
  demo_call s s' r -> r <> Panic ->
  exists l, demo_call (B:=list Sent) (s.1, log) (s'.1, log ++ l) r /\ delivers s.2 l s'.2.
Proof.
  intros Hc Hr.
  destruct Hc as [amount final s s' r Hc|s s' r Hc|msg s s' r Hc|msg s s' r Hc|msg s s' r Hc].
  - destruct (runs_out _ _ log _ _ _ (runs_demo_update amount final) Hc Hr) as (l & Hl & Hd).
    exists l. split; [by econstructor|done].
  - destruct (runs_out _ _ log _ _ _ runs_demo_force_close Hc Hr) as (l & Hl & Hd).
    exists l. split; [by apply call_force_close|done].
  - destruct (runs_out _ _ log _ _ _ (runs_watcher_reply msg) Hc Hr) as (l & Hl & Hd).
    exists l. split; [by eapply call_watcher|done].
  - destruct (runs_out _ _ log _ _ _ (runs_funder_reply msg) Hc Hr) as (l & Hl & Hd).
    exists l. split; [by eapply call_funder|done].
  - destruct (runs_out _ _ log _ _ _ (runs_participant_msg msg) Hc Hr) as (l & Hl & Hd).
    exists l. split; [by eapply call_participant|done].
Qed.

(** A call on the recording bus is one on the bus, if that takes the messages. *)
Lemma demo_call_replay x x' log log' r b :
  demo_call (B:=list Sent) (x, log) (x', log') r ->
  exists l, log' = log ++ l /\ (~ stuck b l -> exists b', demo_call (x, b) (x', b') r /\ delivers b l b').
Proof.
  intros Hc. inversion Hc as [amount final s s' r' H|s s' r' H|msg s s' r' H|msg s s' r' H|msg s s' r' H]; subst.
  - destruct (runs_replay _ _ x b log _ _ _ (runs_demo_update amount final) H) as (l & Hl & Hd).
    exists l. split; [done|]. intros Hs. destruct (Hd Hs) as (b' & Hb & ?). exists b'. by split; [econstructor|].
  - destruct (runs_replay _ _ x b log _ _ _ runs_demo_force_close H) as (l & Hl & Hd).
    exists l. split; [done|]. intros Hs. destruct (Hd Hs) as (b' & Hb & ?). exists b'. by split; [apply
      call_force_close|].
  - destruct (runs_replay _ _ x b log _ _ _ (runs_watcher_reply msg) H) as (l & Hl & Hd).
    exists l. split; [done|]. intros Hs. destruct (Hd Hs) as (b' & Hb & ?). exists b'. by split; [eapply call_watcher|].
  - destruct (runs_replay _ _ x b log _ _ _ (runs_funder_reply msg) H) as (l & Hl & Hd).
    exists l. split; [done|]. intros Hs. destruct (Hd Hs) as (b' & Hb & ?). exists b'. by split; [eapply call_funder|].
  - destruct (runs_replay _ _ x b log _ _ _ (runs_participant_msg msg) H) as (l & Hl & Hd).
    exists l. split; [done|]. intros Hs. destruct (Hd Hs) as (b' & Hb & ?). exists b'.
    by split; [eapply call_participant|].
Qed.

Lemma demo_run_replay (t t' : Channel * list Sent) (b : B) :
  rtc (demo_step (B:=list Sent)) t t' ->
  exists l, t'.2 = t.2 ++ l /\ (~ stuck b l -> exists b', rtc demo_step (t.1, b) (t'.1, b') /\ delivers b l b').
Proof.
  intros Hr. revert b. induction Hr as [t|[x log] [y log1] [z log2] (r & Hc & Hp) _ IH]; intros b; cbn [fst snd] in *.
  - exists []. rewrite app_nil_r. split; [done|]. intros _. exists b. split; [done|constructor].
  - destruct (demo_call_replay x y log log1 r b Hc) as (l & -> & Hd). destruct (IH b) as (k & -> & _).
    exists (l ++ k). rewrite app_assoc. split; [done|]. intros Hs.
    destruct Hd as (b1 & Hb1 & Hd1); [intros H; by apply Hs, stuck_more|].
    destruct (IH b1) as (k' & <-%app_inv_head & Hk).
    destruct Hk as (b2 & Hb2 & Hd2); [intros H; by eapply Hs, stuck_later|].
    exists b2. split; [|by eapply delivers_app]. eapply rtc_l; [|exact Hb2]. by exists r.
Qed.

Lemma demo_call_ok s s' r : inner_ok (inner s.1) -> demo_call s s' r -> call_ok s s' r.
Proof.
  intros Hok Hc. destruct (decide (is_panic r)) as [Hp|Hp]; [by destruct r|].
  assert (r <> Panic) as Hr by by intros ->.
  destruct (demo_call_tracks s s' r [] Hc Hr) as (l & Hl & Hd).
  pose proof (demo_call_pure (s.1, []) _ r Hok Hl) as H. unfold call_ok in *.
  destruct r as [[]|e|]; [exact H| |done]. destruct H as (? & ? & Hlog). split; [done|]. split; [done|].
  assert (l = []) as -> by exact Hlog. by inversion Hd.
Qed.

(** What the application relies on when it opens a channel. *)
Lemma propose_channel_any cl prop receiver (b b' : B) pc :
  propose_channel cl prop receiver b = (b', Ok pc) ->
  zlen (prop_peers prop) = 2 /\ pc = ProposedChannel_new (cl_signer cl) 0 receiver prop.
Proof.
  intros H. destruct (sends_as_alt _ _ b [] (sends_as_propose_channel cl prop receiver)) as [(l & Hl & _)|[Hp _]];
    rewrite H in *; [|done]. by eapply propose_channel_inv.
Qed.

Lemma pc_accept_any pc share addr (b : B) s r :
  pc_part_idx pc = 1 -> pc_accept share addr (pc, b) = (s, r) -> r <> Panic ->
  r = Ok tt /\ 2 <= zlen (prop_peers (pc_proposal pc)) /\
  s.1 = pc_set_responses pc (mk_array [Some (acceptance pc share addr)] eq_refl).
Proof.
  intros Hi Hs Hr. destruct (runs_out _ _ [] _ _ _ (runs_pc_accept share addr) Hs Hr) as (l & Hl & _).
  cbn [fst snd] in Hl. destruct (decide (2 <= zlen (prop_peers (pc_proposal pc)))) as [Hp|Hp].
  - rewrite pc_accept_ok in Hl by done. by injection Hl as <- _ <-.
  - exfalso. unfold pc_accept in Hl. mrun_in Hl. rewrite Hi, usize_sub_1_1 in Hl. mrun_in Hl.
    rewrite array_1_set in Hl. mrun_in Hl. erewrite M_bind_ok in Hl by reflexivity.
    unfold on_snd in Hl. cbn [fst snd] in Hl. rewrite broadcast_panics in Hl by (cbn; lia). by injection Hl as _ _ <-.
Qed.

Lemma sign_any au (b : B) s r :
  au_owned au -> to_vec (au_signatures au) = no_signatures -> sign (au, b) = (s, r) -> r <> Panic ->
  r = Ok tt /\ au_owned s.1 /\ au_signed s.1.
Proof.
  intros Ho Hn Hs Hr. destruct (runs_out _ _ [] _ _ _ runs_sign Hs Hr) as (l & Hl & _). cbn [fst snd] in Hl.
  destruct (sign_fresh au ([] : list Sent) Ho Hn) as (au' & b' & Hs' & Ho' & Hsg & _).
  rewrite Hs' in Hl. by injection Hl as -> _ <-.
Qed.

Lemma demo_step_ok s s' :
  inner_ok (inner s.1) -> demo_step s s' -> inner_ok (inner s'.1) /\ phase (inner s.1) <= phase (inner s'.1).
Proof.
  intros Hok (r & Hc & Hr). pose proof (demo_call_ok s s' r Hok Hc) as H.
  destruct r as [[]|e|]; [done| |done]. destruct H as (? & -> & _). split; [done|lia].
Qed.

Lemma demo_reachable s s' :
  inner_ok (inner s.1) -> rtc demo_step s s' ->
  inner_ok (inner s'.1) /\ phase (inner s.1) <= phase (inner s'.1).
Proof.
  intros Hok Hr. induction Hr as [|x y z Hxy Hyz IH]; [by split|].
  destruct (demo_step_ok x y Hok Hxy) as [Hy Hle]. destruct (IH Hy) as [Hz Hle']. split; [done|lia].
Qed.

(** Whatever messages, replies and calls arrive, in whatever order, as long
    as none of them panics: the channel is never left in the temporary state,
    its phase never goes back, an active channel always has verified
    signatures of both participants on its current state, and a channel that
    is closing has a final state. *)
Theorem demo_channel_stays_valid (c0 : Channel) (b0 : B) (s : Channel * B) :
  inner_ok (inner c0) -> rtc demo_step (c0, b0) s ->
  inner s.1 <> TemporaryInvalidState /\ phase (inner c0) <= phase (inner s.1) /\
  (forall ch up, inner s.1 = Active ch up -> fully_signed ch) /\
  (forall ch, inner s.1 = Closing ch -> fully_signed ch /\ is_final (ac_state ch) = true).
Proof.
  intros Hok Hr. destruct (demo_reachable (c0, b0) s Hok Hr) as [H Hle]. cbn [fst] in Hle.
  destruct (inner s.1) as [pc|au|sc w f|ch up| |ch| |]; cbn [inner_ok] in H; destruct_and?; try done;
    (split; [done|split; [done|split; intros; simplify_eq; done]]).
Qed.

(** A call that returns an error leaves the channel in its phase and has
    sent nothing. *)
Theorem demo_error_keeps_phase (s s' : Channel * B) (e : DemoError) :
  inner_ok (inner s.1) -> demo_call s s' (Err e) ->
  inner_ok (inner s'.1) /\ phase (inner s'.1) = phase (inner s.1) /\ s'.2 = s.2.
Proof. intros Hok Hc. exact (demo_call_ok s s' (Err e) Hok Hc). Qed.


End AnyBus.

Section Balances.
Context `{Pl : Platform} `{U : UintCrate} `{UL : !UintLaws U} `{S : Sha3Crate} `{SL : !Sha3Laws S}.
Context `{I : SignerImpl} `{IL : !SignerLaws I}.
Context {B : Type} `{HB : !MessageBus B} `{PB : !PureBus B}.

(** ** The balances of an update *)

Lemma array_parts {A} (a : array A PARTICIPANTS) : exists x y, to_vec a = [x; y].
Proof. exact (array_2 a). Qed.

Lemma array_index_at {E A N} (a : array A N) i x :
  0 <= i -> to_vec a !! Z.to_nat i = Some x -> @array_index E A N a i = Ok x.
Proof. intros. by apply array_index_Ok. Qed.

Lemma array_asset {A} (a : array A ASSETS) : exists x, to_vec a = [x].
Proof. exact (array_1 a). Qed.

(** The balances of the only asset. *)
Definition channel_balances (st : State ASSETS PARTICIPANTS) : list (list Z) :=
  (fun b => u256_val <$> to_vec (part_bals b)) <$> to_vec (asset_bals (balances (outcome st))).

Lemma channel_balances_2 st bals :
  channel_balances st = [bals] ->
  exists pb x y, to_vec (asset_bals (balances (outcome st))) = [pb] /\ to_vec (part_bals pb) = [x; y] /\
    bals = [u256_val x; u256_val y].
Proof.
  unfold channel_balances. destruct (array_asset (asset_bals (balances (outcome st)))) as [pb Hpb].
  rewrite Hpb. destruct (array_parts (part_bals pb)) as (x & y & Hxy). cbn. rewrite Hxy. intros [= <-].
  by exists pb, x, y.
Qed.

(** The next state has the balances of the current one. *)
Lemma make_next_state_keeps {E} (st next : State ASSETS PARTICIPANTS) :
  @make_next_state _ _ E _ _ st = Ok next -> outcome next = outcome st.
Proof.
  unfold make_next_state. destruct (u64_add _ _); [|done|done]. cbn [mbind res_bind]. by intros [= <-].
Qed.

(** The balances of the two participants, from our point of view. *)
Definition bal_pair (i : PartIdx) (ours theirs : U256) : array U256 PARTICIPANTS :=
  if decide (i = 0) then mk_array [ours; theirs] eq_refl else mk_array [theirs; ours] eq_refl.

(** A state with other balances. *)
Definition with_balances (next : State ASSETS PARTICIPANTS) (bals : array U256 PARTICIPANTS) (final : bool)
    : State ASSETS PARTICIPANTS :=
  mkState (id next) (version next)
    (mkAllocation (assets (outcome next)) (mkBalances (mk_array [mkParticipantBalances bals] eq_refl))
      (locked (outcome next))) (app_data next) final.

(** [transfer_state] up to the arithmetic on the balances. *)
Lemma transfer_state_start {E} ch amount final next pb x y :
  @make_next_state _ _ E _ _ (ac_state ch) = Ok next ->
  to_vec (asset_bals (balances (outcome (ac_state ch)))) = [pb] -> to_vec (part_bals pb) = [x; y] ->
  0 <= ac_part_idx ch < 2 ->
  @transfer_state _ _ _ E ch amount final =
    if U256_lt y amount then Ok (Err NotEnoughFunds)
    else
      let theirs := if decide (ac_part_idx ch = 0) then y else x in
      let ours := if decide (ac_part_idx ch = 0) then x else y in
      @mbind (res E) _ _ _ (fun theirs' =>
        @mbind (res E) _ _ _ (fun ours' =>
          Ok (Ok (with_balances next (bal_pair (ac_part_idx ch) ours' theirs') final)))
          (U256_sub ours amount)) (U256_add theirs amount).
Proof.
  intros Hn Hpb Hxy Hi. unfold transfer_state. rewrite Hn. cbn [mbind res_bind].
  rewrite (make_next_state_keeps _ _ Hn).
  rewrite (array_index_at _ 0 pb) by (lia || by rewrite Hpb). cbn [mbind res_bind].
  rewrite (array_index_at _ 1 y) by (lia || by rewrite Hxy). cbn [mbind res_bind].
  destruct (U256_lt y amount); [done|]. pose proof usize_pow_ge. rewrite usize_sub_ok by lia.
  cbn [mbind res_bind]. cbn zeta.
  set (theirs := if decide (ac_part_idx ch = 0) then y else x).
  set (ours := if decide (ac_part_idx ch = 0) then x else y).
  rewrite (array_index_at _ (1 - ac_part_idx ch) theirs).
  2: lia.
  2: { rewrite Hxy. unfold theirs. case_decide as Hz; [by rewrite Hz|]. by replace (ac_part_idx ch) with 1 by lia. }
  cbn [mbind res_bind]. destruct (U256_add theirs amount) as [t|e|]; [|done|done]. cbn [mbind res_bind].
  destruct (@array_set_2 E _ (part_bals pb) (1 - ac_part_idx ch) t ltac:(lia)) as (a & Ha & Hav).
  rewrite Ha. cbn [mbind res_bind].
  rewrite (array_index_at _ (ac_part_idx ch) ours).
  2: lia.
  2: { rewrite Hav, list_lookup_insert_ne by lia. rewrite Hxy. unfold ours.
       case_decide as Hz; [by rewrite Hz|]. by replace (ac_part_idx ch) with 1 by lia. }
  cbn [mbind res_bind]. destruct (U256_sub ours amount) as [o|e|]; [|done|done]. cbn [mbind res_bind].
  destruct (@array_set_2 E _ a (ac_part_idx ch) o ltac:(lia)) as (a' & Ha' & Hav').
  rewrite Ha'. cbn [mbind res_bind].
  assert (a' = bal_pair (ac_part_idx ch) o t) as ->.
  { apply array_eq. rewrite Hav', Hav, Hxy. unfold bal_pair.
    case_decide as Hz; [by rewrite Hz|]. by replace (ac_part_idx ch) with 1 by lia. }
  rewrite (array_1_set (asset_bals (balances (outcome (ac_state ch))))). cbn [mbind res_bind].
  unfold with_balances. by rewrite (make_next_state_keeps _ _ Hn).
Qed.

(** The sum of the balances of the only asset. *)
Lemma asset_sums_pair (a : Allocation ASSETS PARTICIPANTS) pb x y :
  to_vec (asset_bals (balances a)) = [pb] -> to_vec (part_bals pb) = [x; y] ->
  asset_sums a = [u256_val x + u256_val y].
Proof. intros Hpb Hxy. unfold asset_sums. rewrite Hpb. cbn. rewrite Hxy. cbn. by rewrite Z.add_0_r. Qed.

Lemma asset_sums_moved next i o t final :
  asset_sums (outcome (with_balances next (bal_pair i o t) final)) = [u256_val o + u256_val t].
Proof.
  rewrite (asset_sums_pair _ (mkParticipantBalances (bal_pair i o t))
    (if decide (i = 0) then o else t) (if decide (i = 0) then t else o)).
  - f_equal. case_decide; lia.
  - done.
  - cbn. unfold bal_pair. by case_decide.
Qed.

(** What the two participants have after [amount] moves from participant [i]
    to the other one. *)
Definition moved (i : PartIdx) (b0 b1 amount : Z) : list (list Z) :=
  if decide (i = 0) then [[b0 - amount; b1 + amount]] else [[b0 + amount; b1 - amount]].

Lemma transfer_state_ok {E} ch amount final b0 b1 v :
  owned ch -> is_final (ac_state ch) = false ->
  @u64_add _ InvalidUpdate (version (ac_state ch)) (u64_wrap 1) = Ok v ->
  channel_balances (ac_state ch) = [[b0; b1]] -> b0 + b1 < 2 ^ 256 ->
  u256_val amount <= b1 -> (ac_part_idx ch = 0 -> u256_val amount <= b0) ->
  exists new, @transfer_state _ _ _ E ch amount final = Ok (Ok new) /\
    valid_transition (ac_state ch) new /\ is_final new = final /\
    channel_balances new = moved (ac_part_idx ch) b0 b1 (u256_val amount).
Proof.
  intros Ho Hf Hv Hb Hfit H1 H0. pose proof (own_part _ Ho) as Hi.
  destruct (channel_balances_2 _ _ Hb) as (pb & x & y & Hpb & Hxy & [= -> ->]).
  set (next := mkState (id (ac_state ch)) v (outcome (ac_state ch)) (app_data (ac_state ch)) (is_final (ac_state ch))).
  assert (forall E', @make_next_state _ _ E' _ _ (ac_state ch) = Ok next) as Hn.
  { intros E'. unfold make_next_state. by rewrite (u64_add_retype (E':=E') _ _ _ Hv). }
  rewrite (transfer_state_start ch amount final next pb x y) by done.
  rewrite u256_lt_spec, bool_decide_eq_false_2 by lia. cbn zeta.
  set (theirs := if decide (ac_part_idx ch = 0) then y else x).
  set (ours := if decide (ac_part_idx ch = 0) then x else y).
  assert (u256_val amount <= u256_val ours) as Hours by (unfold ours; case_decide; auto).
  assert (u256_val ours + u256_val theirs = u256_val x + u256_val y) as Hsum
    by (unfold ours, theirs; case_decide; lia).
  pose proof (u256_add_spec E theirs amount) as Ha. pose proof (u256_sub_spec E ours amount) as Hs.
  destruct (U256_add theirs amount) as [t|e|]; [|done|lia].
  destruct (U256_sub ours amount) as [o|e|]; [|done|lia]. cbn [mbind res_bind].
  eexists. split; [done|]. pose proof (asset_sums_pair (outcome (ac_state ch)) pb x y Hpb Hxy) as Hold.
  split; [|split; [done|]].
  - split; [done|done|done|done| |].
    + rewrite asset_sums_moved, Hold. f_equal. lia.
    + rewrite Hold. by constructor.
  - unfold channel_balances, moved, with_balances, bal_pair. cbn [outcome balances asset_bals].
    unfold ours, theirs in *. case_decide; cbn; rewrite Ha, Hs; done.
Qed.

(** [update] with enough funds makes the update to the next state pending. *)
Lemma demo_update_transfer ch up (b : B) amount final b0 b1 v :
  owned ch -> is_final (ac_state ch) = false ->
  @u64_add _ InvalidUpdate (version (ac_state ch)) (u64_wrap 1) = Ok v ->
  channel_balances (ac_state ch) = [[b0; b1]] -> b0 + b1 < 2 ^ 256 ->
  u256_val amount <= b1 -> (ac_part_idx ch = 0 -> u256_val amount <= b0) ->
  exists sig u, let b' := sends b (ch_broadcast ch (ChannelUpdateMsg
      (mkLedgerChannelUpdate (cu_new_state u) (ac_part_idx ch) sig))) in
    demo_update amount final (mkChannel (Active ch up), b) = ((mkChannel (Active ch (Some u)), b'), Ok tt) /\
    ac_update ch (cu_new_state u) b = (b', Ok u) /\
    valid_transition (ac_state ch) (cu_new_state u) /\ is_final (cu_new_state u) = final /\
    channel_balances (cu_new_state u) = moved (ac_part_idx ch) b0 b1 (u256_val amount).
Proof.
  intros Ho Hf Hv Hb Hfit H1 H0.
  destruct (transfer_state_ok (E:=DemoError) ch amount final b0 b1 v Ho Hf Hv Hb Hfit H1 H0)
    as (new & Ht & Hval & Hfin & Hbal).
  destruct (ac_update_ok ch new b Ho Hval) as (sig & u & Hu & _ & Hnew).
  apply ChannelUpdate_new_Ok in Hnew as (_ & _ & Hst & _).
  exists sig, u. cbn zeta. rewrite Hst. split_and!; try done.
  unfold demo_update. mrun. cbn [inner]. rewrite Ht. mrun.
  unfold on_snd, mmap_err, mbind, M_bind. cbn [fst snd]. by rewrite Hu.
Qed.

(** ** Opening *)

Definition is_ack (m : WatcherReplyMessage + FunderReplyMessage) : bool :=
  match m with inl (Ack _ _) => true | _ => false end.
Definition is_funded (m : WatcherReplyMessage + FunderReplyMessage) : bool :=
  match m with inr (Funded _) => true | _ => false end.

(** The replies of the watcher and the funder, in the order they arrive; their
    errors are ignored. *)
Definition reply (s : Channel * B) (m : WatcherReplyMessage + FunderReplyMessage) : Channel * B :=
  match m with
  | inl m => (process_watcher_reply m s).1
  | inr m => (process_funder_reply m s).1
  end.

Lemma reply_signed sc w f (b : B) m :
  reply (mkChannel (Signed sc w f), b) m =
    (mkChannel (if (w || is_ack m) && (f || is_funded m) && (is_ack m || is_funded m)
                then Active (mark_funded sc) None
                else Signed sc (w || is_ack m) (f || is_funded m)), b).
Proof. destruct w, f, m as [[]|[]]; reflexivity. Qed.

Lemma replies_signed sc (b : B) ms :
  existsb is_ack ms && existsb is_funded ms = false ->
  foldl reply (mkChannel (Signed sc false false), b) ms =
    (mkChannel (Signed sc (existsb is_ack ms) (existsb is_funded ms)), b).
Proof.
  induction ms as [|m ms IH] using rev_ind; [done|].
  rewrite !existsb_app, foldl_app. cbn [existsb foldl]. intros H.
  rewrite IH by (destruct (existsb is_ack ms), (existsb is_funded ms); done).
  rewrite reply_signed. rewrite !orb_false_r in *. by rewrite H.
Qed.

(* ------------------------------------------------------------------ *)
(** ** What the application relies on                                    *)
(* ------------------------------------------------------------------ *)

(** A channel with all signatures waits for the acknowledgement of the
    watcher and the confirmation of the funder: it becomes active with the
    reply that completes the two, whatever their order and whatever other
    replies arrive in between, and not before. *)
Theorem demo_waits_for_both (sc : SignedChannel) (b : B)
    (ms : list (WatcherReplyMessage + FunderReplyMessage)) (m : WatcherReplyMessage + FunderReplyMessage) :
  existsb is_ack ms && existsb is_funded ms = false ->
  foldl reply (mkChannel (Signed sc false false), b) ms =
    (mkChannel (Signed sc (existsb is_ack ms) (existsb is_funded ms)), b) /\
  (existsb is_ack (ms ++ [m]) && existsb is_funded (ms ++ [m]) = true ->
   foldl reply (mkChannel (Signed sc false false), b) (ms ++ [m]) =
     (mkChannel (Active (mark_funded sc) None), b)).
Proof.
  intros H. pose proof (replies_signed sc b ms H) as Hms. split; [done|].
  rewrite !existsb_app, foldl_app, Hms. cbn [existsb foldl]. rewrite !orb_false_r, reply_signed.
  intros Hb. rewrite Hb. destruct (is_ack m), (is_funded m); try done.
  rewrite !orb_false_r in Hb. congruence.
Qed.

(** [update] proposes the transfer it is asked for: with enough funds it
    broadcasts our signature of the next state, in which [amount] has moved
    from us to the other participant, and keeps it as the pending update. *)
Theorem demo_update_moves_funds (ch : ActiveChannel) (up : option ChannelUpdate) (b : B)
    (amount : U256) (final : bool) (b0 b1 : Z) (v : u64) :
  owned ch -> is_final (ac_state ch) = false ->
  @u64_add _ InvalidUpdate (version (ac_state ch)) (u64_wrap 1) = Ok v ->
  channel_balances (ac_state ch) = [[b0; b1]] -> b0 + b1 < 2 ^ 256 ->
  u256_val amount <= b1 -> (ac_part_idx ch = 0 -> u256_val amount <= b0) ->
  exists sig u,
    demo_update amount final (mkChannel (Active ch up), b) =
      ((mkChannel (Active ch (Some u)),
        sends b (ch_broadcast ch (ChannelUpdateMsg
          (mkLedgerChannelUpdate (cu_new_state u) (ac_part_idx ch) sig)))), Ok tt) /\
    check_valid_transition ch (cu_new_state u) = Ok tt /\
    is_final (cu_new_state u) = final /\
    channel_balances (cu_new_state u) = moved (ac_part_idx ch) b0 b1 (u256_val amount).
Proof.
  intros Ho Hf Hv Hb Hfit H1 H0.
  destruct (demo_update_transfer ch up b amount final b0 b1 v Ho Hf Hv Hb Hfit H1 H0)
    as (sig & u & Hu & _ & Hval & Hfin & Hbal).
  exists sig, u. split_and!; try done. by apply check_valid_transition_Ok.
Qed.


(** [force_close] of an active channel asks the funder, not the watcher, to
    register the dispute, with the current state and its signatures, and the
    channel waits for the watcher's acknowledgement; in any other phase it is
    an error that changes nothing. *)
Theorem demo_force_close_spec (i : ChannelInner) (b : B) :
  i <> TemporaryInvalidState ->
  demo_force_close (mkChannel i, b) =
    match i with
    | Active ch _ =>
        ((mkChannel ForceClosing, sent b (ToFunder (RegisterReqMsg (mkRegisterReq (make_adjudicator_req ch))))), Ok tt)
    | _ => ((mkChannel i, b), Err InvalidState)
    end.
Proof.
  intros Hi. destruct i; try done. unfold demo_force_close, progress. cbn [inner].
  by rewrite force_close_ok.
Qed.

End Balances.
