(* ===== verification/DemoPair.v ===== *)
(** * Two ends of a channel

    The demo's channel as both participants run it, connected by two queues
    that deliver the messages in the order they were sent (the TCP connections
    of the demo).  Each participant may call the methods of its channel and
    gets the replies of the watcher and the funder at any time; the channels of
    src/cortex-m-demo/src/channel.rs talk to each other.  The two ends never
    disagree on a state, as long as a participant does not replace an update
    that is pending. *)
From stdpp Require Import relations.
From S2P Require Import Prelude AbiSpec AbiSer Types Payment PaymentTheorems Sig Messages Wire.
From S2P Require Import ChannelTypes Active Proposal ActiveTheorems ChannelSystem.
From S2P Require Import OpeningTheorems DemoChannel BusRefinement DemoTheorems.

Section Pair.
Context `{Pl : Platform} `{U : UintCrate} `{UL : !UintLaws U} `{S : Sha3Crate} `{SL : !Sha3Laws S}.
Context `{I : SignerImpl} `{IL : !SignerLaws I}.

(** One end: its channel and the messages on their way to it. *)
Record side : Type := mkSide { chan : Channel; inbox : list ParticipantMessage }.
Definition two_ends : Type := side * side.
Definition swap (p : two_ends) : two_ends := (p.2, p.1).

(** The messages for the other participant among those a call has sent. *)
Definition to_peer (m : Sent) : option ParticipantMessage :=
  match m with ToParticipant _ _ m => Some m | _ => None end.
Definition for_peer (l : list Sent) : list ParticipantMessage := omap to_peer l.

(** The update of ours that is pending. *)
Definition pending (i : ChannelInner) : option ChannelUpdate :=
  match i with Active _ u => u | _ => None end.

(** A call that returns, made by the participant or by a reply of the watcher or
    the funder.  An update is proposed only when none is pending. *)
Inductive own_call : Channel * list Sent -> Channel * list Sent -> Prop :=
  | own_update amount final s s' r :
      pending (inner s.1) = None -> demo_update amount final s = (s', r) -> r <> Panic -> own_call s s'
  | own_force_close s s' r : demo_force_close s = (s', r) -> r <> Panic -> own_call s s'
  | own_watcher msg s s' r : process_watcher_reply msg s = (s', r) -> r <> Panic -> own_call s s'
  | own_funder msg s s' r : process_funder_reply msg s = (s', r) -> r <> Panic -> own_call s s'.

(** A step of the left end. *)
Inductive left_step : two_ends -> two_ends -> Prop :=
  | left_call c c' q out r :
      own_call (c, []) (c', out) ->
      left_step (mkSide c q, r) (mkSide c' q, mkSide (chan r) (inbox r ++ for_peer out))
  | left_deliver c c' m q out res r :
      process_participant_msg m (c, []) = ((c', out), res) -> res <> Panic ->
      left_step (mkSide c (m :: q), r) (mkSide c' q, mkSide (chan r) (inbox r ++ for_peer out)).

Definition pair_step (p p' : two_ends) : Prop := left_step p p' \/ left_step (swap p) (swap p').

Lemma swap_swap p : swap (swap p) = p.
Proof. by destruct p. Qed.

(** The steps of each end. *)
Section Steps.
Context (c c' d : Channel) (out : list Sent) (k ql qr : list ParticipantMessage) (Hk : for_peer out = k).

Lemma call_left : own_call (c, []) (c', out) ->
  pair_step (mkSide c ql, mkSide d qr) (mkSide c' ql, mkSide d (qr ++ k)).
Proof. intros H. left. rewrite <- Hk. exact (left_call c c' ql out (mkSide d qr) H). Qed.

Lemma call_right : own_call (c, []) (c', out) ->
  pair_step (mkSide d ql, mkSide c qr) (mkSide d (ql ++ k), mkSide c' qr).
Proof. intros H. right. rewrite <- Hk. exact (left_call c c' qr out (mkSide d ql) H). Qed.

Lemma deliver_left m res : process_participant_msg m (c, []) = ((c', out), res) -> res <> Panic ->
  pair_step (mkSide c (m :: ql), mkSide d qr) (mkSide c' ql, mkSide d (qr ++ k)).
Proof. intros H Hr. left. rewrite <- Hk. exact (left_deliver c c' m ql out res (mkSide d qr) H Hr). Qed.

Lemma deliver_right m res : process_participant_msg m (c, []) = ((c', out), res) -> res <> Panic ->
  pair_step (mkSide d ql, mkSide c (m :: qr)) (mkSide d (ql ++ k), mkSide c' qr).
Proof. intros H Hr. right. rewrite <- Hk. exact (left_deliver c c' m qr out res (mkSide d ql) H Hr). Qed.

End Steps.

Lemma pair_step_swap p p' : pair_step p p' -> pair_step (swap p) (swap p').
Proof. intros [H|H]; [right; by rewrite !swap_swap|by left]. Qed.

Lemma pair_run_swap p p' : rtc pair_step p p' -> rtc pair_step (swap p) (swap p').
Proof. induction 1; [done|]. eapply rtc_l; [by apply pair_step_swap|done]. Qed.

(* ------------------------------------------------------------------ *)
(** ** What the two ends hold                                            *)
(* ------------------------------------------------------------------ *)

(** The channel a phase holds once all have signed, and the pending update. *)
Inductive holds : ChannelInner -> ActiveChannel -> option ChannelUpdate -> Prop :=
  | holds_signed sc w f : holds (Signed sc w f) (mark_funded sc) None
  | holds_active ch up : holds (Active ch up) ch up
  | holds_closing ch : holds (Closing ch) ch None.

(** A phase that holds no state any more. *)
Definition gone (i : ChannelInner) : Prop := i = ForceClosing \/ i = Closed.

(** What an end holds, or would hold if it had not left the channel. *)
Definition held (i : ChannelInner) (a : ActiveChannel) (up : option ChannelUpdate) : Prop :=
  holds i a up \/ gone i.

(** Two ends with the same state and the same signatures. *)
Record in_sync (a b : ActiveChannel) : Prop := {
  sync_ends : channel_ends a b;
  sync_signatures : ac_signatures a = ac_signatures b;
  sync_peers_a : zlen (ac_peers a) = 2;
  sync_peers_b : zlen (ac_peers b) = 2;
}.

Lemma in_sync_sym a b : in_sync a b -> in_sync b a.
Proof. intros [[] ? ? ?]. split; [split|..]; done || congruence. Qed.

(** An update of the channel with our signature only. *)
Record proposed_by (a : ActiveChannel) (u : ChannelUpdate) (sig : Signature) : Prop := {
  prby_valid : valid_transition (ac_state a) (cu_new_state u);
  prby_id : cu_channel_id u = id (ac_state a);
  prby_vec : to_vec (cu_signatures u) = <[Z.to_nat (ac_part_idx a) := Some sig]> no_signatures;
  prby_sig : forall s', signed_by s' (cu_new_state u) (address (ac_signer a)) sig;
}.

Definition offered_msg (a : ActiveChannel) (u : ChannelUpdate) (sig : Signature) : ParticipantMessage :=
  ChannelUpdateMsg (mkLedgerChannelUpdate (cu_new_state u) (ac_part_idx a) sig).
Definition accepted_msg (st : State ASSETS PARTICIPANTS) (sig : Signature) : ParticipantMessage :=
  ChannelUpdateAccepted (mkLedgerChannelUpdateAccepted (id st) (version st) sig).

(** What is on its way to the other end because of a pending update: the
    proposal, unless it has been delivered and refused. *)
Definition offer (a : ActiveChannel) (up : option ChannelUpdate) (q : list ParticipantMessage) : Prop :=
  match up with
  | None => q = []
  | Some u => exists sig, proposed_by a u sig /\ (q = [] \/ q = [offered_msg a u sig])
  end.

(** An agreed-upon channel that the other signature turns into the channel [a]. *)
Definition awaits (au : AgreedUponChannel) (a : ActiveChannel) (sig : Signature) : Prop :=
  exists out, process_participant_msg (accepted_msg (ac_state a) sig) (mkChannel (AgreedUpon au), []) =
      ((mkChannel (Signed (mkSignedChannel a) false false), out), Ok tt) /\
    for_peer out = [].

(** A proposed channel that an acceptance turns into an agreed-upon one, whose
    signature is sent. *)
Definition answers (pc : ProposedChannel) (acc : ParticipantMessage) (au : AgreedUponChannel)
    (a : ActiveChannel) (sig : Signature) : Prop :=
  exists acc' out, acc = ProposalAccepted acc' /\
    process_participant_msg acc (mkChannel (Proposed pc), []) = ((mkChannel (AgreedUpon au), out), Ok tt) /\
    for_peer out = [accepted_msg (ac_state a) sig].

Section Invariant.
(** A property of the states that valid updates keep. *)
Context (P : State ASSETS PARTICIPANTS -> Prop).
Context (HP : forall st st', valid_transition st st' -> P st -> P st').

(** The stages two ends go through, the left one being the one that is behind.
    Opening: the left end has the acceptance and the signature of the other one
    before it, or both have each other's signature, or only the left one still
    has.  Then both have the same state, or the left one is one update behind
    and gets the acceptance next.  The states have the property. *)
Inductive ends_inv : two_ends -> Prop :=
  | inv_proposed l r a b pc acc auA auB sigA sigB :
      P (ac_state b) -> inner (chan l) = Proposed pc -> inner (chan r) = AgreedUpon auB -> in_sync a b ->
      answers pc acc auA a sigA -> awaits auA a sigB -> awaits auB b sigA ->
      inbox l = [acc; accepted_msg (ac_state a) sigB] -> inbox r = [] -> ends_inv (l, r)
  | inv_agreed l r a b auA auB sigA sigB :
      P (ac_state b) -> inner (chan l) = AgreedUpon auA -> inner (chan r) = AgreedUpon auB -> in_sync a b ->
      awaits auA a sigB -> awaits auB b sigA ->
      inbox l = [accepted_msg (ac_state a) sigB] -> inbox r = [accepted_msg (ac_state b) sigA] -> ends_inv (l, r)
  | inv_signing l r a b au ub sig q :
      P (ac_state b) -> inner (chan l) = AgreedUpon au -> held (inner (chan r)) b ub -> in_sync a b -> awaits au a sig
        ->
      inbox l = accepted_msg (ac_state a) sig :: q -> inbox r = [] -> offer b ub q -> ends_inv (l, r)
  | inv_even l r a b ua ub :
      P (ac_state b) -> held (inner (chan l)) a ua -> held (inner (chan r)) b ub -> in_sync a b ->
      offer a ua (inbox r) -> offer b ub (inbox l) -> ends_inv (l, r)
  | inv_behind l r a b u sigA sigB ub q :
      P (ac_state a) -> P (ac_state b) -> held (inner (chan l)) a (Some u) -> held (inner (chan r)) b ub ->
        proposed_by a u sigA ->
      (forall s', signed_by s' (cu_new_state u) (address (ac_signer b)) sigB) ->
      in_sync (set_state a (cu_new_state u) (sig_pair (ac_part_idx a) sigA sigB)) b ->
      inbox r = [] -> inbox l = accepted_msg (cu_new_state u) sigB :: q -> offer b ub q ->
      ends_inv (l, r).

Definition pair_inv (p : two_ends) : Prop := ends_inv p \/ ends_inv (swap p).

Lemma pair_inv_swap p : pair_inv p -> pair_inv (swap p).
Proof. intros [H|H]; [right; by rewrite swap_swap|by left]. Qed.

(* ------------------------------------------------------------------ *)
(** ** The calls                                                         *)
(* ------------------------------------------------------------------ *)

(** With two participants a broadcast is one message for the other end. *)
Lemma for_peer_one i peers msg :
  0 <= i < 2 -> zlen peers = 2 -> for_peer (broadcast_messages i peers msg) = [msg].
Proof.
  intros Hp Hl. unfold broadcast_messages.
  destruct peers as [|p [|q [|t l]]]; unfold zlen in Hl; cbn [length] in Hl; try lia.
  assert (i = 0 \/ i = 1) as [-> | ->] by lia; done.
Qed.

Lemma for_peer_broadcast a msg :
  owned a -> zlen (ac_peers a) = 2 -> for_peer (ch_broadcast a msg) = [msg].
Proof. intros [Hp _ _ _] Hl. by apply for_peer_one. Qed.

Lemma for_peer_app l k : for_peer (l ++ k) = for_peer l ++ for_peer k.
Proof. apply omap_app. Qed.

(** An update that [update] makes pending is one of ours. *)
Lemma update_proposed a st (out : list Sent) u :
  owned a -> zlen (ac_peers a) = 2 -> ac_update a st [] = (out, Ok u) ->
  cu_new_state u = st /\ exists sig, proposed_by a u sig /\ for_peer out = [offered_msg a u sig].
Proof.
  intros Ho Hl Hu. destruct (ac_update_sound a st _ _ u Ho Hu) as (Hv & Hid & Hst & _).
  destruct (ac_update_ok a st ([] : list Sent) Ho Hv) as (sig & u' & Hu' & Hs & Hnew).
  rewrite Hu in Hu'. injection Hu' as -> <-.
  destruct (ChannelUpdate_new_ok (E:=ProposeUpdateError) a st (ac_part_idx a) sig (own_part _ Ho))
    as (u2 & Hnew2 & _ & _ & Hvec). rewrite Hnew in Hnew2. injection Hnew2 as <-.
  split; [done|]. exists sig. subst st. split; [by split|]. rewrite sends_log, app_nil_l.
  by rewrite for_peer_broadcast.
Qed.

(** A call to an end that has left the channel or has not all signatures yet
    changes nothing of that. *)
Lemma own_call_gone c c' out : own_call (c, []) (c', out) -> gone (inner c) -> gone (inner c') /\ out = [].
Proof.
  intros Hc Hg. destruct c as [i]. cbn [inner] in *.
  inversion Hc as [amount final s s' r Hp Hu Hr|s s' r Hu Hr|msg s s' r Hu Hr|msg s s' r Hu Hr]; subst;
    destruct Hg as [-> | ->]; try destruct msg; cbn in Hu; injection Hu as <- <- <-;
    (split; [first [by left|by right]|done]).
Qed.

Lemma own_call_opening c c' out :
  own_call (c, []) (c', out) ->
  match inner c with Proposed _ | AgreedUpon _ => c' = c /\ out = [] | _ => True end.
Proof.
  intros Hc. destruct c as [i]. cbn [inner].
  inversion Hc as [amount final s s' r Hp Hu Hr|s s' r Hu Hr|msg s s' r Hu Hr|msg s s' r Hu Hr]; subst;
    destruct i; try done; try destruct msg; cbn in Hu; injection Hu as <- <- <-; done.
Qed.

(** What a call does to an end that holds a channel. *)
Lemma own_call_effect c c' out a ua :
  own_call (c, []) (c', out) -> held (inner c) a ua -> owned a -> zlen (ac_peers a) = 2 ->
  (held (inner c') a ua /\ for_peer out = []) \/
  (ua = None /\ exists u sig, held (inner c') a (Some u) /\ proposed_by a u sig /\
     for_peer out = [offered_msg a u sig]).
Proof.
  intros Hc [Hh|Hg] Ho Hl; [|left; by destruct (own_call_gone c c' out Hc Hg) as [? ->]; split; [right|]].
  destruct c as [i]. cbn [inner] in *.
  inversion Hc as [amount final s s' r Hp Hu Hr|s s' r Hu Hr|msg s s' r Hu Hr|msg s s' r Hu Hr]; subst;
    destruct Hh as [sc w f|a ua|a]; cbn [inner fst pending] in *;
    try (try destruct msg; try destruct w; try destruct f; cbn in Hu; injection Hu as <- <- <-; left;
      (split; [first [left; constructor|right; by right]|done])).
  - subst ua. pose proof (demo_update_cases a None amount final _ _ r Ho Hu) as H.
    destruct r as [[]|e|]; [|simplify_eq; left; split; [left; constructor|done]|done].
    destruct H as (st & u & b' & Hup & [= -> ->]). right. split; [done|].
    destruct (update_proposed a st b' u Ho Hl Hup) as (_ & sig & Hs & Hm). exists u, sig.
    split; [left; constructor|done].
  - unfold demo_force_close, progress in Hu. cbn [inner] in Hu. rewrite force_close_ok in Hu.
    injection Hu as <- <- <-. left. split; [right; by left|done].
Qed.

(* ------------------------------------------------------------------ *)
(** ** The messages                                                      *)
(* ------------------------------------------------------------------ *)

(** The phase of an end after an update to [st]. *)
Definition advance (a : ActiveChannel) (st : State ASSETS PARTICIPANTS)
    (sigs : array Signature PARTICIPANTS) : ChannelInner :=
  if is_final st then Closing (set_state a st sigs) else Active (set_state a st sigs) None.

Lemma advance_holds a st sigs : holds (advance a st sigs) (set_state a st sigs) None.
Proof. unfold advance. destruct (is_final st); constructor. Qed.

Lemma in_sync_owned a b : in_sync a b -> owned a.
Proof. by intros [[] _ _ _]. Qed.

(** Both ends move to the same state with the same signatures. *)
Lemma in_sync_advance a b st sigs :
  in_sync a b -> in_sync (set_state a st sigs) (set_state b st sigs).
Proof. intros [[[] [] ? ? ?] ? ? ?]. split; [split; [by split|by split|done..]|done..]. Qed.

(** An idle end accepts and applies the update of the other one. *)
Lemma deliver_update a b u sig :
  in_sync a b -> proposed_by b u sig ->
  exists sigA out,
    (forall s', signed_by s' (cu_new_state u) (address (ac_signer a)) sigA) /\
    process_participant_msg (offered_msg b u sig) (mkChannel (Active a None), []) =
      ((mkChannel (advance a (cu_new_state u) (sig_pair (ac_part_idx b) sig sigA)), out), Ok tt) /\
    for_peer out = [accepted_msg (cu_new_state u) sigA].
Proof.
  intros [[Ha Hb Hpar Hst Hidx] Hsg Hla Hlb] [Hv Hid Hvec Hsig].
  pose proof (own_part _ Ha) as Hia. pose proof (own_part _ Hb) as Hib.
  assert (valid_transition (ac_state a) (cu_new_state u)) as HvA by by rewrite Hst.
  destruct (handle_update_ok a (mkLedgerChannelUpdate (cu_new_state u) (ac_part_idx b) sig)
    (address (ac_signer b))) as (v & Hh & Hidv & Hstv & Hvecv); [exact HvA|exact Hib| |apply Hsig|].
  { rewrite Hpar. apply (own_addr _ Hb). }
  cbn [upd_actor_idx upd_sig upd_state] in Hvecv, Hstv. pose proof (valid_ensure HvA Hstv Hidv) as He.
  destruct (cu_accept_ok a v ([] : list Sent) Ha He) as (sigA & sigs & Hacc & Hvs & HsA).
  { rewrite Hvecv. by apply other_free. }
  rewrite Hvecv, sig_pair_first in Hvs by done.
  assert (cu_channel_id v = id (cu_new_state u)) as Hidv' by (rewrite Hidv; symmetry; apply (vt_id _ _ HvA)).
  rewrite Hidv', Hstv, sends_log, app_nil_l in Hacc.
  exists sigA. eexists. split; [by rewrite <- Hstv|]. split.
  - unfold process_participant_msg, progress, offered_msg. cbn [inner]. unfold active_update. rewrite Hh, Hacc.
    rewrite (cu_apply_ok a (set_signatures v sigs) _ (sig_pair (ac_part_idx b) sig sigA) He Hvs).
    unfold after_update, advance. cbn [cu_new_state set_signatures]. by rewrite Hstv.
  - cbn [sent log_PureBus]. rewrite for_peer_app, for_peer_broadcast by done. done.
Qed.

(** An end with a pending update applies it with the other's signature. *)
Lemma deliver_acceptance a b u sigA sigB :
  owned a -> owned b -> ac_params a = ac_params b -> ac_part_idx a <> ac_part_idx b -> proposed_by a u sigA ->
  (forall s', signed_by s' (cu_new_state u) (address (ac_signer b)) sigB) ->
  exists out,
    process_participant_msg (accepted_msg (cu_new_state u) sigB) (mkChannel (Active a (Some u)), []) =
      ((mkChannel (advance a (cu_new_state u) (sig_pair (ac_part_idx a) sigA sigB)), out), Ok tt) /\
    for_peer out = [].
Proof.
  intros Ha Hb Hpar Hidx [Hv Hid Hvec Hsig] HsB.
  pose proof (own_part _ Ha) as Hia. pose proof (own_part _ Hb) as Hib.
  pose proof (valid_ensure Hv eq_refl Hid) as He. pose proof usize_pow_ge.
  destruct (cu_participant_accepted_ok a u (ac_part_idx b)
    (mkLedgerChannelUpdateAccepted (id (cu_new_state u)) (version (cu_new_state u)) sigB) (address (ac_signer b)))
    as (sigs & Hp & Hvs); [done|done|by rewrite Hid; apply (vt_id _ _ Hv)|done| |apply HsB| |].
  { rewrite Hpar. apply (own_addr _ Hb). } { rewrite Hvec. by apply other_free. }
  rewrite Hvec in Hvs. cbn [upacc_sig] in Hvs. rewrite sig_pair_first in Hvs by done.
  eexists. split.
  - unfold process_participant_msg, progress, accepted_msg. cbn [inner]. unfold active_accepted.
    rewrite usize_sub_ok by lia. replace (1 - ac_part_idx a) with (ac_part_idx b) by lia. rewrite Hp.
    by rewrite (cu_apply_ok a (set_signatures u sigs) _ (sig_pair (ac_part_idx a) sigA sigB) He Hvs).
  - done.
Qed.

(* ------------------------------------------------------------------ *)
(** ** The invariant                                                     *)
(* ------------------------------------------------------------------ *)

Lemma offer_none a q : offer a None q -> q = [].
Proof. done. Qed.

Lemma offer_proposed a u sig : proposed_by a u sig -> offer a (Some u) [offered_msg a u sig].
Proof. intros H. exists sig. split; [done|by right]. Qed.

(** The stages of a pair. *)
Local Ltac stages Hi :=
  inversion Hi as [l' r' a b pc acc auA auB sA sB HPb Hl Hr Hs Han HwA HwB Hql Hqr
    |l' r' a b auA auB sA sB HPb Hl Hr Hs HwA HwB Hql Hqr
    |l' r' a b au ub sg k HPb Hl Hr Hs Hw Hql Hqr Hob
    |l' r' a b ua ub HPb Hl Hr Hs Hoa Hob
    |l' r' a b u sA sB ub k HPa HPb Hl Hr Hp Hsg Hs Hqr Hql Hob]; subst; cbn [chan inbox swap fst snd] in *;
  subst.

(** An end that is still opening has only errors to return. *)
Local Ltac still_opening Hc H :=
  pose proof (own_call_opening _ _ _ Hc) as Ho; rewrite H in Ho; destruct Ho as [-> ->]; cbn [for_peer omap list_omap];
  rewrite app_nil_r.

Lemma behind_owned a b u sigA sigB :
  in_sync (set_state a (cu_new_state u) (sig_pair (ac_part_idx a) sigA sigB)) b -> owned a.
Proof. intros [[Ha _ _ _ _] _ _ _]. by destruct Ha. Qed.

(** A call of the end that may be behind. *)
Lemma call_behind_inv c c' q out r :
  own_call (c, []) (c', out) -> ends_inv (mkSide c q, r) ->
  pair_inv (mkSide c' q, mkSide (chan r) (inbox r ++ for_peer out)).
Proof.
  intros Hc Hi. destruct r as [d kr]. stages Hi.
  - still_opening Hc Hl. left. by eapply inv_proposed.
  - still_opening Hc Hl. left. by eapply inv_agreed.
  - still_opening Hc Hl. left. by eapply inv_signing.
  - destruct (own_call_effect c c' out a ua Hc Hl) as [[He Hm]|(-> & u & sig & He & Hp & Hm)];
      [by eapply in_sync_owned|apply Hs| |]; left; rewrite Hm.
    + rewrite app_nil_r. by eapply inv_even.
    + rewrite (offer_none _ _ Hoa). eapply inv_even; cbn [chan inbox];
        [exact HPb|exact He|exact Hr|exact Hs|by apply offer_proposed|exact Hob].
  - destruct (own_call_effect c c' out a (Some u) Hc Hl) as [[He Hm]|(? & _)]; [by eapply behind_owned|apply Hs| |done].
    left. rewrite Hm. eapply inv_behind; cbn [chan inbox];
      [exact HPa|exact HPb|exact He|exact Hr|exact Hp|exact Hsg|exact Hs|done|done|exact Hob].
Qed.

(** A call of the other end. *)
Lemma call_ahead_inv c c' q out l :
  own_call (c, []) (c', out) -> ends_inv (l, mkSide c q) ->
  pair_inv (mkSide (chan l) (inbox l ++ for_peer out), mkSide c' q).
Proof.
  intros Hc Hi. destruct l as [d kl]. stages Hi.
  - still_opening Hc Hr. left. by eapply inv_proposed.
  - still_opening Hc Hr. left. by eapply inv_agreed.
  - pose proof (in_sync_owned _ _ (in_sync_sym _ _ Hs)) as Hb.
    destruct (own_call_effect c c' out b ub Hc Hr Hb) as [[He Hm]|(-> & u & sig & He & Hp & Hm)];
      [apply Hs| |]; left; rewrite Hm.
    + rewrite app_nil_r. by eapply inv_signing.
    + rewrite (offer_none _ _ Hob). eapply inv_signing; cbn [chan inbox];
        [exact HPb|exact Hl|exact He|exact Hs|exact Hw|reflexivity|done|by apply offer_proposed].
  - pose proof (in_sync_owned _ _ (in_sync_sym _ _ Hs)) as Hb.
    destruct (own_call_effect c c' out b ub Hc Hr Hb) as [[He Hm]|(-> & u & sig & He & Hp & Hm)];
      [apply Hs| |]; left; rewrite Hm.
    + rewrite app_nil_r. by eapply inv_even.
    + rewrite (offer_none _ _ Hob). eapply inv_even; cbn [chan inbox];
        [exact HPb|exact Hl|exact He|exact Hs|exact Hoa|by apply offer_proposed].
  - pose proof (in_sync_owned _ _ (in_sync_sym _ _ Hs)) as Hb.
    destruct (own_call_effect c c' out b ub Hc Hr Hb) as [[He Hm]|(-> & v & sig & He & Hpv & Hm)];
      [apply Hs| |]; left; rewrite Hm.
    + rewrite app_nil_r. eapply inv_behind; cbn [chan inbox];
        [exact HPa|exact HPb|exact Hl|exact He|exact Hp|exact Hsg|exact Hs|done|reflexivity|exact Hob].
    + rewrite (offer_none _ _ Hob). eapply inv_behind; cbn [chan inbox];
        [exact HPa|exact HPb|exact Hl|exact He|exact Hp|exact Hsg|exact Hs|done|reflexivity|by apply offer_proposed].
Qed.

(** What the delivery of a message does: it is processed, or refused without any
    change. *)
Definition delivered (c : Channel) (m : ParticipantMessage) (c' : Channel) (out : list Sent) : Prop :=
  exists r, process_participant_msg m (c, []) = ((c', out), r) /\
    (r = Ok tt \/ ((r = Err InvalidState \/ r = Err DemoClosed) /\ c' = c /\ out = [])).

Lemma gone_delivered i m : gone i -> delivered (mkChannel i) m (mkChannel i) [].
Proof.
  intros [-> | ->]; destruct m; eexists; (split; [reflexivity|]); right;
    (split; [first [by left|by right]|done]).
Qed.

(** With a pending update, or when it is not active, an end refuses an update. *)
Lemma update_refused i a ua b u sig :
  held i a ua -> i <> Active a None ->
  delivered (mkChannel i) (offered_msg b u sig) (mkChannel i) [].
Proof.
  intros [Hh|Hg] Hi; [|by apply gone_delivered].
  destruct Hh as [sc w f|a [v|]|a]; [| |done|]; eexists; (split; [reflexivity|]); right;
    (split; [first [by left|by right]|done]).
Qed.

(** The next message is a proposal of the other end, on the same state. *)
Lemma deliver_even c m q r a b ua ub :
  P (ac_state b) -> held (inner c) a ua -> held (inner (chan r)) b ub -> in_sync a b -> offer a ua (inbox r) -> offer
    b ub (m :: q) ->
  exists c' out, delivered c m c' out /\
    pair_inv (mkSide c' q, mkSide (chan r) (inbox r ++ for_peer out)).
Proof.
  intros HPb Hh Hhb Hs Ho Hob. destruct ub as [u|]; [|done].
  destruct Hob as (sig & Hp & [?|[= -> ->]]); [done|]. destruct c as [i]. cbn [inner] in Hh.
  assert ((i = Active a None /\ ua = None) \/ i <> Active a None) as [[-> ->]|Hi].
  { destruct Hh as [Hh|Hg]; [|right; destruct Hg; by subst].
    destruct Hh as [sc w f|a [v|]|a]; [by right|by right|by left|by right]. }
  - apply offer_none in Ho. destruct (deliver_update a b u sig Hs Hp) as (sA & out & HsA & Hd & Hm).
    do 2 eexists. split; [eexists; split; [exact Hd|by left]|]. right. rewrite Hm, Ho, app_nil_l.
    eapply (inv_behind _ _ b (set_state a (cu_new_state u) (sig_pair (ac_part_idx b) sig sA))); cbn [chan inbox swap
      fst snd inner];
      [exact HPb|exact (HP _ _ (prby_valid _ _ _ Hp) HPb)|exact Hhb|left; apply advance_holds|exact Hp|exact HsA|
        |done|done|done].
    apply in_sync_sym, in_sync_advance, Hs.
  - exists (mkChannel i), []. split; [by eapply update_refused|]. left. cbn [for_peer omap list_omap]. rewrite
    app_nil_r.
    eapply inv_even; cbn [chan inbox inner]; [exact HPb|exact Hh|exact Hhb|exact Hs|exact Ho|].
    exists sig. split; [exact Hp|by left].
Qed.


(** A message to the end that may be behind. *)
Lemma deliver_behind c m q r :
  ends_inv (mkSide c (m :: q), r) ->
  exists c' out, delivered c m c' out /\
    pair_inv (mkSide c' q, mkSide (chan r) (inbox r ++ for_peer out)).
Proof.
  intros Hi. destruct c as [i], r as [d kr]. stages Hi; simplify_eq; cbn [inner] in *.
  - destruct Han as (acc' & out & _ & Hd & Hm). do 2 eexists. split; [eexists; split; [subst i; exact Hd|by left]|].
    left. rewrite Hm. eapply inv_agreed; cbn [chan inbox inner];
      [exact HPb|done|exact Hr|exact Hs|exact HwA|exact HwB|done|]. by rewrite <- (ends_state _ _ (sync_ends _ _ Hs)).
  - destruct HwA as (out & Hd & Hm). do 2 eexists. split; [eexists; split; [subst i; exact Hd|by left]|].
    right. rewrite Hm. eapply (inv_signing _ _ b a auB None sA []); cbn [chan inbox inner swap fst snd];
      [by rewrite (ends_state _ _ (sync_ends _ _ Hs))|exact Hr|left; exact (holds_signed (mkSignedChannel a) false
        false)|by apply in_sync_sym|exact HwB|done..].
  - destruct Hw as (out & Hd & Hm). do 2 eexists. split; [eexists; split; [subst i; exact Hd|by left]|].
    left. rewrite Hm. eapply (inv_even _ _ a b None ub); cbn [chan inbox inner];
      [exact HPb|left; exact (holds_signed (mkSignedChannel a) false false)|exact Hr|exact Hs|done|exact Hob].
  - by apply (deliver_even _ _ _ (mkSide d kr) a b ua ub).
  - pose proof (behind_owned _ _ _ _ _ Hs) as Ha. pose proof (in_sync_owned _ _ (in_sync_sym _ _ Hs)) as Hb.
    destruct Hl as [Hl|Hg].
    + pose proof (sync_ends _ _ Hs) as [_ _ Hpar _ Hidx].
      destruct (deliver_acceptance a b u sA sB Ha Hb Hpar Hidx Hp Hsg) as (out & Hd & Hm).
      inversion Hl; subst. do 2 eexists. split; [eexists; split; [exact Hd|by left]|].
      left. rewrite Hm. eapply (inv_even _ _ _ b None ub); cbn [chan inbox inner];
        [exact HPb|left; apply advance_holds|exact Hr|exact Hs|done|exact Hob].
    + do 2 eexists. split; [by apply gone_delivered|]. left.
      eapply (inv_even _ _ _ b None ub); cbn [chan inbox inner]; [exact HPb|by right|exact Hr|exact Hs|done|exact Hob].
Qed.

(** A message to the other end. *)
Lemma deliver_ahead c m q l :
  ends_inv (l, mkSide c (m :: q)) ->
  exists c' out, delivered c m c' out /\
    pair_inv (mkSide (chan l) (inbox l ++ for_peer out), mkSide c' q).
Proof.
  intros Hi. destruct c as [i], l as [d kl]. stages Hi; simplify_eq; cbn [inner] in *.
  - destruct HwB as (out & Hd & Hm). do 2 eexists. split; [eexists; split; [subst i; exact Hd|by left]|].
    left. rewrite Hm, app_nil_r. eapply (inv_signing _ _ a b auA None sB []); cbn [chan inbox inner];
      [exact HPb|exact Hl|left; exact (holds_signed (mkSignedChannel b) false false)|exact Hs|exact HwA|done..].
  - destruct (deliver_even (mkChannel i) m q (mkSide d kl) b a ub ua) as (c' & out & Hd & Hi');
      [by rewrite (ends_state _ _ (sync_ends _ _ Hs))|done|done|by apply in_sync_sym|done|done|].
    exists c', out. split; [exact Hd|]. by apply pair_inv_swap in Hi'.
Qed.

(** The next message of an end, in every pair that satisfies the invariant. *)
Lemma deliver_inv c m q r :
  pair_inv (mkSide c (m :: q), r) ->
  exists c' out, delivered c m c' out /\
    pair_inv (mkSide c' q, mkSide (chan r) (inbox r ++ for_peer out)).
Proof.
  intros [Hi|Hi]; [by apply deliver_behind|]. destruct (deliver_ahead c m q r Hi) as (c' & out & Hd & Hi').
  exists c', out. split; [exact Hd|]. by apply pair_inv_swap in Hi'.
Qed.

Lemma left_step_inv p p' : left_step p p' -> pair_inv p -> pair_inv p'.
Proof.
  intros H Hi. inversion H as [c c' q out r Hc|c c' m q out res r Hd Hr]; subst.
  - destruct Hi as [Hi|Hi]; [by eapply call_behind_inv|]. apply (call_ahead_inv c c' q out r Hc) in Hi.
    by apply pair_inv_swap in Hi.
  - destruct (deliver_inv c m q r Hi) as (d & out' & (res' & Hd' & _) & Hi'). rewrite Hd in Hd'.
    by injection Hd' as <- <- <-.
Qed.

Lemma pair_step_inv p p' : pair_step p p' -> pair_inv p -> pair_inv p'.
Proof.
  intros [H|H] Hi; [by eapply left_step_inv|]. apply pair_inv_swap in Hi.
  apply (left_step_inv _ _ H) in Hi. apply pair_inv_swap in Hi. by rewrite swap_swap in Hi.
Qed.

Lemma reachable_inv p p' : rtc pair_step p p' -> pair_inv p -> pair_inv p'.
Proof. induction 1 as [|x y z Hxy Hyz IH]; intros Hi; [done|]. apply IH. by eapply pair_step_inv. Qed.

(** Two active ends, nothing pending and nothing in transit. *)
Definition idle (a b : ActiveChannel) : two_ends :=
  (mkSide (mkChannel (Active a None)) [], mkSide (mkChannel (Active b None)) []).

Lemma idle_inv a b : P (ac_state b) -> in_sync a b -> pair_inv (idle a b).
Proof. intros HPb H. left. by apply (inv_even _ _ a b None None); [exact HPb|left; constructor|left; constructor|..].
  Qed.

(** What the two ends of an even or uneven pair hold. *)
Definition agree (a b : ActiveChannel) (ua ub : option ChannelUpdate) : Prop :=
  (ac_state a = ac_state b /\ ac_signatures a = ac_signatures b) \/
  (exists u, ua = Some u /\ ac_state b = cu_new_state u /\ check_valid_transition a (ac_state b) = Ok tt) \/
  (exists u, ub = Some u /\ ac_state a = cu_new_state u /\ check_valid_transition b (ac_state a) = Ok tt).

Lemma holds_inj i a b ua ub : holds i a ua -> holds i b ub -> a = b /\ ua = ub.
Proof. intros [] H; by inversion H. Qed.

Lemma held_holds i a b ua ub : held i a ua -> holds i b ub -> a = b /\ ua = ub.
Proof. intros [H|[-> | ->]] Hb; [by eapply holds_inj|by inversion Hb..]. Qed.

Lemma ends_inv_agree l r x y ux uy :
  ends_inv (l, r) -> holds (inner (chan l)) x ux -> holds (inner (chan r)) y uy -> agree x y ux uy.
Proof.
  intros Hi Hx Hy. destruct l as [cl kl], r as [cr kr]. stages Hi; try (rewrite Hl in Hx; by inversion Hx).
  - destruct (held_holds _ _ _ _ _ Hl Hx) as [-> ->]. destruct (held_holds _ _ _ _ _ Hr Hy) as [-> ->].
    left. split; apply Hs.
  - destruct (held_holds _ _ _ _ _ Hl Hx) as [-> <-]. destruct (held_holds _ _ _ _ _ Hr Hy) as [-> ->].
    right. left. exists u. assert (ac_state y = cu_new_state u) as E by (symmetry; apply Hs).
    split; [done|]. split; [done|]. rewrite E. by apply check_valid_transition_Ok, Hp.
Qed.

Lemma pair_inv_agree p a b ua ub :
  pair_inv p -> holds (inner (chan p.1)) a ua -> holds (inner (chan p.2)) b ub -> agree a b ua ub.
Proof.
  destruct p as [l r]. intros [Hi|Hi] Ha Hb; [by eapply ends_inv_agree|].
  destruct (ends_inv_agree r l b a ub ua Hi Hb Ha) as [[? ?]|[H|H]]; [by left|by right; right|by right; left].
Qed.

Lemma ends_inv_property l r x y ux uy :
  ends_inv (l, r) -> holds (inner (chan l)) x ux -> holds (inner (chan r)) y uy -> P (ac_state x) /\ P (ac_state y).
Proof.
  intros Hi Hx Hy. destruct l as [cl kl], r as [cr kr]. stages Hi; try (rewrite Hl in Hx; by inversion Hx);
    destruct (held_holds _ _ _ _ _ Hl Hx) as [-> _]; destruct (held_holds _ _ _ _ _ Hr Hy) as [-> _]; [|done].
  by rewrite (ends_state _ _ (sync_ends _ _ Hs)).
Qed.

(** Both ends hold states with the property. *)
Lemma pair_inv_property p a b ua ub :
  pair_inv p -> holds (inner (chan p.1)) a ua -> holds (inner (chan p.2)) b ub -> P (ac_state a) /\ P (ac_state b).
Proof.
  destruct p as [l r]. intros [Hi|Hi] Ha Hb; [by eapply ends_inv_property|].
  by destruct (ends_inv_property r l b a ub ua Hi Hb Ha).
Qed.

(** What is on its way is an acceptance or an update to a state that has the
    property. *)
Definition carries (m : ParticipantMessage) : Prop :=
  match m with
  | ProposalAccepted _ | ChannelUpdateAccepted _ => True
  | ChannelUpdateMsg u => P (upd_state u) /\ 0 <= upd_actor_idx u < 2
  | _ => False
  end.

Lemma offer_carries a up q : P (ac_state a) -> owned a -> offer a up q -> Forall carries q.
Proof.
  intros Ha Ho Hf. destruct up as [u|]; [|by rewrite Hf].
  destruct Hf as (sig & Hp & [-> | ->]); [done|]. constructor; [|done]. split; [|apply Ho].
  exact (HP _ _ (prby_valid _ _ _ Hp) Ha).
Qed.

Lemma ends_inv_carries l r : ends_inv (l, r) -> Forall carries (inbox l) /\ Forall carries (inbox r).
Proof.
  intros Hi. destruct l as [cl kl], r as [cr kr]. stages Hi;
    try pose proof (in_sync_owned _ _ Hs) as Ha; pose proof (in_sync_owned _ _ (in_sync_sym _ _ Hs)) as Hb.
  - split; [|done]. destruct Han as (acc' & out & -> & _). by repeat constructor.
  - split; by repeat constructor.
  - split; [constructor; [done|]|done]. by eapply offer_carries.
  - split; [by eapply offer_carries|]. eapply offer_carries; [|exact Ha|exact Hoa].
    by rewrite (ends_state _ _ (sync_ends _ _ Hs)).
  - split; [constructor; [done|]|done]. by eapply offer_carries.
Qed.

Lemma pair_inv_carries p : pair_inv p -> Forall carries (inbox p.1) /\ Forall carries (inbox p.2).
Proof.
  destruct p as [l r]. intros [Hi|Hi]; [by apply ends_inv_carries|]. by destruct (ends_inv_carries r l Hi).
Qed.

End Invariant.
End Pair.
