(* ===== verification/PairTheorems.v ===== *)
(** * Opening a channel, and what its two ends rely on

    The two ends of DemoPair.v from the moment the other participant has accepted
    a proposal and signed: propose_channel and handle_proposal of
    src/src/client.rs, accept, build and sign of src/src/channel/proposal.rs and
    agreed_upon.rs, and the first messages of the two demo channels.  Then the
    theorems about every pair that is reached from there: the two ends never
    disagree, and no message of one end makes the other one panic. *)
From stdpp Require Import relations.
From S2P Require Import Prelude AbiSpec AbiSer Types Payment PaymentTheorems Sig Messages Wire.
From S2P Require Import ChannelTypes Active Proposal ActiveTheorems ChannelSystem.
From S2P Require Import OpeningTheorems DemoChannel BusRefinement DemoTheorems DemoPair.

Section Opening.
Context `{Pl : Platform} `{U : UintCrate} `{UL : !UintLaws U} `{S : Sha3Crate} `{SL : !Sha3Laws S}.
Context `{I : SignerImpl} `{IL : !SignerLaws I}.

(** What an agreed-upon channel of ours is after signing and after the other
    signature: ours still, and [build] sends nothing to the other end. *)
Lemma agreed_build au au1 au2 msg (b b' c c' : list Sent) sc :
  au_owned au -> to_vec (au_signatures au) = no_signatures -> sign (au, b) = ((au1, b'), Ok tt) ->
  add_signature msg au1 = (au2, Ok tt) -> au_build au2 c = (c', Ok sc) ->
  agreed_signature au1 msg [] = (opening_requests au2 (ac_signatures (mark_funded sc)), Ok (Signed sc false false)).
Proof.
  intros Ho Hn Hs Ha Hb. destruct (sign_fresh au b Ho Hn) as (au1' & b1 & Hs' & Ho1 & Hsg & _).
  rewrite Hs in Hs'. injection Hs' as <- <-.
  destruct (add_signature_owned au1 au2 msg _ Ho1 Ha Hsg) as (Ho2 & _ & _).
  destruct (au_build_sound au2 c c' sc (auo_part _ Ho2) Hb) as (sigs & Hsigs & -> & _).
  unfold agreed_signature. rewrite Ha. by rewrite (au_build_ok au2 [] sigs (auo_part _ Ho2) Hsigs), sends_log.
Qed.

(** The initial state of the channel of a proposal. *)
Record opened_from (prop : LedgerChannelProposal) (a b : ActiveChannel) : Prop := {
  of_sync : in_sync a b;
  of_idx : ac_part_idx a = 0;
  of_outcome : outcome (ac_state a) = prop_init_bals prop;
  of_version : u64_val (version (ac_state a)) = 0;
  of_open : is_final (ac_state a) = false;
}.

(** The messages of the opening. *)
Lemma deliver_signature au msg out sc :
  agreed_signature au msg [] = (out, Ok sc) ->
  process_participant_msg (ChannelUpdateAccepted msg) (mkChannel (AgreedUpon au), []) =
    ((mkChannel sc, out), Ok tt).
Proof. intros H. unfold process_participant_msg, progress. cbn [inner]. by rewrite H. Qed.

Lemma deliver_proposal_accepted pc acc au au1 (out : list Sent) :
  acc_proposal_id acc = prop_proposal_id (pc_proposal pc) -> to_vec (pc_responses pc) = [None] ->
  pc_build (pc_set_responses pc (mk_array [Some acc] eq_refl)) = Ok au -> sign (au, []) = ((au1, out), Ok tt) ->
  process_participant_msg (ProposalAccepted acc) (mkChannel (Proposed pc), []) =
    ((mkChannel (AgreedUpon au1), out), Ok tt).
Proof.
  intros Hid Hr Hb Hs. unfold process_participant_msg, progress. cbn [inner]. unfold proposed_accepted.
  rewrite pc_participant_accepted_1, decide_False, Hr by (by intros []). by rewrite Hb, Hs.
Qed.

(** Both ends of an opening after the other participant has accepted and signed:
    what the calls return, and the channels the next messages lead to. *)
Lemma opening_ends clA clB prop share rA rB :
  valid_signer (cl_signer clA) -> valid_signer (cl_signer clB) ->
  address (cl_signer clA) <> address (cl_signer clB) ->
  prop_participant prop = address (cl_signer clA) -> check_valid_proposal prop = Ok tt ->
  exists lA pcA pcB pcB' lB auB auB1 lB1,
    propose_channel clA prop rA [] = (lA, Ok pcA) /\ for_peer lA = [ChannelProposal prop] /\
    handle_proposal clB prop rB = Ok pcB /\
    pc_accept share (address (cl_signer clB)) (pcB, []) = ((pcB', lB), Ok tt) /\
    pc_build pcB' = Ok auB /\ sign (auB, lB) = ((auB1, lB1), Ok tt) /\
    exists a b acc auA sigA sigB, opened_from prop a b /\
      answers pcA acc auA a sigA /\ awaits auA a sigB /\ awaits auB1 b sigA /\
      for_peer lB1 = [acc; accepted_msg (ac_state a) sigB].
Proof.
  intros HvA HvB Hne Hpart Hcheck. pose proof Hcheck as [_ Hpeers]%check_valid_proposal_Ok.
  set (pcA := ProposedChannel_new (cl_signer clA) 0 rA prop).
  set (pcB := ProposedChannel_new (cl_signer clB) 1 rB prop).
  set (acc := acceptance pcB share (address (cl_signer clB))).
  set (pcA' := pc_set_responses pcA (mk_array [Some acc] eq_refl)).
  set (pcB' := pc_set_responses pcB (mk_array [Some acc] eq_refl)).
  destruct (pc_build_accepted pcA' acc eq_refl) as (n & Hn & HbA). cbn zeta in HbA.
  destruct (pc_build_accepted pcB' acc eq_refl) as (n' & Hn' & HbB). cbn zeta in HbB.
  assert (n' = n) as -> by (apply u256_inj; by rewrite Hn, Hn').
  change (pc_build pcA' = Ok (agreed prop (channel_params prop acc n) (cl_signer clA) 0 rA)) in HbA.
  change (pc_build pcB' = Ok (agreed prop (channel_params prop acc n) (cl_signer clB) 1 rB)) in HbB.
  set (auA := agreed _ _ _ 0 _) in *. set (auB := agreed _ _ _ 1 _) in *.
  set (lB := broadcast_messages 1 (prop_peers prop) (ProposalAccepted acc)).
  assert (au_owned auA) as HoA by (split; [cbn; lia|cbn; lia|done|by cbn; rewrite Hpart]).
  assert (au_owned auB) as HoB by (split; [cbn; lia|cbn; lia|done|done]).
  destruct (exchange_signatures auA auB ([] : list Sent) lB HoA HoB)
    as (sigA & sigB & auA1 & auB1 & bA & bB & HsA & HsB & auA2 & auB2 & HaddA & HaddB & HbuA & HbuB & _);
    [done|done|done|done|done|by cbn; rewrite Hpart|done|done|done|].
  pose proof (agreed_build auA auA1 auA2 _ _ _ _ _ _ HoA eq_refl HsA HaddA HbuA) as HA.
  pose proof (agreed_build auB auB1 auB2 _ _ _ _ _ _ HoB eq_refl HsB HaddB HbuB) as HB.
  rewrite sends_log in HsA, HsB. rewrite app_nil_l in HsA.
  exists (broadcast_messages 0 (prop_peers prop) (ChannelProposal prop)), pcA, pcB, pcB', lB, auB, auB1. eexists.
  split.
  { unfold propose_channel. rewrite Hcheck. mrun. erewrite M_bind_ok by (apply broadcast_ok; lia).
    by rewrite sends_log. }
  split; [by apply for_peer_one|]. split; [done|].
  split; [unfold lB; rewrite pc_accept_ok, sends_log by first [done|cbn; lia]; done|].
  split; [exact HbB|]. split; [exact HsB|]. exists (opened auA (mk_array [sigA; sigB] eq_refl)), (opened auB (mk_array
    [sigA; sigB] eq_refl)),
    (ProposalAccepted acc), auA1, sigA, sigB.
  split; [|split; [|split; [|split]]].
  - split; [|done..]. split; [|done|exact Hpeers|exact Hpeers].
    split; [split|split|..]; cbn; try done; try lia. by rewrite <- Hpart.
  - do 2 eexists. split; [reflexivity|]. split; [eapply deliver_proposal_accepted; [done|done|exact HbA|exact HsA]|by
    apply for_peer_one].
  - eexists. split; [apply deliver_signature, HA|done].
  - eexists. split; [apply deliver_signature, HB|done].
  - unfold lB. rewrite for_peer_app, !for_peer_one by first [done|cbn; lia]. done.
Qed.

(** The pairs the theorems start from: two active ends with the same state, or
    two ends in the middle of an opening, where the other participant has
    accepted a valid proposal and signed, and its two messages are on their way.
    [al] is what the participants have put in. *)
Inductive pair_start (al : Allocation ASSETS PARTICIPANTS) : two_ends -> Prop :=
  | start_idle a b : in_sync a b -> outcome (ac_state b) = al -> pair_start al (idle a b)
  | start_opening clA clB prop share rA rB lA pcA pcB pcB' lB auB auB1 lB1 :
      valid_signer (cl_signer clA) -> valid_signer (cl_signer clB) ->
      address (cl_signer clA) <> address (cl_signer clB) ->
      prop_participant prop = address (cl_signer clA) -> prop_init_bals prop = al ->
      propose_channel clA prop rA [] = (lA, Ok pcA) ->
      handle_proposal clB prop rB = Ok pcB ->
      pc_accept share (address (cl_signer clB)) (pcB, []) = ((pcB', lB), Ok tt) ->
      pc_build pcB' = Ok auB -> sign (auB, lB) = ((auB1, lB1), Ok tt) ->
      pair_start al (mkSide (Channel_new pcA) (for_peer lB1), mkSide (new_agreed_upon auB1) []).

Lemma propose_valid cl prop r out res :
  propose_channel cl prop r ([] : list Sent) = (out, Ok res) -> check_valid_proposal prop = Ok tt.
Proof.
  unfold propose_channel. by destruct (check_valid_proposal prop) as [[]| |].
Qed.

Lemma start_inv (P : State ASSETS PARTICIPANTS -> Prop) al p :
  (forall st, outcome st = al -> P st) -> pair_start al p -> pair_inv P p.
Proof.
  intros Hal [a b Hs Hb|clA clB prop share rA rB lA pcA pcB pcB' lB auB auB1 lB1 HvA HvB Hne Hpart Hb H1 H2 H3 H4 H5];
    [by apply idle_inv; [apply Hal|]|].
  destruct (opening_ends clA clB prop share rA rB HvA HvB Hne Hpart (propose_valid _ _ _ _ _ H1))
    as (lA' & pcA' & pcB'' & pcB3 & lB' & auB' & auB2 & lB2 & G1 & _ & G2 & G3 & G4 & G5 & a & b & acc & auA & sA & sB
      & Ho & Han & HwA & HwB & Hm).
  rewrite H1 in G1. injection G1 as <- <-. rewrite H2 in G2. injection G2 as <-.
  rewrite H3 in G3. injection G3 as <- <-. rewrite H4 in G4. injection G4 as <-.
  rewrite H5 in G5. injection G5 as <- <-.
  left. eapply inv_proposed; [|done|done|apply Ho|exact Han|exact HwA|exact HwB|exact Hm|done].
  apply Hal. rewrite <- (ends_state _ _ (sync_ends _ _ (of_sync _ _ _ Ho))), <- Hb. apply (of_outcome _ _ _ Ho).
Qed.

(** A pair that is reached keeps the properties that valid updates keep. *)
Lemma run_inv (P : State ASSETS PARTICIPANTS -> Prop) al p0 p :
  (forall st st', valid_transition st st' -> P st -> P st') -> (forall st, outcome st = al -> P st) ->
  pair_start al p0 -> rtc pair_step p0 p -> pair_inv P p.
Proof. intros HP Hal Hs Hr. exact (reachable_inv P HP p0 p Hr (start_inv P al p0 Hal Hs)). Qed.

End Opening.

(* ------------------------------------------------------------------ *)
(** ** What the participants rely on                                     *)
(* ------------------------------------------------------------------ *)

(** C3: the two ends of a channel never disagree: from the moment one participant
    has accepted and signed the proposal of the other one, or from two active
    ends with the same state, in whatever order they receive each other's
    messages and the replies of the watcher and the funder, propose updates and
    close, as long as an update is proposed only when none is pending.  As long
    as both hold a channel, either the states and the signatures are the same,
    or one end is exactly one valid update behind and has that update pending;
    and both hold as much of every asset as was put in. *)
Theorem ends_never_disagree `{Pl : Platform} `{U : UintCrate} `{UL : !UintLaws U} `{S : Sha3Crate}
    `{SL : !Sha3Laws S} `{I : SignerImpl} `{IL : !SignerLaws I} (al : Allocation ASSETS PARTICIPANTS)
    (p0 p : two_ends) (a b : ActiveChannel) (ua ub : option ChannelUpdate) :
  pair_start al p0 -> rtc pair_step p0 p ->
  holds (inner (chan p.1)) a ua -> holds (inner (chan p.2)) b ub ->
  ((ac_state a = ac_state b /\ ac_signatures a = ac_signatures b) \/
   (exists u, ua = Some u /\ ac_state b = cu_new_state u /\ check_valid_transition a (ac_state b) = Ok tt) \/
   (exists u, ub = Some u /\ ac_state a = cu_new_state u /\ check_valid_transition b (ac_state a) = Ok tt)) /\
  asset_sums (outcome (ac_state a)) = asset_sums al /\ asset_sums (outcome (ac_state b)) = asset_sums al.
Proof.
  intros Hs Hr Ha Hb. set (P (st : State ASSETS PARTICIPANTS) := asset_sums (outcome st) = asset_sums al).
  assert (pair_inv P p) as Hi.
  { apply (run_inv P al p0 p); [|by unfold P; intros st ->|done|done].
    intros st st' Hv Hst. unfold P in *. by rewrite (vt_sums _ _ Hv). }
  split; [exact (pair_inv_agree P p a b ua ub Hi Ha Hb)|exact (pair_inv_property P p a b ua ub Hi Ha Hb)].
Qed.

