(* ===== verification/Lifecycle.v ===== *)
(** * The life of a channel

    Two participants run the demo's channel from the proposal to the closed
    channel: the opening, any sequence of payments the balances allow, the
    normal close, and the acknowledgements of the watchers.  Also what happens
    when a participant replaces an update that is pending (the two ends disagree
    and no message is left that could bring them together), and when both propose
    at the same time (both wait for good). *)
From stdpp Require Import relations.
From S2P Require Import Prelude AbiSpec AbiSer Types Payment PaymentTheorems Sig Messages Wire.
From S2P Require Import ChannelTypes Active Proposal ActiveTheorems ChannelSystem.
From S2P Require Import OpeningTheorems DemoChannel BusRefinement DemoTheorems DemoPair PairTheorems.

Section Lifecycle.
Context `{Pl : Platform} `{U : UintCrate} `{UL : !UintLaws U} `{S : Sha3Crate} `{SL : !Sha3Laws S}.
Context `{I : SignerImpl} `{IL : !SignerLaws I}.

(** Two ends with nothing in transit. *)
Definition quiet (i j : ChannelInner) : two_ends := (mkSide (mkChannel i) [], mkSide (mkChannel j) []).

(** Calls that send nothing. *)
Lemma silent_left i i' j : own_call (mkChannel i, []) (mkChannel i', []) -> pair_step (quiet i j) (quiet i' j).
Proof. intros H. by apply (call_left _ _ _ [] [] [] []). Qed.
Lemma silent_right i j j' : own_call (mkChannel j, []) (mkChannel j', []) -> pair_step (quiet i j) (quiet i j').
Proof. intros H. by apply (call_right _ _ _ [] [] [] []). Qed.

(* ------------------------------------------------------------------ *)
(** ** Payments                                                          *)
(* ------------------------------------------------------------------ *)

(** What [update] demands of a payment, and the balances after it. *)
Definition pay (bals : Z * Z) (payment : PartIdx * U256) : option (Z * Z) :=
  let '(b0, b1) := bals in
  let '(i, amount) := payment in
  let x := u256_val amount in
  if decide (i = 0) then if decide (x <= b1 /\ x <= b0) then Some (b0 - x, b1 + x) else None
  else if decide (i = 1) then if decide (x <= b1) then Some (b0 + x, b1 - x) else None
  else None.

(** Several payments, one after the other. *)
Fixpoint pay_all (bals : Z * Z) (payments : list (PartIdx * U256)) : option (Z * Z) :=
  match payments with
  | [] => Some bals
  | p :: ps => bals' ← pay bals p; pay_all bals' ps
  end.

(** The balances, which fit 256 bits together, and the version of a state that is
    not final. *)
Record funded (st : State ASSETS PARTICIPANTS) (bals : Z * Z) (v : Z) : Prop := {
  funded_bals : channel_balances st = [[bals.1; bals.2]];
  funded_fit : bals.1 + bals.2 < 2 ^ 256;
  funded_open : is_final st = false;
  funded_version : u64_val (version st) = v;
}.

Lemma u64_next {E} v w :
  u64_val v + 1 < 2 ^ 64 -> @u64_add _ E v (u64_wrap 1) = Ok w -> u64_val w = u64_val v + 1.
Proof.
  intros Hf. pose proof (u64_range v) as Hr. unfold fits in Hr. rewrite u64_add_ok by done.
  intros [= <-]. apply u64_wrap_val. change (u64_val (u64_wrap 1)) with 1. lia.
Qed.

Lemma u64_next_ok {E} v : u64_val v + 1 < 2 ^ 64 -> exists w, @u64_add _ E v (u64_wrap 1) = Ok w.
Proof. intros Hf. eexists. by apply u64_add_ok. Qed.

(** One end proposes a transfer, the other one accepts it: both advance. *)
Lemma transfer_run a b (amount : U256) final bals v :
  in_sync a b -> funded (ac_state a) bals v -> v + 1 < 2 ^ 64 ->
  u256_val amount <= bals.2 -> (ac_part_idx a = 0 -> u256_val amount <= bals.1) ->
  exists st sigs,
    rtc pair_step (idle a b) (quiet (advance a st sigs) (advance b st sigs)) /\
    valid_transition (ac_state a) st /\ is_final st = final /\ u64_val (version st) = v + 1 /\
    channel_balances st = moved (ac_part_idx a) bals.1 bals.2 (u256_val amount).
Proof.
  intros Hs [Hb Hfit Hopen Hver] Hv H1 H0. pose proof (in_sync_owned _ _ Hs) as Ha.
  pose proof (in_sync_owned _ _ (in_sync_sym _ _ Hs)) as Hob. pose proof (sync_ends _ _ Hs) as [_ _ Hpar _ Hidx].
  destruct (@u64_next_ok InvalidUpdate (version (ac_state a))) as [w Hw]; [lia|].
  destruct (demo_update_transfer a None ([] : list Sent) amount final _ _ w Ha Hopen Hw Hb Hfit H1 H0)
    as (sig0 & u & Hu & Hac & Hval & Hfin & Hbal). cbn zeta in *.
  destruct (update_proposed a _ _ u Ha (sync_peers_a _ _ Hs) Hac) as (_ & sig & Hp & Hm).
  destruct (deliver_update b a u sig (in_sync_sym _ _ Hs) Hp) as (sigB & outB & HsB & HdB & HmB).
  destruct (deliver_acceptance a b u sig sigB Ha Hob Hpar Hidx Hp HsB) as (outA & HdA & HmA).
  exists (cu_new_state u), (sig_pair (ac_part_idx a) sig sigB). split.
  - eapply rtc_l; [eapply call_left; [exact Hm|by eapply (own_update amount final)]|].
    eapply rtc_l; [by eapply deliver_right; [exact HmB|exact HdB|]|].
    eapply rtc_l; [by eapply deliver_left; [exact HmA|exact HdA|]|]. done.
  - split; [done|]. split; [done|]. split; [|done].
    rewrite <- Hver. eapply u64_next; [lia|]. exact (vt_version _ _ Hval).
Qed.

Lemma funded_sync a b bals v : in_sync a b -> funded (ac_state a) bals v -> funded (ac_state b) bals v.
Proof. intros [[_ _ _ <- _] _ _ _]. done. Qed.

Lemma quiet_swap i j : swap (quiet i j) = quiet j i.
Proof. done. Qed.

(** What [pay] demands is what [update] demands of the participant that pays. *)
Lemma pay_moved bals i amount bals' :
  pay bals (i, amount) = Some bals' ->
  (i = 0 \/ i = 1) /\ u256_val amount <= bals.2 /\ (i = 0 -> u256_val amount <= bals.1) /\
  moved i bals.1 bals.2 (u256_val amount) = [[bals'.1; bals'.2]] /\ bals'.1 + bals'.2 = bals.1 + bals.2.
Proof.
  destruct bals as [b0 b1]. unfold pay, moved. cbn [fst snd]. intros H.
  repeat case_decide; simplify_eq; cbn; split_and!; try done; lia || auto.
Qed.

(** A payment of the left end. *)
Lemma payment_run_left a b amount bals bals' v :
  in_sync a b -> funded (ac_state a) bals v -> v + 1 < 2 ^ 64 ->
  pay bals (ac_part_idx a, amount) = Some bals' ->
  exists a' b', rtc pair_step (idle a b) (idle a' b') /\ in_sync a' b' /\ funded (ac_state a') bals' (v + 1).
Proof.
  intros Hs Hf Hv (_ & H1 & H0 & Hm & Hsum)%pay_moved.
  destruct (transfer_run a b amount false bals v Hs Hf Hv H1 H0) as (st & sigs & Hr & Hval & Hfin & Hver & Hbal).
  unfold advance in Hr. rewrite Hfin in Hr.
  exists (set_state a st sigs), (set_state b st sigs). split; [exact Hr|]. split; [by apply in_sync_advance|].
  split; cbn [ac_state set_state]; [by rewrite Hbal|rewrite Hsum; apply Hf|done|done].
Qed.

(** A payment of either end. *)
Lemma payment_run a b i amount bals bals' v :
  in_sync a b -> funded (ac_state a) bals v -> v + 1 < 2 ^ 64 -> pay bals (i, amount) = Some bals' ->
  exists a' b', rtc pair_step (idle a b) (idle a' b') /\ in_sync a' b' /\ funded (ac_state a') bals' (v + 1).
Proof.
  intros Hs Hf Hv Hp. pose proof (pay_moved _ _ _ _ Hp) as [Hi _].
  pose proof (in_sync_sym _ _ Hs) as Hs'. pose proof (own_part _ (in_sync_owned _ _ Hs)) as Hia.
  pose proof (own_part _ (in_sync_owned _ _ Hs')) as Hib. pose proof (ends_idx _ _ (sync_ends _ _ Hs)) as Hne.
  destruct (decide (i = ac_part_idx a)) as [-> |Hd]; [by eapply payment_run_left|].
  assert (i = ac_part_idx b) as -> by lia.
  destruct (payment_run_left b a amount bals bals' v Hs' (funded_sync _ _ _ _ Hs Hf) Hv Hp)
    as (b' & a' & Hr & Hs2 & Hf2).
  exists a', b'. split; [exact (pair_run_swap _ _ Hr)|]. split; [by apply in_sync_sym|].
  eapply funded_sync; [|exact Hf2]. done.
Qed.

Lemma payments_run a b payments bals bals' v :
  in_sync a b -> funded (ac_state a) bals v -> v + zlen payments < 2 ^ 64 ->
  pay_all bals payments = Some bals' ->
  exists a' b', rtc pair_step (idle a b) (idle a' b') /\ in_sync a' b' /\
    funded (ac_state a') bals' (v + zlen payments).
Proof.
  revert a b bals v. induction payments as [|[i amount] ps IH]; intros a b bals v Hs Hf Hv Hp.
  - injection Hp as <-. exists a, b. split; [done|]. split; [done|]. by rewrite Z.add_0_r.
  - cbn [pay_all] in Hp. rewrite zlen_cons in *. pose proof (zlen_nonneg ps).
    destruct (pay bals (i, amount)) as [mid|] eqn:Hpay; [|done].
    destruct (payment_run a b i amount bals mid v Hs Hf) as (a1 & b1 & Hr1 & Hs1 & Hf1); [lia|exact Hpay|].
    destruct (IH a1 b1 mid (v + 1) Hs1 Hf1) as (a2 & b2 & Hr2 & Hs2 & Hf2); [lia|exact Hp|].
    exists a2, b2. split; [by etrans|]. split; [done|].
    by replace (v + (1 + zlen ps)) with (v + 1 + zlen ps) by lia.
Qed.

Lemma funded_nonneg st bals v : funded st bals v -> 0 <= bals.1 /\ 0 <= bals.2.
Proof.
  intros [Hb _ _ _]. destruct (channel_balances_2 _ _ Hb) as (pb & x & y & _ & _ & [= -> ->]).
  pose proof (u256_range x). pose proof (u256_range y). unfold fits in *. lia.
Qed.

(** Closing: a last update without a transfer, then the replies of the watchers. *)
Lemma normal_close_run a b bals v :
  in_sync a b -> funded (ac_state a) bals v -> v + 1 < 2 ^ 64 ->
  exists a' b', rtc pair_step (idle a b) (quiet (Closing a') (Closing b')) /\ in_sync a' b' /\
    is_final (ac_state a') = true /\ channel_balances (ac_state a') = [[bals.1; bals.2]] /\
    u64_val (version (ac_state a')) = v + 1 /\
    rtc pair_step (quiet (Closing a') (Closing b')) (quiet Closed Closed).
Proof.
  intros Hs Hf Hv.
  assert (u256_val (U256_from 0) = 0) as Hz by (apply u256_from_val; unfold fits; lia).
  destruct (funded_nonneg _ _ _ Hf) as [H0 H1].
  destruct (transfer_run a b (U256_from 0) true bals v Hs Hf Hv) as (st & sigs & Hr & Hval & Hfin & Hver & Hbal);
    [by rewrite Hz|by rewrite Hz|].
  unfold advance in Hr. rewrite Hfin in Hr. exists (set_state a st sigs), (set_state b st sigs).
  split; [exact Hr|]. split; [by apply in_sync_advance|]. cbn [ac_state set_state]. split; [done|].
  split; [|split; [done|]].
  - rewrite Hbal, Hz. unfold moved. case_decide; by rewrite Z.add_0_r, Z.sub_0_r.
  - eapply rtc_l; [apply silent_left|apply rtc_once, silent_right];
      by apply (own_watcher (Ack (id st) (version st)) _ _ (Ok tt)).
Qed.

(* ------------------------------------------------------------------ *)
(** ** Opening                                                           *)
(* ------------------------------------------------------------------ *)

(** The replies of the watcher and the funder make both ends active. *)
Lemma replies_run scA scB :
  rtc pair_step (quiet (Signed scA false false) (Signed scB false false)) (idle (mark_funded scA) (mark_funded scB)).
Proof.
  assert (forall sc i j, rtc pair_step (quiet (Signed sc false false) j) (quiet (Active (mark_funded sc) None) j) /\
    rtc pair_step (quiet i (Signed sc false false)) (quiet i (Active (mark_funded sc) None))) as H.
  { intros sc i j. set (ack := Ack (ac_channel_id (mark_funded sc)) (ac_version (mark_funded sc))).
    set (fd := Funded (ac_channel_id (mark_funded sc))). split; (eapply rtc_l; [|apply rtc_once]).
    - apply silent_left. by apply (own_watcher ack _ _ (Ok tt)).
    - apply silent_left. by apply (own_funder fd _ _ (Ok tt)).
    - apply silent_right. by apply (own_watcher ack _ _ (Ok tt)).
    - apply silent_right. by apply (own_funder fd _ _ (Ok tt)). }
  etrans; [apply (H scA TemporaryInvalidState)|]. apply (H scB _ TemporaryInvalidState).
Qed.

(** The opening runs to two active ends. *)
Lemma opening_run clA clB prop share rA rB :
  valid_signer (cl_signer clA) -> valid_signer (cl_signer clB) ->
  address (cl_signer clA) <> address (cl_signer clB) ->
  prop_participant prop = address (cl_signer clA) -> check_valid_proposal prop = Ok tt ->
  exists lA pcA pcB pcB' lB auB auB1 lB1,
    propose_channel clA prop rA [] = (lA, Ok pcA) /\ for_peer lA = [ChannelProposal prop] /\
    handle_proposal clB prop rB = Ok pcB /\
    pc_accept share (address (cl_signer clB)) (pcB, []) = ((pcB', lB), Ok tt) /\
    pc_build pcB' = Ok auB /\ sign (auB, lB) = ((auB1, lB1), Ok tt) /\
    exists a b, opened_from prop a b /\
      rtc pair_step (mkSide (Channel_new pcA) (for_peer lB1), mkSide (new_agreed_upon auB1) []) (idle a b).
Proof.
  intros HvA HvB Hne Hpart Hcheck.
  destruct (opening_ends clA clB prop share rA rB HvA HvB Hne Hpart Hcheck)
    as (lA & pcA & pcB & pcB' & lB & auB & auB1 & lB1 & H1 & H2 & H3 & H4 & H5 & H6 & a & b & acc & auA & sA & sB
      & Ho & (acc' & oA & _ & HdA & HmA) & (o1 & Hd1 & Hm1) & (o2 & Hd2 & Hm2) & Hm).
  exists lA, pcA, pcB, pcB', lB, auB, auB1, lB1. do 6 (split; [done|]). exists a, b. split; [exact Ho|].
  rewrite <- (ends_state _ _ (sync_ends _ _ (of_sync _ _ _ Ho))) in Hd2. rewrite Hm.
  eapply rtc_l; [by eapply deliver_left; [exact HmA|exact HdA|]|].
  eapply rtc_l; [by eapply deliver_left; [exact Hm1|exact Hd1|]|].
  eapply rtc_l; [by eapply deliver_right; [exact Hm2|exact Hd2|]|].
  apply replies_run.
Qed.

(** The values of the balances of an allocation. *)
Definition allocation_values (a : Allocation ASSETS PARTICIPANTS) : list (list Z) :=
  (fun b => u256_val <$> to_vec (part_bals b)) <$> to_vec (asset_bals (balances a)).

Lemma opened_funded prop a b bals :
  opened_from prop a b -> allocation_values (prop_init_bals prop) = [[bals.1; bals.2]] ->
  bals.1 + bals.2 < 2 ^ 256 -> funded (ac_state a) bals 0.
Proof.
  intros [_ _ Hout Hver Hopen] Hb Hfit. split; [|done..]. unfold channel_balances. by rewrite Hout.
Qed.

(** From two active ends to two closed ones. *)
Lemma use_run a b payments bals bals' v :
  in_sync a b -> funded (ac_state a) bals v -> v + zlen payments + 1 < 2 ^ 64 ->
  pay_all bals payments = Some bals' ->
  exists a' b', rtc pair_step (idle a b) (quiet (Closing a') (Closing b')) /\ in_sync a' b' /\
    is_final (ac_state a') = true /\ allocation_values (outcome (ac_state a')) = [[bals'.1; bals'.2]] /\
    u64_val (version (ac_state a')) = v + zlen payments + 1 /\
    rtc pair_step (quiet (Closing a') (Closing b')) (quiet Closed Closed).
Proof.
  intros Hs Hf Hv Hp. destruct (payments_run a b payments bals bals' v Hs Hf) as (a1 & b1 & Hr1 & Hs1 & Hf1);
    [lia|exact Hp|].
  destruct (normal_close_run a1 b1 bals' _ Hs1 Hf1 Hv) as (a2 & b2 & Hr2 & Hrest).
  exists a2, b2. split; [by etrans|exact Hrest].
Qed.

(* ------------------------------------------------------------------ *)
(** ** Replacing a pending update                                        *)
(* ------------------------------------------------------------------ *)

(** What a successful [update] sends. *)
Lemma demo_update_proposes a up amount final u out :
  owned a -> zlen (ac_peers a) = 2 ->
  demo_update amount final (mkChannel (Active a up), []) = ((mkChannel (Active a (Some u)), out), Ok tt) ->
  exists sig, proposed_by a u sig /\ for_peer out = [offered_msg a u sig].
Proof.
  intros Ha Hl H. destruct (demo_update_cases a up amount final [] _ _ Ha H) as (st & v & b' & Hu & [= <- <-]).
  by destruct (update_proposed a st out u Ha Hl Hu) as (_ & Hex).
Qed.

(** The proposed state is not the current one. *)
Lemma proposed_differs a u sig :
  u64_val (version (ac_state a)) + 2 < 2 ^ 64 -> proposed_by a u sig -> cu_new_state u <> ac_state a.
Proof.
  intros Hv [Hval _ _ _] Heq. assert (u64_val (version (ac_state a)) + 1 < 2 ^ 64) as Hv1 by lia.
  pose proof (u64_next _ _ Hv1 (vt_version _ _ Hval)) as H.
  rewrite Heq in H. lia.
Qed.

(** An update of the version an end already has is refused. *)
Lemma second_update_refused a b u1 u2 sig1 sig2 sigs :
  u64_val (version (ac_state a)) + 2 < 2 ^ 64 -> proposed_by a u1 sig1 -> proposed_by a u2 sig2 ->
  process_participant_msg (offered_msg a u2 sig2) (mkChannel (advance b (cu_new_state u1) sigs), []) =
    ((mkChannel (advance b (cu_new_state u1) sigs), []),
     Err (if is_final (cu_new_state u1) then DemoClosed else HandleUpdate (HU_InvalidUpdate InvalidVersionNumber))).
Proof.
  intros Hv [H1 _ _ _] [H2 _ _ _]. assert (u64_val (version (ac_state a)) + 1 < 2 ^ 64) as Hv1 by lia.
  pose proof (u64_next _ _ Hv1 (vt_version _ _ H1)) as E1.
  assert (u64_val (version (cu_new_state u1)) + 1 < 2 ^ 64) as Hv2 by lia.
  unfold advance. destruct (is_final (cu_new_state u1)) eqn:Hfin; [done|].
  enough (handle_update (set_state b (cu_new_state u1) sigs)
    (mkLedgerChannelUpdate (cu_new_state u2) (ac_part_idx a) sig2) = Err (HU_InvalidUpdate InvalidVersionNumber)) as Hh.
  { unfold process_participant_msg, progress, offered_msg. cbn [inner]. unfold active_update. by rewrite Hh. }
  unfold handle_update, check_valid_transition. cbn [ac_state set_state upd_state].
  rewrite locked_assert. cbn [mbind res_bind]. rewrite valid_assert. cbn [mbind res_bind].
  rewrite decide_False by (intros Hne; apply Hne; by rewrite (vt_id _ _ H1), (vt_id _ _ H2)).
  rewrite Hfin. destruct (@u64_next_ok InvalidUpdate (version (cu_new_state u1)) Hv2) as [w Hw].
  rewrite Hw. cbn [mbind res_bind]. rewrite decide_True; [done|].
  intros Heq. pose proof (vt_version _ _ H1) as V1. rewrite (vt_version _ _ H2) in V1. injection V1 as V1.
  pose proof (u64_next _ _ Hv2 Hw) as E2. rewrite <- Heq, V1 in E2. lia.
Qed.

(** An acceptance whose signature does not verify for the pending update. *)
Lemma wrong_acceptance a b u sigA st sigB :
  in_sync a b -> proposed_by a u sigA ->
  recover_signer (ac_signer a) (state_digest (cu_new_state u)) sigB <> Ok (address (ac_signer b)) ->
  match process_participant_msg (accepted_msg st sigB) (mkChannel (Active a (Some u)), []) with
  | (s, Err _) => s = (mkChannel (Active a (Some u)), [])
  | (_, r) => r = Panic
  end.
Proof.
  intros Hs [Hval Hid Hvec Hsig] Hno. pose proof (in_sync_owned _ _ Hs) as Ha.
  pose proof (in_sync_owned _ _ (in_sync_sym _ _ Hs)) as Hb. pose proof (ends_idx _ _ (sync_ends _ _ Hs)) as Hne.
  pose proof (own_part _ Ha) as Hia. pose proof (own_part _ Hb) as Hib. pose proof usize_pow_ge.
  unfold process_participant_msg, progress, accepted_msg. cbn [inner]. unfold active_accepted.
  rewrite usize_sub_ok by lia. replace (1 - ac_part_idx a) with (ac_part_idx b) by lia.
  set (msg := mkLedgerChannelUpdateAccepted _ _ _).
  assert (update_signed a u) as Hus.
  { intros j s. rewrite Hvec. intros [(<- & [= <-] & _)|(_ & Hj)]%list_lookup_insert_Some.
    - exists (address (ac_signer a)). split; [apply Ha|apply Hsig].
    - destruct j as [|[|j]]; cbn in Hj; simplify_eq. }
  destruct (cu_participant_accepted a (ac_part_idx b) msg u) as [u' r] eqn:Hacc.
  destruct (cu_participant_accepted_sound a u u' (ac_part_idx b) msg r Hus Hacc)
    as [[-> Hr]|(_ & _ & Hst & Hus' & Hvec')]; [by destruct r as [[]| |]|].
  exfalso. apply Hno. destruct (Hus' (Z.to_nat (ac_part_idx b)) sigB) as (addr & Haddr & Hrec).
  { rewrite Hvec', Hvec. apply list_lookup_insert_eq. rewrite length_insert. cbn. lia. }
  rewrite (ends_params _ _ (sync_ends _ _ Hs)), (own_addr _ Hb) in Haddr. injection Haddr as <-.
  unfold signed_by in Hrec. by rewrite Hst in Hrec.
Qed.

(* ------------------------------------------------------------------ *)
(** ** Two updates at the same time                                      *)
(* ------------------------------------------------------------------ *)

(** An end that waits for an acceptance that nobody will send, or has left. *)
Definition waits_for (a : ActiveChannel) (u : ChannelUpdate) (s : side) : Prop :=
  held (inner (chan s)) a (Some u) /\ inbox s = [].

Lemma waiting_left_step a u b v l r p' :
  owned a -> zlen (ac_peers a) = 2 -> waits_for a u l -> waits_for b v r -> left_step (l, r) p' ->
  waits_for a u p'.1 /\ waits_for b v p'.2.
Proof.
  intros Ho Hl [Hh Hq] [Hh' Hq'] H. inversion H as [c c' q out r' Hc|c c' m q out res r' Hd Hr]; subst;
    cbn [chan inbox] in *; [|done]. subst q.
  destruct (own_call_effect c c' out a (Some u) Hc Hh Ho Hl) as [[He Hm]|(? & _)]; [|done].
  split; [done|]. split; [done|]. cbn [fst snd inbox]. by rewrite Hm, Hq'.
Qed.

Lemma waiting_forever a u b v p p' :
  in_sync a b -> rtc pair_step p p' -> waits_for a u p.1 -> waits_for b v p.2 ->
  waits_for a u p'.1 /\ waits_for b v p'.2.
Proof.
  intros Hs Hr. pose proof (in_sync_owned _ _ Hs) as Ha. pose proof (in_sync_owned _ _ (in_sync_sym _ _ Hs)) as Hb.
  induction Hr as [p|[l r] [l' r'] z Hxy _ IH]; intros Hl Hr'; [done|]. cbn [fst snd] in *.
  destruct Hxy as [H|H].
  - destruct (waiting_left_step a u b v l r _ Ha (sync_peers_a _ _ Hs) Hl Hr' H). by apply IH.
  - destruct (waiting_left_step b v a u r l _ Hb (sync_peers_b _ _ Hs) Hr' Hl H). by apply IH.
Qed.

End Lifecycle.

(* ------------------------------------------------------------------ *)
(** ** What the participants rely on                                     *)
(* ------------------------------------------------------------------ *)



(** C21: when both participants propose an update before they have received the
    one of the other, each refuses it with an error and keeps its own pending.
    From then on nothing is in transit, and whatever the two do, as long as they
    do not replace their updates, no message is sent and neither ever holds
    another state: the channel can only be closed by force. *)
Theorem crossed_updates_deadlock `{Pl : Platform} `{U : UintCrate} `{UL : !UintLaws U} `{S : Sha3Crate}
    `{SL : !Sha3Laws S} `{I : SignerImpl} `{IL : !SignerLaws I} (a b : ActiveChannel)
    (amount1 amount2 : U256) (final1 final2 : bool) (out1 out2 : list Sent) (u1 u2 : ChannelUpdate) :
  in_sync a b ->
  demo_update amount1 final1 (mkChannel (Active a None), []) = ((mkChannel (Active a (Some u1)), out1), Ok tt) ->
  demo_update amount2 final2 (mkChannel (Active b None), []) = ((mkChannel (Active b (Some u2)), out2), Ok tt) ->
  exists m1 m2, for_peer out1 = [m1] /\ for_peer out2 = [m2] /\
    process_participant_msg m2 (mkChannel (Active a (Some u1)), []) =
      ((mkChannel (Active a (Some u1)), []), Err InvalidState) /\
    process_participant_msg m1 (mkChannel (Active b (Some u2)), []) =
      ((mkChannel (Active b (Some u2)), []), Err InvalidState) /\
    rtc pair_step (idle a b) (quiet (Active a (Some u1)) (Active b (Some u2))) /\
    forall p, rtc pair_step (quiet (Active a (Some u1)) (Active b (Some u2))) p ->
      inbox p.1 = [] /\ inbox p.2 = [] /\
      (forall x ux, holds (inner (chan p.1)) x ux -> x = a /\ ux = Some u1) /\
      (forall x ux, holds (inner (chan p.2)) x ux -> x = b /\ ux = Some u2).
Proof.
  intros Hs H1 H2. pose proof (in_sync_owned _ _ Hs) as Ha. pose proof (in_sync_owned _ _ (in_sync_sym _ _ Hs)) as Hb.
  destruct (demo_update_proposes a None amount1 final1 u1 out1 Ha (sync_peers_a _ _ Hs) H1) as (sig1 & Hp1 & Hm1).
  destruct (demo_update_proposes b None amount2 final2 u2 out2 Hb (sync_peers_b _ _ Hs) H2) as (sig2 & Hp2 & Hm2).
  exists (offered_msg a u1 sig1), (offered_msg b u2 sig2). split; [done|]. split; [done|].
  split; [done|]. split; [done|]. split.
  - eapply rtc_l; [eapply call_left; [exact Hm1|by eapply (own_update amount1 final1)]|].
    eapply rtc_l; [eapply call_right; [exact Hm2|by eapply (own_update amount2 final2)]|].
    eapply rtc_l; [by eapply deliver_left; [reflexivity|reflexivity|]|].
    eapply rtc_l; [by eapply deliver_right; [reflexivity|reflexivity|]|]. done.
  - intros p Hr. destruct (waiting_forever a u1 b u2 _ p Hs Hr) as [[Hl Hql] [Hr' Hqr]];
      [by split; [left; constructor|]|by split; [left; constructor|]|].
    split; [done|]. split; [done|]. split; intros x ux Hx.
    + by destruct (held_holds _ _ _ _ _ Hl Hx) as [-> ->].
    + by destruct (held_holds _ _ _ _ _ Hr' Hx) as [-> ->].
Qed.
