(* ===== verification/Application.v ===== *)
(** * The demo's application

    Model of src/cortex-m-demo/src/application.rs: the state machine that sets
    up the connections, proposes or accepts a channel and forwards messages to
    it, and of the body of the main loop of src/cortex-m-demo/src/main.rs.  The
    world [B] is the network interface together with the bus over it; the
    random number generator and the protobuf decoder are parameters. *)
From S2P Require Import Prelude AbiSer Types PerunWire Payment Sig Messages Wire ChannelTypes Active Proposal.
From S2P Require Import DemoChannel Button Net.

Section Application.
Context `{Pl : Platform} `{U : UintCrate} `{S : Sha3Crate} `{I : SignerImpl}.
Context {B : Type} `{HB : !MessageBus B} `{T : !TcpStack B}.
Context {R : Type} `{HR : !RngCore R}.
Context {DE : Type} `{PE : !ProstDecode DE perunwire.Envelope} `{PM : !ProstDecode DE perunwire.Message}.

(* ------------------------------------------------------------------ *)
(** ** Data                                                              *)
(* ------------------------------------------------------------------ *)

Definition MAX_MESSAGE_SIZE : Z := 510.

Record Config : Type := mkConfig {
  config_server : Endpoint;
  other_participant : Endpoint;
  service_server : Endpoint;
  listen_port : Z;
  cfg_participants : array string 2;
}.

Inductive ApplicationState : Type :=
  | InitialState
  | ConnectingToConfigDealer
  | ClosingSockets (eth_holder withdraw_receiver : Address)
  | Listening (eth_holder withdraw_receiver : Address)
  | WaitForProposal (eth_holder withdraw_receiver : Address)
  | Connecting (eth_holder withdraw_receiver : Address)
  | WaitForHandshake (eth_holder withdraw_receiver : Address)
  | ActiveState (eth_holder withdraw_receiver : Address) (channel : Channel).

Record Application : Type := mkApplication {
  app_state : ApplicationState;
  app_participant_handle : SocketHandle;
  app_service_handle : SocketHandle;
  app_config : Config;
  app_rng : R;
  app_client : PerunClient;
  app_addr : Address;
}.

Inductive AppError : Type :=
  | Network (e : NetError)
  | AppInvalidProposal (e : InvalidProposal)
  | ProstDecodeError (e : DE)
  | EnvelopeHasNoMsg
  | UnexpectedMsg
  | AppConversionError (e : ConversionError)
  | ChannelError (e : DemoError)
  | AppInvalidState
  | MessageLargerThanRxBuffer (n : Z)
  | AppProposalBuildError (e : ProposalBuildError)
  | AppSignError (e : SignError).

Inductive ServiceReplyMessage : Type :=
  | Watcher (msg : WatcherReplyMessage)
  | Funder (msg : FunderReplyMessage).

(** [Application::new]. *)
Definition Application_new (participant_handle service_handle : SocketHandle) (config : Config) (rng : R)
    (addr : Address) (client : PerunClient) : Application :=
  mkApplication InitialState participant_handle service_handle config rng client addr.

(** The fields the methods assign to. *)
Definition set_app_state (s : ApplicationState) (self : Application) : Application :=
  mkApplication s (app_participant_handle self) (app_service_handle self) (app_config self) (app_rng self)
    (app_client self) (app_addr self).
Definition set_rng (r : R) (self : Application) : Application :=
  mkApplication (app_state self) (app_participant_handle self) (app_service_handle self) (app_config self) r
    (app_client self) (app_addr self).

(** The methods run on the application and the world. *)
Abbreviation A := (M (Application * B) AppError).

Definition go_to (s : ApplicationState) : A unit := fun '(self, b) => ((set_app_state s self, b), Ok tt).
Definition net_do (f : B -> B) : A unit := fun '(self, b) => ((self, f b), Ok tt).
Definition net {X} (m : M B NetError X) : A X := on_snd (mmap_err Network m).

(* ------------------------------------------------------------------ *)
(** ** Receiving                                                         *)
(* ------------------------------------------------------------------ *)

(** [try_recv]: the next frame, if all of it has arrived.  A frame is only
    removed from the receive buffer as a whole. *)
Definition try_recv {X} `{ProstDecode DE X} (handle : SocketHandle) : M B AppError (option X) :=
  socket ← mget;
  if decide (recv_queue handle socket < 2) then mret None
  else
    buf_msg_length ← mmap_err Network (peek_slice handle 2);
    if decide (zlen buf_msg_length < 2) then mpanic
    else
      let length := be_val buf_msg_length in
      socket ← mget;
      if decide (2 + length > recv_capacity handle socket) then mthrow (MessageLargerThanRxBuffer (2 + length))
      else if decide (recv_queue handle socket < 2 + length) then mret None
      else
        read ← mmap_err Network (recv handle (fun x => let len := Z.min (zlen x) 2 in (len, len)));
        (if decide (read <> 2) then mmap_err Network (recv handle (fun _ => (2 - read, tt))) else mret tt);;
        if decide (MAX_MESSAGE_SIZE < length) then mpanic
        else
          buf ← mmap_err Network (recv_slice handle length);
          if decide (zlen buf <> length) then mpanic
          else
            env ← mlift (map_err ProstDecodeError (prost_decode buf));
            mret (Some env).

(** [Hash(b.try_into().unwrap())]. *)
Definition hash_unwrap {E} (b : bytes) : res E Hash := unwrap (array_try_from b).

Definition participant_msg (msg : perunwire.envelope_Msg) : res AppError ParticipantMessage :=
  match msg with
  | perunwire.AuthResponseMsg => Ok Auth
  | perunwire.Envelope_LedgerChannelProposalMsg m =>
      ChannelProposal <$> map_err AppConversionError (LedgerChannelProposal_try_from m)
  | perunwire.Envelope_LedgerChannelProposalAccMsg m =>
      ProposalAccepted <$> map_err AppConversionError (LedgerChannelProposalAcc_try_from m)
  | perunwire.Envelope_ChannelProposalRejMsg m =>
      id ← hash_unwrap (perunwire.ChannelProposalRejMsg_proposal_id m);
      Ok (ProposalRejected id (perunwire.ChannelProposalRejMsg_reason m))
  | perunwire.Envelope_ChannelUpdateMsg m =>
      ChannelUpdateMsg <$> map_err AppConversionError (LedgerChannelUpdate_try_from m)
  | perunwire.Envelope_ChannelUpdateAccMsg m =>
      ChannelUpdateAccepted <$> map_err AppConversionError (LedgerChannelUpdateAccepted_try_from m)
  | perunwire.Envelope_ChannelUpdateRejMsg m =>
      id ← hash_unwrap (perunwire.ChannelUpdateRejMsg_channel_id m);
      Ok (ChannelUpdateRejected id (perunwire.ChannelUpdateRejMsg_version m)
            (perunwire.ChannelUpdateRejMsg_reason m))
  | _ => Panic
  end.

Definition try_recv_participant_msg : A (option ParticipantMessage) :=
  '(self, _) ← mget;
  env ← on_snd (try_recv (X:=perunwire.Envelope) (app_participant_handle self));
  match env with
  | None => mret None
  | Some env =>
      msg ← mlift (ok_or EnvelopeHasNoMsg (perunwire.Envelope_msg env));
      msg ← mlift (participant_msg msg);
      mret (Some msg)
  end.

Definition service_msg (msg : perunwire.message_Msg) : res AppError ServiceReplyMessage :=
  match msg with
  | perunwire.Msg_FundResp m => Ok (Funder (Funded (array_repeat 32 x00)))
  | perunwire.Msg_WatchResponse m =>
      id ← hash_unwrap (perunwire.WatchResponseMsg_channel_id m);
      Ok (Watcher (Ack id (perunwire.WatchResponseMsg_version m)))
  | perunwire.Msg_ForceCloseResponse m =>
      id ← hash_unwrap (perunwire.ForceCloseResponseMsg_channel_id m);
      Ok (Watcher (DisputeAck id))
  | perunwire.Msg_DisputeNotification m =>
      id ← hash_unwrap (perunwire.DisputeNotification_channel_id m);
      Ok (Watcher (DisputeNotification id))
  | _ => Panic
  end.

Definition try_recv_service_msg : A (option ServiceReplyMessage) :=
  '(self, _) ← mget;
  env ← on_snd (try_recv (X:=perunwire.Message) (app_service_handle self));
  match env with
  | None => mret None
  | Some env =>
      msg ← mlift (ok_or EnvelopeHasNoMsg (perunwire.Message_msg env));
      msg ← mlift (service_msg msg);
      mret (Some msg)
  end.

(* ------------------------------------------------------------------ *)
(** ** Setting up                                                        *)
(* ------------------------------------------------------------------ *)

Definition MIN_PORT : Z := 49152.
Definition MAX_PORT : Z := 65535.

(** [get_ethemeral_port]. *)
Definition get_ethemeral_port : A Z := fun '(self, b) =>
  let (r, n) := next_u32 (app_rng self) in
  ((set_rng r self, b), Ok (MIN_PORT + (n mod 2 ^ 16) mod (MAX_PORT - MIN_PORT))).

(** [self.rng.gen()] of a 32-byte type. *)
Definition gen {E} : M (Application * B) E (bytesN 32) := fun '(self, b) =>
  let (r, v) := gen_bytes32 (app_rng self) in ((set_rng r self, b), Ok v).

Definition connect_config_dealer : A unit :=
  '(self, _) ← mget;
  port ← get_ethemeral_port;
  net (connect (app_participant_handle self) (config_server (app_config self)) port);;
  go_to ConnectingToConfigDealer.

(** The two addresses of the configuration, if they have arrived. *)
Definition read_config (x : bytes) : Z * option (Address * Address) :=
  match array_try_from (take 20 x), array_try_from (take 20 (drop 20 x)) with
  | Some eth_holder, Some withdraw_receiver => (40, Some (mkAddress eth_holder, mkAddress withdraw_receiver))
  | _, _ => (0, None)
  end.

Definition wait_connected_and_read_config : A unit :=
  '(self, b) ← mget;
  let handle := app_participant_handle self in
  if is_active handle b && can_recv handle b then
    r ← net (recv handle read_config);
    match r with
    | Some (eth_holder, withdraw_receiver) =>
        go_to (ClosingSockets eth_holder withdraw_receiver);;
        net_do (close handle)
    | None => mret tt
    end
  else mret tt.

Definition wait_connections_closed (eth_holder withdraw_receiver : Address) : A unit :=
  '(self, b) ← mget;
  if negb (is_active (app_service_handle self) b) && negb (is_active (app_participant_handle self) b) then
    net (listen (app_participant_handle self) (listen_port (app_config self)));;
    go_to (Listening eth_holder withdraw_receiver)
  else mret tt.

Definition PEER0 : Identity :=
  [x7b; x7e; x21; x26; x52; xb9; xc3; x75; x5c; x4e; x1f; x17; x18; xa1; x42; xdd; xe3; x81; x75; x23].

Definition check_incomming_connection (eth_holder withdraw_receiver : Address) : A unit :=
  '(self, b) ← mget;
  if negb (is_open (app_participant_handle self) b) || negb (may_recv (app_participant_handle self) b) then mret tt
  else
    env ← on_snd (try_recv (X:=perunwire.Envelope) (app_participant_handle self));
    match env with
    | None => mret tt
    | Some env =>
        match perunwire.Envelope_msg env with
        | Some perunwire.AuthResponseMsg =>
            on_snd (send_handshake_msg (app_client self) PEER0 (perunwire.Envelope_sender env));;
            port ← get_ethemeral_port;
            net (connect (app_service_handle self) (service_server (app_config self)) port);;
            go_to (WaitForProposal eth_holder withdraw_receiver)
        | Some _ => mthrow UnexpectedMsg
        | None => mthrow AppInvalidState
        end
    end.

(** [channel.accept(..).unwrap()]. *)
Definition accept_unwrap (share : NonceShare) (channel : ProposedChannel) : A ProposedChannel := fun '(self, b) =>
  match pc_accept share (app_addr self) (channel, b) with
  | ((channel, b), Ok _) => ((self, b), Ok channel)
  | ((_, b), _) => ((self, b), Panic)
  end.

(** [channel.sign()?]. *)
Definition sign_agreed (channel : AgreedUponChannel) : A AgreedUponChannel := fun '(self, b) =>
  let '((channel, b), r) := sign (channel, b) in
  ((self, b), map_err AppSignError ((fun _ => channel) <$> r)).

(** What is done with a proposal: it is accepted, built and signed at once. *)
Definition take_proposal (prop : LedgerChannelProposal) (withdraw_receiver : Address) : A AgreedUponChannel :=
  '(self, _) ← mget;
  channel ← mlift (map_err AppInvalidProposal (handle_proposal (app_client self) prop withdraw_receiver));
  share ← gen;
  channel ← accept_unwrap share channel;
  channel ← mlift (map_err (fun '(_, e) => AppProposalBuildError e) (pc_build channel));
  sign_agreed channel.

Definition wait_connected_and_proposal_msg (eth_holder withdraw_receiver : Address) : A unit :=
  '(self, b) ← mget;
  if negb (is_open (app_service_handle self) b) then mret tt
  else
    msg ← try_recv_participant_msg;
    match msg with
    | Some (ChannelProposal prop) =>
        channel ← take_proposal prop withdraw_receiver;
        go_to (ActiveState eth_holder withdraw_receiver (new_agreed_upon channel))
    | Some _ => mthrow AppInvalidState
    | None => mret tt
    end.

(** [connect]. *)
Definition connect_peers (eth_holder withdraw_receiver : Address) : A unit :=
  '(self, b) ← mget;
  (if is_listening (app_participant_handle self) b then net_do (abort (app_participant_handle self)) else mret tt);;
  port ← get_ethemeral_port;
  net (connect (app_participant_handle self) (other_participant (app_config self)) port);;
  port ← get_ethemeral_port;
  net (connect (app_service_handle self) (service_server (app_config self)) port);;
  go_to (Connecting eth_holder withdraw_receiver).

(** The wire identities of the participants. *)
Definition config_peers (c : Config) : Peers := String.list_byte_of_string <$> to_vec (cfg_participants c).

Definition wait_connected_and_send_handshake (eth_holder withdraw_receiver : Address) : A unit :=
  '(self, b) ← mget;
  let psocket := app_participant_handle self in
  if is_active psocket b && may_recv psocket b && may_send psocket b then
    sender ← mlift (vec_index (config_peers (app_config self)) 0);
    recipient ← mlift (vec_index (config_peers (app_config self)) 1);
    on_snd (send_handshake_msg (app_client self) sender recipient);;
    go_to (WaitForHandshake eth_holder withdraw_receiver)
  else mret tt.

Definition init_balance : Balances ASSETS PARTICIPANTS :=
  mkBalances (mk_array [mkParticipantBalances (mk_array [U256_from 100000; U256_from 100000] eq_refl)] eq_refl).

Definition demo_proposal (self : Application) (proposal_id : Hash) (nonce_share : NonceShare) (eth_holder : Address)
    : LedgerChannelProposal :=
  mkLedgerChannelProposal proposal_id (u64_wrap 25) nonce_share
    (Allocation_new (mk_array [mkAsset eth_holder] eq_refl) init_balance) init_balance (app_addr self)
    (config_peers (app_config self)).

Definition send_channel_proposal (eth_holder withdraw_receiver : Address) : A unit :=
  '(self, _) ← mget;
  proposal_id ← gen;
  nonce_share ← gen;
  channel ← on_snd (mmap_err AppInvalidProposal
    (propose_channel (app_client self) (demo_proposal self proposal_id nonce_share eth_holder) withdraw_receiver));
  go_to (ActiveState eth_holder withdraw_receiver (Channel_new channel)).

Definition wait_handshake_and_propose_channel (eth_holder withdraw_receiver : Address) : A unit :=
  msg ← try_recv_participant_msg;
  match msg with
  | Some Auth => send_channel_proposal eth_holder withdraw_receiver
  | Some _ => mthrow UnexpectedMsg
  | None => mret tt
  end.

(* ------------------------------------------------------------------ *)
(** ** With a channel                                                    *)
(* ------------------------------------------------------------------ *)

(** A method of the channel of an active application; the channel is changed in
    place, also when the method fails. *)
Definition on_channel {X} (m : M (Channel * B) DemoError X) (other : A X) : A X := fun '(self, b) =>
  match app_state self with
  | ActiveState eth_holder withdraw_receiver channel =>
      let '((channel, b), r) := m (channel, b) in
      ((set_app_state (ActiveState eth_holder withdraw_receiver channel) self, b), map_err ChannelError r)
  | _ => other (self, b)
  end.

(** The sockets are closed after the channel has closed. *)
Definition close_if_closed : A unit :=
  '(self, _) ← mget;
  match app_state self with
  | ActiveState eth_holder withdraw_receiver channel =>
      if is_closed channel then
        net_do (close (app_participant_handle self));;
        net_do (close (app_service_handle self));;
        go_to (ClosingSockets eth_holder withdraw_receiver)
      else mret tt
  | _ => mret tt
  end.

Definition forward_messages {X} (recv_fn : A (option X)) (process_fn : X -> M (Channel * B) DemoError unit)
    : A bool :=
  msg ← recv_fn;
  match msg with
  | Some msg =>
      on_channel (process_fn msg) mpanic;;
      close_if_closed;;
      mret true
  | None => mret false
  end.

Definition process_service_msg (msg : ServiceReplyMessage) : M (Channel * B) DemoError unit :=
  match msg with
  | Funder msg => process_funder_reply msg
  | Watcher msg => process_watcher_reply msg
  end.

Definition forward_messages_to_channel : A unit :=
  has_participant_msg ← forward_messages try_recv_participant_msg process_participant_msg;
  if has_participant_msg : bool then mret tt
  else
    forward_messages try_recv_service_msg process_service_msg;;
    mret tt.

(* ------------------------------------------------------------------ *)
(** ** The methods                                                       *)
(* ------------------------------------------------------------------ *)

Definition poll : A unit :=
  '(self, _) ← mget;
  match app_state self with
  | InitialState => connect_config_dealer
  | ConnectingToConfigDealer => wait_connected_and_read_config
  | ClosingSockets eth_holder withdraw_receiver => wait_connections_closed eth_holder withdraw_receiver
  | Listening eth_holder withdraw_receiver => check_incomming_connection eth_holder withdraw_receiver
  | WaitForProposal eth_holder withdraw_receiver => wait_connected_and_proposal_msg eth_holder withdraw_receiver
  | Connecting eth_holder withdraw_receiver => wait_connected_and_send_handshake eth_holder withdraw_receiver
  | WaitForHandshake eth_holder withdraw_receiver => wait_handshake_and_propose_channel eth_holder withdraw_receiver
  | ActiveState _ _ _ => forward_messages_to_channel
  end.

Definition app_update (amount : U256) (final : bool) : A unit :=
  on_channel (demo_update amount final) (mthrow AppInvalidState).

Definition app_force_close : A unit := on_channel demo_force_close (mthrow AppInvalidState).

Definition app_propose_channel : A unit :=
  '(self, _) ← mget;
  match app_state self with
  | Listening eth_holder withdraw_receiver => connect_peers eth_holder withdraw_receiver
  | _ => mthrow AppInvalidState
  end.

End Application.
