(* ===== verification/ApplicationTheorems.v ===== *)
(** * The demo's application: theorems

    How the frames of the byte stream are received, the states the application
    goes through, and what holds of its channel in every reachable state. *)
From stdpp Require Import relations.
From S2P Require Import Prelude AbiSpec AbiSer Types PerunWire Payment PaymentTheorems Sig Messages Wire.
From S2P Require Import WireTheorems ChannelTypes Active Proposal ActiveTheorems ChannelSystem.
From S2P Require Import OpeningTheorems DemoChannel Net BusRefinement DemoTheorems Application.

(* ------------------------------------------------------------------ *)
(** ** Receiving frames                                                  *)
(* ------------------------------------------------------------------ *)

Section Receive.
Context `{I : SignerImpl} {B : Type} `{T : !TcpStack B} `{L : !TcpLaws B} {DE X : Type} `{PX : !ProstDecode DE X}.

(** The bytes of a frame. *)
Definition frame (payload : bytes) : bytes := be_bytes 2 (zlen payload) ++ payload.

Lemma zlen_frame payload : zlen (frame payload) = 2 + zlen payload.
Proof. unfold frame. rewrite zlen_app. unfold zlen at 1. by rewrite be_bytes_length. Qed.

(** Two bytes of the buffer lie before the end of the ring. *)
Definition header_contiguous (h : SocketHandle) (b : B) : Prop := (2 <= contiguous h b)%nat.

Lemma take_zlen {Y} n (l : list Y) : 0 <= n -> zlen (take (Z.to_nat n) l) = Z.min n (zlen l).
Proof. intros Hn. unfold zlen. rewrite length_take. lia. Qed.

(** The two bytes that are peeked. *)
Lemma peek_header h (b : B) :
  may_recv h b = true -> header_contiguous h b -> 2 <= zlen (rx h b) ->
  peek_slice h 2 b = (b, Ok (take 2 (rx h b))) /\ zlen (take 2 (rx h b)) = 2.
Proof.
  intros Hm Hc Hl. rewrite peek_slice_spec by done. unfold header_contiguous in Hc.
  replace (Z.to_nat 2 `min` contiguous h b)%nat with 2%nat by lia. split; [done|].
  change 2%nat with (Z.to_nat 2). rewrite take_zlen; lia.
Qed.

(** Fewer than two bytes: nothing happens. *)
Lemma try_recv_short h (b : B) :
  zlen (rx h b) < 2 -> try_recv (X:=X) (DE:=DE) h b = (b, Ok None).
Proof. intros Hl. unfold try_recv. mrun. by rewrite recv_queue_spec, decide_True by done. Qed.

(** The header of a frame is there. *)
Lemma try_recv_header h (b : B) payload rest :
  may_recv h b = true -> header_contiguous h b -> zlen payload < 2 ^ 16 ->
  2 <= zlen (rx h b) -> (exists more, rx h b ++ more = frame payload ++ rest) ->
  take 2 (rx h b) = be_bytes 2 (zlen payload) /\ be_val (take 2 (rx h b)) = zlen payload.
Proof.
  intros Hm Hc Hp Hl [more Hs].
  assert (take 2 (rx h b) = be_bytes 2 (zlen payload)) as Ht.
  { apply (f_equal (take 2)) in Hs. rewrite take_app_le in Hs by (unfold zlen in Hl; lia).
    rewrite Hs. unfold frame. rewrite <- app_assoc. apply frame_take. }
  split; [done|]. rewrite Ht. apply frame_length_val. split; [apply zlen_nonneg|done].
Qed.

Lemma stream_take (l k : bytes) more rest : l ++ more = k ++ rest -> zlen k <= zlen l -> l = k ++ drop (length k) l.
Proof.
  intros Hs Hl. rewrite <- (take_drop (length k) l) at 1. f_equal.
  apply (f_equal (take (length k))) in Hs. rewrite take_app_length in Hs.
  rewrite take_app_le in Hs by (unfold zlen in Hl; lia). done.
Qed.

(** A complete frame is taken from the buffer. *)
Lemma try_recv_complete h (b : B) payload tail :
  may_recv h b = true -> header_contiguous h b ->
  payload <> [] -> zlen payload <= MAX_MESSAGE_SIZE -> 2 + zlen payload <= recv_capacity h b ->
  rx h b = frame payload ++ tail ->
  exists b', rx h b' = tail /\
    try_recv (X:=X) (DE:=DE) h b = (b', Some <$> map_err ProstDecodeError (prost_decode payload)).
Proof.
  intros Hm Hc Hne Hmax Hcap Hrx. unfold MAX_MESSAGE_SIZE in Hmax. pose proof (zlen_nonneg tail) as Ht0.
  pose proof (zlen_nonneg payload) as Hp0.
  assert (zlen (rx h b) = 2 + zlen payload + zlen tail) as Hlen by by rewrite Hrx, zlen_app, zlen_frame.
  destruct (try_recv_header h b payload tail Hm Hc) as [Htake Hval]; [lia|lia|by exists []; rewrite app_nil_r|].
  destruct (peek_header h b Hm Hc) as [Hpeek Hpl]; [lia|].
  destruct (recv_spec h (fun x : bytes => let len := Z.min (zlen x) 2 in (len, len)) b Hm) as (b1 & Hr & Hrx1 & Hm1).
  { cbn zeta. cbn [fst]. pose proof (zlen_nonneg (take (contiguous h b) (rx h b))). lia. }
  cbn [fst snd] in Hr, Hrx1.
  assert (Z.min (zlen (take (contiguous h b) (rx h b))) 2 = 2) as Hmin.
  { unfold header_contiguous in Hc. unfold zlen in *. rewrite length_take. lia. }
  cbn zeta in Hr, Hrx1. rewrite Hmin in Hr, Hrx1. rewrite Hrx in Hrx1. unfold frame in Hrx1.
  rewrite <- app_assoc in Hrx1. change (Z.to_nat 2) with 2%nat in Hrx1. rewrite frame_drop in Hrx1.
  assert (may_recv h b1 = true) as Hm1'.
  { apply Hm1. rewrite Hrx1. destruct payload; done. }
  destruct (recv_slice_spec h (zlen payload) b1 Hm1' Hp0) as (b2 & Hr2 & Hrx2).
  rewrite Hrx1 in Hr2, Hrx2. unfold zlen in Hr2 at 2. unfold zlen in Hrx2 at 1.
  rewrite Nat2Z.id in Hr2, Hrx2. rewrite take_app_length in Hr2. rewrite drop_app_length in Hrx2.
  exists b2. split; [done|]. unfold try_recv. mrun. rewrite recv_queue_spec, decide_False by lia.
  erewrite M_bind_ok by (unfold mmap_err; by rewrite Hpeek). rewrite decide_False by lia. mrun.
  rewrite Hval, decide_False by lia. rewrite recv_queue_spec, decide_False by lia.
  erewrite M_bind_ok by (unfold mmap_err; by rewrite Hr).
  destruct (decide (2 <> 2)) as [Hn|_]; [by destruct Hn|].
  erewrite M_bind_ok by reflexivity. unfold MAX_MESSAGE_SIZE. rewrite decide_False by lia.
  erewrite M_bind_ok by (unfold mmap_err; by rewrite Hr2).
  destruct (decide (zlen payload <> zlen payload)) as [Hn|_]; [by destruct Hn|].
  destruct (prost_decode payload); by mrun.
Qed.

(** An incomplete frame stays where it is. *)
Lemma try_recv_incomplete h (b : B) payload more rest :
  may_recv h b = true -> header_contiguous h b ->
  zlen payload < 2 ^ 16 -> 2 + zlen payload <= recv_capacity h b ->
  rx h b ++ more = frame payload ++ rest -> zlen (rx h b) < 2 + zlen payload ->
  try_recv (X:=X) (DE:=DE) h b = (b, Ok None).
Proof.
  intros Hm Hc Hp Hcap Hs Hl. destruct (decide (zlen (rx h b) < 2)) as [|H2]; [by apply try_recv_short|].
  destruct (try_recv_header h b payload rest Hm Hc) as [Htake Hval]; [done|lia|by exists more|].
  destruct (peek_header h b Hm Hc) as [Hpeek Hpl]; [lia|].
  unfold try_recv. mrun. rewrite recv_queue_spec, decide_False by lia.
  erewrite M_bind_ok by (unfold mmap_err; by rewrite Hpeek). rewrite decide_False by lia. mrun.
  rewrite Hval, decide_False by lia. by rewrite recv_queue_spec, decide_True by lia.
Qed.

(** A frame the buffer can never hold. *)
Lemma try_recv_too_large h (b : B) payload more rest :
  may_recv h b = true -> header_contiguous h b ->
  zlen payload < 2 ^ 16 -> recv_capacity h b < 2 + zlen payload ->
  rx h b ++ more = frame payload ++ rest -> 2 <= zlen (rx h b) ->
  try_recv (X:=X) (DE:=DE) h b = (b, Err (MessageLargerThanRxBuffer (2 + zlen payload))).
Proof.
  intros Hm Hc Hp Hcap Hs Hl.
  destruct (try_recv_header h b payload rest Hm Hc) as [Htake Hval]; [done|lia|by exists more|].
  destruct (peek_header h b Hm Hc) as [Hpeek Hpl]; [lia|].
  unfold try_recv. mrun. rewrite recv_queue_spec, decide_False by lia.
  erewrite M_bind_ok by (unfold mmap_err; by rewrite Hpeek). rewrite decide_False by lia. mrun.
  by rewrite Hval, decide_True by lia.
Qed.

End Receive.

(* ------------------------------------------------------------------ *)
(** ** The stream of the peer                                            *)
(* ------------------------------------------------------------------ *)


(* ------------------------------------------------------------------ *)
(** ** The states of the application                                     *)
(* ------------------------------------------------------------------ *)

Section App.
Context `{Pl : Platform} `{U : UintCrate} `{UL : !UintLaws U} `{S : Sha3Crate} `{SL : !Sha3Laws S}.
Context `{I : SignerImpl} `{IL : !SignerLaws I}.
Context {B : Type} `{HB : !MessageBus B} `{LB : !LawfulBus B} `{T : !TcpStack B}.
Context {R : Type} `{HR : !RngCore R}.
Context {DE : Type} `{PE : !ProstDecode DE perunwire.Envelope} `{PM : !ProstDecode DE perunwire.Message}.

Abbreviation App := (@Application _ I B T R).
Abbreviation A := (M (App * B) (@AppError I B T DE)).

(** The application as its constructor makes it: the address is that of the
    client's signer. *)
Record app_owned (self : App) : Prop := {
  app_signer : valid_signer (cl_signer (app_client self));
  app_address : app_addr self = address (cl_signer (app_client self));
}.

(** The channel of an active application is well formed. *)
Definition app_ok (self : App) : Prop :=
  app_owned self /\
  match app_state self with ActiveState _ _ ch => inner_ok (inner ch) | _ => True end.

(** The transitions the comments of [ApplicationState] describe. *)
Inductive app_edge : ApplicationState -> ApplicationState -> Prop :=
  | edge_start : app_edge InitialState ConnectingToConfigDealer
  | edge_config e w : app_edge ConnectingToConfigDealer (ClosingSockets e w)
  | edge_closed e w : app_edge (ClosingSockets e w) (Listening e w)
  | edge_incoming e w : app_edge (Listening e w) (WaitForProposal e w)
  | edge_propose e w : app_edge (Listening e w) (Connecting e w)
  | edge_proposal e w ch : app_edge (WaitForProposal e w) (ActiveState e w ch)
  | edge_connected e w : app_edge (Connecting e w) (WaitForHandshake e w)
  | edge_handshake e w ch : app_edge (WaitForHandshake e w) (ActiveState e w ch)
  | edge_channel e w ch ch' :
      phase (inner ch) <= phase (inner ch') -> app_edge (ActiveState e w ch) (ActiveState e w ch')
  | edge_over e w ch : app_edge (ActiveState e w ch) (ClosingSockets e w).

(** What no method changes. *)
Definition same_setup (a b : App) : Prop :=
  app_participant_handle a = app_participant_handle b /\ app_service_handle a = app_service_handle b /\
  app_config a = app_config b /\ app_client a = app_client b /\ app_addr a = app_addr b.

(** One call: the state stays or follows an edge. *)
Definition app_moves (a b : App) : Prop :=
  same_setup a b /\ (app_state b = app_state a \/ app_edge (app_state a) (app_state b)).

(** Nothing but the random number generator has changed. *)
Definition untouched (a b : App) : Prop := same_setup a b /\ app_state b = app_state a.

Lemma untouched_refl a : untouched a a.
Proof. by repeat split. Qed.

Lemma untouched_trans a b c : untouched a b -> untouched b c -> untouched a c.
Proof. intros [(? & ? & ? & ? & ?) ?] [(? & ? & ? & ? & ?) ?]. repeat split; congruence. Qed.

Lemma untouched_owned a b : untouched a b -> app_owned a -> app_owned b.
Proof. intros [(_ & _ & _ & Hc & Ha) _] [Hv Haddr]. split; congruence. Qed.

(** ** Reasoning about the methods *)

(** From a state that has not been touched: on success [Q] holds, an error
    leaves everything untouched. *)
Definition spec (self0 : App) {X} (m : A X) (Q : X -> App -> Prop) : Prop :=
  forall self b, untouched self0 self ->
  match m (self, b) with
  | ((self', _), Ok x) => Q x self'
  | ((self', _), Err _) => untouched self0 self'
  | (_, Panic) => True
  end.

Lemma spec_bind self0 {X Y} (m : A X) (f : X -> A Y) (P : X -> Prop) Q :
  spec self0 m (fun x self => untouched self0 self /\ P x) -> (forall x, P x -> spec self0 (f x) Q) ->
  spec self0 (m ≫= f) Q.
Proof.
  intros Hm Hf self b Hs. specialize (Hm self b Hs). unfold mbind, M_bind.
  destruct (m (self, b)) as [[self' b'] [x|e|]]; [|done|done]. destruct Hm as [Hs' HP].
  exact (Hf x HP self' b' Hs').
Qed.

Lemma spec_weaken self0 {X} (m : A X) (P Q : X -> App -> Prop) :
  spec self0 m P -> (forall x self, P x self -> Q x self) -> spec self0 m Q.
Proof.
  intros Hm HPQ self b Hs. specialize (Hm self b Hs).
  destruct (m (self, b)) as [[self' b'] [x|e|]]; [by apply HPQ|done|done].
Qed.

Lemma spec_ret self0 {X} (x : X) Q : (forall self, untouched self0 self -> Q x self) -> spec self0 (mret x) Q.
Proof. intros HQ self b Hs. cbn. by apply HQ. Qed.

Lemma spec_lift self0 {X} (r : res _ X) (Q : X -> App -> Prop) :
  (forall x self, r = Ok x -> untouched self0 self -> Q x self) -> spec self0 (mlift r) Q.
Proof. intros HQ self b Hs. unfold mlift. destruct r; [by apply HQ|done|done]. Qed.

Lemma spec_throw self0 {X} e (Q : X -> App -> Prop) : spec self0 (mthrow e) Q.
Proof. intros self b Hs. done. Qed.

Lemma spec_panic self0 {X} (Q : X -> App -> Prop) : spec self0 mpanic Q.
Proof. intros self b Hs. done. Qed.

Lemma spec_get self0 {X} (f : App -> B -> A X) Q :
  (forall self b, untouched self0 self -> spec self0 (f self b) Q) ->
  spec self0 ('(self, b) ← mget; f self b) Q.
Proof. intros Hf self b Hs. rewrite M_get. by apply Hf. Qed.

(** Effects on the world only. *)
Lemma spec_on_snd self0 {X} (m : M B _ X) Q :
  (forall x self, untouched self0 self -> Q x self) -> spec self0 (on_snd m) Q.
Proof.
  intros HQ self b Hs. unfold on_snd. cbn [fst snd]. destruct (m b) as [b' [x|e|]]; [by apply HQ|done|done].
Qed.

Lemma spec_net self0 {X} (m : M B NetError X) Q :
  (forall x self, untouched self0 self -> Q x self) -> spec self0 (net m) Q.
Proof. apply spec_on_snd. Qed.

Lemma spec_net_do self0 f Q : (forall self, untouched self0 self -> Q tt self) -> spec self0 (net_do f) Q.
Proof. intros HQ self b Hs. cbn. by apply HQ. Qed.

Lemma untouched_set_rng self0 self r : untouched self0 self -> untouched self0 (set_rng r self).
Proof. intros Hs. eapply untouched_trans; [exact Hs|]. by repeat split. Qed.

Lemma spec_port self0 Q : (forall x self, untouched self0 self -> Q x self) -> spec self0 get_ethemeral_port Q.
Proof.
  intros HQ self b Hs. unfold get_ethemeral_port. destruct (next_u32 (app_rng self)).
  by apply HQ, untouched_set_rng.
Qed.

Lemma spec_gen self0 Q : (forall x self, untouched self0 self -> Q x self) -> spec self0 gen Q.
Proof.
  intros HQ self b Hs. unfold gen. destruct (gen_bytes32 (app_rng self)).
  by apply HQ, untouched_set_rng.
Qed.

Lemma spec_go_to self0 s Q :
  (forall self, untouched self0 self -> Q tt (set_app_state s self)) -> spec self0 (go_to s) Q.
Proof. intros HQ self b Hs. cbn. by apply HQ. Qed.

(** ** The methods *)

(** What a method that succeeds has done. *)
Definition advanced (self0 self : App) : Prop := app_ok self0 -> app_moves self0 self /\ app_ok self.
Definition good (self0 : App) {X} (m : A X) : Prop := spec self0 m (fun _ => advanced self0).

Lemma untouched_advanced self0 self : untouched self0 self -> advanced self0 self.
Proof.
  intros Hu [Ho Hch]. pose proof Hu as [Hs Hst]. split; [split; [done|by left]|].
  split; [by eapply untouched_owned|]. by rewrite Hst.
Qed.

Lemma edge_advanced self0 self s :
  untouched self0 self -> app_edge (app_state self0) s ->
  (app_ok self0 -> match s with ActiveState _ _ ch => inner_ok (inner ch) | _ => True end) ->
  advanced self0 (set_app_state s self).
Proof.
  intros Hu He Hok H0. pose proof Hu as [Hs Hst]. split; [split; [exact Hs|by right]|].
  split; [|by apply Hok]. destruct H0 as [Ho _]. destruct (untouched_owned _ _ Hu Ho). by split.
Qed.

(** A call that leaves the application untouched, whatever it returns. *)
Local Ltac leaf :=
  first [apply spec_net | apply spec_on_snd | apply spec_net_do | apply spec_port | apply spec_gen | apply spec_lift];
  intros; by split.
(** The next statement of a method. *)
Local Ltac step :=
  first
    [ apply spec_throw | apply spec_panic
    | apply spec_get; intros ? ? ?
    | eapply (spec_bind _ _ _ (fun _ => True)); [leaf|intros ? _]
    | apply spec_ret; intros; by apply untouched_advanced
    | apply spec_go_to; intros; apply edge_advanced; [done| |done] ].

Lemma connect_config_dealer_good self0 : app_state self0 = InitialState -> good self0 connect_config_dealer.
Proof. intros Hs. unfold good, connect_config_dealer. repeat step. rewrite Hs. constructor. Qed.

Lemma wait_connections_closed_good self0 e w :
  app_state self0 = ClosingSockets e w -> good self0 (wait_connections_closed e w).
Proof.
  intros Hs. unfold good, wait_connections_closed. step. destruct (_ && _); repeat step. rewrite Hs. constructor.
Qed.

(** The sockets are closed after the state has been set. *)
Lemma spec_go_to_close self0 s f (Q : unit -> App -> Prop) :
  (forall self, untouched self0 self -> Q tt (set_app_state s self)) -> spec self0 (go_to s;; net_do f) Q.
Proof. intros HQ self b Hs. cbn. by apply HQ. Qed.

Lemma wait_connected_and_read_config_good self0 :
  app_state self0 = ConnectingToConfigDealer -> good self0 wait_connected_and_read_config.
Proof.
  intros Hs. unfold good, wait_connected_and_read_config. step. destruct (_ && _); [|step].
  eapply (spec_bind _ _ _ (fun _ => True)); [leaf|intros [[e w]|] _]; [|step].
  apply spec_go_to_close. intros. apply edge_advanced; [done| |done]. rewrite Hs. constructor.
Qed.

Lemma check_incomming_connection_good self0 e w :
  app_state self0 = Listening e w -> good self0 (check_incomming_connection e w).
Proof.
  intros Hs. unfold good, check_incomming_connection. step. destruct (_ || _); [step|].
  eapply (spec_bind _ _ _ (fun _ => True)); [leaf|intros [env|] _]; [|step].
  destruct (perunwire.Envelope_msg env) as [[]|]; repeat step. rewrite Hs. constructor.
Qed.

Lemma connect_peers_good self0 e w : app_state self0 = Listening e w -> good self0 (connect_peers e w).
Proof.
  intros Hs. unfold good, connect_peers. step.
  eapply (spec_bind _ _ _ (fun _ => True)); [destruct (is_listening _ _); [leaf|apply spec_ret; by intros]|intros ? _].
  repeat step. rewrite Hs. constructor.
Qed.

Lemma wait_connected_and_send_handshake_good self0 e w :
  app_state self0 = Connecting e w -> good self0 (wait_connected_and_send_handshake e w).
Proof.
  intros Hs. unfold good, wait_connected_and_send_handshake. step. destruct (_ && _); repeat step.
  rewrite Hs. constructor.
Qed.

(** *** Receiving *)

Lemma try_recv_participant_msg_spec self0 :
  spec self0 try_recv_participant_msg (fun _ self => untouched self0 self /\ True).
Proof.
  unfold try_recv_participant_msg. step.
  eapply (spec_bind _ _ _ (fun _ => True)); [leaf|intros [env|] _]; [|by apply spec_ret].
  repeat step. by apply spec_ret.
Qed.

Lemma try_recv_service_msg_spec self0 :
  spec self0 try_recv_service_msg (fun _ self => untouched self0 self /\ True).
Proof.
  unfold try_recv_service_msg. step.
  eapply (spec_bind _ _ _ (fun _ => True)); [leaf|intros [env|] _]; [|by apply spec_ret].
  repeat step. by apply spec_ret.
Qed.

(** *** Opening a channel *)

Lemma send_channel_proposal_good self0 e w :
  app_state self0 = WaitForHandshake e w -> good self0 (send_channel_proposal e w).
Proof.
  intros Hs. unfold good, send_channel_proposal. apply spec_get. intros self b Hu.
  eapply (spec_bind _ _ _ (fun _ => True)); [leaf|intros id _].
  eapply (spec_bind _ _ _ (fun _ => True)); [leaf|intros share _].
  eapply (spec_bind _ _ _ (fun pc => app_owned self0 -> pc_owned pc)).
  - intros self' b' Hu'. unfold on_snd, mmap_err. cbn [fst snd].
    destruct (propose_channel _ _ w b') as [b'' [pc|e'|]] eqn:Hp; [|done|done].
    split; [done|]. intros Ho. destruct (untouched_owned _ _ Hu Ho) as [Hv Ha].
    apply propose_channel_any in Hp as [Hl ->]. split; [done| |done|done]. cbn. cbn in Hl. lia.
  - intros pc Hpc. apply spec_go_to. intros self' Hu'. apply edge_advanced; [done|rewrite Hs; constructor|].
    intros [Ho _]. exact (Hpc Ho).
Qed.

Lemma wait_handshake_and_propose_channel_good self0 e w :
  app_state self0 = WaitForHandshake e w -> good self0 (wait_handshake_and_propose_channel e w).
Proof.
  intros Hs. unfold good, wait_handshake_and_propose_channel.
  eapply spec_bind; [apply try_recv_participant_msg_spec|intros [msg|] _]; [|step].
  destruct msg; first [by apply send_channel_proposal_good|apply spec_throw].
Qed.

(** A proposal that is accepted, built and signed. *)
Definition taken (au : AgreedUponChannel) : Prop := au_owned au /\ au_signed au.

Lemma accept_unwrap_spec self0 share pc (Q : ProposedChannel -> App -> Prop) :
  pc_part_idx pc = 1 ->
  (forall self, untouched self0 self -> 2 <= zlen (prop_peers (pc_proposal pc)) ->
    Q (pc_set_responses pc (mk_array [Some (acceptance pc share (app_addr self0))] eq_refl)) self) ->
  spec self0 (accept_unwrap share pc) Q.
Proof.
  intros Hi HQ self b Hu. unfold accept_unwrap.
  destruct (pc_accept share (app_addr self) (pc, b)) as [[pc' b'] r] eqn:Hp.
  destruct (decide (is_panic r)) as [Hr|Hr]; [by destruct r|].
  destruct (pc_accept_any pc share (app_addr self) b _ r Hi Hp) as (-> & Hl & Hpc); [by intros ->|].
  cbn [fst] in Hpc. rewrite Hpc. replace (app_addr self) with (app_addr self0) by apply Hu. by apply HQ.
Qed.

Lemma take_proposal_spec self0 prop w :
  spec self0 (take_proposal prop w) (fun au self => untouched self0 self /\ (app_owned self0 -> taken au)).
Proof.
  unfold take_proposal. apply spec_get. intros self b Hu. unfold handle_proposal.
  eapply (spec_bind _ _ _ (fun pc => pc = ProposedChannel_new (cl_signer (app_client self0)) 1 w prop)).
  { apply spec_lift. intros pc self' [= <-] Hu'. split; [done|].
    do 2 f_equal. destruct Hu as [(_ & _ & _ & -> & _) _]. done. }
  intros ? ->. eapply (spec_bind _ _ _ (fun _ => True)); [leaf|intros share _].
  eapply (spec_bind _ _ _ (fun pc => 2 <= zlen (prop_peers prop) /\
    pc = pc_set_responses (ProposedChannel_new (cl_signer (app_client self0)) 1 w prop)
           (mk_array [Some (acceptance (ProposedChannel_new (cl_signer (app_client self0)) 1 w prop)
              share (app_addr self0))] eq_refl))).
  { apply accept_unwrap_spec; [done|]. intros self' Hu' Hp. split; [done|]. by split. }
  intros pc [Hp ->].
  destruct (pc_build_accepted (pc_set_responses (ProposedChannel_new (cl_signer (app_client self0)) 1 w prop)
    (mk_array [Some (acceptance (ProposedChannel_new (cl_signer (app_client self0)) 1 w prop) share (app_addr self0))]
       eq_refl)) _ eq_refl) as (n & _ & Hb).
  cbn zeta in Hb. rewrite Hb. cbn [map_err].
  eapply (spec_bind _ _ _ (fun au => app_owned self0 -> au_owned au /\ to_vec (au_signatures au) = no_signatures)).
  { apply spec_lift. intros au self' [= <-] Hu'. split; [done|]. intros [Hv Ha]. split; [|done].
    split; cbn; [lia|done|done|]. by rewrite Ha. }
  intros au Hau self' b' Hu'. unfold sign_agreed.
  destruct (sign (au, b')) as [[au' b''] r] eqn:Hs. destruct r as [[]|e|]; cbn; [|done|done].
  split; [done|]. intros Ho. destruct (Hau Ho) as [Hown Hn].
  by destruct (sign_any au b' _ _ Hown Hn Hs) as (_ & ? & ?).
Qed.

Lemma wait_connected_and_proposal_msg_good self0 e w :
  app_state self0 = WaitForProposal e w -> good self0 (wait_connected_and_proposal_msg e w).
Proof.
  intros Hs. unfold good, wait_connected_and_proposal_msg. step. destruct (negb _); [step|].
  eapply spec_bind; [apply try_recv_participant_msg_spec|intros [msg|] _]; [|step].
  destruct msg; try apply spec_throw.
  eapply spec_bind; [apply take_proposal_spec|intros au Hau].
  apply spec_go_to. intros self' Hu'. apply edge_advanced; [done|rewrite Hs; constructor|].
  intros [Ho _]. exact (Hau Ho).
Qed.

(** *** With a channel *)

(** What a method that fails has done: only an active channel may have changed,
    within its phase. *)
Definition failed (self0 self : App) : Prop :=
  app_ok self0 ->
  app_moves self0 self /\ app_ok self /\
  match app_state self0 with
  | ActiveState e w ch =>
      exists ch', app_state self = ActiveState e w ch' /\ phase (inner ch') = phase (inner ch)
  | s => app_state self = s
  end.

Definition settled (self0 : App) {X} (out : (App * B) * res (@AppError I B T DE) X) : Prop :=
  match out with
  | ((self, _), Ok _) => advanced self0 self
  | ((self, _), Err _) => failed self0 self
  | (_, Panic) => True
  end.

Lemma untouched_failed self0 self : untouched self0 self -> failed self0 self.
Proof.
  intros Hu H0. destruct (untouched_advanced _ _ Hu H0) as [Hm Hok]. split; [done|split; [done|]].
  destruct Hu as [_ Hs]. destruct (app_state self0); try exact Hs. by eexists.
Qed.

Lemma good_outcome self0 {X} (m : A X) b : good self0 m -> settled self0 (m (self0, b)).
Proof.
  intros Hg. specialize (Hg self0 b (untouched_refl self0)). unfold settled.
  destruct (m (self0, b)) as [[self' b'] [x|e|]]; [done|by apply untouched_failed|done].
Qed.

Lemma channel_failed self0 self e w ch ch' :
  untouched self0 self -> app_state self0 = ActiveState e w ch ->
  (app_ok self0 -> inner_ok (inner ch') /\ phase (inner ch') = phase (inner ch)) ->
  failed self0 (set_app_state (ActiveState e w ch') self).
Proof.
  intros Hu Hs Hch H0. destruct (Hch H0) as [Hi Hp].
  destruct (edge_advanced self0 self (ActiveState e w ch') Hu) with (3 := H0) as [Hm Hok].
  - rewrite Hs. constructor. lia.
  - by intros _.
  - split; [done|split; [done|]]. rewrite Hs. by exists ch'.
Qed.

(** A method of the channel. *)
Lemma on_channel_outcome self0 self e w ch b (m : M (Channel * B) DemoError unit) (other : A unit) :
  untouched self0 self -> app_state self0 = ActiveState e w ch ->
  (forall s' r, m (ch, b) = (s', r) -> demo_call (ch, b) s' r) ->
  match on_channel m other (self, b) with
  | ((self', _), Ok _) => exists ch', self' = set_app_state (ActiveState e w ch') self /\
      (app_ok self0 -> inner_ok (inner ch') /\ phase (inner ch) <= phase (inner ch'))
  | ((self', _), Err _) => failed self0 self'
  | (_, Panic) => True
  end.
Proof.
  intros Hu Hs Hm. unfold on_channel. pose proof Hu as [_ Hst]. rewrite Hst, Hs.
  destruct (m (ch, b)) as [[ch' b'] r] eqn:Hr. specialize (Hm _ _ eq_refl).
  assert (app_ok self0 -> call_ok (ch, b) (ch', b') r) as Hc.
  { intros [_ Hok]. rewrite Hs in Hok. by apply demo_call_ok. }
  destruct r as [x|er|]; cbn [map_err]; [by exists ch'| |done].
  apply (channel_failed _ _ _ _ ch); [done|done|]. intros H0. destruct (Hc H0) as (? & ? & _). by split.
Qed.

Lemma channel_call_outcome self0 e w ch b (m : M (Channel * B) DemoError unit) (other : A unit) :
  app_state self0 = ActiveState e w ch ->
  (forall s' r, m (ch, b) = (s', r) -> demo_call (ch, b) s' r) ->
  settled self0 (on_channel m other (self0, b)).
Proof.
  intros Hs Hm. pose proof (on_channel_outcome self0 self0 e w ch b m other (untouched_refl _) Hs Hm) as H.
  unfold settled. destruct (on_channel m other (self0, b)) as [[self' b'] [x|er|]]; [|done|done].
  destruct H as (ch' & -> & Hch). intros H0. destruct (Hch H0) as [Hi Hp].
  apply edge_advanced; [apply untouched_refl|rewrite Hs; by constructor|by intros _|done].
Qed.

(** A message that has arrived is given to the channel. *)
Lemma forward_messages_outcome {X} self0 self e w ch b (recv_fn : A (option X)) process :
  app_state self0 = ActiveState e w ch -> untouched self0 self ->
  spec self0 recv_fn (fun _ self => untouched self0 self /\ True) ->
  (forall x s s' r, process x s = (s', r) -> demo_call s s' r) ->
  match forward_messages recv_fn process (self, b) with
  | ((self', _), Ok true) => advanced self0 self'
  | ((self', _), Ok false) => untouched self0 self'
  | ((self', _), Err _) => failed self0 self'
  | (_, Panic) => True
  end.
Proof.
  intros Hs Hu Hrecv Hp. unfold forward_messages. specialize (Hrecv self b Hu). unfold mbind at 1, M_bind at 1.
  destruct (recv_fn (self, b)) as [[self1 b1] [[x|]|er|]];
    [|by destruct Hrecv|by apply untouched_failed|done].
  destruct Hrecv as [Hu1 _].
  pose proof (on_channel_outcome self0 self1 e w ch b1 (process x) mpanic Hu1 Hs
    (fun s' r => Hp x (ch, b1) s' r)) as Hc.
  unfold mbind at 1, M_bind at 1. destruct (on_channel _ _ _) as [[self2 b2] [[]|er|]]; [|done|done].
  destruct Hc as (ch' & -> & Hch). unfold close_if_closed, mbind, M_bind, mget. cbn [app_state set_app_state].
  destruct (is_closed ch'); cbn; intros H0; destruct (Hch H0) as [Hi Hph].
  - by apply (edge_advanced self0 self1 (ClosingSockets e w)); [done|rewrite Hs; constructor| |].
  - by apply (edge_advanced self0 self1 (ActiveState e w ch')); [done|rewrite Hs; constructor|by intros _|].
Qed.

Lemma forward_messages_to_channel_outcome self0 e w ch b :
  app_state self0 = ActiveState e w ch -> settled self0 (forward_messages_to_channel (self0, b)).
Proof.
  intros Hs. unfold forward_messages_to_channel, settled.
  pose proof (forward_messages_outcome self0 self0 e w ch b try_recv_participant_msg process_participant_msg Hs
    (untouched_refl _) (try_recv_participant_msg_spec self0) (fun x s s' r => call_participant x s s' r)) as H1.
  unfold mbind at 1, M_bind at 1.
  destruct (forward_messages _ _ (self0, b)) as [[self1 b1] [[|]|er|]]; [done| |done|done].
  assert (forall x s s' r, process_service_msg x s = (s', r) -> demo_call s s' r) as Hp.
  { intros [m|m] s s' r Hr; [by eapply call_watcher|by eapply call_funder]. }
  pose proof (forward_messages_outcome self0 self1 e w ch b1 try_recv_service_msg process_service_msg Hs H1
    (try_recv_service_msg_spec self0) Hp) as H2.
  unfold mbind at 1, M_bind at 1.
  destruct (forward_messages _ _ (self1, b1)) as [[self2 b2] [[|]|er|]]; [done| |done|done].
  by apply untouched_advanced.
Qed.

(** *** Every method *)

Lemma poll_outcome self0 b : settled self0 (poll (self0, b)).
Proof.
  unfold poll. rewrite M_get. destruct (app_state self0) as [| |e w|e w|e w|e w|e w|e w ch] eqn:Hs.
  - by apply good_outcome, connect_config_dealer_good.
  - by apply good_outcome, wait_connected_and_read_config_good.
  - by apply good_outcome, wait_connections_closed_good.
  - by apply good_outcome, check_incomming_connection_good.
  - by apply good_outcome, wait_connected_and_proposal_msg_good.
  - by apply good_outcome, wait_connected_and_send_handshake_good.
  - by apply good_outcome, wait_handshake_and_propose_channel_good.
  - by eapply forward_messages_to_channel_outcome.
Qed.

(** The calls of the main loop. *)
Inductive app_call : App * B -> App * B -> res (@AppError I B T DE) unit -> Prop :=
  | call_poll s s' r : poll s = (s', r) -> app_call s s' r
  | call_app_update amount final s s' r : app_update amount final s = (s', r) -> app_call s s' r
  | call_app_force_close s s' r : app_force_close s = (s', r) -> app_call s s' r
  | call_app_propose_channel s s' r : app_propose_channel s = (s', r) -> app_call s s' r.

(** A method of the channel, called in a state without one. *)
Lemma on_channel_invalid (self : App) (b : B) (m : M (Channel * B) DemoError unit) :
  (forall e w ch, app_state self <> ActiveState e w ch) ->
  on_channel (DE:=DE) m (mthrow AppInvalidState) (self, b) = ((self, b), Err AppInvalidState).
Proof. intros Hn. unfold on_channel. destruct (app_state self); try done. by edestruct Hn. Qed.

Lemma channel_method_outcome self0 b (m : M (Channel * B) DemoError unit) :
  (forall s s' r, m s = (s', r) -> demo_call s s' r) ->
  settled self0 (on_channel m (mthrow AppInvalidState : A unit) (self0, b)).
Proof.
  intros Hm. destruct (app_state self0) as [| |e w|e w|e w|e w|e w|e w ch] eqn:Hs.
  8: eapply channel_call_outcome; [done|apply Hm].
  all: rewrite on_channel_invalid by (intros; congruence); apply untouched_failed, untouched_refl.
Qed.

Lemma app_call_outcome s s' r : app_call s s' r -> settled s.1 (s', r).
Proof.
  intros [? ? ? H|amount final ? ? ? H|? ? ? H|? ? ? H]; rewrite <- H.
  - destruct s0 as [self b]. apply poll_outcome.
  - destruct s0 as [self b]. apply channel_method_outcome. intros. by eapply call_update.
  - destruct s0 as [self b]. apply channel_method_outcome. intros. by eapply call_force_close.
  - destruct s0 as [self b]. unfold app_propose_channel. rewrite M_get. cbn [fst].
    destruct (app_state self) eqn:Hs; try by apply good_outcome, spec_throw.
    by apply good_outcome, connect_peers_good.
Qed.

(** One call that returns, whatever its result.  Between two calls the network
    changes in any way, so that every call starts in a world of its own. *)
Definition app_step (a a' : App) : Prop := exists b b' r, app_call (a, b) (a', b') r /\ r <> Panic.

Lemma app_step_ok a a' : app_ok a -> app_step a a' -> app_moves a a' /\ app_ok a'.
Proof.
  intros Hok (b & b' & r & Hc & Hr). apply app_call_outcome in Hc. cbn [fst] in Hc.
  destruct r as [x|er|]; [by apply Hc| |done]. destruct (Hc Hok) as (? & ? & _). by split.
Qed.

Lemma same_setup_trans a b c : same_setup a b -> same_setup b c -> same_setup a c.
Proof. intros (? & ? & ? & ? & ?) (? & ? & ? & ? & ?). repeat split; congruence. Qed.

Lemma app_reachable a a' :
  app_ok a -> rtc app_step a a' -> app_ok a' /\ same_setup a a' /\ rtc app_edge (app_state a) (app_state a').
Proof.
  intros Hok Hr. induction Hr as [|x y z Hxy Hyz IH]; [by split; [|by repeat split]|].
  destruct (app_step_ok x y Hok Hxy) as [[Hset Hm] Hy]. destruct (IH Hy) as (Hz & Hset' & He).
  split; [done|]. split; [by eapply same_setup_trans|].
  destruct Hm as [<-|Hm]; [done|]. by eapply rtc_l.
Qed.

(** The application before its first call. *)
Lemma Application_new_ok ph sh cfg rng cl :
  valid_signer (cl_signer cl) -> app_ok (Application_new ph sh cfg rng (address (cl_signer cl)) cl).
Proof. intros Hv. by split. Qed.

(** What holds of the channel of an active application. *)
Definition channel_valid (st : ApplicationState) : Prop :=
  forall e w ch, st = ActiveState e w ch ->
    inner ch <> TemporaryInvalidState /\
    (forall c up, inner ch = Active c up ->
       fully_signed c /\ match up with Some u => pending_ok c u | None => True end) /\
    (forall c, inner ch = Closing c -> fully_signed c /\ is_final (ac_state c) = true).

Lemma app_ok_channel_valid (a : App) : app_ok a -> channel_valid (app_state a).
Proof.
  intros [_ Hok] e w ch Hs. rewrite Hs in Hok.
  destruct (inner ch) as [pc|au|sc ww f|c up| |c| |]; cbn [inner_ok] in Hok; destruct_and?; try done;
    (split; [done|split; intros; simplify_eq; done]).
Qed.

(** C12: the application follows its documented state machine from the initial
    state, whatever arrives from the network and whatever methods are
    called: every call that returns keeps its handles, configuration and keys
    and stays in its state or takes one of the documented transitions, with the
    holder and the receiver of the configuration unchanged; and an active
    channel of a reachable state is never the temporary one, carries the
    signatures of all participants on its state once it is open, and keeps a
    pending update consistent with it. *)
Theorem application_follows_state_machine (ph sh : SocketHandle) (cfg : Config) (rng : R) (cl : PerunClient)
    (a : App) :
  valid_signer (cl_signer cl) ->
  rtc app_step (Application_new ph sh cfg rng (address (cl_signer cl)) cl) a ->
  rtc app_edge InitialState (app_state a) /\
  same_setup (Application_new ph sh cfg rng (address (cl_signer cl)) cl) a /\
  (forall a', app_step a a' -> app_moves a a') /\
  channel_valid (app_state a).
Proof.
  intros Hv Hr. destruct (app_reachable _ a (Application_new_ok ph sh cfg rng cl Hv) Hr) as (Hok & Hset & He).
  split; [exact He|]. split; [exact Hset|].
  split; [intros a' Ha'; by apply app_step_ok|by apply app_ok_channel_valid].
Qed.


End App.

(* ------------------------------------------------------------------ *)
(** ** From the bytes to the channel                                     *)
(* ------------------------------------------------------------------ *)

(** The messages of a participant that the conversions to and from the wire
    keep: the holder of the asset is lost. *)
Definition survives `{U : UintCrate} (m : ParticipantMessage) : Prop :=
  match m with
  | ChannelProposal p => Forall (fun x => x = Asset_default) (to_vec (assets (prop_init_bals p)))
  | ChannelUpdateMsg u =>
      Forall (fun x => x = Asset_default) (to_vec (assets (outcome (upd_state u)))) /\ 0 <= upd_actor_idx u < 2 ^ 32
  | _ => True
  end.

Section Delivery.
Context `{Pl : Platform} `{U : UintCrate} `{UL : !UintLaws U} `{S : Sha3Crate} `{I : SignerImpl}.
Context {B : Type} `{HB : !MessageBus B} `{T : !TcpStack B} `{L : !TcpLaws B}.
Context {R : Type} `{HR : !RngCore R}.
Context {DE : Type} `{PE : !ProstDecode DE perunwire.Envelope} `{PM : !ProstDecode DE perunwire.Message}.

Abbreviation App := (@Application _ I B T R).

Lemma fmap_Ok_iff {E X Y} (f : X -> Y) (r : res E X) x :
  (forall a b, f a = f b -> a = b) -> f <$> r = Ok (f x) <-> r = Ok x.
Proof. intros Hf. destruct r as [y|e|]; cbn; (split; [|congruence]); [|done|done]. intros [= ->%Hf]. done. Qed.

Lemma map_err_Ok {E F X} (f : E -> F) (r : res E X) x : map_err f r = Ok x <-> r = Ok x.
Proof. destruct r; split; cbn; congruence. Qed.

Lemma hash_unwrap_to_vec {E} (h : Hash) : @hash_unwrap E (to_vec h) = Ok h.
Proof. unfold hash_unwrap. by rewrite array_try_from_to_vec. Qed.

Lemma participant_msg_iff (m : ParticipantMessage) :
  participant_msg (I:=I) (B:=B) (DE:=DE) (participant_wiremsg m) = Ok m <-> survives m.
Proof.
  destruct m as [|p|acc|h reason|u|upacc|h v reason]; cbn [participant_wiremsg participant_msg survives].
  - by split.
  - rewrite fmap_Ok_iff by (by intros ?? [= ->]). rewrite map_err_Ok. apply proposal_wire_roundtrip_iff.
  - rewrite fmap_Ok_iff by (by intros ?? [= ->]). rewrite map_err_Ok.
    split; [done|]. intros _. apply acceptance_wire_roundtrip.
  - cbn. by rewrite hash_unwrap_to_vec.
  - rewrite fmap_Ok_iff by (by intros ?? [= ->]). rewrite map_err_Ok. apply update_wire_roundtrip_iff.
  - rewrite fmap_Ok_iff by (by intros ?? [= ->]). rewrite map_err_Ok.
    split; [done|]. intros _. apply update_acceptance_wire_roundtrip.
  - cbn. by rewrite hash_unwrap_to_vec.
Qed.

(** The frame that comes next at a socket: complete, and not larger than the
    buffers. *)
Record next_frame (h : SocketHandle) (b : B) (payload tail : bytes) : Prop := {
  nf_may_recv : may_recv h b = true;
  nf_header : header_contiguous h b;
  nf_nonempty : payload <> [];
  nf_size : zlen payload <= MAX_MESSAGE_SIZE;
  nf_capacity : 2 + zlen payload <= recv_capacity h b;
  nf_rx : rx h b = frame payload ++ tail;
}.

Lemma try_recv_next {X} `{PX : !ProstDecode DE X} h (b : B) payload tail :
  next_frame h b payload tail ->
  exists b', rx h b' = tail /\
    try_recv (X:=X) (DE:=DE) h b = (b', Some <$> map_err ProstDecodeError (prost_decode payload)).
Proof. intros []. by apply try_recv_complete. Qed.

Lemma try_recv_participant_next (self : App) (b : B) payload tail env :
  next_frame (app_participant_handle self) b payload tail ->
  prost_decode (DE:=DE) payload = Ok env ->
  exists b', rx (app_participant_handle self) b' = tail /\
    try_recv_participant_msg (self, b) = ((self, b'),
      Some <$> (ok_or EnvelopeHasNoMsg (perunwire.Envelope_msg env) ≫= participant_msg)).
Proof.
  intros Hn Hd. destruct (try_recv_next (X:=perunwire.Envelope) _ b payload tail Hn) as (b' & Hrx & Hr).
  exists b'. split; [done|]. unfold try_recv_participant_msg. rewrite M_get.
  erewrite M_bind_ok by (unfold on_snd; cbn [fst snd]; rewrite Hr, Hd; reflexivity). cbn [map_err fmap res_fmap].
  destruct (perunwire.Envelope_msg env) as [m|]; cbn [ok_or]; mrun; [|done].
  cbn [mbind res_bind]. by destruct (participant_msg m).
Qed.

Lemma try_recv_service_next (self : App) (b : B) payload tail env :
  next_frame (app_service_handle self) b payload tail ->
  prost_decode (DE:=DE) payload = Ok env ->
  exists b', rx (app_service_handle self) b' = tail /\
    try_recv_service_msg (self, b) = ((self, b'),
      Some <$> (ok_or EnvelopeHasNoMsg (perunwire.Message_msg env) ≫= service_msg)).
Proof.
  intros Hn Hd. destruct (try_recv_next (X:=perunwire.Message) _ b payload tail Hn) as (b' & Hrx & Hr).
  exists b'. split; [done|]. unfold try_recv_service_msg. rewrite M_get.
  erewrite M_bind_ok by (unfold on_snd; cbn [fst snd]; rewrite Hr, Hd; reflexivity). cbn [map_err fmap res_fmap].
  destruct (perunwire.Message_msg env) as [m|]; cbn [ok_or]; mrun; [|done].
  cbn [mbind res_bind]. by destruct (service_msg m).
Qed.

Lemma try_recv_participant_short (self : App) (b : B) :
  zlen (rx (app_participant_handle self) b) < 2 ->
  try_recv_participant_msg (DE:=DE) (self, b) = ((self, b), Ok None).
Proof.
  intros Hs. unfold try_recv_participant_msg. rewrite M_get.
  by erewrite M_bind_ok by (unfold on_snd; cbn [fst snd]; by rewrite try_recv_short).
Qed.

(** What the active application does with what it has received. *)
Definition process {X} (process_fn : X -> M (Channel * B) DemoError unit) (msg : X)
    : M (App * B) (@AppError I B T DE) unit :=
  on_channel (process_fn msg) mpanic;; close_if_closed.

(** With nothing from the participant, a reply of the service is processed. *)
Lemma poll_service_reply (self : App) (b : B) e w ch payload tail env wm :
  app_state self = ActiveState e w ch -> zlen (rx (app_participant_handle self) b) < 2 ->
  next_frame (app_service_handle self) b payload tail ->
  prost_decode (DE:=DE) payload = Ok env -> perunwire.Message_msg env = Some wm ->
  exists b', rx (app_service_handle self) b' = tail /\
    poll (self, b) = (msg ← mlift (service_msg wm); process process_service_msg msg) (self, b').
Proof.
  intros Hs Hp Hn Hd Hm.
  destruct (try_recv_service_next self b payload tail env Hn Hd) as (b' & Hrx & Hr).
  rewrite Hm in Hr. cbn [ok_or mbind res_bind] in Hr.
  assert (forward_messages (try_recv_participant_msg (DE:=DE) (R:=R)) process_participant_msg (self, b) =
    ((self, b), Ok false)) as Hnone.
  { unfold forward_messages. by erewrite M_bind_ok by by apply try_recv_participant_short. }
  exists b'. split; [done|]. unfold poll. rewrite M_get, Hs. unfold forward_messages_to_channel.
  erewrite M_bind_ok by exact Hnone. cbn beta iota.
  unfold forward_messages, process. unfold mbind, M_bind, mlift. rewrite Hr.
  destruct (service_msg wm) as [msg|er|]; cbn [fmap res_fmap]; [|done|done].
  destruct (on_channel _ _ _) as [s1 [[]|er|]]; [|done|done]. by destruct (close_if_closed s1) as [s2 [[]|er|]].
Qed.


(** C35: the replies of the service are processed without looking at whether they
    report a failure: a channel that waits for the funder becomes active when
    the funder replies with an error, and one that waits for the watcher
    becomes active when the watcher reports that it does not watch it. *)
Theorem failed_replies_activate_channel (self : App) (b : B) (e w : Address) (sc : SignedChannel)
    (watching funded : bool) (payload tail : bytes) (env : perunwire.Message) (wm : perunwire.message_Msg) :
  app_state self = ActiveState e w (mkChannel (Signed sc watching funded)) ->
  zlen (rx (app_participant_handle self) b) < 2 ->
  next_frame (app_service_handle self) b payload tail ->
  prost_decode (DE:=DE) payload = Ok env -> perunwire.Message_msg env = Some wm ->
  (watching = true /\ funded = false /\ exists err, wm = perunwire.Msg_FundResp (perunwire.mkFundResp (Some err))) \/
  (watching = false /\ funded = true /\ exists id v, zlen id = 32 /\
     wm = perunwire.Msg_WatchResponse (perunwire.mkWatchResponseMsg id v false)) ->
  exists b',
    poll (DE:=DE) (self, b) =
      ((set_app_state (ActiveState e w (mkChannel (Active (mark_funded sc) None))) self, b'), Ok tt).
Proof.
  intros Hs Hp Hn Hd Hm Hw.
  destruct (poll_service_reply self b e w _ payload tail env wm Hs Hp Hn Hd Hm) as (b' & _ & ->).
  exists b'. destruct Hw as [(-> & -> & err & ->)|(-> & -> & id & v & Hid & ->)].
  - unfold process, on_channel, mbind, M_bind, mlift. cbn [service_msg]. by rewrite Hs.
  - destruct (array_try_from (N:=32) id) as [h|] eqn:Hh.
    + unfold process, on_channel, mlift. cbn [service_msg perunwire.WatchResponseMsg_channel_id].
      unfold hash_unwrap. rewrite Hh. unfold mbind, M_bind. cbn [unwrap res_bind]. by rewrite Hs.
    + exfalso. revert Hh. unfold array_try_from. destruct (decide _) as [|Hn']; [done|]. unfold zlen in Hid. lia.
Qed.

(** The replies of the funder and the watcher that are not implemented. *)
Definition unimplemented_reply (m : perunwire.message_Msg) : Prop :=
  match m with
  | perunwire.Msg_RegisterResp _ | perunwire.Msg_WithdrawResp _
  | perunwire.Msg_StartWatchingLedgerChannelResp | perunwire.Msg_StopWatchingResp _ => True
  | _ => False
  end.

(** A reply to a registration, a withdrawal or the start or stop of watching
    stops the application with a panic, in every state of the channel: so does
    the funder's reply to the registration that a forced close requests. *)
Theorem service_reply_panics (self : App) (b : B) (e w : Address) (ch : Channel)
    (payload tail : bytes) (env : perunwire.Message) (wm : perunwire.message_Msg) :
  app_state self = ActiveState e w ch -> zlen (rx (app_participant_handle self) b) < 2 ->
  next_frame (app_service_handle self) b payload tail ->
  prost_decode (DE:=DE) payload = Ok env -> perunwire.Message_msg env = Some wm -> unimplemented_reply wm ->
  exists b', poll (DE:=DE) (self, b) = ((self, b'), Panic).
Proof.
  intros Hs Hp Hn Hd Hm Hw.
  destruct (poll_service_reply self b e w _ payload tail env wm Hs Hp Hn Hd Hm) as (b' & _ & ->).
  exists b'. by destruct wm.
Qed.

End Delivery.
