(* ===== verification/Conversions.v ===== *)
(** * Which received messages are refused, and which stop the program

    The conversions of src/src/messages/ and src/src/channel/fixed_size_payment.rs
    are fed with what the other participant sends.  Each of them is decided here
    by two predicates on the protobuf message: it converts, or it makes the
    program panic; otherwise it is refused with an error.  Together they decide
    participant_msg and service_msg of src/cortex-m-demo/src/application.rs on
    every message. *)
From S2P Require Import Prelude AbiSer Types PerunWire Payment PaymentTheorems Sig Messages Wire.
From S2P Require Import ChannelTypes Active Proposal DemoChannel Net Application.

(* ------------------------------------------------------------------ *)
(** ** Decided results                                                   *)
(* ------------------------------------------------------------------ *)

(** [ok] and [crash] say when a computation returns a value and when it
    panics. *)
Definition decided {E A} (r : res E A) (ok crash : bool) : Prop := is_ok r = ok /\ is_panic r = crash.

Lemma decided_bind {E A C} (r : res E A) (f : A -> res E C) ok crash ok' crash' :
  decided r ok crash -> (forall a, r = Ok a -> decided (f a) ok' crash') ->
  decided (r ≫= f) (ok && ok') (crash || (ok && crash')).
Proof. intros [<- <-] Hf. destruct r as [a|e|]; [exact (Hf a eq_refl)|by split..]. Qed.

Lemma decided_fmap {E A C} (r : res E A) (f : A -> C) ok crash :
  decided r ok crash -> decided (f <$> r) ok crash.
Proof. by destruct r. Qed.

Lemma decided_map_err {E F A} (r : res E A) (f : E -> F) ok crash :
  decided r ok crash -> decided (map_err f r) ok crash.
Proof. by destruct r. Qed.

Lemma decided_last {E A C} (r : res E A) (f : A -> C) ok crash :
  decided r ok crash -> decided (r ≫= fun a => Ok (f a)) ok crash.
Proof. by destruct r. Qed.

Lemma decided_check {E A} b (e : E) (r : res E A) ok crash :
  decided r ok crash -> decided (if b : bool then Err e else r) (negb b && ok) (negb b && crash).
Proof. by destruct b. Qed.

(** The error is thrown unless the proposition holds. *)
Lemma decided_guard {E A} (P : Prop) `{!Decision P} (e : E) (r : res E A) ok crash :
  decided r ok crash ->
  decided (if decide (~ P) then Err e else r) (bool_decide P && ok) (bool_decide P && crash).
Proof.
  intros Hr. case_decide as HP.
  - by rewrite bool_decide_eq_false_2.
  - by rewrite bool_decide_eq_true_2.
Qed.

(** The first [n] elements of a list are converted one after the other. *)
Section Filling.
Context {E X Y : Type} (f : Y -> res E X) (ok crash : Y -> bool).
Context (Hf : forall y, decided (f y) (ok y) (crash y)).

Fixpoint all_ok (n : nat) (l : list Y) : bool :=
  match n, l with
  | Datatypes.S n, y :: l => ok y && all_ok n l
  | _, _ => true
  end.

Fixpoint one_crashes (n : nat) (l : list Y) : bool :=
  match n, l with
  | Datatypes.S n, y :: l => crash y || (ok y && one_crashes n l)
  | _, _ => false
  end.

Lemma decided_zip_fill (xs : list X) (l : list Y) :
  decided (zip_fill f xs l) (all_ok (length xs) l) (one_crashes (length xs) l).
Proof.
  revert l. induction xs as [|x xs IH]; intros [|y l]; try done.
  apply decided_bind; [apply Hf|]. intros a _. apply decided_last, IH.
Qed.

Lemma decided_array_fill {N} (a : array X N) (l : list Y) :
  decided (array_fill f a l) (all_ok N l) (one_crashes N l).
Proof.
  pose proof (decided_zip_fill (to_vec a) l) as H. rewrite array_length in H. unfold array_fill.
  destruct (zip_fill f (to_vec a) l) as [k|e|] eqn:Hk; [|exact H..].
  apply zip_fill_length in Hk. rewrite array_length in Hk. cbn [mbind res_bind]. unfold array_try_from.
  by case_decide.
Qed.

End Filling.

(** Where no element is refused, all that is left to say is that one of them is
    bad. *)
Lemma one_crashes_exact {Y} (bad : Y -> bool) n (l : list Y) :
  length l = n -> one_crashes (fun y => negb (bad y)) bad n l = existsb bad l.
Proof.
  intros <-. induction l as [|y l IH]; [done|]. cbn [length one_crashes existsb]. rewrite IH. by destruct (bad y).
Qed.

(* ------------------------------------------------------------------ *)
(** ** The conversions                                                   *)
(* ------------------------------------------------------------------ *)

Definition has_length (n : nat) (b : bytes) : bool := bool_decide (length b = n).

(** An amount is a big-endian number of at most 32 bytes. *)
Definition amount_converts (b : bytes) : bool := bool_decide (zlen b <= 32).
Definition amount_crashes (b : bytes) : bool := bool_decide (32 < zlen b).

(** An asset begins with the length of its holder. *)
Definition asset_converts (b : bytes) : bool :=
  match b with
  | b0 :: b1 :: rest =>
      bool_decide (u16_from_le_bytes b0 b1 <= 0) ||
      (bool_decide (u16_from_le_bytes b0 b1 <= 20) && has_length 20 rest)
  | _ => false
  end.
Definition asset_crashes (b : bytes) : bool :=
  match b with
  | b0 :: b1 :: rest =>
      bool_decide (0 < u16_from_le_bytes b0 b1) && bool_decide (u16_from_le_bytes b0 b1 <= 20) &&
      negb (has_length 20 rest)
  | _ => false
  end.

(** Two arrays in each other: as many entries as there are assets, and in each
    of them as many amounts as there are participants. *)
Definition balance_converts (P : nat) (b : perunwire.Balance) : bool :=
  bool_decide (zlen (perunwire.Balance_balance b) = Z.of_nat P) &&
  all_ok amount_converts P (perunwire.Balance_balance b).
Definition balance_crashes (P : nat) (b : perunwire.Balance) : bool :=
  bool_decide (zlen (perunwire.Balance_balance b) = Z.of_nat P) &&
  one_crashes amount_converts amount_crashes P (perunwire.Balance_balance b).
Definition balances_convert (A P : nat) (b : perunwire.Balances) : bool :=
  bool_decide (zlen (perunwire.Balances_balances b) = Z.of_nat A) &&
  all_ok (balance_converts P) A (perunwire.Balances_balances b).
Definition balances_crash (A P : nat) (b : perunwire.Balances) : bool :=
  bool_decide (zlen (perunwire.Balances_balances b) = Z.of_nat A) &&
  one_crashes (balance_converts P) (balance_crashes P) A (perunwire.Balances_balances b).

(** An optional field: it is missing, or it satisfies the predicate. *)
Definition present {X} (f : X -> bool) (o : option X) : bool := match o with Some x => f x | None => false end.

Definition allocation_converts (A P : nat) (a : perunwire.Allocation) : bool :=
  all_ok asset_converts A (perunwire.Allocation_assets a) &&
  present (balances_convert A P) (perunwire.Allocation_balances a).
Definition allocation_crashes (A P : nat) (a : perunwire.Allocation) : bool :=
  one_crashes asset_converts asset_crashes A (perunwire.Allocation_assets a) ||
  (all_ok asset_converts A (perunwire.Allocation_assets a) &&
   present (balances_crash A P) (perunwire.Allocation_balances a)).

(** A state without application data and with an identifier of 32 bytes. *)
Definition state_prefix (s : perunwire.State) : bool :=
  bool_decide (perunwire.State_data s = []) && has_length 32 (perunwire.State_id s).
Definition state_converts (A P : nat) (s : perunwire.State) : bool :=
  state_prefix s && present (allocation_converts A P) (perunwire.State_allocation s).
Definition state_crashes (A P : nat) (s : perunwire.State) : bool :=
  state_prefix s && present (allocation_crashes A P) (perunwire.State_allocation s).

Create HintDb decided discriminated.
#[export] Hint Resolve decided_last decided_map_err decided_fmap : decided.

Section Data.
Context `{U : UintCrate} `{UL : !UintLaws U}.

Lemma decided_expect_some {X} (o : option X) : decided (expect_some o) (bool_decide (is_Some o)) false.
Proof. by destruct o. Qed.

(** A field that has to be there. *)
Lemma decided_present {X C} (o : option X) (f : X -> res ConversionError C) ok crash :
  (forall x, decided (f x) (ok x) (crash x)) ->
  decided (expect_some o ≫= f) (present ok o) (present crash o).
Proof. intros Hf. destruct o; [apply Hf|done]. Qed.

Lemma decided_bytes {N} b : decided (bytes_try_into (N:=N) b) (has_length N b) false.
Proof.
  unfold bytes_try_into, array_try_from, has_length. case_decide as Hl.
  - by rewrite bool_decide_eq_true_2.
  - by rewrite bool_decide_eq_false_2.
Qed.

(** A field of a fixed length, and what follows. *)
Lemma decided_bytes_bind {N C} b (f : bytesN N -> res ConversionError C) ok crash :
  (forall x, decided (f x) ok crash) ->
  decided (bytes_try_into b ≫= f) (has_length N b && ok) (has_length N b && crash).
Proof. intros Hf. apply (decided_bind _ _ _ _ _ _ (decided_bytes b)). intros a _. apply Hf. Qed.

Lemma decided_amount b :
  decided (from_big_endian (E:=ConversionError) b) (amount_converts b) (amount_crashes b).
Proof.
  unfold amount_converts, amount_crashes. pose proof (from_big_endian_spec ConversionError b) as H.
  destruct (from_big_endian b) as [x|e|]; [|done|].
  - destruct H as [H _]. rewrite bool_decide_eq_true_2, bool_decide_eq_false_2 by lia. done.
  - rewrite bool_decide_eq_false_2, bool_decide_eq_true_2 by lia. done.
Qed.

Lemma decided_asset b : decided (Asset_try_from b) (asset_converts b) (asset_crashes b).
Proof.
  destruct b as [|b0 [|b1 rest]]; try done. unfold Asset_try_from, asset_converts, asset_crashes.
  set (len := u16_from_le_bytes b0 b1). case_decide; [|case_decide].
  - by rewrite !(bool_decide_eq_false_2 (len <= _)), andb_false_r by lia.
  - rewrite (bool_decide_eq_false_2 (len <= 0)), (bool_decide_eq_true_2 (len <= 20)), bool_decide_eq_true_2 by lia.
    unfold has_length, array_try_from. case_decide as Hl.
    + by rewrite bool_decide_eq_true_2.
    + by rewrite bool_decide_eq_false_2.
  - by rewrite (bool_decide_eq_true_2 (len <= 0)), (bool_decide_eq_false_2 (0 < len)) by lia.
Qed.

(** A list of the right length, filled from its elements. *)
Lemma decided_filled {X Y C N} (f : Y -> res ConversionError X) ok crash e (a : array X N) (g : array X N -> C) l :
  (forall y, decided (f y) (ok y) (crash y)) ->
  decided (if decide (zlen l <> Z.of_nat N) then Err e else b ← array_fill f a l; Ok (g b))
    (bool_decide (zlen l = Z.of_nat N) && all_ok ok N l)
    (bool_decide (zlen l = Z.of_nat N) && one_crashes ok crash N l).
Proof. intros Hf. by apply (decided_guard (_ = _)), decided_last, decided_array_fill. Qed.

Lemma decided_balance {P} b :
  decided (ParticipantBalances_try_from (P:=P) b) (balance_converts P b) (balance_crashes P b).
Proof. apply decided_filled, decided_amount. Qed.

Lemma decided_balances {A P} b :
  decided (Balances_try_from (A:=A) (P:=P) b) (balances_convert A P b) (balances_crash A P b).
Proof. apply decided_filled, decided_balance. Qed.

Lemma decided_allocation {A P} a :
  decided (Allocation_try_from (A:=A) (P:=P) a) (allocation_converts A P a) (allocation_crashes A P a).
Proof.
  apply decided_bind; [apply decided_array_fill, decided_asset|]. intros b _.
  apply decided_present. intros x. apply decided_last, decided_balances.
Qed.

Lemma decided_state {A P} s :
  decided (State_try_from (A:=A) (P:=P) s) (state_converts A P s) (state_crashes A P s).
Proof.
  unfold state_converts, state_crashes, state_prefix. rewrite <- !andb_assoc.
  apply (decided_guard (_ = _)), decided_bytes_bind. intros i. apply decided_present. intros x.
  apply decided_last, decided_allocation.
Qed.

End Data.

(* ------------------------------------------------------------------ *)
(** ** The messages                                                      *)
(* ------------------------------------------------------------------ *)

Definition proposal_prefix (base : perunwire.BaseChannelProposal) : bool :=
  has_length 32 (perunwire.BaseChannelProposal_proposal_id base) &&
  has_length 32 (perunwire.BaseChannelProposal_nonce_share base).
Definition proposal_converts (m : perunwire.LedgerChannelProposalMsg) : bool :=
  present (fun base =>
    present (fun bals =>
      present (fun agreement =>
        proposal_prefix base && allocation_converts ASSETS PARTICIPANTS bals &&
        balances_convert ASSETS PARTICIPANTS agreement &&
        has_length 20 (perunwire.LedgerChannelProposalMsg_participant m))
        (perunwire.BaseChannelProposal_funding_agreement base))
      (perunwire.BaseChannelProposal_init_bals base))
    (perunwire.LedgerChannelProposalMsg_base_channel_proposal m).
Definition proposal_crashes (m : perunwire.LedgerChannelProposalMsg) : bool :=
  present (fun base =>
    present (fun bals =>
      present (fun agreement =>
        proposal_prefix base &&
        (allocation_crashes ASSETS PARTICIPANTS bals ||
         (allocation_converts ASSETS PARTICIPANTS bals && balances_crash ASSETS PARTICIPANTS agreement)))
        (perunwire.BaseChannelProposal_funding_agreement base))
      (perunwire.BaseChannelProposal_init_bals base))
    (perunwire.LedgerChannelProposalMsg_base_channel_proposal m).

Definition acceptance_converts (m : perunwire.LedgerChannelProposalAccMsg) : bool :=
  present (fun base =>
    has_length 32 (perunwire.BaseChannelProposalAcc_proposal_id base) &&
    has_length 32 (perunwire.BaseChannelProposalAcc_nonce_share base) &&
    has_length 20 (perunwire.LedgerChannelProposalAccMsg_participant m))
    (perunwire.LedgerChannelProposalAccMsg_base_channel_proposal_acc m).

Definition update_converts (m : perunwire.ChannelUpdateMsg) : bool :=
  present (fun update =>
    present (state_converts ASSETS PARTICIPANTS) (perunwire.ChannelUpdate_state update) &&
    has_length 65 (perunwire.ChannelUpdateMsg_sig m))
    (perunwire.ChannelUpdateMsg_channel_update m).
Definition update_crashes (m : perunwire.ChannelUpdateMsg) : bool :=
  present (fun update => present (state_crashes ASSETS PARTICIPANTS) (perunwire.ChannelUpdate_state update))
    (perunwire.ChannelUpdateMsg_channel_update m).

(** The messages of the other participant that the program takes, and those that
    stop it. *)
Definition message_converts (m : perunwire.envelope_Msg) : bool :=
  match m with
  | perunwire.AuthResponseMsg => true
  | perunwire.Envelope_LedgerChannelProposalMsg m => proposal_converts m
  | perunwire.Envelope_LedgerChannelProposalAccMsg m => acceptance_converts m
  | perunwire.Envelope_ChannelProposalRejMsg m => has_length 32 (perunwire.ChannelProposalRejMsg_proposal_id m)
  | perunwire.Envelope_ChannelUpdateMsg m => update_converts m
  | perunwire.Envelope_ChannelUpdateAccMsg m =>
      has_length 32 (perunwire.ChannelUpdateAccMsg_channel_id m) && has_length 65 (perunwire.ChannelUpdateAccMsg_sig m)
  | perunwire.Envelope_ChannelUpdateRejMsg m => has_length 32 (perunwire.ChannelUpdateRejMsg_channel_id m)
  | _ => false
  end.
Definition message_crashes (m : perunwire.envelope_Msg) : bool :=
  match m with
  | perunwire.AuthResponseMsg => false
  | perunwire.Envelope_LedgerChannelProposalMsg m => proposal_crashes m
  | perunwire.Envelope_LedgerChannelProposalAccMsg m => false
  | perunwire.Envelope_ChannelProposalRejMsg m => negb (has_length 32 (perunwire.ChannelProposalRejMsg_proposal_id m))
  | perunwire.Envelope_ChannelUpdateMsg m => update_crashes m
  | perunwire.Envelope_ChannelUpdateAccMsg m => false
  | perunwire.Envelope_ChannelUpdateRejMsg m => negb (has_length 32 (perunwire.ChannelUpdateRejMsg_channel_id m))
  | _ => true
  end.

(** Those of the services; none is refused. *)
Definition service_message_crashes (m : perunwire.message_Msg) : bool :=
  match m with
  | perunwire.Msg_FundResp m => false
  | perunwire.Msg_WatchResponse m => negb (has_length 32 (perunwire.WatchResponseMsg_channel_id m))
  | perunwire.Msg_ForceCloseResponse m => negb (has_length 32 (perunwire.ForceCloseResponseMsg_channel_id m))
  | perunwire.Msg_DisputeNotification m => negb (has_length 32 (perunwire.DisputeNotification_channel_id m))
  | _ => true
  end.

Section Messages.
Context `{U : UintCrate} `{UL : !UintLaws U} `{I : SignerImpl}.
Context {B : Type} `{HB : !MessageBus B} `{T : !TcpStack B}.
Context {DE : Type} `{PE : !ProstDecode DE perunwire.Envelope} `{PM : !ProstDecode DE perunwire.Message}.

Lemma decided_eq {E A} (r : res E A) ok ok' crash crash' :
  decided r ok crash -> ok = ok' -> crash = crash' -> decided r ok' crash'.
Proof. by intros ? -> ->. Qed.

Lemma decided_address b : decided (Address_try_from b) (has_length 20 b) false.
Proof. apply decided_fmap, decided_bytes. Qed.

Lemma decided_proposal m :
  decided (LedgerChannelProposal_try_from m) (proposal_converts m) (proposal_crashes m).
Proof.
  apply decided_present. intros base. apply decided_present. intros bals. apply decided_present. intros agreement.
  unfold proposal_prefix. rewrite <- !andb_assoc. do 2 (apply decided_bytes_bind; intros).
  eapply decided_eq.
  - apply decided_bind; [apply decided_allocation|]. intros ? _. apply decided_bind; [apply decided_balances|].
    intros ? _. apply decided_last, decided_address.
  - done.
  - by rewrite andb_false_r, orb_false_r.
Qed.

Lemma decided_acceptance m : decided (LedgerChannelProposalAcc_try_from m) (acceptance_converts m) false.
Proof.
  eapply decided_eq.
  - apply decided_present. intros base. do 2 (apply decided_bytes_bind; intros). apply decided_last, decided_address.
  - unfold acceptance_converts. destruct (perunwire.LedgerChannelProposalAccMsg_base_channel_proposal_acc m); [|done].
    apply andb_assoc.
  - cbn beta. destruct (perunwire.LedgerChannelProposalAccMsg_base_channel_proposal_acc m); [|done].
    cbn [present]. by rewrite !andb_false_r.
Qed.

Lemma decided_update m : decided (LedgerChannelUpdate_try_from m) (update_converts m) (update_crashes m).
Proof.
  apply decided_present. intros update.
  destruct (perunwire.ChannelUpdate_state update) as [s|]; [|done]. eapply decided_eq.
  - cbn [expect_some ok_or]. change (Ok s ≫= ?f) with (f s). apply decided_bind; [apply decided_state|]. intros ? _.
    apply decided_last, decided_bytes.
  - done.
  - by rewrite andb_false_r, orb_false_r.
Qed.

Lemma decided_update_acceptance m :
  decided (LedgerChannelUpdateAccepted_try_from m)
    (has_length 32 (perunwire.ChannelUpdateAccMsg_channel_id m) && has_length 65 (perunwire.ChannelUpdateAccMsg_sig m))
    false.
Proof.
  eapply decided_eq; [|done|].
  - apply decided_bytes_bind. intros. apply decided_last, decided_bytes.
  - by rewrite andb_false_r.
Qed.

Lemma decided_hash {E A} b (f : Hash -> A) :
  decided (id ← hash_unwrap (E:=E) b; Ok (f id)) (has_length 32 b) (negb (has_length 32 b)).
Proof.
  apply decided_last. unfold hash_unwrap, array_try_from, has_length. case_decide as Hl.
  - by rewrite bool_decide_eq_true_2.
  - by rewrite bool_decide_eq_false_2.
Qed.

Lemma decided_participant_msg (m : perunwire.envelope_Msg) :
  decided (participant_msg (I:=I) (B:=B) (DE:=DE) m) (message_converts m) (message_crashes m).
Proof.
  destruct m; try done; cbn [participant_msg message_converts message_crashes];
    try (apply decided_fmap, decided_map_err).
  - apply decided_proposal.
  - apply decided_acceptance.
  - apply (decided_hash _ (fun id => ProposalRejected id _)).
  - apply decided_update.
  - apply decided_update_acceptance.
  - apply (decided_hash _ (fun id => ChannelUpdateRejected id _ _)).
Qed.

Lemma decided_service_msg (m : perunwire.message_Msg) :
  decided (service_msg (I:=I) (B:=B) (DE:=DE) m) (negb (service_message_crashes m)) (service_message_crashes m).
Proof.
  destruct m; try done; cbn [service_msg service_message_crashes]; rewrite negb_involutive;
    [apply (decided_hash _ (fun id => Watcher (Ack id _)))|apply (decided_hash _ (fun id => Watcher (DisputeAck id)))
    |apply (decided_hash _ (fun id => Watcher (DisputeNotification id)))].
Qed.

(** C31: which messages of the other participant make the program panic when it
    converts them, which it takes, and which it refuses with an error, is decided
    by the lengths of their fields and by the fields that are missing: it panics
    on an amount of more than 32 bytes in an array of amounts of the right size,
    on an asset whose declared length is between 1 and 20 and that does not have
    20 more bytes, on an identifier of a rejection that is not 32 bytes, and on
    every kind of message it does not handle, but never on an acceptance. *)
Theorem received_messages_decided (m : perunwire.envelope_Msg) :
  let r := participant_msg (I:=I) (B:=B) (DE:=DE) m in
  (r = Panic <-> message_crashes m = true) /\
  ((exists p, r = Ok p) <-> message_converts m = true) /\
  ((exists e, r = Err e) <-> message_crashes m = false /\ message_converts m = false).
Proof.
  intros r. destruct (decided_participant_msg m) as [<- <-]. fold r.
  destruct r; naive_solver.
Qed.

End Messages.
