(* ===== verification/Streams.v ===== *)
(** * Byte streams between two devices

    What two devices need of the TCP sockets besides Net.v: the bytes a socket
    has accepted and not yet handed to the network ([TcpStreams]), a bus that
    writes the participant's messages to one socket as frames ([StreamBus]), of
    which src/cortex-m-demo/src/bus.rs is an instance, and how [try_recv] of
    src/cortex-m-demo/src/application.rs takes a stream of frames apart. *)
From S2P Require Import Prelude AbiSer Types PerunWire Payment PaymentTheorems Sig Messages Wire.
From S2P Require Import WireTheorems ChannelTypes Active Proposal DemoChannel Net BusRefinement DemoPair.
From S2P Require Import Application ApplicationTheorems.

(* ------------------------------------------------------------------ *)
(** ** The sockets                                                       *)
(* ------------------------------------------------------------------ *)

(** The send buffer of a socket: [tx] is what the socket has accepted and the
    network has not taken yet.  Reading and writing a socket do not touch the
    buffers of the other ones, and a read of a socket that may not receive
    fails without an effect.  Closing a socket does not drop what it still has
    to send, and connecting one does not touch the others. *)
Class TcpStreams (N : Type) {T : TcpStack N} {L : TcpLaws N} := {
  tx : SocketHandle -> N -> bytes;
  peek_streams h k n : (peek_slice h k n).1 = n;
  peek_closed h k n : may_recv h n = false -> exists e, (peek_slice h k n).2 = Err e;
  recv_tx {A} h (f : bytes -> Z * A) n h' : tx h' (recv h f n).1 = tx h' n;
  recv_other {A} h (f : bytes -> Z * A) n h' : h' <> h -> rx h' (recv h f n).1 = rx h' n;
  recv_slice_closed h k n : may_recv h n = false -> exists e, (recv_slice h k n).2 = Err e;
  recv_slice_tx h k n h' : tx h' (recv_slice h k n).1 = tx h' n;
  recv_slice_other h k n h' : h' <> h -> rx h' (recv_slice h k n).1 = rx h' n;
  send_slice_rx h msg n h' : rx h' (send_slice h msg n).1 = rx h' n;
  send_slice_other h msg n h' : h' <> h -> tx h' (send_slice h msg n).1 = tx h' n;
  send_slice_tx h msg n n' k :
    send_slice h msg n = (n', Ok k) -> tx h n' = tx h n ++ take (Z.to_nat k) msg;
  close_tx h h' n : tx h' (close h n) = tx h' n;
  connect_rx h e p n h' : h' <> h -> rx h' (connect h e p n).1 = rx h' n;
  connect_tx h e p n h' : h' <> h -> tx h' (connect h e p n).1 = tx h' n;
}.

(** A call of the shared interface. *)
Lemma on_shared_alt {N} `{T : !TcpStack N} {E A} (m : M N E A) (b : ProtoBufEncodingLayer (Bus N)) :
  on_shared m b = (modify_shared (fun n => (m n).1) b, (m (shared_iface b)).2).
Proof.
  destruct b as [[n p s]]. unfold on_shared, on_bus, on_iface, modify_shared, shared_iface. cbn.
  by destruct (m n).
Qed.

#[export] Instance shared_TcpStreams {N} `{ST : TcpStreams N} : TcpStreams (ProtoBufEncodingLayer (Bus N)).
Proof.
  unshelve refine {| tx := fun (h : @SocketHandle _ shared_TcpStack) b => @tx N _ _ ST h (shared_iface b) |};
    intros; cbn [peek_slice recv recv_slice send_slice close connect shared_TcpStack rx shared_TcpLaws] in *;
    rewrite ?on_shared_alt in *; cbn [fst snd] in *.
  - destruct n as [[n p s]]. unfold modify_shared. cbn. by rewrite (@peek_streams N _ _ ST).
  - by apply (@peek_closed N _ _ ST).
  - apply (@recv_tx N _ _ ST).
  - by apply (@recv_other N _ _ ST).
  - by apply (@recv_slice_closed N _ _ ST).
  - apply (@recv_slice_tx N _ _ ST).
  - by apply (@recv_slice_other N _ _ ST).
  - apply (@send_slice_rx N _ _ ST).
  - by apply (@send_slice_other N _ _ ST).
  - injection H as <- Hk. apply (@send_slice_tx N _ _ ST). rewrite <- Hk. apply surjective_pairing.
  - apply (@close_tx N _ _ ST).
  - by apply (@connect_rx N _ _ ST).
  - by apply (@connect_tx N _ _ ST).
Defined.

(* ------------------------------------------------------------------ *)
(** ** The bus                                                           *)
(* ------------------------------------------------------------------ *)

(** [payload] is the protobuf encoding of an envelope with the message, short
    enough for a frame. *)
Definition payload_of `{U : UintCrate} `{PTE : ProstMessage perunwire.Envelope} (m : ParticipantMessage)
    (payload : bytes) : Prop :=
  exists sender recipient,
    payload = prost_encode (perunwire.mkEnvelope sender recipient (Some (participant_wiremsg m))) /\
    zlen payload < 2 ^ 16.

(** The bytes of several frames. *)
Definition frames (payloads : list bytes) : bytes := concat (frame <$> payloads).

Lemma frames_app k l : frames (k ++ l) = frames k ++ frames l.
Proof. unfold frames. by rewrite fmap_app, concat_app. Qed.

(** A bus that writes the participant's messages to the socket [h] as frames,
    in their order, and nothing else. *)
Class StreamBus `{U : UintCrate} `{PTE : ProstMessage perunwire.Envelope} (B : Type) {HB : MessageBus B}
    {T : TcpStack B} {L : TcpLaws B} {ST : TcpStreams B} := {
  sends_to : SocketHandle -> B -> Prop;
  sends_to_recv {A} h k (f : bytes -> Z * A) b : sends_to h b -> sends_to h (recv k f b).1;
  sends_to_recv_slice h k n b : sends_to h b -> sends_to h (recv_slice k n b).1;
  sends_to_close h k b : sends_to h b -> sends_to h (close k b);
  sends_to_connect h k e p b : sends_to h b -> sends_to h (connect k e p b).1;
  deliver_stream h b m b' :
    sends_to h b -> deliver b m b' ->
    sends_to h b' /\ (forall k, rx k b' = rx k b) /\
    exists payloads, Forall2 payload_of (for_peer [m]) payloads /\ tx h b' = tx h b ++ frames payloads;
}.

Section StreamBus.
Context `{U : UintCrate} `{PTE : ProstMessage perunwire.Envelope} {B : Type}.
Context `{HB : !MessageBus B} `{T : !TcpStack B} `{L : !TcpLaws B} `{ST : !TcpStreams B} `{SB : !StreamBus B}.

(** Several messages. *)
Lemma delivers_stream h b l b' :
  sends_to h b -> delivers b l b' ->
  sends_to h b' /\ (forall k, rx k b' = rx k b) /\
  exists payloads, Forall2 payload_of (for_peer l) payloads /\ tx h b' = tx h b ++ frames payloads.
Proof.
  intros Hb Hd. revert Hb. induction Hd as [b|b m b1 l b2 Hm _ IH]; intros Hb.
  - split; [done|]. split; [done|]. exists []. by rewrite app_nil_r.
  - destruct (deliver_stream h b m b1 Hb Hm) as (Hb1 & Hrx & ps & Hps & Htx).
    destruct (IH Hb1) as (Hb2 & Hrx' & ps' & Hps' & Htx'). split; [done|].
    split; [intros k; by rewrite Hrx', Hrx|]. exists (ps ++ ps').
    rewrite frames_app, Htx', Htx, <- app_assoc. split; [|done].
    change (m :: l) with ([m] ++ l). rewrite for_peer_app. by apply Forall2_app.
Qed.

End StreamBus.

(** The demo's bus: one socket for the participant, another one for the
    services. *)
Section SharedBus.
Context `{Pl : Platform} `{U : UintCrate} `{S : Sha3Crate} {N : Type} `{ST : TcpStreams N}.
Context `{PTM : !ProstMessage perunwire.Message} `{PTE : !ProstMessage perunwire.Envelope}.

Abbreviation Shared := (ProtoBufEncodingLayer (Bus N)).

Definition participant_apart (h : @SocketHandle N T) (b : Shared) : Prop :=
  participant_handle (bus b) = h /\ service_handle (bus b) <> h.

(** A message that has been sent through one of the handles. *)
Lemma send_stream {E} k msg (b : Bus N) b' :
  send (E:=E) k msg b = (b', Ok tt) ->
  participant_handle b' = participant_handle b /\ service_handle b' = service_handle b /\
  (forall h, rx h (iface b') = rx h (iface b)) /\ tx k (iface b') = tx k (iface b) ++ msg /\
  (forall h, h <> k -> tx h (iface b') = tx h (iface b)).
Proof.
  destruct b as [n p s]. unfold send, on_iface. cbn [iface participant_handle service_handle].
  pose proof (send_slice_rx k msg n) as Hrx. pose proof (send_slice_other k msg n) as Ho.
  pose proof (send_slice_tx k msg n) as Htx. destruct (send_slice k msg n) as [n' [c|e|]]; [|done|done].
  cbn [fst] in *. case_decide as Hc; [done|]. intros [= <-]. specialize (Htx n' c eq_refl).
  assert (c = zlen msg) as -> by lia. unfold zlen in Htx. rewrite Nat2Z.id, firstn_all in Htx.
  cbn. by split_and!.
Qed.

(** A message to a service goes to the other socket. *)
Lemma service_stream {E X} (r : res E X) (env : X -> perunwire.Message) h (b b' : Shared) :
  participant_apart h b ->
  (wiremsg ← mlift r; buf ← mlift (encode (env wiremsg));
   on_bus (fun self : Bus N => send (service_handle self) buf self)) b = (b', Ok tt) ->
  participant_apart h b' /\ (forall k, rx (T:=shared_TcpStack) k b' = rx (T:=shared_TcpStack) k b) /\
  tx (T:=shared_TcpStack) h b' = tx (T:=shared_TcpStack) h b.
Proof.
  intros [Hp Hs]. unfold mbind, M_bind, mlift. destruct r as [x|e|]; [|done|done].
  destruct (encode (env x)) as [buf|e|]; [|done|done]. unfold on_bus.
  destruct (send _ buf (bus b)) as [b1 r] eqn:Hsend. intros [= <- ->].
  destruct (send_stream _ _ _ _ Hsend) as (H1 & H2 & H3 & _ & H5).
  split; [split; cbn; congruence|]. split; [exact H3|]. apply H5. congruence.
Qed.

#[export] Instance shared_StreamBus : StreamBus (T:=shared_TcpStack) Shared.
Proof.
  refine {| sends_to := participant_apart : @SocketHandle Shared shared_TcpStack -> Shared -> Prop |}.
  - intros A h k f b Hb. cbn [recv shared_TcpStack]. rewrite on_shared_alt. exact Hb.
  - intros h k n b Hb. cbn [recv_slice shared_TcpStack]. rewrite on_shared_alt. exact Hb.
  - intros h k b Hb. exact Hb.
  - intros h k e p b Hb. cbn [connect shared_TcpStack]. rewrite on_shared_alt. exact Hb.
  - intros h b m b' Hb [E Hm]. destruct m as [m|m|s r m].
    + destruct (service_stream _ (fun w => perunwire.mkMessage (Some w)) h b b' Hb Hm) as (? & ? & Htx).
      split; [done|]. split; [done|]. exists []. split; [constructor|]. rewrite app_nil_r. exact Htx.
    + destruct (service_stream _ (fun w => perunwire.mkMessage (Some w)) h b b' Hb Hm) as (? & ? & Htx).
      split; [done|]. split; [done|]. exists []. split; [constructor|]. rewrite app_nil_r. exact Htx.
    + destruct Hb as [Hp Hs]. cbn in Hm. unfold encoding_send_to_participant, mbind, M_bind, mlift in Hm.
      destruct (encode _) as [buf|e|] eqn:He in Hm; [|done|done]. apply encode_inv in He as [Hl ->].
      unfold on_bus in Hm. cbn [bytes_to_participant Bus_BytesBus] in Hm.
      destruct (send _ _ (bus b)) as [b1 res] eqn:Hsend in Hm. injection Hm as <- ->.
      destruct (send_stream _ _ _ _ Hsend) as (H1 & H2 & H3 & H4 & _).
      split; [split; cbn; congruence|]. split; [exact H3|].
      exists [prost_encode (perunwire.mkEnvelope s r (Some (participant_wiremsg m)))]. split.
      * constructor; [|constructor]. exists s, r. by split.
      * unfold frames. cbn [fmap list_fmap concat]. rewrite app_nil_r. rewrite Hp in H4. exact H4.
Defined.

End SharedBus.

(* ------------------------------------------------------------------ *)
(** ** Receiving                                                         *)
(* ------------------------------------------------------------------ *)

Section Receiving.
Context `{U : UintCrate} `{PTE : ProstMessage perunwire.Envelope} {B : Type}.
Context `{HB : !MessageBus B} `{T : !TcpStack B} `{L : !TcpLaws B} `{ST : !TcpStreams B} `{SB : !StreamBus B}.

(** Between the two worlds only the receive buffer of [h] differs. *)
Record apart (h : SocketHandle) (b b' : B) : Prop := {
  apart_rx k : k <> h -> rx k b' = rx k b;
  apart_tx k : tx k b' = tx k b;
  apart_sends k : sends_to k b -> sends_to k b';
}.

Lemma apart_refl h b : apart h b b.
Proof. by split. Qed.

Lemma apart_trans h b b' b'' : apart h b b' -> apart h b' b'' -> apart h b b''.
Proof.
  intros [H1 H2 H3] [G1 G2 G3]. split; intros k; [intros Hk; by rewrite G1, H1|by rewrite G2, H2|auto].
Qed.

(** A computation that only reads the socket [h]. *)
Definition reads (h : SocketHandle) {E A} (m : M B E A) : Prop := forall b, apart h b (m b).1.

Lemma reads_same h {E A} (m : M B E A) : (forall b, (m b).1 = b) -> reads h m.
Proof. intros Hm b. rewrite Hm. apply apart_refl. Qed.

Lemma reads_bind h {E A C} (m : M B E A) (f : A -> M B E C) :
  reads h m -> (forall a, reads h (f a)) -> reads h (m ≫= f).
Proof.
  intros Hm Hf b. specialize (Hm b). unfold mbind, M_bind. destruct (m b) as [b' [a|e|]]; [|done|done].
  eapply apart_trans; [exact Hm|apply Hf].
Qed.

Lemma reads_get h {E A} (f : B -> M B E A) : (forall b, reads h (f b)) -> reads h (mget ≫= f).
Proof. intros Hf b. apply Hf. Qed.

Lemma reads_map_err h {E F A} (g : E -> F) (m : M B E A) : reads h m -> reads h (mmap_err g m).
Proof. intros Hm b. specialize (Hm b). unfold mmap_err. by destruct (m b). Qed.

Lemma reads_peek h k : reads h (peek_slice h k).
Proof. apply reads_same. intros b. apply peek_streams. Qed.

Lemma reads_recv h {A} (f : bytes -> Z * A) : reads h (recv h f).
Proof. intros b. split; intros k; [apply recv_other|apply recv_tx|apply sends_to_recv]. Qed.

Lemma reads_recv_slice h n : reads h (recv_slice h n).
Proof. intros b. split; intros k; [apply recv_slice_other|apply recv_slice_tx|apply sends_to_recv_slice]. Qed.

End Receiving.

Create HintDb reads discriminated.
#[export] Hint Resolve reads_map_err reads_peek reads_recv reads_recv_slice : reads.

Section TryRecv.
Context `{U : UintCrate} `{I : SignerImpl} `{PTE : ProstMessage perunwire.Envelope} {B : Type}.
Context `{HB : !MessageBus B} `{T : !TcpStack B} `{L : !TcpLaws B} `{ST : !TcpStreams B} `{SB : !StreamBus B}.
Context {DE X : Type} `{PX : !ProstDecode DE X}.

Lemma try_recv_reads h : reads h (try_recv (X:=X) (DE:=DE) h).
Proof.
  unfold try_recv. repeat match goal with
    | |- forall _, _ => intro
    | |- reads _ (mget ≫= _) => apply reads_get
    | |- reads _ (_ ≫= _) => apply reads_bind
    | |- reads _ (if ?x then _ else _) => destruct x
    | |- _ => solve [auto 3 with reads nocore | by apply reads_same]
    end.
Qed.

(** A frame that the buffer holds but that is too large for the array it would
    be read into. *)
Lemma try_recv_oversized h b payload tail :
  may_recv h b = true -> header_contiguous h b -> zlen payload < 2 ^ 16 -> MAX_MESSAGE_SIZE < zlen payload ->
  2 + zlen payload <= recv_capacity h b -> rx h b = frame payload ++ tail ->
  (try_recv (X:=X) (DE:=DE) h b).2 = Panic.
Proof.
  intros Hm Hc Hp Hmax Hcap Hrx. pose proof (zlen_nonneg tail). pose proof (zlen_nonneg payload).
  assert (zlen (rx h b) = 2 + zlen payload + zlen tail) as Hlen by by rewrite Hrx, zlen_app, zlen_frame.
  destruct (try_recv_header h b payload tail Hm Hc Hp) as [Htake Hval]; [lia|by exists []; rewrite app_nil_r|].
  destruct (peek_header h b Hm Hc) as [Hpeek Hpl]; [lia|].
  destruct (recv_spec h (fun x : bytes => let len := Z.min (zlen x) 2 in (len, len)) b Hm) as (b1 & Hr & _).
  { cbn zeta. cbn [fst]. pose proof (zlen_nonneg (take (contiguous h b) (rx h b))). lia. }
  cbn zeta in Hr. cbn [fst snd] in Hr.
  replace (Z.min (zlen (take (contiguous h b) (rx h b))) 2) with 2 in Hr.
  2: { unfold header_contiguous in Hc. unfold zlen in *. rewrite length_take. lia. }
  unfold try_recv. mrun. rewrite recv_queue_spec, decide_False by lia.
  erewrite M_bind_ok by (unfold mmap_err; by rewrite Hpeek). rewrite decide_False by lia. mrun.
  rewrite Hval, decide_False by lia. rewrite recv_queue_spec, decide_False by lia.
  erewrite M_bind_ok by (unfold mmap_err; by rewrite Hr). destruct (decide (2 <> 2)) as [Hn|_]; [by destruct Hn|].
  erewrite M_bind_ok by reflexivity. by rewrite decide_True by done.
Qed.

(** Why [try_recv] panics: the two bytes of the length lie on both sides of the end
    of the ring buffer, or the frame is too large. *)
Definition bad_framing (h : SocketHandle) (b : B) (payloads : list bytes) : Prop :=
  (2 <= zlen (rx h b) /\ ~ header_contiguous h b) \/ exists p rest, payloads = p :: rest /\ MAX_MESSAGE_SIZE < zlen p.

(** [try_recv] of a stream of frames: it panics for one of these reasons, or leaves the
    stream as it is, or takes the first frame and decodes it. *)
Lemma try_recv_frames h b b' r more payloads :
  rx h b ++ more = frames payloads -> Forall (fun p => p <> [] /\ zlen p < 2 ^ 16) payloads ->
  try_recv (X:=X) (DE:=DE) h b = (b', r) ->
  (r = Panic /\ bad_framing h b payloads) \/
  (rx h b' = rx h b /\ (r = Ok None \/ exists e, r = Err e)) \/
  (exists payload rest, payloads = payload :: rest /\ rx h b' ++ more = frames rest /\
     r = Some <$> map_err ProstDecodeError (prost_decode payload)).
Proof.
  intros Hs Hall Hr. destruct (decide (zlen (rx h b) < 2)) as [Hl|Hl].
  { rewrite try_recv_short in Hr by done. injection Hr as <- <-. right. left. split; [done|by left]. }
  destruct (may_recv h b) eqn:Hm.
  2: { right. left. unfold try_recv in Hr. mrun_in Hr. rewrite recv_queue_spec, decide_False in Hr by done.
       destruct (peek_closed h 2 b Hm) as [e He]. pose proof (peek_streams h 2 b) as Hb.
       erewrite M_bind_err in Hr by (unfold mmap_err; rewrite (surjective_pairing (peek_slice h 2 b)), He, Hb; done).
       injection Hr as <- <-. split; [done|right]. by eexists. }
  destruct payloads as [|payload rest].
  { destruct (rx h b) as [|x l]; [by destruct Hl|done]. }
  inversion Hall as [|? ? [Hne Hp] Hall']; subst. change (frames (payload :: rest)) with (frame payload ++ frames
    rest) in Hs.
  destruct (decide (2 <= contiguous h b)%nat) as [Hc|Hc].
  2: { left. unfold try_recv in Hr. mrun_in Hr. rewrite recv_queue_spec, decide_False in Hr by done.
       erewrite M_bind_ok in Hr by (unfold mmap_err; by rewrite peek_slice_spec by done).
       rewrite decide_True in Hr; [injection Hr as _ <-; split; [done|left; by split; [lia|]]|]. unfold zlen. rewrite
         length_take. lia. }
  destruct (decide (recv_capacity h b < 2 + zlen payload)) as [Hcap|Hcap].
  { rewrite (try_recv_too_large h b payload more (frames rest)) in Hr by (done || lia). injection Hr as <- <-.
    right. left. split; [done|right]. by eexists. }
  destruct (decide (zlen (rx h b) < 2 + zlen payload)) as [Hi|Hi].
  { rewrite (try_recv_incomplete h b payload more (frames rest)) in Hr by (done || lia). injection Hr as <- <-.
    right. left. split; [done|by left]. }
  assert (rx h b = frame payload ++ drop (length (frame payload)) (rx h b)) as Hrx.
  { eapply stream_take; [exact Hs|]. rewrite zlen_frame. lia. }
  set (tail := drop (length (frame payload)) (rx h b)) in *.
  destruct (decide (zlen payload <= MAX_MESSAGE_SIZE)) as [Hmax|Hmax].
  - destruct (try_recv_complete (X:=X) (DE:=DE) h b payload tail Hm Hc Hne Hmax) as (b1 & Hrx1 & Hr1); [lia|done|].
    rewrite Hr1 in Hr. injection Hr as <- <-. right. right. exists payload, rest. split; [done|]. split; [|done].
    rewrite Hrx1. rewrite Hrx, <- app_assoc in Hs. by apply app_inv_head in Hs.
  - left. pose proof (try_recv_oversized h b payload tail Hm Hc Hp) as Hpan. rewrite Hr in Hpan.
    split; [apply Hpan; [lia|lia|done]|]. right. exists payload, rest. split; [done|lia].
Qed.
End TryRecv.

(* ------------------------------------------------------------------ *)
(** ** The messages in the frames                                        *)
(* ------------------------------------------------------------------ *)

(** [prost]: what has been encoded in a frame is decoded to the same envelope,
    and an envelope with a message is not encoded in zero bytes. *)
Class ProstLaws (DE : Type) `{PTE : ProstMessage perunwire.Envelope} `{PE : ProstDecode DE perunwire.Envelope}
    : Prop := {
  prost_roundtrip env : zlen (prost_encode env) < 2 ^ 16 -> prost_decode (DE:=DE) (prost_encode env) = Ok env;
  prost_nonempty env : perunwire.Envelope_msg env <> None -> prost_encode env <> [];
}.

Section Messages.
Context `{Pl : Platform} `{U : UintCrate} `{UL : !UintLaws U} `{S : Sha3Crate} `{I : SignerImpl}.
Context `{PTE : !ProstMessage perunwire.Envelope} {B : Type}.
Context `{HB : !MessageBus B} `{T : !TcpStack B} `{L : !TcpLaws B} `{ST : !TcpStreams B} `{SB : !StreamBus B}.
Context {R : Type} `{HR : !RngCore R}.
Context {DE : Type} `{PE : !ProstDecode DE perunwire.Envelope} `{PM : !ProstDecode DE perunwire.Message}.
Context `{PL : !ProstLaws DE}.

Abbreviation App := (@Application _ I B T R).

Lemma payload_decodes m payload :
  payload_of m payload ->
  exists env, prost_decode (DE:=DE) payload = Ok env /\ perunwire.Envelope_msg env = Some (participant_wiremsg m).
Proof. intros (s & r & -> & Hl). eexists. split; [by apply (prost_roundtrip (DE:=DE))|done]. Qed.

Lemma payload_fits m payload : payload_of m payload -> payload <> [] /\ zlen payload < 2 ^ 16.
Proof. intros (s & r & -> & Hl). split; [by apply (prost_nonempty (DE:=DE))|done]. Qed.

(** Receiving from a stream that carries messages the conversions keep. *)
Lemma try_recv_participant_stream (self : App) b s' r more ms payloads :
  Forall2 payload_of ms payloads -> Forall survives ms ->
  rx (app_participant_handle self) b ++ more = frames payloads ->
  try_recv_participant_msg (DE:=DE) (self, b) = (s', r) ->
  exists b', s' = (self, b') /\ apart (app_participant_handle self) b b' /\
    ((r = Panic /\ bad_framing (app_participant_handle self) b payloads) \/
     (rx (app_participant_handle self) b' = rx (app_participant_handle self) b /\
      (r = Ok None \/ exists e, r = Err e)) \/
     (exists m ms' payloads', ms = m :: ms' /\ r = Ok (Some m) /\ Forall2 payload_of ms' payloads' /\
        rx (app_participant_handle self) b' ++ more = frames payloads')).
Proof.
  intros Hps Hsv Hs Hr. set (h := app_participant_handle self) in *.
  destruct (try_recv (X:=perunwire.Envelope) (DE:=DE) h b) as [b' res] eqn:Ht.
  assert (Forall (fun p => p <> [] /\ zlen p < 2 ^ 16) payloads) as Hall.
  { clear -Hps PL. induction Hps; constructor; [by eapply payload_fits|done]. }
  pose proof (try_recv_reads (X:=perunwire.Envelope) (DE:=DE) h b) as Hap. rewrite Ht in Hap. cbn [fst] in Hap.
  unfold try_recv_participant_msg in Hr. rewrite M_get in Hr. fold h in Hr.
  unfold mbind at 1, M_bind at 1, on_snd in Hr. cbn [fst snd] in Hr. rewrite Ht in Hr.
  destruct (try_recv_frames h b b' res more payloads Hs Hall Ht) as [[-> Hbad]|[[Hrx Hres]|(p & rest & -> & Hrx & ->)]].
  - injection Hr as <- <-. exists b'. split; [done|]. split; [done|by left].
  - exists b'. destruct Hres as [-> |[e ->]]; [cbn in Hr|]; injection Hr as <- <-;
      (split; [done|]; split; [done|]; right; left; split; [done|]); [by left|right; by eexists].
  - inversion Hps as [|m p' ms' rest' Hp Hps']; subst. inversion Hsv as [|? ? Hm Hsv']; subst.
    destruct (payload_decodes m p Hp) as (env & Hd & Hmsg). rewrite Hd in Hr. cbn [map_err fmap res_fmap] in Hr.
    rewrite Hmsg in Hr. cbn [ok_or] in Hr. mrun_in Hr.
    apply (participant_msg_iff (I:=I) (B:=B) (DE:=DE)) in Hm. rewrite Hm in Hr. mrun_in Hr. injection Hr as <- <-.
    exists b'. split; [done|]. split; [done|]. right. right. by exists m, ms', rest.
Qed.

Lemma try_recv_service_reads (self : App) b s' r :
  try_recv_service_msg (DE:=DE) (self, b) = (s', r) ->
  exists b', s' = (self, b') /\ apart (app_service_handle self) b b'.
Proof.
  unfold try_recv_service_msg. rewrite M_get. set (h := app_service_handle self).
  pose proof (try_recv_reads (X:=perunwire.Message) (DE:=DE) h b) as Hap.
  unfold mbind at 1, M_bind at 1, on_snd. cbn [fst snd].
  destruct (try_recv (X:=perunwire.Message) (DE:=DE) h b) as [b' res]. cbn [fst] in Hap.
  intros Hr. exists b'. split; [|done]. destruct res as [[env|]|e|]; [|by injection Hr as <- _..].
  destruct (perunwire.Message_msg env) as [wm|]; cbn [ok_or] in Hr; mrun_in Hr; [|by injection Hr as <- _].
  destruct (service_msg wm) as [x|e|]; mrun_in Hr; by injection Hr as <- _.
Qed.

End Messages.
