(* ===== verification/Devices.v ===== *)
(** * Two devices

    Two devices of the demo, connected by TCP: each is an application of
    src/cortex-m-demo/src/application.rs with the world it runs in, and the
    bytes on their way to it.  A device polls its application or presses the
    buttons that update and close; its network interface hands bytes over and
    takes bytes in.  The devices implement the two ends of DemoPair.v: every
    step is a step of the ends, or none. *)
From stdpp Require Import relations.
From S2P Require Import Prelude AbiSpec AbiSer Types PerunWire Payment PaymentTheorems Sig Messages Wire.
From S2P Require Import WireTheorems ChannelTypes Active Proposal ActiveTheorems ChannelSystem OpeningTheorems.
From S2P Require Import DemoChannel Net BusRefinement DemoTheorems DemoPair PairTheorems.
From S2P Require Import Application ApplicationTheorems Streams.

Section Devices.
Context `{Pl : Platform} `{U : UintCrate} `{UL : !UintLaws U} `{S : Sha3Crate} `{SL : !Sha3Laws S}.
Context `{I : SignerImpl} `{IL : !SignerLaws I}.
Context `{PTE : !ProstMessage perunwire.Envelope} {B : Type} `{HB : !MessageBus B} `{LB : !LawfulBus B}.
Context `{T : !TcpStack B} `{L : !TcpLaws B} `{ST : !TcpStreams B} `{SB : !StreamBus B}.
Context {R : Type} `{HR : !RngCore R}.
Context {DE : Type} `{PE : !ProstDecode DE perunwire.Envelope} `{PM : !ProstDecode DE perunwire.Message}.
Context `{PL : !ProstLaws DE}.

Abbreviation App := (@Application _ I B T R).
Abbreviation A := (M (App * B) (@AppError I B T DE)).

(* ------------------------------------------------------------------ *)
(** ** The calls of an active application                                *)
(* ------------------------------------------------------------------ *)

(** The application and its world after its channel has become [ch] and the
    world [b]: closed sockets if the channel is closed. *)
Definition settles (a : App) (e w : Address) (ch : Channel) (b : B) (a' : App) (b' : B) : Prop :=
  (a' = set_app_state (ActiveState e w ch) a /\ b' = b) \/
  (inner ch = Closed /\ a' = set_app_state (ClosingSockets e w) a /\
   b' = close (app_service_handle a) (close (app_participant_handle a) b)).

Lemma on_channel_run {X} (a : App) e w ch b (m : M (Channel * B) DemoError X) (other : A X) s' r :
  app_state a = ActiveState e w ch -> on_channel m other (a, b) = (s', r) -> r <> Panic ->
  exists ch' b' res, m (ch, b) = ((ch', b'), res) /\ res <> Panic /\
    s' = (set_app_state (ActiveState e w ch') a, b').
Proof.
  intros Hs. unfold on_channel. rewrite Hs. destruct (m (ch, b)) as [[ch' b'] res]. intros [= <- <-] Hr.
  exists ch', b', res. split; [done|]. split; [by destruct res|done].
Qed.

(** A message that has been received is processed. *)
Lemma forward_run {X} (a : App) e w ch b b1 x (recv_fn : A (option X)) process s' r :
  app_state a = ActiveState e w ch -> recv_fn (a, b) = ((a, b1), Ok (Some x)) ->
  forward_messages recv_fn process (a, b) = (s', r) -> r <> Panic ->
  exists ch' b2 res, process x (ch, b1) = ((ch', b2), res) /\ res <> Panic /\
    settles a e w ch' b2 s'.1 s'.2 /\ r <> Ok false.
Proof.
  intros Hs Hrecv Hf Hr. unfold forward_messages in Hf. erewrite M_bind_ok in Hf by exact Hrecv. cbn beta iota in Hf.
  unfold mbind at 1, M_bind at 1 in Hf. destruct (on_channel _ _ _) as [s1 r1] eqn:Hc.
  destruct (on_channel_run a e w ch b1 _ _ s1 r1 Hs Hc) as (ch' & b2 & res & Hp & Hres & ->).
  { intros ->. injection Hf as _ <-. done. }
  exists ch', b2, res. split; [exact Hp|]. split; [exact Hres|]. destruct r1 as [[]|e1|].
  - unfold close_if_closed, mbind, M_bind, mget in Hf. cbn [app_state set_app_state] in Hf.
    destruct (is_closed ch') eqn:Hcl; cbn in Hf; injection Hf as <- <-; (split; [|done]).
    + right. split; [|done]. unfold is_closed in Hcl. by destruct (inner ch').
    + by left.
  - injection Hf as <- <-. split; [by left|done].
  - injection Hf as _ <-. done.
Qed.

(** Nothing was received. *)
Lemma forward_none {X} (a : App) b b1 r0 (recv_fn : A (option X)) process :
  recv_fn (a, b) = ((a, b1), r0) -> (forall x, r0 <> Ok (Some x)) ->
  (forward_messages recv_fn process (a, b)).1 = (a, b1) /\
  (forward_messages recv_fn process (a, b)).2 =
    match r0 with Ok _ => Ok false | Err e => Err e | Panic => Panic end.
Proof.
  intros Hrecv Hx. assert (forward_messages recv_fn process (a, b) =
    ((a, b1), match r0 with Ok _ => Ok false | Err e => Err e | Panic => Panic end)) as ->; [|done].
  unfold forward_messages. unfold mbind at 1, M_bind at 1. rewrite Hrecv.
  destruct r0 as [[x|]|e|]; [by destruct (Hx x)|done..].
Qed.

(** What a call of [poll] that returns has done. *)
Inductive polled (a : App) (e w : Address) (ch : Channel) (b : B) : App -> B -> Prop :=
  | polled_participant b1 m ch' b2 res a' b' :
      try_recv_participant_msg (DE:=DE) (a, b) = ((a, b1), Ok (Some m)) ->
      process_participant_msg m (ch, b1) = ((ch', b2), res) -> res <> Panic ->
      settles a e w ch' b2 a' b' -> polled a e w ch b a' b'
  | polled_service b1 b2 m ch' b3 res a' b' :
      try_recv_participant_msg (DE:=DE) (a, b) = ((a, b1), Ok None) ->
      try_recv_service_msg (DE:=DE) (a, b1) = ((a, b2), Ok (Some m)) ->
      process_service_msg m (ch, b2) = ((ch', b3), res) -> res <> Panic ->
      settles a e w ch' b3 a' b' -> polled a e w ch b a' b'
  | polled_nothing b1 r1 b' :
      try_recv_participant_msg (DE:=DE) (a, b) = ((a, b1), r1) -> r1 <> Panic -> (forall m, r1 <> Ok (Some m)) ->
      b' = b1 \/ (exists r2, try_recv_service_msg (DE:=DE) (a, b1) = ((a, b'), r2)) -> polled a e w ch b a b'.

Lemma try_recv_participant_same (a : App) b s r :
  try_recv_participant_msg (DE:=DE) (a, b) = (s, r) -> s.1 = a.
Proof.
  unfold try_recv_participant_msg. rewrite M_get. unfold mbind at 1, M_bind at 1, on_snd. cbn [fst snd].
  destruct (try_recv _ b) as [b1 [[env|]|e|]]; intros H; [|by injection H as <- _..].
  destruct (perunwire.Envelope_msg env) as [m|]; cbn [ok_or] in H; mrun_in H; [|by injection H as <- _].
  destruct (participant_msg m); mrun_in H; by injection H as <- _.
Qed.

Lemma poll_polled (a : App) e w ch b s' r :
  app_state a = ActiveState e w ch -> poll (DE:=DE) (a, b) = (s', r) -> r <> Panic ->
  polled a e w ch b s'.1 s'.2.
Proof.
  intros Hs. unfold poll. rewrite M_get, Hs. unfold forward_messages_to_channel.
  destruct (try_recv_participant_msg (DE:=DE) (a, b)) as [[a1 b1] r1] eqn:H1.
  pose proof (try_recv_participant_same _ _ _ _ H1) as Ha. cbn [fst] in Ha. subst a1.
  intros Hp Hr. unfold mbind at 1, M_bind at 1 in Hp.
  destruct (forward_messages (try_recv_participant_msg (DE:=DE)) _ (a, b)) as [s1 r1'] eqn:Hf.
  destruct r1 as [[m|]|e1|].
  - destruct (forward_run a e w ch b b1 m _ _ s1 r1' Hs H1 Hf) as (ch' & b2 & res & Hm & Hres & Hset & Hne).
    { intros ->. by injection Hp as _ <-. }
    destruct r1' as [[|]|e1|]; [|done| |by injection Hp as _ <-]; injection Hp as <- _;
      by eapply polled_participant.
  - destruct (forward_none a b b1 _ _ process_participant_msg H1) as [E1 E2]; [done|]. rewrite Hf in E1, E2.
    cbn [fst snd] in E1, E2. subst s1 r1'. cbn beta iota in Hp. unfold mbind at 1, M_bind at 1 in Hp.
    destruct (try_recv_service_msg (DE:=DE) (a, b1)) as [s2 r2] eqn:H2.
    destruct (try_recv_service_reads a b1 s2 r2 H2) as (b2 & -> & _).
    destruct (forward_messages (try_recv_service_msg (DE:=DE)) _ (a, b1)) as [s3 r3] eqn:Hf2.
    assert (r3 <> Panic) as Hr3 by by (intros ->; injection Hp as _ <-).
    assert (s' = s3) as -> by by (destruct r3; injection Hp as <- _).
    destruct r2 as [[m|]|e2|].
    + destruct (forward_run a e w ch b1 b2 m _ _ s3 r3 Hs H2 Hf2 Hr3) as (ch' & b3 & res & Hm & Hres & Hset & _).
      by eapply polled_service.
    + destruct (forward_none a b1 b2 _ _ process_service_msg H2) as [E1 _]; [done|]. rewrite Hf2 in E1.
      cbn [fst] in E1. subst s3. eapply polled_nothing; [exact H1|done|done|right; by eexists].
    + destruct (forward_none a b1 b2 _ _ process_service_msg H2) as [E1 _]; [done|]. rewrite Hf2 in E1.
      cbn [fst] in E1. subst s3. eapply polled_nothing; [exact H1|done|done|right; by eexists].
    + destruct (forward_none a b1 b2 _ _ process_service_msg H2) as [_ E2]; [done|]. rewrite Hf2 in E2. done.
  - destruct (forward_none a b b1 _ _ process_participant_msg H1) as [E1 E2]; [done|]. rewrite Hf in E1, E2.
    cbn [fst snd] in E1, E2. subst s1 r1'. injection Hp as <- _.
    eapply polled_nothing; [exact H1|done|done|by left].
  - destruct (forward_none a b b1 _ _ process_participant_msg H1) as [E1 E2]; [done|]. rewrite Hf in E1, E2.
    cbn [fst snd] in E2. subst r1'. by injection Hp as _ <-.
Qed.

(* ------------------------------------------------------------------ *)
(** ** The system                                                        *)
(* ------------------------------------------------------------------ *)

(** A device: its application, its world, and the bytes the network carries to
    it. *)
Record node : Type := mkNode { node_app : App; world : B; incoming : bytes }.
Definition system : Type := node * node.
Definition mirror (s : system) : system := (s.2, s.1).

(** The socket for the other participant. *)
Definition socket (n : node) : SocketHandle := app_participant_handle (node_app n).

Definition active (a : App) : Prop := exists e w ch, app_state a = ActiveState e w ch.

(** It exchanges messages with the other participant: from the handshake on, until
    its channel is closed. *)
Definition connected (a : App) : Prop :=
  match app_state a with
  | Listening _ _ | Connecting _ _ | WaitForHandshake _ _ | WaitForProposal _ _ | ActiveState _ _ _ => True
  | _ => False
  end.

Lemma active_connected a : active a -> connected a.
Proof. intros (e & w & ch & Hs). unfold connected. by rewrite Hs. Qed.

(** A call of the main loop that returns.  A device that listens makes no further
    call when its poll has failed (main.rs unwraps the result, so that it stops).
    The button for an update is pressed only when no update is pending, and that
    for a proposal not by a device that listens, which would connect anew. *)
Inductive device_call : App * B -> App * B -> Prop :=
  | device_poll s s' r :
      poll (DE:=DE) s = (s', r) -> r <> Panic -> (forall e w, app_state s.1 = Listening e w -> r = Ok tt) ->
      device_call s s'
  | device_propose s s' r :
      (forall e w, app_state s.1 <> Listening e w) -> app_propose_channel (DE:=DE) s = (s', r) -> device_call s s'
  | device_update amount final s s' r :
      (forall e w ch, app_state s.1 = ActiveState e w ch -> pending (inner ch) = None) ->
      app_update (DE:=DE) amount final s = (s', r) -> r <> Panic -> device_call s s'
  | device_force_close s s' r : app_force_close (DE:=DE) s = (s', r) -> r <> Panic -> device_call s s'.

(** A step of the left device: a call while its application is connected, or its
    network interface takes bytes in and hands bytes over, in order, and does
    anything else to its world. *)
Inductive left_device : system -> system -> Prop :=
  | left_device_call a b q a' b' r :
      connected a -> device_call (a, b) (a', b') -> left_device (mkNode a b q, r) (mkNode a' b' q, r)
  | left_device_network a b b' got rest out r :
      (connected a -> rx (app_participant_handle a) b' = rx (app_participant_handle a) b ++ got) ->
      tx (app_participant_handle a) b = out ++ tx (app_participant_handle a) b' ->
      (sends_to (app_participant_handle a) b -> sends_to (app_participant_handle a) b') ->
      left_device (mkNode a b (got ++ rest), r)
        (mkNode a b' rest, mkNode (node_app r) (world r) (incoming r ++ out)).

Definition system_step (s s' : system) : Prop := left_device s s' \/ left_device (mirror s) (mirror s').

Lemma mirror_mirror s : mirror (mirror s) = s.
Proof. by destruct s. Qed.

(* ------------------------------------------------------------------ *)
(** ** The ends the devices implement                                    *)
(* ------------------------------------------------------------------ *)

(** A device and the channel of its end: the channel of its application, or a
    closed one once the application has left it. *)
Record implements (n : node) (c : Channel) : Prop := {
  impl_handles : app_service_handle (node_app n) <> socket n;
  impl_sends : sends_to (socket n) (world n);
  impl_channel :
    match app_state (node_app n) with
    | ActiveState _ _ ch => ch = c
    | ClosingSockets _ _ => inner c = Closed
    | _ => False
    end;
}.

(** The messages on their way from one device to another are the frames in the
    send buffer of the one, in the network, and in the receive buffer of the
    other. *)
Definition carries_to (from to : node) (q : list ParticipantMessage) : Prop :=
  connected (node_app to) ->
  exists payloads, Forall2 payload_of q payloads /\
    rx (socket to) (world to) ++ incoming to ++ tx (socket from) (world from) = frames payloads.

(** The network moves bytes, and the stream stays the same. *)
Lemma carries_in f a b b' got rest q :
  carries_to f (mkNode a b (got ++ rest)) q ->
  (connected a -> rx (app_participant_handle a) b' = rx (app_participant_handle a) b ++ got) ->
  carries_to f (mkNode a b' rest) q.
Proof.
  intros Hq Hrx Hact. destruct (Hq Hact) as (ps & Hps & Hst). exists ps. split; [done|].
  unfold socket in *. cbn [node_app world incoming] in *. rewrite Hrx by done. rewrite <- Hst. by rewrite <- !app_assoc.
Qed.

Lemma carries_out a b b' k k' out r q :
  carries_to (mkNode a b k) r q ->
  tx (app_participant_handle a) b = out ++ tx (app_participant_handle a) b' ->
  carries_to (mkNode a b' k') (mkNode (node_app r) (world r) (incoming r ++ out)) q.
Proof.
  intros Hq Htx Hact. destruct (Hq Hact) as (ps & Hps & Hst). exists ps. split; [done|].
  unfold socket in *. cbn [node_app world incoming] in *. rewrite <- Hst, Htx. by rewrite <- !app_assoc.
Qed.

(** The world of a device changes, but not the buffers of the participant's
    socket. *)
Lemma carries_world_to f a b b' k q :
  carries_to f (mkNode a b k) q -> rx (app_participant_handle a) b' = rx (app_participant_handle a) b ->
  carries_to f (mkNode a b' k) q.
Proof.
  intros Hq Hrx Hact. destruct (Hq Hact) as (ps & Hps & Hst). exists ps. split; [done|].
  unfold socket in *. cbn [node_app world incoming] in *. by rewrite Hrx.
Qed.

Lemma carries_world_from a b b' k r q :
  carries_to (mkNode a b k) r q -> tx (app_participant_handle a) b' = tx (app_participant_handle a) b ->
  carries_to (mkNode a b' k) r q.
Proof.
  intros Hq Htx Hact. destruct (Hq Hact) as (ps & Hps & Hst). exists ps. split; [done|].
  unfold socket in *. cbn [node_app world incoming] in *. by rewrite Htx.
Qed.

(** The asset holder that the conversions to the wire keep. *)
Definition default_assets (st : State ASSETS PARTICIPANTS) : Prop :=
  Forall (fun x => x = Asset_default) (to_vec (assets (outcome st))).

Lemma default_assets_kept st st' : valid_transition st st' -> default_assets st -> default_assets st'.
Proof. intros Hv. unfold default_assets. by rewrite (vt_assets _ _ Hv). Qed.

Record simulates (s : system) (p : two_ends) : Prop := {
  sim_left : implements s.1 (chan p.1);
  sim_right : implements s.2 (chan p.2);
  sim_to_left : carries_to s.2 s.1 (inbox p.1);
  sim_to_right : carries_to s.1 s.2 (inbox p.2);
  sim_inv : pair_inv default_assets p;
}.

Lemma simulates_mirror s p : simulates s p -> simulates (mirror s) (swap p).
Proof. intros []. split; try done. by apply pair_inv_swap. Qed.

Lemma carries_survives q : Forall (carries default_assets) q -> Forall survives q.
Proof. apply Forall_impl. intros []; cbn; intros H; try done. destruct H. split; [done|lia]. Qed.

(** A call that does something to the channel: what it received, what it sent,
    and what became of the application. *)
Lemma call_simulates a b b1 b2 q r a' b' e w ch ch' k k' rr l payloads :
  simulates (mkNode a b q, r) (mkSide ch k, rr) -> app_state a = ActiveState e w ch ->
  (forall j, tx j b1 = tx j b) -> sends_to (app_participant_handle a) b1 ->
  Forall2 payload_of k' payloads ->
  rx (app_participant_handle a) b1 ++ q ++ tx (socket r) (world r) = frames payloads ->
  delivers b1 l b2 -> settles a e w ch' b2 a' b' ->
  pair_step (mkSide ch k, rr) (mkSide ch' k', mkSide (chan rr) (inbox rr ++ for_peer l)) ->
  simulates (mkNode a' b' q, r) (mkSide ch' k', mkSide (chan rr) (inbox rr ++ for_peer l)).
Proof.
  intros [[Hh Hs Hc] Hr Hql Hqr Hi] Ha Htx Hs1 Hps Hrx Hd Hset Hstep. cbn [fst snd chan inbox] in *.
  destruct (delivers_stream _ b1 l b2 Hs1 Hd) as (Hs2 & Hrx2 & ps & Hps2 & Htx2).
  assert (tx (app_participant_handle a) b' = tx (app_participant_handle a) b2) as Htx'.
  { destruct Hset as [[_ ->]|(_ & _ & ->)]; [done|]. by rewrite !close_tx. }
  assert (app_participant_handle a' = app_participant_handle a /\ app_service_handle a' = app_service_handle a)
    as [Hp' Hv'] by by destruct Hset as [[-> _]|(_ & -> & _)].
  split; cbn [fst snd chan inbox].
  - unfold socket in *. cbn [node_app world] in *. split; unfold socket; cbn [node_app world].
    + by rewrite Hp', Hv'.
    + rewrite Hp'. destruct Hset as [[_ ->]|(_ & _ & ->)]; [done|]. by repeat apply sends_to_close.
    + by destruct Hset as [[-> _]|(Hcl & -> & _)].
  - done.
  - intros Hact. exists payloads. split; [done|]. unfold socket. cbn [node_app world incoming] in *.
    rewrite Hp'. destruct Hset as [[_ ->]|(_ & -> & _)]; [by rewrite Hrx2|done].
  - intros Hact. destruct (Hqr Hact) as (qs & Hqs & Hstream). exists (qs ++ ps). split; [by apply Forall2_app|].
    unfold socket in *. cbn [node_app world incoming] in *.
    by rewrite Hp', Htx', Htx2, Htx, !app_assoc, <- (app_assoc (rx _ _)), Hstream, frames_app.
  - eapply pair_step_inv; [exact default_assets_kept|exact Hstep|exact Hi].
Qed.

(** The world changes, but not the buffers of the participant's socket. *)
Lemma world_simulates a b b' q r p :
  simulates (mkNode a b q, r) p -> rx (app_participant_handle a) b' = rx (app_participant_handle a) b ->
  tx (app_participant_handle a) b' = tx (app_participant_handle a) b -> sends_to (app_participant_handle a) b' ->
  simulates (mkNode a b' q, r) p.
Proof.
  intros [[Hh Hs Hc] Hr Hql Hqr Hi] Hrx Htx Hs'.
  split; [by split|done|by eapply carries_world_to|by eapply carries_world_from|done].
Qed.

(** A call of the channel that is not about a message of the participant. *)
Lemma own_simulates a b b1 b2 q r a' b' e w ch ch' res p (m : M (Channel * B) DemoError unit)
    (m' : M (Channel * list Sent) DemoError unit) :
  simulates (mkNode a b q, r) p -> app_state a = ActiveState e w ch ->
  rx (app_participant_handle a) b1 = rx (app_participant_handle a) b -> (forall j, tx j b1 = tx j b) ->
  sends_to (app_participant_handle a) b1 ->
  runs m m' -> m (ch, b1) = ((ch', b2), res) -> res <> Panic ->
  (forall s s', m' s = (s', res) -> s.1 = ch -> own_call s s') ->
  settles a e w ch' b2 a' b' ->
  exists p', rtc pair_step p p' /\ simulates (mkNode a' b' q, r) p'.
Proof.
  intros Hsim Ha Hrx Htx Hs1 Hruns Hm Hres Hown Hset. destruct p as [[c k] rr].
  pose proof (impl_channel _ _ (sim_left _ _ Hsim)) as Hc. cbn [fst node_app chan] in Hc. rewrite Ha in Hc. subst c.
  destruct (runs_out _ _ [] _ _ _ Hruns Hm Hres) as (l & Hl & Hd). cbn [fst snd app] in Hl, Hd.
  destruct (sim_to_left _ _ Hsim) as (ps & Hps & Hst); [by apply active_connected; repeat eexists|].
  unfold socket in Hst. cbn [fst snd node_app world incoming inbox] in Hst, Hps.
  assert (pair_step (mkSide ch k, rr) (mkSide ch' k, mkSide (chan rr) (inbox rr ++ for_peer l))) as Hstep.
  { left. apply left_call. by apply Hown. }
  eexists. split; [by apply rtc_once, Hstep|].
  eapply call_simulates; [exact Hsim|exact Ha|exact Htx|exact Hs1|exact Hps| |exact Hd|exact Hset|exact Hstep].
  by rewrite Hrx.
Qed.

Lemma participant_simulates a b b1 b2 q r a' b' e w ch ch' m res p :
  simulates (mkNode a b q, r) p -> app_state a = ActiveState e w ch ->
  try_recv_participant_msg (DE:=DE) (a, b) = ((a, b1), Ok (Some m)) ->
  process_participant_msg m (ch, b1) = ((ch', b2), res) -> res <> Panic ->
  settles a e w ch' b2 a' b' ->
  exists p', rtc pair_step p p' /\ simulates (mkNode a' b' q, r) p'.
Proof.
  intros Hsim Ha Hrecv Hm Hres Hset. destruct p as [[c k] rr].
  pose proof (impl_channel _ _ (sim_left _ _ Hsim)) as Hc. cbn [fst node_app chan] in Hc. rewrite Ha in Hc. subst c.
  destruct (runs_out _ _ [] _ _ _ (runs_participant_msg m) Hm Hres) as (l & Hl & Hd). cbn [fst snd app] in Hl, Hd.
  destruct (sim_to_left _ _ Hsim) as (ps & Hps & Hst); [by apply active_connected; repeat eexists|].
  unfold socket in Hst. cbn [fst snd node_app world incoming inbox] in Hst, Hps.
  pose proof (carries_survives _ (proj1 (pair_inv_carries _ default_assets_kept _ (sim_inv _ _ Hsim)))) as Hsv.
  destruct (try_recv_participant_stream a b _ _ _ k ps Hps Hsv Hst Hrecv)
    as (b3 & [= <-] & Hap & [[? _]|[(_ & [?|[? ?]])|(m' & k' & ps' & -> & [= <-] & Hps' & Hst')]]); try done.
  assert (pair_step (mkSide ch (m :: k'), rr) (mkSide ch' k', mkSide (chan rr) (inbox rr ++ for_peer l))) as Hstep.
  { left. by eapply left_deliver. }
  eexists. split; [by apply rtc_once, Hstep|].
  eapply call_simulates; [exact Hsim|exact Ha|apply Hap|apply Hap|exact Hps'|exact Hst'|exact Hd|exact Hset|exact
    Hstep].
  apply (impl_sends _ _ (sim_left _ _ Hsim)).
Qed.

Lemma active_settles (a : App) e w ch b : settles a e w ch b (set_app_state (ActiveState e w ch) a) b.
Proof. by left. Qed.

(** Reading the two sockets leaves the participant's stream alone when no
    message was there. *)
Lemma nothing_received (a : App) b b1 b' r1 more ms ps :
  Forall2 payload_of ms ps -> Forall survives ms -> rx (app_participant_handle a) b ++ more = frames ps ->
  app_service_handle a <> app_participant_handle a -> sends_to (app_participant_handle a) b ->
  try_recv_participant_msg (DE:=DE) (a, b) = ((a, b1), r1) -> r1 <> Panic -> (forall m, r1 <> Ok (Some m)) ->
  b' = b1 \/ (exists r2, try_recv_service_msg (DE:=DE) (a, b1) = ((a, b'), r2)) ->
  rx (app_participant_handle a) b' = rx (app_participant_handle a) b /\
  (forall j, tx j b' = tx j b) /\ sends_to (app_participant_handle a) b'.
Proof.
  intros Hps Hsv Hst Hh Hs H1 Hr1 Hm Hb'.
  destruct (try_recv_participant_stream a b _ _ _ _ ps Hps Hsv Hst H1)
    as (b2 & [= <-] & Hap & [[? _]|[(Hrx & _)|(m & ? & ? & _ & ? & _)]]); [done| |by destruct (Hm m)].
  destruct Hap as [_ Htx Hsd]. destruct Hb' as [->|[r2 H2]]; [by auto|].
  destruct (try_recv_service_reads a b1 _ r2 H2) as (b3 & [= <-] & [Hrx' Htx' Hsd']).
  split; [by rewrite Hrx' by done|]. split; [intros j; by rewrite Htx'|by auto].
Qed.

Lemma nothing_simulates a b b1 b' q r p r1 :
  simulates (mkNode a b q, r) p -> active a ->
  try_recv_participant_msg (DE:=DE) (a, b) = ((a, b1), r1) -> r1 <> Panic -> (forall m, r1 <> Ok (Some m)) ->
  b' = b1 \/ (exists r2, try_recv_service_msg (DE:=DE) (a, b1) = ((a, b'), r2)) ->
  rx (app_participant_handle a) b' = rx (app_participant_handle a) b /\
  (forall j, tx j b' = tx j b) /\ sends_to (app_participant_handle a) b'.
Proof.
  intros Hsim Hact H1 Hr1 Hm Hb'. pose proof (sim_left _ _ Hsim) as [Hh Hs _].
  unfold socket in Hh, Hs. cbn [fst node_app world] in Hh, Hs.
  destruct (sim_to_left _ _ Hsim (active_connected _ Hact)) as (ps & Hps & Hst).
  unfold socket in Hst. cbn [fst snd node_app world incoming] in Hst.
  pose proof (carries_survives _ (proj1 (pair_inv_carries _ default_assets_kept _ (sim_inv _ _ Hsim)))) as Hsv.
  by eapply nothing_received.
Qed.

(** The proposal button is refused once the device does not listen. *)
Lemma propose_nothing (a : App) b s' r :
  (forall e w, app_state a <> Listening e w) -> app_propose_channel (DE:=DE) (a, b) = (s', r) -> s' = (a, b).
Proof.
  intros Hn. unfold app_propose_channel. rewrite M_get. destruct (app_state a) eqn:Ha; try by intros [= <- _].
  by destruct (Hn _ _ eq_refl).
Qed.

Lemma call_simulation a b a' b' q r p :
  simulates (mkNode a b q, r) p -> active a -> device_call (a, b) (a', b') ->
  exists p', rtc pair_step p p' /\ simulates (mkNode a' b' q, r) p'.
Proof.
  intros Hsim Hact Hc. pose proof Hact as (e & w & ch & Ha).
  assert (forall e0 w0, app_state a <> Listening e0 w0) as Hna by by rewrite Ha.
  pose proof (sim_left _ _ Hsim) as [_ Hs _]. unfold socket in Hs. cbn [fst node_app world] in Hs.
  inversion Hc as [s s' res Hp Hr _|s s' res _ Hp|amount final s s' res Hpend Hp Hr|s s' res Hp Hr]; subst.
  - pose proof (poll_polled a e w ch b _ res Ha Hp Hr) as H. cbn [fst snd] in H.
    destruct H
      as [b1 m ch' b2 res' a2 b3 H1 Hm Hres Hset|b1 b2 m ch' b3 res' a2 b4 H1 H2 Hm Hres Hset|b1 r1 b2 H1 Hr1 Hn Hb].
    + by eapply participant_simulates.
    + destruct (nothing_simulates a b b1 b2 q r p _ Hsim Hact H1) as (Hrx & Htx & Hsd); [done|done|right; by eexists|].
      destruct m as [m|m]; cbn [process_service_msg] in Hm.
      * eapply own_simulates; [exact Hsim|exact Ha|exact Hrx|exact Htx|exact Hsd|apply runs_watcher_reply|exact Hm|done
          | |exact Hset]. intros s1 s2 H _. by eapply own_watcher.
      * eapply own_simulates; [exact Hsim|exact Ha|exact Hrx|exact Htx|exact Hsd|apply runs_funder_reply|exact Hm|done
          | |exact Hset]. intros s1 s2 H _. by eapply own_funder.
    + exists p. split; [done|]. destruct (nothing_simulates a b b1 b2 q r p r1 Hsim Hact H1 Hr1 Hn Hb) as (Hrx & Htx &
      Hsd).
      by eapply world_simulates.
  - exists p. split; [done|]. by pose proof (propose_nothing a b _ res Hna Hp) as [= -> ->].
  - destruct (on_channel_run a e w ch b _ _ _ res Ha Hp Hr) as (ch' & b1 & res' & Hm & Hres & [= -> ->]).
    eapply own_simulates; [exact Hsim|exact Ha|done|done|exact Hs|apply runs_demo_update|exact Hm|done
      | |apply active_settles]. intros s1 s2 H Hs1. eapply own_update; [|exact H|done]. rewrite Hs1. by eapply Hpend.
  - destruct (on_channel_run a e w ch b _ _ _ res Ha Hp Hr) as (ch' & b1 & res' & Hm & Hres & [= -> ->]).
    eapply own_simulates; [exact Hsim|exact Ha|done|done|exact Hs|apply runs_demo_force_close|exact Hm|done
      | |apply active_settles]. intros s1 s2 H _. by eapply own_force_close.
Qed.

Lemma network_simulates a b b' got rest out r p :
  simulates (mkNode a b (got ++ rest), r) p ->
  (connected a -> rx (app_participant_handle a) b' = rx (app_participant_handle a) b ++ got) ->
  tx (app_participant_handle a) b = out ++ tx (app_participant_handle a) b' ->
  (sends_to (app_participant_handle a) b -> sends_to (app_participant_handle a) b') ->
  simulates (mkNode a b' rest, mkNode (node_app r) (world r) (incoming r ++ out)) p.
Proof.
  intros [[Hh Hs Hc] [Gh Gs Gc] Hql Hqr Hi] Hrx Htx Hsd.
  split; [split; try done; by apply Hsd|by split|by eapply (carries_in r)|by eapply carries_out|done].
Qed.

Lemma left_simulation s s' p :
  left_device s s' -> simulates s p -> exists p', rtc pair_step p p' /\ simulates s' p'.
Proof.
  intros [a b q a' b' r Hact Hc|a b b' got rest out r Hrx Htx Hsd] Hsim.
  - eapply call_simulation; [exact Hsim| |exact Hc]. pose proof (impl_channel _ _ (sim_left _ _ Hsim)) as Hi.
    cbn [fst node_app] in Hi. unfold connected, active in *. destruct (app_state a); try done. by repeat eexists.
  - exists p. split; [done|]. by eapply network_simulates.
Qed.

Lemma step_simulation s s' p :
  system_step s s' -> simulates s p -> exists p', rtc pair_step p p' /\ simulates s' p'.
Proof.
  intros [H|H] Hsim; [by eapply left_simulation|].
  destruct (left_simulation _ _ _ H (simulates_mirror _ _ Hsim)) as (p' & Hr & Hsim').
  exists (swap p'). split.
  - rewrite <- (swap_swap p). by apply pair_run_swap.
  - rewrite <- (mirror_mirror s'). by apply simulates_mirror.
Qed.

Lemma run_simulation s s' p :
  rtc system_step s s' -> simulates s p -> exists p', rtc pair_step p p' /\ simulates s' p'.
Proof.
  intros Hr. revert p. induction Hr as [s|x y z Hxy _ IH]; intros p Hsim; [by exists p|].
  destruct (step_simulation x y p Hxy Hsim) as (p1 & Hr1 & Hsim1). destruct (IH p1 Hsim1) as (p2 & Hr2 & Hsim2).
  exists p2. split; [by etrans|done].
Qed.

End Devices.
