(* ===== verification/DeviceOpening.v ===== *)
(** * A proposal between two devices

    From a proposal on its way over TCP: the other device takes it with
    wait_connected_and_proposal_msg of src/cortex-m-demo/src/application.rs, and
    from then on the two devices implement the two ends of a channel. *)
From stdpp Require Import relations.
From S2P Require Import Prelude AbiSpec AbiSer Types PerunWire Payment PaymentTheorems Sig Messages Wire.
From S2P Require Import WireTheorems ChannelTypes Active Proposal ActiveTheorems ChannelSystem OpeningTheorems.
From S2P Require Import DemoChannel Net BusRefinement DemoTheorems DemoPair PairTheorems.
From S2P Require Import Application ApplicationTheorems Streams Devices.

Section Opening.
Context `{Pl : Platform} `{U : UintCrate} `{UL : !UintLaws U} `{S : Sha3Crate} `{SL : !Sha3Laws S}.
Context `{I : SignerImpl} `{IL : !SignerLaws I}.
Context `{PTE : !ProstMessage perunwire.Envelope} {B : Type} `{HB : !MessageBus B} `{LB : !LawfulBus B}.
Context `{T : !TcpStack B} `{L : !TcpLaws B} `{ST : !TcpStreams B} `{SB : !StreamBus B}.
Context {R : Type} `{HR : !RngCore R}.
Context {DE : Type} `{PE : !ProstDecode DE perunwire.Envelope} `{PM : !ProstDecode DE perunwire.Message}.
Context `{PL : !ProstLaws DE}.

Abbreviation App := (@Application _ I B T R).
Abbreviation system_step := (system_step (R:=R) (DE:=DE)).

(** What [take_proposal] does when it returns: it accepts, builds and signs. *)
Lemma take_proposal_run prop w (self : App) b s' r :
  app_owned self -> take_proposal (DE:=DE) prop w (self, b) = (s', r) -> r <> Panic ->
  exists share pc pc' l au au1 l1 self' b',
    s' = (self', b') /\ r = Ok au1 /\ untouched self self' /\ delivers b l1 b' /\
    handle_proposal (app_client self) prop w = Ok pc /\
    pc_accept share (address (cl_signer (app_client self))) (pc, []) = ((pc', l), Ok tt) /\
    pc_build pc' = Ok au /\ sign (au, l) = ((au1, l1), Ok tt).
Proof.
  intros [Hv Ha] Ht Hr. unfold take_proposal in Ht. rewrite M_get in Ht. unfold handle_proposal in Ht. mrun_in Ht.
  set (pc := ProposedChannel_new (cl_signer (app_client self)) 1 w prop) in *.
  unfold mbind at 1, M_bind at 1, gen in Ht. destruct (gen_bytes32 (app_rng self)) as [rng share].
  set (self' := set_rng rng self) in *. unfold mbind at 1, M_bind at 1, accept_unwrap in Ht.
  change (app_addr self') with (app_addr self) in Ht. rewrite Ha in Ht.
  destruct (pc_accept share (address (cl_signer (app_client self))) (pc, b)) as [[pc' b1] r1] eqn:Hacc.
  destruct (decide (is_panic r1)) as [Hp1|Hp1]; [destruct r1; try done; by injection Ht as _ <-|].
  assert (r1 <> Panic) as Hr1 by by intros ->.
  destruct (pc_accept_any pc share _ b _ r1 eq_refl Hacc Hr1) as (-> & Hlen & Hpc). cbn [fst] in Hpc.
  destruct (runs_out _ _ [] _ _ _ (runs_pc_accept share _) Hacc Hr1) as (l & Hl & Hd). cbn [fst snd app] in Hl, Hd.
  destruct (pc_build_accepted pc' (acceptance pc share (address (cl_signer (app_client self))))) as (n & _ & Hb).
  { by rewrite Hpc. }
  cbn zeta in Hb. set (au := AgreedUponChannel_new _ _ _ _ _ _ _) in Hb.
  rewrite Hb in Ht. mrun_in Ht. unfold sign_agreed in Ht.
  destruct (sign (au, b1)) as [[au1 b2] r2] eqn:Hsign.
  assert (r2 <> Panic) as Hr2 by (intros ->; by injection Ht as _ <-).
  assert (au_owned au) as Hau by (subst au pc'; split; cbn; [lia|done|done|done]).
  destruct (sign_any au b1 _ r2 Hau eq_refl Hsign Hr2) as (-> & _).
  destruct (runs_out _ _ l _ _ _ runs_sign Hsign Hr2) as (l2 & Hl2 & Hd2). cbn [fst snd] in Hl2, Hd2.
  injection Ht as <- <-. exists share, pc, pc', l, au, au1, (l ++ l2), self', b2.
  split; [done|]. split; [done|]. split; [by repeat split|]. split; [by eapply delivers_app|].
  split; [done|]. split; [exact Hl|]. split; [exact Hb|exact Hl2].
Qed.

(** What the poll of an application that waits for a proposal does when the
    proposal is what comes next: nothing, or it takes the proposal. *)
Lemma waiting_poll prop e w (a : App) b s' r more payloads :
  app_state a = WaitForProposal e w -> app_owned a -> sends_to (app_participant_handle a) b ->
  Forall2 payload_of [ChannelProposal prop] payloads -> survives (ChannelProposal prop) ->
  rx (app_participant_handle a) b ++ more = frames payloads ->
  poll (DE:=DE) (a, b) = (s', r) -> r <> Panic ->
  (s'.1 = a /\ rx (app_participant_handle a) s'.2 = rx (app_participant_handle a) b /\
   (forall j, tx j s'.2 = tx j b) /\ sends_to (app_participant_handle a) s'.2) \/
  (exists b1 share pc pc' l au au1 l1 a' b',
     s' = (set_app_state (ActiveState e w (new_agreed_upon au1)) a', b') /\ untouched a a' /\
     apart (app_participant_handle a) b b1 /\ rx (app_participant_handle a) b1 ++ more = [] /\
     delivers b1 l1 b' /\ handle_proposal (app_client a) prop w = Ok pc /\
     pc_accept share (address (cl_signer (app_client a))) (pc, []) = ((pc', l), Ok tt) /\
     pc_build pc' = Ok au /\ sign (au, l) = ((au1, l1), Ok tt)).
Proof.
  intros Hs Ho Hsd Hps Hsv Hst Hp Hr. unfold poll in Hp. rewrite M_get, Hs in Hp.
  unfold wait_connected_and_proposal_msg in Hp. rewrite M_get in Hp.
  destruct (negb _); [injection Hp as <- _; by left|].
  unfold mbind at 1, M_bind at 1 in Hp.
  destruct (try_recv_participant_msg (DE:=DE) (a, b)) as [s1 r1] eqn:H1.
  destruct (try_recv_participant_stream a b s1 r1 more _ payloads Hps ltac:(by constructor) Hst H1)
    as (b1 & -> & Hap & Hcase).
  destruct Hcase as [[-> _]|[(Hrx & Hres)|(m & ms & ps & [= <- <-] & -> & Hps' & Hrx)]].
  - injection Hp as _ <-. done.
  - left. destruct Hap as [_ Htx Hsd']. destruct Hres as [-> |[er ->]]; injection Hp as <- _; by auto.
  - right. inversion Hps'; subst. cbn beta iota in Hp. unfold mbind at 1, M_bind at 1 in Hp.
    destruct (take_proposal (DE:=DE) prop w (a, b1)) as [s2 r2] eqn:Ht.
    destruct (decide (is_panic r2)) as [Hp2|Hp2]; [destruct r2; try done; by injection Hp as _ <-|].
    destruct (take_proposal_run prop w a b1 s2 r2 Ho Ht) as (share & pc & pc' & l & au & au1 & l1 & a' & b' & -> & ->
      & Hu & Hd & E1 & E2 & E3 & E4); [by intros ->|].
    cbn in Hp. injection Hp as <- _. exists b1, share, pc, pc', l, au, au1, l1, a', b'. by split_and!.
Qed.

(** A proposal is on its way from the left device, which has just made it, to
    the right one, which waits for it. *)
Record proposed (prop : LedgerChannelProposal) (pcA : ProposedChannel) (s : system (R:=R)) : Prop := {
  pr_left : implements s.1 (Channel_new pcA);
  pr_made : exists cl w l,
    valid_signer (cl_signer cl) /\ prop_participant prop = address (cl_signer cl) /\
    address (cl_signer cl) <> address (cl_signer (app_client (node_app s.2))) /\
    propose_channel cl prop w [] = (l, Ok pcA);
  pr_assets : Forall (fun x => x = Asset_default) (to_vec (assets (prop_init_bals prop)));
  pr_waiting : exists e w, app_state (node_app s.2) = WaitForProposal e w;
  pr_owned : app_owned (node_app s.2);
  pr_handles : app_service_handle (node_app s.2) <> socket s.2;
  pr_sends : sends_to (socket s.2) (world s.2);
  pr_to_left : carries_to s.2 s.1 [];
  pr_to_right : carries_to s.1 s.2 [ChannelProposal prop];
}.

(** The proposer's calls change nothing before the acceptance has come. *)
Lemma proposer_call prop pcA a b a' b' q r :
  proposed prop pcA (mkNode a b q, r) -> connected a -> device_call (DE:=DE) (a, b) (a', b') ->
  a' = a /\ rx (app_participant_handle a) b' = rx (app_participant_handle a) b /\
  (forall j, tx j b' = tx j b) /\ sends_to (app_participant_handle a) b'.
Proof.
  intros [[Hh Hs Hi] _ _ _ _ _ _ Hl _] Hcon Hc. unfold socket in Hh, Hs. cbn [fst node_app world] in *.
  assert (exists e w, app_state a = ActiveState e w (Channel_new pcA)) as (e & w & Ha).
  { unfold connected in Hcon. destruct (app_state a); try done. subst. by do 2 eexists. }
  assert (forall b1 ch' b2 res (m : M (Channel * B) DemoError unit) (m' : M (Channel * list Sent) DemoError unit) a2 b3,
    runs m m' -> m (Channel_new pcA, b1) = ((ch', b2), res) -> res <> Panic ->
    (forall s s', m' s = (s', res) -> s.1 = Channel_new pcA -> own_call s s') -> settles a e w ch' b2 a2 b3 ->
    a2 = a /\ b3 = b1) as Hown.
  { intros b1 ch' b2 res m m' a2 b3 Hruns Hm Hres Hoc Hset.
    destruct (runs_out _ _ [] _ _ _ Hruns Hm Hres) as (l & Hlog & Hd). cbn [fst snd] in Hlog, Hd.
    rewrite app_nil_l in Hlog. destruct (own_call_opening _ _ _ (Hoc _ _ Hlog eq_refl)) as [-> ->]. inversion Hd; subst.
    destruct Hset as [[-> ->]|(Hcl & _)]; [|done]. split; [|done]. destruct a. cbn in *. by subst. }
  destruct (Hl Hcon) as (ps & Hps & Hst). inversion Hps; subst. unfold socket in Hst. cbn [fst snd node_app world
    incoming] in Hst.
  inversion Hc as [s s' res Hp Hr _|s s' res Hn Hp|amount final s s' res Hpend Hp Hr|s s' res Hp Hr]; subst.
  - pose proof (poll_polled a e w _ b _ res Ha Hp Hr) as H. cbn [fst snd] in H.
    destruct H as [b1 m ch' b2 res' a2 b3 H1 _ _ _|b1 b2 m ch' b3 res' a2 b4 H1 H2 Hm Hres Hset|b1 r1 b2 H1 Hr1 Hn Hb].
    + destruct (try_recv_participant_stream a b _ _ _ [] [] Hps ltac:(done) Hst H1)
        as (? & _ & _ & [[? _]|[(_ & [?|[? ?]])|(? & ? & ? & ? & _)]]); done.
    + destruct (nothing_received a b b1 b2 _ _ [] [] Hps ltac:(done) Hst Hh Hs H1) as (G1 & G2 & G3);
        [done|done|right; by eexists|].
      destruct m as [m|m]; cbn [process_service_msg] in Hm.
      * destruct (Hown _ _ _ _ _ _ a2 b4 (runs_watcher_reply m) Hm Hres) as [-> ->]; [|exact Hset|done].
        intros. by eapply own_watcher.
      * destruct (Hown _ _ _ _ _ _ a2 b4 (runs_funder_reply m) Hm Hres) as [-> ->]; [|exact Hset|done].
        intros. by eapply own_funder.
    + split; [done|]. by eapply (nothing_received a b b1 b2 r1 _ [] []).
  - pose proof (propose_nothing a b _ res Hn Hp) as [= -> ->]. done.
  - destruct (on_channel_run a e w _ b _ _ _ res Ha Hp Hr) as (ch' & b1 & res' & Hm & Hres & [= -> ->]).
    destruct (Hown _ _ _ _ _ _ (set_app_state (ActiveState e w ch') a) b1 (runs_demo_update amount final) Hm Hres) as
      [-> ->];
      [|apply active_settles|done]. intros s1 s2 H Hs1. eapply own_update; [by rewrite Hs1|exact H|done].
  - destruct (on_channel_run a e w _ b _ _ _ res Ha Hp Hr) as (ch' & b1 & res' & Hm & Hres & [= -> ->]).
    destruct (Hown _ _ _ _ _ _ (set_app_state (ActiveState e w ch') a) b1 runs_demo_force_close Hm Hres) as [-> ->];
      [|apply active_settles|done]. intros. by eapply own_force_close.
Qed.

(** Without a channel the buttons that update and close do nothing. *)
Lemma inactive_call (a : App) b a' b' :
  (forall e w ch, app_state a <> ActiveState e w ch) -> device_call (DE:=DE) (a, b) (a', b') ->
  (a' = a /\ b' = b) \/
  exists r, poll (DE:=DE) (a, b) = ((a', b'), r) /\ r <> Panic /\ (forall e w, app_state a = Listening e w -> r = Ok
    tt).
Proof.
  intros Hna Hc.
  inversion Hc as [s s' res Hp Hr Hl|s s' res Hn Hp|amount final s s' res Hpend Hp Hr|s s' res Hp Hr]; subst.
  - right. by exists res.
  - left. by pose proof (propose_nothing a b _ res Hn Hp) as [= -> ->].
  - left. unfold app_update in Hp. rewrite on_channel_invalid in Hp by done. by injection Hp as <- <- _.
  - left. unfold app_force_close in Hp. rewrite on_channel_invalid in Hp by done. by injection Hp as <- <- _.
Qed.

(** The calls of the waiting device: it takes the proposal, or nothing
    happens. *)
Lemma waiting_call prop pcA a b a' b' q l :
  proposed prop pcA (l, mkNode a b q) -> device_call (DE:=DE) (a, b) (a', b') ->
  proposed prop pcA (l, mkNode a' b' q) \/
  exists p, pair_start (prop_init_bals prop) p /\ simulates (l, mkNode a' b' q) p.
Proof.
  intros Hpr Hc. pose proof Hpr as [[Hlh Hls Hi] (cl & wl & lA & Hv & Hpart & Hne & Hmade) Has (e & w & Hwait) Ho Hh
    Hs Hl Hr].
  unfold socket in Hh, Hs. cbn [fst snd node_app world] in *.
  assert (rx (app_participant_handle a) b' = rx (app_participant_handle a) b ->
    tx (app_participant_handle a) b' = tx (app_participant_handle a) b -> sends_to (app_participant_handle a) b' ->
    a' = a -> proposed prop pcA (l, mkNode a' b' q)) as Hsame.
  { intros G1 G2 G3 ->. split; cbn [fst snd node_app world] in *; try done;
      [by exists cl, wl, lA|by exists e, w|by eapply carries_world_from|by eapply carries_world_to]. }
  assert (forall e0 w0 ch, app_state a <> ActiveState e0 w0 ch) as Hna by by rewrite Hwait.
  destruct (inactive_call a b a' b' Hna Hc) as [[-> ->]|(res & Hp & Hres & _)]; [left; by apply Hsame|].
  assert (connected a) as Hcon by by (unfold connected; rewrite Hwait).
  destruct (Hr Hcon) as (ps & Hps & Hst). unfold socket in Hst. cbn [fst snd node_app world incoming] in Hst.
  destruct (waiting_poll prop e w a b _ res _ ps Hwait Ho Hs Hps Has Hst Hp Hres)
    as [(E & G1 & G2 & G3)|(b1 & share & pc & pc' & lB & au & au1 & l1 & a1 & b2 & [= -> ->] & Hu & Hap & Hrx & Hd
      & E1 & E2 & E3 & E4)]; [left; by apply Hsame|right].
  exists (mkSide (Channel_new pcA) (for_peer l1), mkSide (new_agreed_upon au1) []).
  assert (pair_start (prop_init_bals prop) (mkSide (Channel_new pcA) (for_peer l1), mkSide (new_agreed_upon au1) []))
    as Hstart.
  { eapply (start_opening _ cl (app_client a)); [exact Hv|apply Ho|exact Hne|exact Hpart|done|exact Hmade|exact E1
      |exact E2|exact E3|exact E4]. }
  split; [exact Hstart|]. destruct Hap as [_ Htx Hsd].
  destruct (delivers_stream _ b1 l1 b2 (Hsd _ Hs) Hd) as (Hs2 & Hrx2 & qs & Hqs & Htx2).
  destruct Hu as [(U1 & U2 & _) _]. apply app_nil in Hrx as [Hrx0 Hmore].
  split; cbn [fst snd chan inbox].
  - by split.
  - split; unfold socket; cbn [node_app world app_participant_handle app_service_handle set_app_state app_state];
      rewrite <- ?U1, <- ?U2; done.
  - intros Hcl. destruct (Hl Hcl) as (k & Hk & Hstl). inversion Hk; subst. exists qs. split; [done|].
    unfold socket in *. cbn [node_app world incoming app_participant_handle set_app_state] in *.
    rewrite <- U1, Htx2, Htx, !app_assoc, <- (app_assoc (rx _ _)), Hstl. done.
  - intros _. exists []. split; [constructor|]. unfold socket in *.
    cbn [node_app world incoming app_participant_handle set_app_state] in *. by rewrite <- U1, Hrx2, Hrx0.
  - eapply (start_inv default_assets); [|exact Hstart]. intros st Hst'. unfold default_assets. by rewrite Hst'.
Qed.

Lemma proposed_step prop pcA (s s' : system (R:=R)) :
  proposed prop pcA s -> system_step s s' ->
  proposed prop pcA s' \/ exists p, pair_start (prop_init_bals prop) p /\ simulates s' p.
Proof.
  intros Hpr [H|H].
  - left. inversion H as [a b q a' b' r Hcon Hc|a b b' got rest out r Hrx Htx Hsd]; subst.
    + destruct (proposer_call prop pcA a b a' b' q r Hpr Hcon Hc) as (-> & G1 & G2 & G3).
      destruct Hpr as [[Hh Hs Hi] Hm Has Hw Ho Hrh Hrs Hl Hr]. unfold socket in *. cbn [fst snd node_app world] in *.
      split; try done; [by eapply carries_world_to|by eapply carries_world_from].
    + destruct Hpr as [[Hh Hs Hi] Hm Has Hw Ho Hrh Hrs Hl Hr]. unfold socket in *. cbn [fst snd node_app world] in *.
      split; try done; [by split; [|apply Hsd|]|by eapply (carries_in r)|by eapply carries_out].
  - destruct s as [l r0], s' as [l' r']. unfold mirror in H. cbn [fst snd] in H.
    inversion H as [a b q a' b' r Hcon Hc|a b b' got rest out r Hrx Htx Hsd]; subst.
    + by eapply waiting_call.
    + left. destruct Hpr as [[Hh Hs Hi] Hm Has Hw Ho Hrh Hrs Hl Hr]. unfold socket in *. cbn [fst snd node_app world]
      in *.
      split; try done; [by apply Hsd|by eapply carries_out|by eapply (carries_in l)].
Qed.

(** As long as the proposal has not been taken the system is as before, and then
    it simulates the two ends of a channel. *)
Lemma proposed_run prop pcA (s s' : system (R:=R)) :
  proposed prop pcA s -> rtc system_step s s' ->
  proposed prop pcA s' \/
  exists p0 p, pair_start (prop_init_bals prop) p0 /\ rtc pair_step p0 p /\ simulates s' p.
Proof.
  intros Hpr Hr. induction Hr as [s|x y z Hxy Hyz IH]; [by left|].
  destruct (proposed_step prop pcA x y Hpr Hxy) as [Hy|(p0 & Hp0 & Hsim)]; [by apply IH|].
  right. destruct (run_simulation y z p0 Hyz Hsim) as (p & Hp & Hsim'). by exists p0, p.
Qed.

End Opening.
