(* ===== verification/Handshake.v ===== *)
(** * The handshake of two devices

    From the connection of the participants' sockets to the proposal: the device
    whose button was pressed sends a handshake message, the one that listens
    answers it and connects to its service, and the first one proposes a
    channel (wait_connected_and_send_handshake, check_incomming_connection and
    wait_handshake_and_propose_channel of src/cortex-m-demo/src/application.rs). *)
From stdpp Require Import relations.
From S2P Require Import Prelude AbiSpec AbiSer Types PerunWire Payment PaymentTheorems Sig Messages Wire.
From S2P Require Import WireTheorems ChannelTypes Active Proposal ActiveTheorems ChannelSystem OpeningTheorems.
From S2P Require Import DemoChannel Net BusRefinement DemoTheorems DemoPair PairTheorems.
From S2P Require Import Application ApplicationTheorems Streams Devices DeviceOpening.

Section Handshake.
Context `{Pl : Platform} `{U : UintCrate} `{UL : !UintLaws U} `{S : Sha3Crate} `{SL : !Sha3Laws S}.
Context `{I : SignerImpl} `{IL : !SignerLaws I}.
Context `{PTE : !ProstMessage perunwire.Envelope} {B : Type} `{HB : !MessageBus B} `{LB : !LawfulBus B}.
Context `{T : !TcpStack B} `{L : !TcpLaws B} `{ST : !TcpStreams B} `{SB : !StreamBus B}.
Context {R : Type} `{HR : !RngCore R}.
Context {DE : Type} `{PE : !ProstDecode DE perunwire.Envelope} `{PM : !ProstDecode DE perunwire.Message}.
Context `{PL : !ProstLaws DE}.

Abbreviation App := (@Application _ I B T R).
Abbreviation system := (system (R:=R)).
Abbreviation system_step := (system_step (R:=R) (DE:=DE)).

(* ------------------------------------------------------------------ *)
(** ** Two connected devices                                             *)
(* ------------------------------------------------------------------ *)

(** The sockets of the two devices are connected and carry the messages; the
    devices belong to different participants. *)
Record joined (s : system) (to_left to_right : list ParticipantMessage) : Prop := {
  jn_owned_left : app_owned (node_app s.1);
  jn_owned_right : app_owned (node_app s.2);
  jn_distinct : address (cl_signer (app_client (node_app s.1))) <> address (cl_signer (app_client (node_app s.2)));
  jn_handles_left : app_service_handle (node_app s.1) <> socket s.1;
  jn_handles_right : app_service_handle (node_app s.2) <> socket s.2;
  jn_sends_left : sends_to (socket s.1) (world s.1);
  jn_sends_right : sends_to (socket s.2) (world s.2);
  jn_to_left : carries_to s.2 s.1 to_left;
  jn_to_right : carries_to s.1 s.2 to_right;
}.

Lemma joined_mirror s ql qr : joined s ql qr -> joined (mirror s) qr ql.
Proof. intros []. by split. Qed.

(** A device receives the messages before [ql'] and sends those in [l]; what else
    it does does not concern the participant's socket. *)
Lemma joined_move (a : App) b q r ql qr ql' ps' l b1 b2 a' b' :
  joined (mkNode a b q, r) ql qr -> same_setup a a' -> apart (app_participant_handle a) b b1 ->
  Forall2 payload_of ql' ps' ->
  rx (app_participant_handle a) b1 ++ q ++ tx (socket r) (world r) = frames ps' ->
  delivers b1 l b2 ->
  rx (app_participant_handle a) b' = rx (app_participant_handle a) b2 ->
  tx (app_participant_handle a) b' = tx (app_participant_handle a) b2 ->
  (sends_to (app_participant_handle a) b2 -> sends_to (app_participant_handle a) b') ->
  joined (mkNode a' b' q, r) ql' (qr ++ for_peer l).
Proof.
  intros [Ha Hr Hne Hha Hhr Hsa Hsr Hl Hq] (E1 & E2 & E3 & E4 & E5) [_ Htx Hsd] Hps Hrx Hd Grx Gtx Gs.
  unfold socket in *. cbn [fst snd node_app world incoming] in *.
  destruct (delivers_stream _ b1 l b2 (Hsd _ Hsa) Hd) as (Hs2 & Hrx2 & ps & Hps2 & Htx2).
  split; unfold socket; cbn [fst snd node_app world incoming]; rewrite <- ?E1, <- ?E2, <- ?E4; try done.
  - destruct Ha as [Hv Hadr]. by split; rewrite <- ?E4, <- ?E5.
  - by apply Gs.
  - intros _. exists ps'. split; [done|]. unfold socket. cbn [node_app world incoming].
    by rewrite <- ?E1, Grx, Hrx2.
  - intros Hcon. destruct (Hq Hcon) as (qs & Hqs & Hst). exists (qs ++ ps). split; [by apply Forall2_app|].
    unfold socket in *. cbn [node_app world incoming] in *.
    by rewrite <- ?E1, Gtx, Htx2, Htx, frames_app, <- Hst, <- !app_assoc.
Qed.

(* ------------------------------------------------------------------ *)
(** ** The polls of the handshake                                        *)
(* ------------------------------------------------------------------ *)

Lemma handshake_delivered {E} cl sender recipient (b b' : B) (r : res E unit) :
  send_handshake_msg cl sender recipient b = (b', r) -> r <> Panic ->
  r = Ok tt /\ delivers b [ToParticipant sender recipient Auth] b'.
Proof.
  intros Hs Hr. destruct (sends_as_out _ _ b b' r (sends_as_participant sender recipient Auth) Hs Hr) as (l & Hl & Hd).
  by injection Hl as <- <-.
Qed.

(** The device that connects sends a handshake message, or does nothing. *)
Lemma connecting_poll (a : App) b e w s' r :
  app_state a = Connecting e w -> poll (DE:=DE) (a, b) = (s', r) -> r <> Panic ->
  s' = (a, b) \/
  exists sender recipient b', s' = (set_app_state (WaitForHandshake e w) a, b') /\
    delivers b [ToParticipant sender recipient Auth] b'.
Proof.
  intros Hs Hp Hr. unfold poll in Hp. rewrite M_get, Hs in Hp.
  unfold wait_connected_and_send_handshake in Hp. rewrite M_get in Hp.
  destruct (_ && _); [|injection Hp as <- _; by left].
  assert (zlen (config_peers (app_config a)) = 2) as Hlen.
  { unfold config_peers, zlen. by rewrite length_fmap, array_length. }
  destruct (@vec_index_in (@AppError I B T DE) _ (config_peers (app_config a)) 0) as (p0 & _ & H0); [lia|].
  destruct (@vec_index_in (@AppError I B T DE) _ (config_peers (app_config a)) 1) as (p1 & _ & H1); [lia|].
  erewrite M_bind_lift_ok in Hp by exact H0. erewrite M_bind_lift_ok in Hp by exact H1.
  unfold mbind at 1, M_bind at 1, on_snd in Hp. cbn [fst snd] in Hp.
  destruct (send_handshake_msg _ p0 p1 b) as [b1 r1] eqn:Hsend.
  destruct (handshake_delivered _ _ _ _ _ _ Hsend) as [-> Hd]; [intros ->; by injection Hp as _ <-|].
  injection Hp as <- _. right. by exists p0, p1, b1.
Qed.

(** The device that listens answers a handshake message and connects to its
    service, or it has received nothing yet. *)
Lemma listening_poll (a : App) b e w s' more ql ps :
  app_state a = Listening e w -> app_service_handle a <> app_participant_handle a ->
  Forall2 payload_of ql ps -> Forall (eq Auth) ql -> rx (app_participant_handle a) b ++ more = frames ps ->
  poll (DE:=DE) (a, b) = (s', Ok tt) ->
  (s'.1 = a /\ rx (app_participant_handle a) s'.2 = rx (app_participant_handle a) b /\
   apart (app_participant_handle a) b s'.2) \/
  exists ql' ps' sender recipient b1 b2 a' b',
    ql = Auth :: ql' /\ Forall2 payload_of ql' ps' /\ rx (app_participant_handle a) b1 ++ more = frames ps' /\
    apart (app_participant_handle a) b b1 /\ delivers b1 [ToParticipant sender recipient Auth] b2 /\
    s' = (set_app_state (WaitForProposal e w) a', b') /\ same_setup a a' /\
    rx (app_participant_handle a) b' = rx (app_participant_handle a) b2 /\
    tx (app_participant_handle a) b' = tx (app_participant_handle a) b2 /\
    (sends_to (app_participant_handle a) b2 -> sends_to (app_participant_handle a) b').
Proof.
  intros Hs Hh Hps Hauth Hst Hp. unfold poll in Hp. rewrite M_get, Hs in Hp.
  unfold check_incomming_connection in Hp. rewrite M_get in Hp. set (h := app_participant_handle a) in *.
  destruct (_ || _); [injection Hp as <-; left; split; [done|]; split; [done|apply apart_refl]|].
  unfold mbind at 1, M_bind at 1, on_snd in Hp. cbn [fst snd] in Hp.
  pose proof (try_recv_reads (X:=perunwire.Envelope) (DE:=DE) h b) as Hap.
  destruct (try_recv h b) as [b1 res] eqn:Ht. cbn [fst] in Hap.
  assert (Forall (fun p => p <> [] /\ zlen p < 2 ^ 16) ps) as Hall.
  { clear -Hps PL. induction Hps; constructor; [by eapply payload_fits|done]. }
  destruct (try_recv_frames h b b1 res more ps Hst Hall Ht)
    as [[-> _]|[[Hrx [->|[er ->]]]|(p & ps' & -> & Hrx & ->)]]; [done|injection Hp as <-; by left|done|right].
  inversion Hps as [|m p' ql' ps0 Hm Hps']; subst. inversion Hauth as [|? ? <- _]; subst.
  destruct (payload_decodes (DE:=DE) _ _ Hm) as (env & Hd & Hmsg). rewrite Hd in Hp.
  cbn [map_err fmap res_fmap] in Hp. rewrite Hmsg in Hp. cbn [participant_wiremsg] in Hp.
  unfold mbind at 1, M_bind at 1, on_snd in Hp. cbn [fst snd] in Hp.
  destruct (send_handshake_msg _ _ _ b1) as [b2 r2] eqn:Hsend.
  destruct (handshake_delivered _ _ _ _ _ _ Hsend) as [-> Hdel]; [by intros ->|].
  unfold mbind at 1, M_bind at 1, get_ethemeral_port in Hp. destruct (next_u32 (app_rng a)) as [rng port].
  unfold mbind at 1, M_bind at 1, net, on_snd, mmap_err in Hp. cbn [fst snd] in Hp.
  set (P := MIN_PORT + _) in Hp. set (srv := service_server _) in Hp. set (k := app_service_handle a) in *.
  change (app_service_handle (set_rng rng a)) with k in Hp.
  pose proof (connect_rx k srv P b2 h ltac:(done)) as Grx. pose proof (connect_tx k srv P b2 h ltac:(done)) as Gtx.
  pose proof (sends_to_connect h k srv P b2) as Gs.
  destruct (connect k srv P b2) as [b3 [[]|er|]]; [|done|done]. injection Hp as <-. cbn [fst] in *.
  exists ql', ps', PEER0, (perunwire.Envelope_sender env), b1, b2, (set_rng rng a), b3.
  repeat (split; [done|]). done.
Qed.

(** What the demo proposes is a valid proposal. *)
Lemma demo_proposal_valid (a : App) id share e : check_valid_proposal (demo_proposal a id share e) = Ok tt.
Proof.
  apply check_valid_proposal_Ok. split; [done|]. unfold demo_proposal, config_peers, zlen. cbn [prop_peers].
  by rewrite length_fmap, array_length.
Qed.

Lemma demo_proposal_made (a : App) id share e w l res :
  propose_channel (app_client a) (demo_proposal a id share e) w [] = (l, res) ->
  exists pc, res = Ok pc /\ for_peer l = [ChannelProposal (demo_proposal a id share e)].
Proof.
  unfold propose_channel. rewrite demo_proposal_valid. mrun.
  assert (zlen (config_peers (app_config a)) = 2) as Hlen.
  { unfold config_peers, zlen. by rewrite length_fmap, array_length. }
  erewrite M_bind_ok by (apply broadcast_ok; cbn [demo_proposal prop_peers]; lia). intros [= <- <-].
  eexists. split; [done|]. cbn [demo_proposal prop_peers]. unfold broadcast_messages.
  destruct (config_peers (app_config a)) as [|p0 [|p1 [|p2 k]]]; try (unfold zlen in Hlen; cbn in Hlen; lia). done.
Qed.

(** The device that has sent its handshake message proposes a channel once it is
    answered. *)
Lemma answered_poll (a : App) b e w s' r more ql ps :
  app_state a = WaitForHandshake e w -> Forall2 payload_of ql ps -> Forall (eq Auth) ql ->
  rx (app_participant_handle a) b ++ more = frames ps -> poll (DE:=DE) (a, b) = (s', r) -> r <> Panic ->
  (s'.1 = a /\ rx (app_participant_handle a) s'.2 = rx (app_participant_handle a) b /\
   apart (app_participant_handle a) b s'.2) \/
  exists ql' ps' b1 a' b' id share pc l,
    ql = Auth :: ql' /\ Forall2 payload_of ql' ps' /\ rx (app_participant_handle a) b1 ++ more = frames ps' /\
    apart (app_participant_handle a) b b1 /\ delivers b1 l b' /\
    propose_channel (app_client a) (demo_proposal a id share e) w [] = (l, Ok pc) /\
    s' = (set_app_state (ActiveState e w (Channel_new pc)) a', b') /\ same_setup a a'.
Proof.
  intros Hs Hps Hauth Hst Hp Hr. unfold poll in Hp. rewrite M_get, Hs in Hp.
  unfold wait_handshake_and_propose_channel in Hp. unfold mbind at 1, M_bind at 1 in Hp.
  destruct (try_recv_participant_msg (DE:=DE) (a, b)) as [s1 r1] eqn:H1.
  assert (Forall survives ql) as Hsv by (revert Hauth; apply Forall_impl; by intros ? <-).
  destruct (try_recv_participant_stream a b s1 r1 more ql ps Hps Hsv Hst H1)
    as (b1 & -> & Hap & [[-> _]|[(Hrx & [->|[er ->]])|(m & ql' & ps' & -> & -> & Hps' & Hrx)]]).
  - by injection Hp as _ <-.
  - injection Hp as <- _. by left.
  - injection Hp as <- _. by left.
  - right. inversion Hauth as [|? ? <- _]; subst. cbn beta iota in Hp. unfold send_channel_proposal in Hp.
    rewrite M_get in Hp. unfold mbind at 1, M_bind at 1, gen at 1 in Hp.
    destruct (gen_bytes32 (app_rng a)) as [rng1 id]. unfold mbind at 1, M_bind at 1, gen at 1 in Hp.
    destruct (gen_bytes32 (app_rng (set_rng rng1 a))) as [rng2 share].
    unfold mbind at 1, M_bind at 1, on_snd, mmap_err in Hp. cbn [fst snd] in Hp.
    destruct (propose_channel (app_client a) (demo_proposal a id share e) w b1) as [b2 r2] eqn:Hprop.
    assert (r2 <> Panic) as Hr2 by (intros ->; by injection Hp as _ <-).
    destruct (sends_as_out _ _ b1 b2 r2 (sends_as_propose_channel _ _ _) Hprop Hr2) as (l & Hl & Hd).
    destruct (demo_proposal_made a id share e w l r2 Hl) as (pc & -> & _). cbn in Hp. injection Hp as <- _.
    by exists ql', ps', b1, (set_rng rng2 (set_rng rng1 a)), b2, id, share, pc, l.
Qed.

(** The device that waits for a proposal has received nothing. *)
Lemma waiting_nothing (a : App) b e w s' r more :
  app_state a = WaitForProposal e w -> rx (app_participant_handle a) b ++ more = [] ->
  poll (DE:=DE) (a, b) = (s', r) -> r <> Panic ->
  s'.1 = a /\ rx (app_participant_handle a) s'.2 = rx (app_participant_handle a) b /\
  apart (app_participant_handle a) b s'.2.
Proof.
  intros Hs Hst Hp Hr. unfold poll in Hp. rewrite M_get, Hs in Hp. unfold wait_connected_and_proposal_msg in Hp.
  rewrite M_get in Hp. destruct (negb _); [injection Hp as <- _; split; [done|]; split; [done|apply apart_refl]|].
  unfold mbind at 1, M_bind at 1 in Hp. destruct (try_recv_participant_msg (DE:=DE) (a, b)) as [s1 r1] eqn:H1.
  destruct (try_recv_participant_stream a b s1 r1 more [] [] ltac:(constructor) ltac:(constructor) Hst H1)
    as (b1 & -> & Hap & [[-> _]|[(Hrx & [->|[er ->]])|(m & ql0 & ps0 & ? & _)]]);
    [|by injection Hp as <- _; split_and!..|done].
  by injection Hp as _ <-.
Qed.

(* ------------------------------------------------------------------ *)
(** ** From the connection to the proposal                               *)
(* ------------------------------------------------------------------ *)

(** The left device, whose button was pressed, and the right one, which listens,
    before the proposal: the handshake message has not been sent, or not been
    answered, or the answer is on its way.  The asset holder of the left device
    is the one the conversions to the wire keep. *)
Inductive shaking (s : system) : Prop :=
  | shaking_connecting w e' w' :
      app_state (node_app s.1) = Connecting Address_default w -> app_state (node_app s.2) = Listening e' w' ->
      joined s [] [] -> shaking s
  | shaking_sent w e' w' :
      app_state (node_app s.1) = WaitForHandshake Address_default w -> app_state (node_app s.2) = Listening e' w' ->
      joined s [] [Auth] -> shaking s
  | shaking_answered w e' w' :
      app_state (node_app s.1) = WaitForHandshake Address_default w ->
      app_state (node_app s.2) = WaitForProposal e' w' ->
      joined s [Auth] [] -> shaking s.

(** The balances the demo proposes. *)
Definition demo_bals : Allocation ASSETS PARTICIPANTS :=
  Allocation_new (mk_array [mkAsset Address_default] eq_refl) init_balance.

Lemma joined_stream (a : App) b q r ql qr :
  joined (mkNode a b q, r) ql qr -> connected a ->
  exists ps, Forall2 payload_of ql ps /\ rx (app_participant_handle a) b ++ q ++ tx (socket r) (world r) = frames ps.
Proof. intros Hj. exact (jn_to_left _ _ _ Hj). Qed.

(** Nothing has happened to the participant's socket. *)
Lemma joined_same (a : App) b q r ql qr b' :
  joined (mkNode a b q, r) ql qr -> connected a ->
  rx (app_participant_handle a) b' = rx (app_participant_handle a) b -> apart (app_participant_handle a) b b' ->
  joined (mkNode a b' q, r) ql qr.
Proof.
  intros Hj Hc Hrx Hap. destruct (joined_stream _ _ _ _ _ _ Hj Hc) as (ps & Hps & Hst).
  rewrite <- (app_nil_r qr). change [] with (for_peer []).
  apply (joined_move a b q r ql qr ql ps [] b' b'); [done|by repeat split|done|done|by rewrite Hrx|constructor|done..].
Qed.

Lemma joined_network (a : App) b b' got rest out r ql qr :
  joined (mkNode a b (got ++ rest), r) ql qr ->
  (connected a -> rx (app_participant_handle a) b' = rx (app_participant_handle a) b ++ got) ->
  tx (app_participant_handle a) b = out ++ tx (app_participant_handle a) b' ->
  (sends_to (app_participant_handle a) b -> sends_to (app_participant_handle a) b') ->
  joined (mkNode a b' rest, mkNode (node_app r) (world r) (incoming r ++ out)) ql qr.
Proof.
  intros [] Hrx Htx Hs. split; try done; [by apply Hs|by eapply (carries_in r)|by eapply carries_out].
Qed.

(** The proposal is on its way. *)
Definition proposing (s : system) : Prop :=
  exists prop pcA, proposed prop pcA s /\ prop_init_bals prop = demo_bals.

(** The calls of the left device. *)
Lemma shaking_left (a : App) b q r a' b' :
  shaking (mkNode a b q, r) -> device_call (DE:=DE) (a, b) (a', b') ->
  shaking (mkNode a' b' q, r) \/ proposing (mkNode a' b' q, r).
Proof.
  intros Hsh Hc.
  assert (forall e w ch, app_state a <> ActiveState e w ch) as Hna by by destruct Hsh as [w e' w' H|w e' w' H|w e' w'
    H];
    cbn [fst node_app] in H; rewrite H.
  destruct (inactive_call a b a' b' Hna Hc) as [[-> ->]|(res & Hp & Hr & _)]; [by left|].
  destruct Hsh as [w e' w' Hs Hs' Hj|w e' w' Hs Hs' Hj|w e' w' Hs Hs' Hj]; cbn [fst snd node_app] in Hs, Hs';
    assert (connected a) as Hcon by (unfold connected; by rewrite Hs);
    destruct (joined_stream _ _ _ _ _ _ Hj Hcon) as (ps & Hps & Hst).
  - left. destruct (connecting_poll a b _ w _ res Hs Hp Hr) as [[= -> ->]|(sd & rc & b1 & [= -> ->] & Hd)].
    + by eapply shaking_connecting.
    + eapply shaking_sent; [done|exact Hs'|].
      by apply (joined_move a b q r [] [] [] ps [ToParticipant sd rc Auth] b b1);
        [exact Hj|repeat split|apply apart_refl|exact Hps|exact Hst|exact Hd|..].
  - left. destruct (answered_poll a b _ w _ res _ [] ps Hs Hps ltac:(constructor) Hst Hp Hr)
      as [(E & Hrx & Hap)|(? & ? & ? & ? & ? & ? & ? & ? & ? & ? & _)]; [|done].
    cbn [fst snd] in *. subst a'. eapply shaking_sent; [exact Hs|exact Hs'|]. by apply (joined_same a b).
  - destruct (answered_poll a b _ w _ res _ [Auth] ps Hs Hps ltac:(by repeat constructor) Hst Hp Hr)
      as [(E & Hrx & Hap)|(ql & ps' & b1 & a1 & b2 & id & share & pc & l & [= <-] & Hps' & Hrx & Hap & Hd & Hl
        & [= -> ->] & Hset)].
    + left. cbn [fst snd] in *. subst a'. eapply shaking_answered; [exact Hs|exact Hs'|]. by apply (joined_same a b).
    + right. destruct (demo_proposal_made a id share _ w l _ Hl) as (pc' & [= <-] & Hsent).
      exists (demo_proposal a id share Address_default), pc. split; [|done].
      assert (joined (mkNode (set_app_state (ActiveState Address_default w (Channel_new pc)) a1) b2 q, r) []
        ([] ++ for_peer l)) as [Ho Hor Hne Hh Hhr Hsd Hsr Hl' Hr'].
      { by apply (joined_move a b q r [Auth] [] [] ps' l b1 b2);
          [exact Hj|exact Hset|exact Hap|exact Hps'|exact Hrx|exact Hd|..]. }
      rewrite Hsent in Hr'. pose proof (jn_owned_left _ _ _ Hj) as [Hv Haddr]. cbn [fst node_app] in Hv, Haddr.
      pose proof (jn_distinct _ _ _ Hj) as Hne'. cbn [fst snd node_app] in Hne'.
      split; try done; [by exists (app_client a), w, l|by repeat constructor|by exists e', w'].
Qed.

(** The calls of the right device. *)
Lemma shaking_right (a : App) b q l a' b' :
  shaking (l, mkNode a b q) -> device_call (DE:=DE) (a, b) (a', b') -> shaking (l, mkNode a' b' q).
Proof.
  intros Hsh Hc.
  assert (forall e w ch, app_state a <> ActiveState e w ch) as Hna by by destruct Hsh as [w e' w' _ H|w e' w' _ H|w e'
    w' _ H];
    cbn [snd node_app] in H; rewrite H.
  destruct (inactive_call a b a' b' Hna Hc) as [[-> ->]|(res & Hp & Hr & Hok)]; [done|].
  destruct Hsh as [w e' w' Hs' Hs Hj|w e' w' Hs' Hs Hj|w e' w' Hs' Hs Hj]; cbn [fst snd node_app] in Hs, Hs';
    assert (connected a) as Hcon by (unfold connected; by rewrite Hs);
    pose proof (joined_mirror _ _ _ Hj) as Hm; pose proof (jn_handles_left _ _ _ Hm) as Hh;
    destruct (joined_stream _ _ _ _ _ _ Hm Hcon) as (ps & Hps & Hst).
  - assert (res = Ok tt) as -> by by eapply Hok.
    destruct (listening_poll a b e' w' _ _ [] ps Hs Hh Hps ltac:(constructor) Hst Hp)
      as [(E & Hrx & Hap)|(? & ? & ? & ? & ? & ? & ? & ? & ? & _)]; [|done].
    cbn [fst snd] in *. subst a'. eapply shaking_connecting; [exact Hs'|exact Hs|].
    by apply (joined_mirror (mkNode a b' q, l)), (joined_same a b).
  - assert (res = Ok tt) as -> by by eapply Hok.
    destruct (listening_poll a b e' w' _ _ [Auth] ps Hs Hh Hps ltac:(by repeat constructor) Hst Hp)
      as [(E & Hrx & Hap)|(ql & ps' & sd & rc & b1 & b2 & a1 & b3 & [= <-] & Hps' & Hrx & Hap & Hd & [= -> ->] & Hset
        & Grx & Gtx & Gs)]; cbn [fst snd] in *.
    + subst a'. eapply shaking_sent; [exact Hs'|exact Hs|].
      by apply (joined_mirror (mkNode a b' q, l)), (joined_same a b).
    + eapply shaking_answered; [exact Hs'|done|].
      apply (joined_mirror (mkNode (set_app_state (WaitForProposal e' w') a1) b3 q, l) [] [Auth]).
      by apply (joined_move a b q l [Auth] [] [] ps' [ToParticipant sd rc Auth] b1 b2);
        [exact Hm|exact Hset|exact Hap|exact Hps'|exact Hrx|exact Hd|..].
  - inversion Hps; subst. destruct (waiting_nothing a b e' w' _ res _ Hs Hst Hp Hr) as (E & Hrx & Hap).
    cbn [fst snd] in *. subst a'. eapply shaking_answered; [exact Hs'|exact Hs|].
    by apply (joined_mirror (mkNode a b' q, l)), (joined_same a b).
Qed.

(** A step of the network. *)
Lemma shaking_network s s' :
  (forall ql qr, joined s ql qr -> joined s' ql qr) -> node_app s'.1 = node_app s.1 -> node_app s'.2 = node_app s.2 ->
  shaking s -> shaking s'.
Proof.
  intros Hj E1 E2 [w e' w' Hs Hs' H|w e' w' Hs Hs' H|w e' w' Hs Hs' H]; rewrite <- E1 in Hs; rewrite <- E2 in Hs';
    apply Hj in H; by econstructor.
Qed.

Lemma shaking_step s s' : shaking s -> system_step s s' -> shaking s' \/ proposing s'.
Proof.
  intros Hsh [H|H].
  - inversion H as [a b q a' b' r Hcon Hc|a b b' got rest out r Hrx Htx Hsd]; subst; [by eapply shaking_left|].
    left. revert Hsh. apply shaking_network; [|done|done]. intros ql qr Hj. by eapply joined_network.
  - left. destruct s as [l r0], s' as [l' r']. unfold mirror in H. cbn [fst snd] in H.
    inversion H as [a b q a' b' r Hcon Hc|a b b' got rest out r Hrx Htx Hsd]; subst; [by eapply shaking_right|].
    revert Hsh. apply shaking_network; [|done|done]. intros ql qr Hj.
    apply (joined_mirror (mkNode a b' rest, mkNode (node_app l) (world l) (incoming l ++ out))).
    apply (joined_network a b b' got rest out l); [|done..]. by apply joined_mirror in Hj.
Qed.

(** Whatever the devices do: they are still at the handshake, or the proposal is
    on its way, or they simulate the two ends of a channel. *)
Lemma shaking_run s s' :
  shaking s -> rtc system_step s s' ->
  shaking s' \/ proposing s' \/
  exists p0 p, pair_start demo_bals p0 /\ rtc pair_step p0 p /\ simulates s' p.
Proof.
  intros Hsh Hr. induction Hr as [s|x y z Hxy Hyz IH]; [by left|].
  destruct (shaking_step x y Hsh Hxy) as [Hy|(prop & pcA & Hpr & Hb)]; [by apply IH|right].
  destruct (proposed_run prop pcA y z Hpr Hyz) as [Hz|(p0 & p & Hp0 & Hp & Hsim)].
  - left. by exists prop, pcA.
  - right. exists p0, p. by rewrite <- Hb.
Qed.

End Handshake.
