(* ===== verification/DeviceTheorems.v ===== *)
(** * What two devices rely on

    From the connection of their sockets on, two devices implement the two ends
    of a channel.  The theorems about two ends hold of the two devices, in terms
    of the bytes in the sockets. *)
From stdpp Require Import relations.
From S2P Require Import Prelude AbiSpec AbiSer Types PerunWire Payment PaymentTheorems Sig Messages Wire.
From S2P Require Import WireTheorems ChannelTypes Active Proposal ActiveTheorems ChannelSystem OpeningTheorems.
From S2P Require Import DemoChannel Net BusRefinement DemoTheorems DemoPair PairTheorems.
From S2P Require Import Application ApplicationTheorems Streams Devices DeviceOpening Handshake.

(* ------------------------------------------------------------------ *)
(** ** What the participants rely on                                     *)
(* ------------------------------------------------------------------ *)

Section Theorems.
Context `{Pl : Platform} `{U : UintCrate} `{UL : !UintLaws U} `{S : Sha3Crate} `{SL : !Sha3Laws S}.
Context `{I : SignerImpl} `{IL : !SignerLaws I}.
Context `{PTE : !ProstMessage perunwire.Envelope} {B : Type} `{HB : !MessageBus B} `{LB : !LawfulBus B}.
Context `{T : !TcpStack B} `{L : !TcpLaws B} `{ST : !TcpStreams B} `{SB : !StreamBus B}.
Context {R : Type} `{HR : !RngCore R}.
Context {DE : Type} `{PE : !ProstDecode DE perunwire.Envelope} `{PM : !ProstDecode DE perunwire.Message}.
Context `{PL : !ProstLaws DE}.

(** Two devices at the start: their sockets are connected and the handshake has
    not been completed, or a proposal, whichever it is, is on its way.  [al] are
    the balances that are, or will be, proposed. *)
Inductive device_start (al : Allocation ASSETS PARTICIPANTS) (s : system (R:=R)) : Prop :=
  | start_shaking : al = demo_bals -> shaking s -> device_start al s
  | start_proposed prop pcA : al = prop_init_bals prop -> proposed prop pcA s -> device_start al s.

Lemma device_run al (s0 s : system (R:=R)) :
  device_start al s0 -> rtc (system_step (DE:=DE)) s0 s ->
  device_start al s \/ exists p0 p, pair_start al p0 /\ rtc pair_step p0 p /\ simulates s p.
Proof.
  intros [-> Hsh|prop pcA -> Hp] Hr.
  - destruct (shaking_run s0 s Hsh Hr) as [H|[(prop & pcA & H & Hb)|H]]; [by left; apply start_shaking| |by right].
    left. by eapply start_proposed.
  - destruct (proposed_run prop pcA s0 s Hp Hr) as [H|H]; [by left; eapply start_proposed|by right].
Qed.

(** Before the proposal has been taken the right device has no channel. *)
Lemma device_start_idle al (s : system (R:=R)) e w ch :
  device_start al s -> app_state (node_app s.2) <> ActiveState e w ch.
Proof.
  intros [_ [? ? ? _ H|? ? ? _ H|? ? ? _ H]|prop pcA _ Hp]; [by rewrite H..|].
  destruct (pr_waiting _ _ _ Hp) as (e1 & w1 & Hw). by rewrite Hw.
Qed.



End Theorems.
