(* ===== verification/DevicePanics.v ===== *)
(** * What makes a device panic

    Polling an application panics where the demo unwraps the result of a send, or
    of a conversion.  Here the causes are found for a device with a channel: a
    header of a frame that the ring buffer splits, a frame that is larger than the
    array it is read into, a reply of a service that does not convert, and a send
    that the bus does not take.  What an honest participant has sent, and the state
    of the channel, are never the cause. *)
From stdpp Require Import relations.
From S2P Require Import Prelude AbiSpec AbiSer Types PerunWire Payment PaymentTheorems Sig Messages Wire.
From S2P Require Import WireTheorems ChannelTypes Active Proposal ActiveTheorems ChannelSystem OpeningTheorems.
From S2P Require Import DemoChannel Net BusRefinement DemoTheorems DemoPair PairTheorems.
From S2P Require Import Application ApplicationTheorems Conversions Streams Devices DeviceOpening Handshake.
From S2P Require Import DeviceTheorems.

(* ------------------------------------------------------------------ *)
(** ** Reading a frame                                                   *)
(* ------------------------------------------------------------------ *)

Section Reading.
Context `{U : UintCrate} `{UL : !UintLaws U} `{I : SignerImpl} `{PTE : ProstMessage perunwire.Envelope} {B : Type}.
Context `{HB : !MessageBus B} `{T : !TcpStack B} `{L : !TcpLaws B} `{ST : !TcpStreams B} `{SB : !StreamBus B}.
Context {DE : Type} `{PE : !ProstDecode DE perunwire.Envelope} `{PM : !ProstDecode DE perunwire.Message}.
Context {R : Type}.

(** Decoding bytes fails with an error or returns a message. *)
Class ProstTotal (X : Type) {PX : ProstDecode DE X} := prost_decode_total b : prost_decode b <> Panic (A:=X).

(** The header of the next frame is split, or announces a frame that is too
    large. *)
Definition bad_header (h : SocketHandle) (b : B) : Prop :=
  2 <= zlen (rx h b) /\ (~ header_contiguous h b \/ MAX_MESSAGE_SIZE < be_val (take 2 (rx h b))).

(** Whatever bytes a socket has received, reading a frame panics for no other
    reason. *)
Lemma try_recv_panics {X} `{PT : ProstTotal X} h b :
  (try_recv (X:=X) (DE:=DE) h b).2 = Panic -> bad_header h b.
Proof.
  intros Hp. destruct (decide (zlen (rx h b) < 2)) as [Hl|Hl]; [by rewrite try_recv_short in Hp by done|].
  split; [lia|]. destruct (decide (2 <= contiguous h b)%nat) as [Hc|Hc]; [right|by left].
  destruct (decide (MAX_MESSAGE_SIZE < be_val (take 2 (rx h b)))) as [|Hmax]; [done|exfalso].
  unfold try_recv in Hp. mrun_in Hp. rewrite recv_queue_spec, decide_False in Hp by done.
  destruct (may_recv h b) eqn:Hm.
  2: { destruct (peek_closed h 2 b Hm) as [e He].
       erewrite M_bind_err in Hp by (unfold mmap_err; rewrite (surjective_pairing (peek_slice h 2 b)), He; done).
         done. }
  destruct (peek_header h b Hm Hc) as [Hpeek Hpl]; [lia|].
  erewrite M_bind_ok in Hp by (unfold mmap_err; by rewrite Hpeek). rewrite decide_False in Hp by lia. mrun_in Hp.
  set (n := be_val (take 2 (rx h b))) in *. case_decide; [done|]. rewrite recv_queue_spec in Hp. case_decide; [done|].
  destruct (recv_spec h (fun x : bytes => let len := Z.min (zlen x) 2 in (len, len)) b Hm) as (b1 & Hr & Hrx & _).
  { cbn zeta. cbn [fst]. pose proof (zlen_nonneg (take (contiguous h b) (rx h b))). lia. }
  cbn zeta in Hr, Hrx. cbn [fst snd] in Hr, Hrx.
  replace (Z.min (zlen (take (contiguous h b) (rx h b))) 2) with 2 in Hr, Hrx
    by (unfold zlen in *; rewrite length_take; lia).
  erewrite M_bind_ok in Hp by (unfold mmap_err; by rewrite Hr).
  destruct (decide (2 <> 2)) as [Hne|_]; [by destruct Hne|].
  erewrite M_bind_ok in Hp by reflexivity. rewrite decide_False in Hp by done.
  assert (0 <= n) as Hn by apply be_val_range.
  destruct (may_recv h b1) eqn:Hm1.
  - destruct (recv_slice_spec h n b1 Hm1 Hn) as (b2 & Hr2 & _).
    erewrite M_bind_ok in Hp by (unfold mmap_err; by rewrite Hr2).
    destruct (decide (zlen (take (Z.to_nat n) (rx h b1)) <> n)) as [Hne|_].
    2: { pose proof (prost_decode_total (X:=X) (take (Z.to_nat n) (rx h b1))) as Ht.
         destruct (prost_decode (take (Z.to_nat n) (rx h b1))); by mrun_in Hp. }
    apply Hne. unfold zlen in *. rewrite Hrx, length_take, length_drop. lia.
  - destruct (recv_slice_closed h n b1 Hm1) as [e He].
    erewrite M_bind_err in Hp by (unfold mmap_err; rewrite (surjective_pairing (recv_slice h n b1)), He; done). done.
Qed.

(** A reply of a service that does not convert. *)
Definition bad_reply (h : SocketHandle) (b : B) : Prop :=
  exists env m, (try_recv (X:=perunwire.Message) (DE:=DE) h b).2 = Ok (Some env) /\
    perunwire.Message_msg env = Some m /\ service_message_crashes m = true.

Lemma service_read_panics `{PT : !ProstTotal perunwire.Message} (self : Application (R:=R)) b :
  (try_recv_service_msg (DE:=DE) (self, b)).2 = Panic ->
  bad_header (app_service_handle self) b \/ bad_reply (app_service_handle self) b.
Proof.
  unfold try_recv_service_msg. rewrite M_get. set (h := app_service_handle self).
  unfold mbind at 1, M_bind at 1, on_snd. cbn [fst snd].
  destruct (try_recv (X:=perunwire.Message) (DE:=DE) h b) as [b' res] eqn:Hr.
  destruct res as [[env|]|e|]; [|done|done|].
  2: { intros _. left. apply (try_recv_panics (X:=perunwire.Message)). by rewrite Hr. }
  destruct (perunwire.Message_msg env) as [m|] eqn:Hm; cbn [ok_or]; mrun; [|done].
  pose proof (decided_service_msg (I:=I) (B:=B) (DE:=DE) m) as Hd.
  destruct (service_msg m) as [x|e|] eqn:Hs; mrun; [done|done|]. intros _. right. exists env, m.
  split; [by rewrite Hr|]. split; [done|]. by destruct Hd.
Qed.

End Reading.

(* ------------------------------------------------------------------ *)
(** ** Polling an active device                                          *)
(* ------------------------------------------------------------------ *)

Section Panics.
Context `{Pl : Platform} `{U : UintCrate} `{UL : !UintLaws U} `{S : Sha3Crate} `{SL : !Sha3Laws S}.
Context `{I : SignerImpl} `{IL : !SignerLaws I}.
Context `{PTE : !ProstMessage perunwire.Envelope} {B : Type} `{HB : !MessageBus B} `{LB : !LawfulBus B}.
Context `{T : !TcpStack B} `{L : !TcpLaws B} `{ST : !TcpStreams B} `{SB : !StreamBus B}.
Context {R : Type} `{HR : !RngCore R}.
Context {DE : Type} `{PE : !ProstDecode DE perunwire.Envelope} `{PM : !ProstDecode DE perunwire.Message}.
Context `{PL : !ProstLaws DE} `{PT : !ProstTotal (DE:=DE) perunwire.Message}.

Abbreviation App := (@Application _ I B T R).

(** Processing what was read does not panic by itself: only the channel's method
    can. *)
Lemma forward_panics {X} (a : App) e w ch b b1 x (recv_fn : M (App * B) (@AppError I B T DE) (option X)) process :
  app_state a = ActiveState e w ch -> recv_fn (a, b) = ((a, b1), Ok (Some x)) ->
  (forward_messages recv_fn process (a, b)).2 = Panic -> (process x (ch, b1)).2 = Panic.
Proof.
  intros Hs Hrecv. unfold forward_messages. erewrite M_bind_ok by exact Hrecv. cbn beta iota.
  unfold mbind at 1, M_bind at 1, on_channel. rewrite Hs. destruct (process x (ch, b1)) as [[ch' b2] [[]|er|]]; try
    done.
  cbn [map_err]. unfold close_if_closed, mbind, M_bind, mget. cbn [app_state set_app_state].
  by destruct (is_closed ch').
Qed.

Lemma last_panics {X E A} (m : M X E A) s : ((m ≫= fun _ => mret tt) s).2 = Panic -> (m s).2 = Panic.
Proof. unfold mbind, M_bind. by destruct (m s) as [s' [x|e|]]. Qed.

(** Where the poll of an active device panics. *)
Lemma poll_panics (a : App) e w ch b :
  app_state a = ActiveState e w ch -> (poll (DE:=DE) (a, b)).2 = Panic ->
  (try_recv_participant_msg (DE:=DE) (a, b)).2 = Panic \/
  (exists b1 m, try_recv_participant_msg (DE:=DE) (a, b) = ((a, b1), Ok (Some m)) /\
     (process_participant_msg m (ch, b1)).2 = Panic) \/
  (exists b1, try_recv_participant_msg (DE:=DE) (a, b) = ((a, b1), Ok None) /\
     ((try_recv_service_msg (DE:=DE) (a, b1)).2 = Panic \/
      exists (b2 : B) m, (process_service_msg m (ch, b2)).2 = Panic)).
Proof.
  intros Hs. unfold poll. rewrite M_get, Hs. unfold forward_messages_to_channel.
  destruct (try_recv_participant_msg (DE:=DE) (a, b)) as [s1 r1] eqn:H1.
  pose proof (try_recv_participant_same _ _ _ _ H1) as Ha. destruct s1 as [a1 b1]. cbn [fst] in Ha. subst a1.
  destruct r1 as [[m|]|er|]; [| | |by left].
  - intros Hp. right. left. exists b1, m. split; [done|].
    eapply (forward_panics a e w ch b b1 m _ process_participant_msg Hs H1). revert Hp.
    unfold mbind at 1, M_bind at 1. by destruct (forward_messages _ _ _) as [s [[|]|er|]] eqn:Hf;
      [|destruct (forward_run a e w ch b b1 m _ _ s _ Hs H1 Hf) as (? & ? & ? & _ & _ & _ & ?)|..].
  - destruct (forward_none a b b1 _ _ process_participant_msg H1) as [E1 E2]; [done|].
    intros Hp. right. right. exists b1. split; [done|]. revert Hp. unfold mbind at 1, M_bind at 1.
    rewrite (surjective_pairing (forward_messages _ _ _)), E1, E2. cbn beta iota.
    destruct (try_recv_service_msg (DE:=DE) (a, b1)) as [s2 r2] eqn:H2.
    destruct (try_recv_service_reads a b1 s2 r2 H2) as (b2 & -> & _).
    destruct r2 as [[m|]|er|]; [| | |by left].
    + intros Hp. right. exists b2, m.
      by eapply (forward_panics a e w ch b1 b2 m _ process_service_msg Hs H2), last_panics.
    + intros Hp%last_panics. by rewrite (proj2 (forward_none a b1 b2 _ _ process_service_msg H2 ltac:(done))) in Hp.
    + intros Hp%last_panics. by rewrite (proj2 (forward_none a b1 b2 _ _ process_service_msg H2 ltac:(done))) in Hp.
  - destruct (forward_none a b b1 _ _ process_participant_msg H1) as [E1 E2]; [done|].
    unfold mbind at 1, M_bind at 1. rewrite (surjective_pairing (forward_messages _ _ _)), E1, E2. done.
Qed.

(** A reply of a service is processed without a panic: nothing is sent for it. *)
Lemma process_service_total m (ch : Channel) (b : B) :
  inner ch <> TemporaryInvalidState -> (process_service_msg m (ch, b)).2 <> Panic.
Proof.
  intros Hi. destruct ch as [i]. cbn [inner] in Hi.
  destruct m as [m|m]; cbn [process_service_msg]; [unfold process_funder_reply|unfold process_watcher_reply];
    unfold progress; cbn [inner]; destruct i as [| |? [] []| | | | |], m; done.
Qed.

(** The causes.  [a] is an active application with the channel [ch], [b] its
    world, [more] what the network and the other device still have for it. *)
Inductive panic_cause (a : App) (ch : Channel) (b : B) (more : bytes) : Prop :=
  | cause_frame q payloads :
      Forall2 payload_of q payloads -> rx (app_participant_handle a) b ++ more = frames payloads ->
      bad_framing (app_participant_handle a) b payloads -> panic_cause a ch b more
  | cause_service b1 :
      try_recv_participant_msg (DE:=DE) (a, b) = ((a, b1), Ok None) ->
      bad_header (app_service_handle a) b1 \/ bad_reply (DE:=DE) (app_service_handle a) b1 ->
      panic_cause a ch b more
  | cause_send b1 m ch' out res :
      try_recv_participant_msg (DE:=DE) (a, b) = ((a, b1), Ok (Some m)) ->
      process_participant_msg m (ch, []) = ((ch', out), res) -> res <> Panic -> stuck b1 out ->
      panic_cause a ch b more.

(** For an application whose channel and whose messages are those of an end of a
    pair. *)
Lemma end_panics (a : App) e w ch b q more payloads :
  app_state a = ActiveState e w ch -> inner ch <> TemporaryInvalidState ->
  Forall2 payload_of q payloads -> Forall survives q ->
  rx (app_participant_handle a) b ++ more = frames payloads ->
  (forall m k, q = m :: k -> exists ch' out res,
     process_participant_msg m (ch, []) = ((ch', out), res) /\ res <> Panic) ->
  (poll (DE:=DE) (a, b)).2 = Panic -> panic_cause a ch b more.
Proof.
  intros Hs Hi Hps Hsv Hst Hq Hp.
  destruct (try_recv_participant_msg (DE:=DE) (a, b)) as [s1 r1] eqn:H1.
  destruct (try_recv_participant_stream a b s1 r1 more q payloads Hps Hsv Hst H1) as (b1 & -> & _ & Hcase).
  destruct (poll_panics a e w ch b Hs Hp) as [Hr|[(b2 & m & Hr & Hm)|(b2 & Hr & Hsrv)]]; rewrite H1 in Hr.
  - cbn [snd] in Hr. destruct Hcase as [[_ Hbad]|[(_ & [->|[er ->]])|(m & k & ps & _ & -> & _)]]; [|done..].
    by eapply cause_frame.
  - injection Hr as [= -> ->].
    destruct Hcase as [[? _]|[(_ & [?|[er ?]])|(m' & k & ps & -> & [= <-] & _)]]; [done..|].
    destruct (Hq m k eq_refl) as (ch' & out & res & Hrun & Hres).
    eapply cause_send; [exact H1|exact Hrun|exact Hres|].
    destruct (runs_participant_msg m ch b2 []) as [(l & Hl & _)|(_ & l & Hl & Hstuck)]; rewrite Hrun in Hl.
    + injection Hl as _ _ ->. done.
    + cbn in Hl. by subst.
  - injection Hr as [= -> ->]. eapply cause_service; [exact H1|].
    destruct Hsrv as [Hsrv|(b3 & m & Hm)]; [by apply service_read_panics|by destruct (process_service_total m ch b3)].
Qed.

Lemma ends_channel l r :
  ends_inv default_assets (l, r) ->
  inner (chan l) <> TemporaryInvalidState /\ inner (chan r) <> TemporaryInvalidState.
Proof.
  assert (forall i x u, held i x u -> i <> TemporaryInvalidState) as Hheld.
  { intros i x u [H|[-> | ->]]; [by inversion H|done..]. }
  intros Hi. inversion Hi; subst; split; first [by eapply Hheld | congruence].
Qed.

Lemma pair_channel p : pair_inv default_assets p -> inner (chan p.1) <> TemporaryInvalidState.
Proof. destruct p as [l r]. intros [Hi|Hi]; by destruct (ends_channel _ _ Hi). Qed.

Lemma simulates_panics (s : system (R:=R)) p e w ch :
  simulates s p -> app_state (node_app s.1) = ActiveState e w ch ->
  (poll (DE:=DE) (node_app s.1, world s.1)).2 = Panic ->
  panic_cause (node_app s.1) ch (world s.1) (incoming s.1 ++ tx (socket s.2) (world s.2)).
Proof.
  intros Hsim Hs. destruct s as [[a b k] r], p as [[c q] rr]. cbn [fst snd node_app world incoming] in *.
  pose proof (impl_channel _ _ (sim_left _ _ Hsim)) as Hc. cbn [fst node_app chan] in Hc. rewrite Hs in Hc. subst c.
  destruct (sim_to_left _ _ Hsim) as (ps & Hps & Hst); [by apply active_connected; repeat eexists|].
  pose proof (sim_inv _ _ Hsim) as Hi.
  eapply end_panics; [exact Hs|exact (pair_channel _ Hi)|exact Hps| |exact Hst|].
  - exact (carries_survives _ (proj1 (pair_inv_carries _ default_assets_kept _ Hi))).
  - intros m q' Hq. cbn [fst inbox] in Hq. subst q.
    destruct (deliver_inv _ default_assets_kept _ _ _ _ Hi) as (ch' & out & (res & Hrun & Hres) & _).
    exists ch', out, res. split; [exact Hrun|]. by destruct Hres as [->|([-> | ->] & _)].
Qed.

(** While the proposal is on its way, nothing is for the device that made it. *)
Lemma proposed_panics prop pcA (s : system (R:=R)) e w ch :
  proposed prop pcA s -> app_state (node_app s.1) = ActiveState e w ch ->
  (poll (DE:=DE) (node_app s.1, world s.1)).2 = Panic ->
  panic_cause (node_app s.1) ch (world s.1) (incoming s.1 ++ tx (socket s.2) (world s.2)).
Proof.
  intros Hp Hs. pose proof (impl_channel _ _ (pr_left _ _ _ Hp)) as Hc. rewrite Hs in Hc. subst ch.
  destruct (pr_to_left _ _ _ Hp) as (ps & Hps & Hst); [by apply active_connected; repeat eexists|].
  eapply end_panics; [exact Hs|done|exact Hps|constructor|exact Hst|done].
Qed.


End Panics.
