(* ===== verification/DeviceProgress.v ===== *)
(** * What two devices can do

    The converse of Devices.v: as long as the network carries on and the messages
    fit the buffers, two devices can do whatever the two ends of DemoPair.v can
    do.  For every call and every message of an end there is a way for the
    network, the services and the buttons to make the devices do the same. *)
From stdpp Require Import relations.
From S2P Require Import Prelude AbiSpec AbiSer Types PerunWire Payment PaymentTheorems Sig Messages Wire.
From S2P Require Import WireTheorems ChannelTypes Active Proposal ActiveTheorems ChannelSystem OpeningTheorems.
From S2P Require Import DemoChannel Net BusRefinement DemoTheorems DemoPair PairTheorems.
From S2P Require Import Application ApplicationTheorems Streams Devices.

(* ------------------------------------------------------------------ *)
(** ** What is needed of the network                                     *)
(* ------------------------------------------------------------------ *)

(** The length of a frame that the application reads. *)
Definition short (payload : bytes) : Prop := zlen payload <= MAX_MESSAGE_SIZE.

(** The network has handed over what the two sockets hold: all of it can be
    read. *)
Record handed_over {B} `{L : TcpLaws B} (h k : SocketHandle) (got srv : bytes) (b : B) : Prop := {
  ho_participant : rx h b = got;
  ho_service : rx k b = srv;
  ho_contiguous j : j = h \/ j = k -> contiguous j b = length (rx j b);
  ho_may_recv j : j = h \/ j = k -> may_recv j b = true;
  ho_capacity j : j = h \/ j = k -> 2 + MAX_MESSAGE_SIZE <= recv_capacity j b;
}.

(** A network that carries on, in the world of a device that sends the
    participant's messages to [h]: [fits l] are messages the send buffers can
    hold together, [room l b] says that they have the room for them now.  The
    network can take what the socket has to send; and a socket without anything
    to read or to send can be handed the next bytes and be given room. *)
Class LiveNetwork `{U : UintCrate} `{PTE : ProstMessage perunwire.Envelope} (B : Type) {HB : MessageBus B}
    {T : TcpStack B} {L : TcpLaws B} {ST : TcpStreams B} {SB : StreamBus B} := {
  fits : list Sent -> Prop;
  room : list Sent -> B -> Prop;
  room_recv {A} l h (f : bytes -> Z * A) b : room l b -> room l (recv h f b).1;
  room_recv_slice l h k b : room l b -> room l (recv_slice h k b).1;
  room_takes l b : room l b -> ~ stuck b l;
  room_short h l b b' :
    sends_to h b -> room l b -> delivers b l b' ->
    exists ps, Forall short ps /\ tx h b' = tx h b ++ frames ps;
  network_takes h b :
    sends_to h b -> exists b', rx h b' = rx h b /\ tx h b' = [] /\ sends_to h b';
  network_hands h k b got srv l :
    k <> h -> sends_to h b -> rx h b = [] -> tx h b = [] -> fits l ->
    zlen got <= 2 + MAX_MESSAGE_SIZE -> zlen srv <= 2 + MAX_MESSAGE_SIZE ->
    exists b', handed_over h k got srv b' /\ tx h b' = [] /\ sends_to h b' /\ room l b';
}.

(** Two replies that the channel does not tell apart. *)
Definition same_reply (m m' : ServiceReplyMessage) : Prop :=
  match m, m' with
  | Watcher (Ack _ _), Watcher (Ack _ _) | Watcher (DisputeAck _), Watcher (DisputeAck _)
  | Watcher (DisputeNotification _), Watcher (DisputeNotification _) | Funder _, Funder _ => True
  | _, _ => False
  end.

(** The services can send every kind of reply. *)
Class LiveServices `{U : UintCrate} `{I : SignerImpl} {B : Type} `{HB : !MessageBus B} `{T : !TcpStack B} (DE : Type)
    `{PM : ProstDecode DE perunwire.Message} : Prop :=
  service_sends (m : ServiceReplyMessage) :
    exists payload env wm m', payload <> [] /\ short payload /\ prost_decode (DE:=DE) payload = Ok env /\
      perunwire.Message_msg env = Some wm /\ service_msg (B:=B) (DE:=DE) wm = Ok m' /\ same_reply m m'.

(** Several frames can only be taken apart in one way. *)
Lemma frame_inj p q l k :
  zlen p < 2 ^ 16 -> zlen q < 2 ^ 16 -> frame p ++ l = frame q ++ k -> p = q /\ l = k.
Proof.
  intros Hp Hq H. unfold frame in H. rewrite <- !app_assoc in H. pose proof (zlen_nonneg p). pose proof (zlen_nonneg q).
  pose proof (f_equal (take 2) H) as Hl. pose proof (f_equal (drop 2) H) as Hr.
  rewrite !frame_take in Hl. rewrite !frame_drop in Hr. apply (f_equal be_val) in Hl.
  rewrite !frame_length_val in Hl by lia. apply app_inj_1; [unfold zlen in Hl; lia|done].
Qed.

Lemma frames_cons_nil p ps : frames (p :: ps) <> [].
Proof.
  intros H. apply (f_equal zlen) in H. change (frames (p :: ps)) with (frame p ++ frames ps) in H.
  rewrite zlen_app, zlen_frame in H. pose proof (zlen_nonneg p). pose proof (zlen_nonneg (frames ps)).
  unfold zlen in *. cbn in H. lia.
Qed.

Lemma frames_inj ps qs :
  Forall (fun p => zlen p < 2 ^ 16) ps -> Forall (fun p => zlen p < 2 ^ 16) qs -> frames ps = frames qs -> ps = qs.
Proof.
  intros Hps. revert qs. induction Hps as [|p ps Hp Hps IH]; intros [|q qs] Hqs H;
    [done|by symmetry in H; apply frames_cons_nil in H|by apply frames_cons_nil in H|].
  inversion Hqs; subst. change (frame p ++ frames ps = frame q ++ frames qs) in H.
  apply frame_inj in H as [-> H]; [|done..]. f_equal. by apply IH.
Qed.

Lemma short_frame p : short p -> zlen p < 2 ^ 16.
Proof. unfold short, MAX_MESSAGE_SIZE. lia. Qed.

Section Reading.
Context `{U : UintCrate} `{I : SignerImpl} {B : Type} `{HB : !MessageBus B} `{T : !TcpStack B} `{L : !TcpLaws B}.
Context `{ST : !TcpStreams B} {DE X : Type} `{PX : !ProstDecode DE X}.

(** What no read changes is not changed by [try_recv]. *)
Lemma try_recv_keeps (P : B -> Prop) h b :
  (forall A (f : bytes -> Z * A) b, P b -> P (recv h f b).1) -> (forall k b, P b -> P (recv_slice h k b).1) ->
  P b -> P (try_recv (X:=X) (DE:=DE) h b).1.
Proof.
  intros Hr Hs. set (keeps := fun (E A : Type) (m : M B E A) => forall b, P b -> P (m b).1).
  assert (forall E A C (m : M B E A) (f : A -> M B E C),
    keeps E A m -> (forall a, keeps E C (f a)) -> keeps E C (m ≫= f)) as Hbind.
  { intros E A C m f Hm Hf b0 Hb. specialize (Hm b0 Hb). unfold mbind, M_bind.
    destruct (m b0) as [b1 [a|e|]]; [by apply Hf|done..]. }
  assert (forall E F A (g : E -> F) (m : M B E A), keeps E A m -> keeps F A (mmap_err g m)) as Hmap.
  { intros E F A g m Hm b0 Hb. specialize (Hm b0 Hb). unfold mmap_err. by destruct (m b0). }
  assert (forall k, keeps _ _ (peek_slice h k)) as Hpeek by (intros k b0 Hb; by rewrite peek_streams).
  enough (keeps _ _ (try_recv (X:=X) (DE:=DE) h)) by by intros; auto.
  unfold try_recv. repeat match goal with
    | |- forall _, _ => intro
    | |- keeps _ _ (_ ≫= _) => apply Hbind
    | |- keeps _ _ (if ?x then _ else _) => destruct x
    | |- keeps _ _ (mmap_err _ _) => apply Hmap
    | |- keeps _ _ (recv _ _) => intros ? ?; by apply Hr
    | |- keeps _ _ (recv_slice _ _) => intros ? ?; by apply Hs
    | |- keeps _ _ (peek_slice _ _) => apply Hpeek
    | |- _ => by intros ? ?
    end.
Qed.

End Reading.

Section Progress.
Context `{Pl : Platform} `{U : UintCrate} `{UL : !UintLaws U} `{S : Sha3Crate} `{SL : !Sha3Laws S}.
Context `{I : SignerImpl} `{IL : !SignerLaws I}.
Context `{PTE : !ProstMessage perunwire.Envelope} {B : Type} `{HB : !MessageBus B} `{LB : !LawfulBus B}.
Context `{T : !TcpStack B} `{L : !TcpLaws B} `{ST : !TcpStreams B} `{SB : !StreamBus B} `{LN : !LiveNetwork B}.
Context {R : Type} `{HR : !RngCore R}.
Context {DE : Type} `{PE : !ProstDecode DE perunwire.Envelope} `{PM : !ProstDecode DE perunwire.Message}.
Context `{PL : !ProstLaws DE} `{LS : !LiveServices DE}.

Abbreviation App := (@Application _ I B T R).
Abbreviation A := (M (App * B) (@AppError I B T DE)).
Abbreviation node := (node (R:=R)).
Abbreviation system := (system (R:=R)).
Abbreviation system_step := (system_step (R:=R) (DE:=DE)).
Abbreviation left_device := (left_device (R:=R) (DE:=DE)).

(* ------------------------------------------------------------------ *)
(** ** Devices that have read everything                                 *)
(* ------------------------------------------------------------------ *)

(** The steps of the two ends whose messages fit the buffers. *)
Inductive fit_left : two_ends -> two_ends -> Prop :=
  | fit_call c c' q out r :
      own_call (c, []) (c', out) -> fits out ->
      fit_left (mkSide c q, r) (mkSide c' q, mkSide (chan r) (inbox r ++ for_peer out))
  | fit_deliver c c' m q out res r :
      process_participant_msg m (c, []) = ((c', out), res) -> res <> Panic -> fits out ->
      fit_left (mkSide c (m :: q), r) (mkSide c' q, mkSide (chan r) (inbox r ++ for_peer out)).
Definition fit_step (p p' : two_ends) : Prop := fit_left p p' \/ fit_left (swap p) (swap p').

Lemma fit_left_step p p' : fit_left p p' -> left_step p p'.
Proof. intros []; [by apply left_call|by eapply left_deliver]. Qed.

(** All the bytes on their way to a device. *)
Definition stream (from to : node) : bytes :=
  rx (socket to) (world to) ++ incoming to ++ tx (socket from) (world from).

Definition shorts (from to : node) : Prop :=
  connected (node_app to) -> exists ps, Forall short ps /\ stream from to = frames ps.

(** A device that has read all that its network interface handed over. *)
Definition drained (n : node) : Prop := connected (node_app n) -> rx (socket n) (world n) = [].

Record ready (s : system) (p : two_ends) : Prop := {
  rd_sim : simulates s p;
  rd_left : drained s.1;
  rd_right : drained s.2;
  rd_to_left : shorts s.2 s.1;
  rd_to_right : shorts s.1 s.2;
}.

Lemma ready_mirror s p : ready s p -> ready (mirror s) (swap p).
Proof. intros []. split; try done. by apply simulates_mirror. Qed.

(** What is on its way to a connected device are the messages, each in a short
    frame. *)
Lemma ready_stream s p :
  ready s p -> connected (node_app s.1) ->
  exists ps, Forall2 payload_of (inbox p.1) ps /\ Forall short ps /\ stream s.2 s.1 = frames ps.
Proof.
  intros [Hsim _ _ Hsh _] Hc. destruct (sim_to_left _ _ Hsim Hc) as (ps & Hps & Hst).
  destruct (Hsh Hc) as (qs & Hqs & Hst'). exists ps. split; [done|].
  assert (ps = qs) as ->; [|done]. apply frames_inj.
  - clear -Hps PL. induction Hps; constructor; [by eapply payload_fits|done].
  - revert Hqs. apply Forall_impl, short_frame.
  - unfold stream in Hst'. by rewrite <- Hst, <- Hst'.
Qed.

(** The network moves bytes. *)
Lemma network_ready a b b' got rest out r p :
  ready (mkNode a b (got ++ rest), r) p ->
  (connected a -> rx (app_participant_handle a) b' = rx (app_participant_handle a) b ++ got) ->
  tx (app_participant_handle a) b = out ++ tx (app_participant_handle a) b' ->
  (sends_to (app_participant_handle a) b -> sends_to (app_participant_handle a) b') ->
  drained (mkNode a b' rest) ->
  ready (mkNode a b' rest, mkNode (node_app r) (world r) (incoming r ++ out)) p.
Proof.
  intros [Hsim Hl Hr Hql Hqr] Hrx Htx Hs Hd. split; [by eapply network_simulates|done|done| |].
  - intros Hc. destruct (Hql Hc) as (ps & Hps & Hst). exists ps. split; [done|]. rewrite <- Hst.
    unfold stream, socket. cbn [fst snd node_app world incoming]. by rewrite Hrx, <- !app_assoc by done.
  - intros Hc. destruct (Hqr Hc) as (ps & Hps & Hst). exists ps. split; [done|]. rewrite <- Hst.
    unfold stream, socket. cbn [fst snd node_app world incoming]. by rewrite Htx, <- !app_assoc.
Qed.

(** The network takes what a device has to send. *)
Lemma ready_flush l r p :
  ready (l, r) p ->
  exists b', let l' := mkNode (node_app l) b' (incoming l) in
    let r' := mkNode (node_app r) (world r) (incoming r ++ tx (socket l) (world l)) in
    system_step (l, r) (l', r') /\ tx (socket l) b' = [] /\ ready (l', r') p.
Proof.
  intros Hr. destruct l as [a b q]. pose proof (impl_sends _ _ (sim_left _ _ (rd_sim _ _ Hr))) as Hs.
  unfold socket in *. cbn [fst node_app world incoming] in *.
  destruct (network_takes _ b Hs) as (b' & Hrx & Htx & Hs'). exists b'.
  assert (tx (app_participant_handle a) b = tx (app_participant_handle a) b ++ tx (app_participant_handle a) b') as E
    by by rewrite Htx, app_nil_r.
  split; [left|split; [exact Htx|]].
  - apply (left_device_network a b b' [] q); [|exact E|done]. by rewrite Hrx, app_nil_r.
  - apply (network_ready a b b' [] q); [done| |exact E|done|].
    + by rewrite Hrx, app_nil_r.
    + intros Hc. unfold socket. cbn [node_app world]. rewrite Hrx. by apply (rd_left _ _ Hr).
Qed.

Lemma flush_both l r p :
  ready (l, r) p ->
  exists l' r', rtc system_step (l, r) (l', r') /\ ready (l', r') p /\
    node_app l' = node_app l /\ node_app r' = node_app r /\
    tx (socket l') (world l') = [] /\ tx (socket r') (world r') = [].
Proof.
  intros Hr. destruct (ready_flush l r p Hr) as (b & Hst1 & Htx1 & Hr1). cbn zeta in *. apply ready_mirror in Hr1.
  destruct (ready_flush _ _ _ Hr1) as (b' & Hst2 & Htx2 & Hr2). cbn zeta in *. cbn [node_app world incoming] in *.
  apply ready_mirror in Hr2. rewrite swap_swap in Hr2.
  eexists (mkNode (node_app l) b _), (mkNode (node_app r) b' _). split; [|by split_and!].
  eapply rtc_l; [exact Hst1|]. apply rtc_once. destruct Hst2 as [H|H]; [right; exact H|left; exact H].
Qed.

(** A call that does something to the channel of a device that has read
    everything. *)
Lemma call_ready a b b1 b2 q r a' b' e w ch ch' k k' rr l payloads :
  simulates (mkNode a b q, r) (mkSide ch k, rr) -> app_state a = ActiveState e w ch ->
  drained r -> shorts (mkNode a b q) r ->
  (forall j, tx j b1 = tx j b) -> sends_to (app_participant_handle a) b1 -> room l b1 ->
  rx (app_participant_handle a) b1 = [] ->
  Forall2 payload_of k' payloads -> Forall short payloads ->
  q ++ tx (socket r) (world r) = frames payloads ->
  delivers b1 l b2 -> settles a e w ch' b2 a' b' ->
  pair_step (mkSide ch k, rr) (mkSide ch' k', mkSide (chan rr) (inbox rr ++ for_peer l)) ->
  ready (mkNode a' b' q, r) (mkSide ch' k', mkSide (chan rr) (inbox rr ++ for_peer l)).
Proof.
  intros Hsim Ha Hdr Hsh Htx Hs Hroom Hrx Hps Hshort Hst Hd Hset Hstep.
  destruct (delivers_stream _ b1 l b2 Hs Hd) as (_ & Hrx2 & _).
  destruct (room_short _ l b1 b2 Hs Hroom Hd) as (qs & Hqs & Htx2).
  assert (tx (app_participant_handle a) b' = tx (app_participant_handle a) b2) as Htx'.
  { destruct Hset as [[_ ->]|(_ & _ & ->)]; [done|]. by rewrite !close_tx. }
  assert (app_participant_handle a' = app_participant_handle a) as Hp' by by destruct Hset as [[-> _]|(_ & -> & _)].
  assert (connected a' -> rx (app_participant_handle a) b' = []) as Hrx'.
  { destruct Hset as [[_ ->]|(_ & -> & _)]; [|done]. by rewrite Hrx2, Hrx. }
  split; [|by intros Hc; unfold socket; cbn [fst node_app world]; rewrite Hp'; apply Hrx'|done| |].
  - eapply call_simulates; [exact Hsim|exact Ha|exact Htx|exact Hs|exact Hps| |exact Hd|exact Hset|exact Hstep].
    by rewrite Hrx.
  - intros Hc. exists payloads. split; [done|]. unfold stream, socket. cbn [fst snd node_app world incoming].
    by rewrite Hp', Hrx'.
  - intros Hc. destruct (Hsh Hc) as (ps & Hps' & Hst'). exists (ps ++ qs). split; [by apply Forall_app|].
    rewrite frames_app, <- Hst'. unfold stream, socket. cbn [fst snd node_app world incoming].
    by rewrite Hp', Htx', Htx2, Htx, <- !app_assoc.
Qed.

(** The network hands over the next bytes and replies of the services. *)
Lemma hand_left a b got rest r p l srv :
  ready (mkNode a b (got ++ rest), r) p -> connected a -> tx (app_participant_handle a) b = [] -> fits l ->
  zlen got <= 2 + MAX_MESSAGE_SIZE -> zlen srv <= 2 + MAX_MESSAGE_SIZE ->
  exists b1, system_step (mkNode a b (got ++ rest), r) (mkNode a b1 rest, r) /\
    handed_over (app_participant_handle a) (app_service_handle a) got srv b1 /\
    tx (app_participant_handle a) b1 = [] /\ sends_to (app_participant_handle a) b1 /\ room l b1 /\
    simulates (mkNode a b1 rest, r) p /\ shorts (mkNode a b1 rest) r.
Proof.
  intros Hr Hc Htx Hl Hgot Hsrv. pose proof (rd_left _ _ Hr Hc) as Hrx.
  pose proof (sim_left _ _ (rd_sim _ _ Hr)) as [Hh Hs _]. unfold socket in *. cbn [fst node_app world] in *.
  destruct (network_hands _ _ b got srv l Hh Hs Hrx Htx Hl Hgot Hsrv) as (b1 & Hho & Htx1 & Hs1 & Hroom).
  assert (mkNode (node_app r) (world r) (incoming r ++ []) = r) as Er by (rewrite app_nil_r; by destruct r).
  assert (connected a -> rx (app_participant_handle a) b1 = rx (app_participant_handle a) b ++ got) as E1
    by (intros _; by rewrite Hrx, (ho_participant _ _ _ _ _ Hho)).
  assert (tx (app_participant_handle a) b = [] ++ tx (app_participant_handle a) b1) as E2 by by rewrite Htx, Htx1.
  exists b1. split; [left|split; [done|split; [done|split; [done|split; [done|split]]]]].
  - pose proof (left_device_network (DE:=DE) a b b1 got rest [] r E1 E2 ltac:(done)) as H. by rewrite Er in H.
  - pose proof (network_simulates a b b1 got rest [] r p (rd_sim _ _ Hr) E1 E2 ltac:(done)) as H. by rewrite Er in H.
  - intros Hcr. destruct (rd_to_right _ _ Hr Hcr) as (ps & Hps & Hst). exists ps. split; [done|]. rewrite <- Hst.
    unfold stream, socket. cbn [fst snd node_app world incoming]. by rewrite Htx, Htx1.
Qed.

Lemma handed_frame h k got srv (b : B) j payload :
  handed_over h k got srv b -> j = h \/ j = k -> payload <> [] -> short payload -> rx j b = frame payload ->
  next_frame j b payload [].
Proof.
  intros [_ _ Hc Hm Hcap] Hj Hne Hs Hrx. specialize (Hc j Hj). specialize (Hm j Hj). specialize (Hcap j Hj).
  unfold short in Hs. split; [done| |done|done|lia|by rewrite app_nil_r].
  unfold header_contiguous. rewrite Hc, Hrx. pose proof (zlen_frame payload) as Hl. pose proof (zlen_nonneg payload).
  unfold zlen in *. lia.
Qed.

(** What the application does with a message when the channel takes it. *)
Lemma process_settles {X} (f : X -> M (Channel * B) DemoError unit) x (a : App) b e w ch ch' b' res :
  app_state a = ActiveState e w ch -> f x (ch, b) = ((ch', b'), res) -> res <> Panic ->
  exists a1 b1 r, process (DE:=DE) f x (a, b) = ((a1, b1), r) /\ r <> Panic /\ settles a e w ch' b' a1 b1.
Proof.
  intros Hs Hf Hr. unfold process, on_channel. unfold mbind, M_bind. rewrite Hs, Hf.
  destruct res as [[]|er|]; [|by do 3 eexists; split; [reflexivity|]; split; [done|left]|done].
  unfold close_if_closed. rewrite M_get. cbn [app_state set_app_state].
  destruct (is_closed ch') eqn:Hcl; do 3 eexists; (split; [reflexivity|]; split; [done|]); [right|by left].
  split; [|done]. unfold is_closed in Hcl. by destruct (inner ch').
Qed.

Lemma poll_participant_message (a : App) b b1 e w ch m :
  app_state a = ActiveState e w ch ->
  try_recv_participant_msg (DE:=DE) (a, b) = ((a, b1), Ok (Some m)) ->
  poll (DE:=DE) (a, b) = process process_participant_msg m (a, b1).
Proof.
  intros Hs Hr. unfold poll. rewrite M_get, Hs. unfold forward_messages_to_channel, forward_messages, process.
  unfold mbind, M_bind. rewrite Hr.
  destruct (on_channel _ _ _) as [s1 [[]|er|]]; [|done|done]. by destruct (close_if_closed s1) as [s2 [[]|er|]].
Qed.

Lemma room_try_recv {X} `{PX : !ProstDecode DE X} h l (b : B) :
  room l b -> room l (try_recv (X:=X) (DE:=DE) h b).1.
Proof. apply try_recv_keeps; [intros A; apply room_recv|intros k; apply room_recv_slice]. Qed.

(** The world after a read is that of [try_recv]. *)
Lemma try_recv_participant_world (a : App) b :
  (try_recv_participant_msg (DE:=DE) (a, b)).1 =
  (a, (try_recv (X:=perunwire.Envelope) (DE:=DE) (app_participant_handle a) b).1).
Proof.
  unfold try_recv_participant_msg. rewrite M_get. unfold mbind, M_bind, on_snd. cbn [fst snd].
  destruct (try_recv _ b) as [b' [[env|]|e|]]; [|done..].
  destruct (perunwire.Envelope_msg env) as [m|]; [|done]. cbn. by destruct (participant_msg m).
Qed.

Lemma try_recv_service_world (a : App) b :
  (try_recv_service_msg (DE:=DE) (a, b)).1 =
  (a, (try_recv (X:=perunwire.Message) (DE:=DE) (app_service_handle a) b).1).
Proof.
  unfold try_recv_service_msg. rewrite M_get. unfold mbind, M_bind, on_snd. cbn [fst snd].
  destruct (try_recv _ b) as [b' [[env|]|e|]]; [|done..].
  destruct (perunwire.Message_msg env) as [m|]; [|done]. cbn. by destruct (service_msg m).
Qed.

(** Reading the next message of the participant. *)
Lemma receive_message (a : App) b m payload :
  survives m -> payload_of m payload -> short payload ->
  handed_over (app_participant_handle a) (app_service_handle a) (frame payload) [] b ->
  exists b', try_recv_participant_msg (DE:=DE) (a, b) = ((a, b'), Ok (Some m)) /\
    apart (app_participant_handle a) b b' /\ rx (app_participant_handle a) b' = [] /\
    (forall l, room l b -> room l b').
Proof.
  intros Hm Hp Hs Hho. set (h := app_participant_handle a) in *.
  destruct (payload_decodes (DE:=DE) m payload Hp) as (env & Hd & Hmsg).
  assert (next_frame h b payload []) as Hn.
  { eapply handed_frame; [exact Hho|by left|by eapply payload_fits|done|by destruct Hho]. }
  destruct (try_recv_participant_next (DE:=DE) a b payload [] env Hn Hd) as (b' & Hrx & Hr).
  rewrite Hmsg in Hr. cbn [ok_or mbind res_bind] in Hr.
  rewrite (proj2 (participant_msg_iff (I:=I) (B:=B) (DE:=DE) m) Hm) in Hr.
  pose proof (try_recv_participant_world a b) as Hw. rewrite Hr in Hw. cbn [fst] in Hw. fold h in Hw.
  injection Hw as Hw. exists b'. split; [exact Hr|]. rewrite Hw.
  split; [apply (try_recv_reads (X:=perunwire.Envelope) (DE:=DE) h b)|]. split; [by rewrite <- Hw|].
  intros l. apply (room_try_recv (X:=perunwire.Envelope) h l b).
Qed.

(** An end that has closed, whose device has left the channel. *)
Lemma closed_ready (s : system) c k k' rr :
  ready s (mkSide c k, rr) -> ~ connected (node_app s.1) ->
  pair_step (mkSide c k, rr) (mkSide c k', mkSide (chan rr) (inbox rr ++ for_peer [])) ->
  ready s (mkSide c k', mkSide (chan rr) (inbox rr ++ for_peer [])).
Proof.
  intros [[Hl Hr Hql Hqr Hi] Hdl Hdr Hsl Hsr] Hc Hstep. cbn [fst snd chan inbox] in *.
  assert (inbox rr ++ for_peer [] = inbox rr) as E by apply app_nil_r. split; try done.
  split; cbn [fst snd chan inbox]; [done|done|by intros ?|by rewrite E|].
  eapply pair_step_inv; [exact default_assets_kept|exact Hstep|exact Hi].
Qed.

(** The application of an end: it has the channel, or has left a closed one. *)
Lemma ready_cases a b q r c k rr :
  ready (mkNode a b q, r) (mkSide c k, rr) ->
  (exists e w, app_state a = ActiveState e w c) \/ (inner c = Closed /\ ~ connected a).
Proof.
  intros Hr. pose proof (impl_channel _ _ (sim_left _ _ (rd_sim _ _ Hr))) as Hc. cbn [fst node_app chan] in Hc.
  unfold connected. destruct (app_state a); try done; [by right; split; [|intros []]|]. subst. left. by do 2 eexists.
Qed.

Lemma message_follows a b q r c c' m ms rr out res :
  ready (mkNode a b q, r) (mkSide c (m :: ms), rr) ->
  process_participant_msg m (c, []) = ((c', out), res) -> res <> Panic -> fits out ->
  tx (app_participant_handle a) b = [] -> tx (socket r) (world r) = [] ->
  exists s', rtc system_step (mkNode a b q, r) s' /\
    ready s' (mkSide c' ms, mkSide (chan rr) (inbox rr ++ for_peer out)).
Proof.
  intros Hr Hm Hres Hfit Htx Htxr.
  assert (pair_step (mkSide c (m :: ms), rr) (mkSide c' ms, mkSide (chan rr) (inbox rr ++ for_peer out))) as Hstep
    by (left; by eapply left_deliver).
  destruct (ready_cases _ _ _ _ _ _ _ Hr) as [(e & w & Ha)|[Hcl Hnc]].
  2: { destruct c as [i]. cbn [inner] in Hcl. subst i.
       assert (c' = mkChannel Closed /\ out = []) as [-> ->] by by destruct m; injection Hm as <- <- _.
       eexists. split; [done|]. by eapply closed_ready. }
  assert (connected a) as Hcon by (unfold connected; by rewrite Ha).
  destruct (ready_stream _ _ Hr Hcon) as (ps & Hps & Hsh & Hst).
  inversion Hps as [|? p ? ps' Hp Hps']; subst. inversion Hsh as [|? ? Hshp Hsh']; subst.
  pose proof (rd_left _ _ Hr Hcon) as Hrx. unfold stream, socket in Hst, Hrx. cbn [fst snd node_app world incoming] in
    *.
  assert (q = frame p ++ frames ps') as ->.
  { unfold socket in Htxr. by rewrite Hrx, Htxr, app_nil_r in Hst. }
  pose proof (carries_survives _ (proj1 (pair_inv_carries _ default_assets_kept _ (sim_inv _ _ (rd_sim _ _ Hr))))) as
    Hsv.
  inversion Hsv as [|? ? Hmsv _]; subst.
  destruct (hand_left a b (frame p) (frames ps') r _ out [] Hr Hcon Htx Hfit)
    as (b1 & Hnet & Hho & Htx1 & Hs1 & Hroom & Hsim1 & Hshr).
  { rewrite zlen_frame. unfold short in Hshp. lia. }
  { done. }
  destruct (receive_message a b1 m p Hmsv Hp Hshp Hho) as (b2 & Hrecv & Hap & Hrx2 & Hroom2).
  destruct (runs_complete _ _ c b2 c' out res (runs_participant_msg m) Hm) as (b3 & Hm3 & Hd);
    [by apply room_takes, Hroom2|].
  destruct (process_settles process_participant_msg m a b2 e w c c' b3 res Ha Hm3 Hres) as (a1 & b4 & r4 & Hproc & Hr4
    & Hset).
  eexists. split.
  - eapply rtc_l; [exact Hnet|]. apply rtc_once. left. apply left_device_call; [done|].
    eapply device_poll; [|exact Hr4|by intros e0 w0; cbn [fst]; rewrite Ha].
    rewrite (poll_participant_message a b1 b2 e w c m Ha Hrecv). exact Hproc.
  - eapply call_ready; [exact Hsim1|exact Ha|by apply (rd_right _ _ Hr)|exact Hshr|apply Hap|by apply Hap
      |by apply Hroom2|exact Hrx2|exact Hps'|exact Hsh'| |exact Hd|exact Hset|exact Hstep].
    by rewrite Htxr, app_nil_r.
Qed.

(** A call of an end that the device can make once the network has handed over
    [srv] for it. *)
Lemma own_follows a b q r c c' k rr out e w srv :
  ready (mkNode a b q, r) (mkSide c k, rr) -> app_state a = ActiveState e w c ->
  own_call (c, []) (c', out) -> fits out -> zlen srv <= 2 + MAX_MESSAGE_SIZE ->
  tx (app_participant_handle a) b = [] -> tx (socket r) (world r) = [] ->
  (forall b1, handed_over (app_participant_handle a) (app_service_handle a) [] srv b1 -> room out b1 ->
     exists b2 b3 a' b', device_call (DE:=DE) (a, b1) (a', b') /\ apart (app_service_handle a) b1 b2 /\
       (forall l, room l b1 -> room l b2) /\ delivers b2 out b3 /\ settles a e w c' b3 a' b') ->
  exists s', rtc system_step (mkNode a b q, r) s' /\
    ready s' (mkSide c' k, mkSide (chan rr) (inbox rr ++ for_peer out)).
Proof.
  intros Hr Ha Hown Hfit Hsrv Htx Htxr Hcall.
  assert (connected a) as Hcon by (unfold connected; by rewrite Ha).
  destruct (ready_stream _ _ Hr Hcon) as (ps & Hps & Hsh & Hst).
  pose proof (rd_left _ _ Hr Hcon) as Hrx. pose proof (impl_handles _ _ (sim_left _ _ (rd_sim _ _ Hr))) as Hh.
  unfold stream, socket in Hst, Hrx, Hh, Htxr. cbn [fst snd node_app world incoming] in *.
  assert (q = frames ps) as -> by by rewrite Hrx, Htxr, app_nil_r in Hst.
  destruct (hand_left a b [] (frames ps) r _ out srv Hr Hcon Htx Hfit ltac:(done) Hsrv)
    as (b1 & Hnet & Hho & Htx1 & Hs1 & Hroom & Hsim1 & Hshr).
  destruct (Hcall b1 Hho Hroom) as (b2 & b3 & a' & b' & Hdev & [Hrx2 Htx2 Hs2] & Hroom2 & Hd & Hset).
  eexists. split.
  - eapply rtc_l; [exact Hnet|]. apply rtc_once. left. by apply left_device_call; [|exact Hdev].
  - eapply call_ready; [exact Hsim1|exact Ha|by apply (rd_right _ _ Hr)|exact Hshr|exact Htx2|by apply Hs2
      |by apply Hroom2| |exact Hps|exact Hsh| |exact Hd|exact Hset|left; by apply left_call].
    + rewrite Hrx2 by done. by destruct Hho.
    + unfold socket. by rewrite Htxr, app_nil_r.
Qed.

(** A button. *)
Lemma button_follows (a : App) e w c c' out b1 (m : M (Channel * B) DemoError unit)
    (m' : M (Channel * list Sent) DemoError unit) other res :
  app_state a = ActiveState e w c -> runs m m' -> m' (c, []) = ((c', out), res) -> res <> Panic -> room out b1 ->
  exists b3 r', on_channel (DE:=DE) m other (a, b1) = ((set_app_state (ActiveState e w c') a, b3), r') /\
    r' <> Panic /\ delivers b1 out b3.
Proof.
  intros Ha Hruns Hm Hres Hroom. destruct (runs_complete _ _ c b1 c' out res Hruns Hm) as (b3 & Hm3 & Hd);
    [by apply room_takes|].
  exists b3. unfold on_channel. rewrite Ha, Hm3. eexists. split; [reflexivity|]. split; [by destruct res|done].
Qed.

(** A reply of a service. *)
Lemma same_reply_processed {Y} `{!MessageBus Y} m m' (s : Channel * Y) :
  same_reply m m' -> process_service_msg m s = process_service_msg m' s.
Proof.
  destruct s as [[i] y]. destruct m as [[]|[]], m' as [[]|[]]; try done; intros _;
    cbn [process_service_msg]; unfold process_watcher_reply, process_funder_reply, progress; cbn [inner]; by destruct i.
Qed.

Lemma runs_service_msg m : runs (process_service_msg (B:=B) m) (process_service_msg m).
Proof. destruct m; [apply runs_watcher_reply|apply runs_funder_reply]. Qed.

Lemma receive_reply (a : App) b m payload env wm :
  payload <> [] -> short payload -> prost_decode (DE:=DE) payload = Ok env -> perunwire.Message_msg env = Some wm ->
  service_msg (B:=B) (DE:=DE) wm = Ok m ->
  handed_over (app_participant_handle a) (app_service_handle a) [] (frame payload) b ->
  exists b', try_recv_service_msg (DE:=DE) (a, b) = ((a, b'), Ok (Some m)) /\
    apart (app_service_handle a) b b' /\ (forall l, room l b -> room l b').
Proof.
  intros Hne Hs Hd Hmsg Hwm Hho. set (h := app_service_handle a) in *.
  assert (next_frame h b payload []) as Hn by (eapply handed_frame; [exact Hho|by right|done|done|by destruct Hho]).
  destruct (try_recv_service_next (DE:=DE) a b payload [] env Hn Hd) as (b' & _ & Hr).
  rewrite Hmsg in Hr. cbn [ok_or mbind res_bind] in Hr. rewrite Hwm in Hr.
  pose proof (try_recv_service_world a b) as Hw. rewrite Hr in Hw. cbn [fst] in Hw. fold h in Hw.
  injection Hw as Hw. exists b'. split; [exact Hr|]. rewrite Hw.
  split; [apply (try_recv_reads (X:=perunwire.Message) (DE:=DE) h b)|].
  intros l. apply (room_try_recv (X:=perunwire.Message) h l b).
Qed.

Lemma poll_reply (a : App) b b1 e w ch m :
  app_state a = ActiveState e w ch -> try_recv_participant_msg (DE:=DE) (a, b) = ((a, b), Ok None) ->
  try_recv_service_msg (DE:=DE) (a, b) = ((a, b1), Ok (Some m)) ->
  poll (DE:=DE) (a, b) = process process_service_msg m (a, b1).
Proof.
  intros Hs Hp Hr. unfold poll. rewrite M_get, Hs. unfold forward_messages_to_channel, forward_messages, process.
  unfold mbind, M_bind. rewrite Hp. cbn beta iota. cbn [mret M_ret]. rewrite Hr.
  destruct (on_channel _ _ _) as [s1 [[]|er|]]; [|done|done]. by destruct (close_if_closed s1) as [s2 [[]|er|]].
Qed.

Lemma reply_follows a b q r c c' k rr out m res :
  ready (mkNode a b q, r) (mkSide c k, rr) -> process_service_msg m (c, []) = ((c', out), res) -> res <> Panic ->
  own_call (c, []) (c', out) -> fits out ->
  tx (app_participant_handle a) b = [] -> tx (socket r) (world r) = [] ->
  (exists e w, app_state a = ActiveState e w c) ->
  exists s', rtc system_step (mkNode a b q, r) s' /\
    ready s' (mkSide c' k, mkSide (chan rr) (inbox rr ++ for_peer out)).
Proof.
  intros Hr Hm Hres Hown Hfit Htx Htxr (e & w & Ha).
  destruct (service_sends (B:=B) (DE:=DE) m) as (payload & env & wm & m' & Hne & Hs & Hd & Hmsg & Hwm & Hsame).
  apply (own_follows a b q r c c' k rr out e w (frame payload)); try done.
  { rewrite zlen_frame. unfold short in Hs. lia. }
  intros b1 Hho Hroom. destruct (receive_reply a b1 m' payload env wm Hne Hs Hd Hmsg Hwm Hho) as (b2 & Hrecv & Hap &
    Hk).
  rewrite (same_reply_processed m m') in Hm by done.
  destruct (runs_complete _ _ c b2 c' out res (runs_service_msg m') Hm) as (b3 & Hm3 & Hdel);
    [by apply room_takes, Hk|].
  destruct (process_settles process_service_msg m' a b2 e w c c' b3 res Ha Hm3 Hres)
    as (a1 & b4 & r4 & Hproc & Hr4 & Hset).
  exists b2, b3, a1, b4. split; [|done]. eapply device_poll; [|exact Hr4|by intros e0 w0; cbn [fst]; rewrite Ha].
  rewrite (poll_reply a b1 b2 e w c m' Ha); [exact Hproc| |exact Hrecv].
  apply try_recv_participant_short. by rewrite (ho_participant _ _ _ _ _ Hho).
Qed.

Lemma own_call_closed c c' out : own_call (c, []) (c', out) -> inner c = Closed -> c' = c /\ out = [].
Proof.
  intros Hc Hi. destruct c as [i]. cbn [inner] in Hi. subst i.
  inversion Hc as [amount final s s' r Hp Hu Hr|s s' r Hu Hr|msg s s' r Hu Hr|msg s s' r Hu Hr]; subst;
    try destruct msg; cbn in Hu; by injection Hu as <- <- <-.
Qed.

Lemma call_follows a b q r c c' k rr out :
  ready (mkNode a b q, r) (mkSide c k, rr) -> own_call (c, []) (c', out) -> fits out ->
  tx (app_participant_handle a) b = [] -> tx (socket r) (world r) = [] ->
  exists s', rtc system_step (mkNode a b q, r) s' /\
    ready s' (mkSide c' k, mkSide (chan rr) (inbox rr ++ for_peer out)).
Proof.
  intros Hr Hown Hfit Htx Htxr. destruct (ready_cases _ _ _ _ _ _ _ Hr) as [(e & w & Ha)|[Hcl Hnc]].
  2: { destruct (own_call_closed _ _ _ Hown Hcl) as [-> ->]. eexists. split; [done|].
       eapply closed_ready; [done|done|]. left. by apply left_call. }
  inversion Hown as [amount final s s' res Hp Hm Hres|s s' res Hm Hres|m s s' res Hm Hres|m s s' res Hm Hres]; subst.
  - eapply (own_follows a b q r c c' k rr out e w []); try done. intros b1 _ Hroom.
    destruct (button_follows a e w c c' out b1 _ _ (mthrow AppInvalidState) res Ha (runs_demo_update amount final) Hm
      Hres Hroom) as (b3 & r' & Hdo & Hr' & Hd).
    do 4 eexists. split; [eapply (device_update amount final); [|exact Hdo|exact Hr']|].
    + cbn [fst]. rewrite Ha. intros ? ? ? [= _ _ <-]. exact Hp.
    + split; [apply apart_refl|]. split; [done|]. split; [exact Hd|by left].
  - eapply (own_follows a b q r c c' k rr out e w []); try done. intros b1 _ Hroom.
    destruct (button_follows a e w c c' out b1 _ _ (mthrow AppInvalidState) res Ha runs_demo_force_close Hm
      Hres Hroom) as (b3 & r' & Hdo & Hr' & Hd).
    do 4 eexists. split; [by eapply device_force_close|].
    split; [apply apart_refl|]. split; [done|]. split; [exact Hd|by left].
  - eapply (reply_follows a b q r c c' k rr out (Watcher m)); try done. by exists e, w.
  - eapply (reply_follows a b q r c c' k rr out (Funder m)); try done. by exists e, w.
Qed.

(** A step of an end is followed by the devices: the network takes what they have
    to send, hands over what the step needs, and the device makes it. *)
Lemma left_follows s p p' :
  fit_left p p' -> ready s p -> exists s', rtc system_step s s' /\ ready s' p'.
Proof.
  intros Hp Hr. destruct s as [l r], p as [[c k] rr].
  destruct (flush_both l r _ Hr) as ([a b q] & r' & Hst & Hr' & _ & _ & Htx & Htxr).
  unfold socket in Htx. cbn [node_app world] in Htx.
  assert (exists s', rtc system_step (mkNode a b q, r') s' /\ ready s' p') as (s' & Hst' & Hrd).
  { inversion Hp as [? c' ? out ? Hown Hfit|? c' m ms out res ? Hm Hres Hfit]; subst;
      [by eapply call_follows|by eapply message_follows]. }
  exists s'. split; [by etrans|done].
Qed.

Lemma mirror_run (s s' : system) : rtc system_step s s' -> rtc system_step (mirror s) (mirror s').
Proof.
  induction 1 as [|x y z [H|H] _ IH]; [done|..]; (eapply rtc_l; [|exact IH]); [right; by rewrite !mirror_mirror|by
    left].
Qed.

Lemma step_follows s p p' :
  fit_step p p' -> ready s p -> exists s', rtc system_step s s' /\ ready s' p'.
Proof.
  intros [H|H] Hr; [by eapply left_follows|].
  destruct (left_follows _ _ _ H (ready_mirror _ _ Hr)) as (s' & Hst & Hr'). exists (mirror s'). split.
  - apply mirror_run in Hst. by rewrite mirror_mirror in Hst.
  - apply ready_mirror in Hr'. by rewrite swap_swap in Hr'.
Qed.


End Progress.
