(* ===== verification/LiveBoard.v ===== *)
(** * The network the devices need, on the board

    The board of src/cortex-m-demo/src/main.rs: the encoding layer over the two
    sockets, with send buffers of the sizes main.rs gives them.  What
    DeviceProgress.v needs of the network follows from what the sockets do. *)
From S2P Require Import Prelude AbiSpec AbiSer Types PerunWire Payment PaymentTheorems Sig Messages Wire.
From S2P Require Import WireTheorems ChannelTypes Active Proposal DemoChannel Net BusRefinement DemoPair.
From S2P Require Import Application ApplicationTheorems Streams DeviceProgress.

(** The sizes of the send buffers. *)
Definition participant_tx_size : Z := MAX_MESSAGE_SIZE + 2.
Definition service_tx_size : Z := 1024.

(** Sockets that work: [space h n] is the room in the send buffer of [h]; what
    fits is accepted as a whole; the network takes what a socket has to send,
    and a socket without anything to read or to send gets the next bytes and an
    empty send buffer. *)
Class LiveSockets (N : Type) {T : TcpStack N} {L : TcpLaws N} {ST : TcpStreams N} := {
  space : SocketHandle -> N -> Z;
  send_space h msg n :
    zlen msg <= space h n ->
    exists n', send_slice h msg n = (n', Ok (zlen msg)) /\ space h n - zlen msg <= space h n' /\
      (forall k, k <> h -> space k n <= space k n');
  recv_space {A} h k (f : bytes -> Z * A) n : space k n <= space k (recv h f n).1;
  recv_slice_space h k j n : space k n <= space k (recv_slice h j n).1;
  sockets_take h n : exists n', rx h n' = rx h n /\ tx h n' = [];
  sockets_hand h k n got srv :
    k <> h -> rx h n = [] -> tx h n = [] -> zlen got <= 2 + MAX_MESSAGE_SIZE -> zlen srv <= 2 + MAX_MESSAGE_SIZE ->
    exists n', handed_over h k got srv n' /\ tx h n' = [] /\
      participant_tx_size <= space h n' /\ (forall j, j <> h -> service_tx_size <= space j n');
}.

Section Board.
Context `{Pl : Platform} `{U : UintCrate} `{S : Sha3Crate}.
Context `{PTM : !ProstMessage perunwire.Message} `{PTE : !ProstMessage perunwire.Envelope}.

(** What the encoding layer hands to the byte bus: for the participant, or for a
    service. *)
Definition watcher_wire {E} (msg : WatcherRequestMessage) : res E perunwire.message_Msg :=
  match msg with
  | WatchRequest msg =>
      perunwire.Msg_StartWatchingLedgerChannelReq <$> StartWatchingLedgerChannelReq_into msg
  | StartDispute msg => perunwire.Msg_ForceCloseRequest <$> WatchInfo_into_force_close msg
  end.
Definition funder_wire {E} (msg : FunderRequestMessage) : res E perunwire.message_Msg :=
  match msg with
  | FundReq msg => perunwire.Msg_FundReq <$> LedgerChannelFundingRequest_into msg
  | RegisterReqMsg msg => perunwire.Msg_RegisterReq <$> RegisterReq_into msg
  | WithdrawReqMsg msg => perunwire.Msg_WithdrawReq <$> WithdrawReq_into msg
  end.
Definition encoded {E} (m : Sent) : res E (bool * bytes) :=
  match m with
  | ToWatcher msg =>
      w ← watcher_wire msg; buf ← encode (perunwire.mkMessage (Some w)); Ok (false, buf)
  | ToFunder msg =>
      w ← funder_wire msg; buf ← encode (perunwire.mkMessage (Some w)); Ok (false, buf)
  | ToParticipant s r msg =>
      buf ← encode (perunwire.mkEnvelope s r (Some (participant_wiremsg msg))); Ok (true, buf)
  end.

(** The type of errors, of which there are none, does not matter. *)
Lemma Params_into_any {E F P} (p : Params P) w : Params_into (E:=E) p = Ok w -> Params_into (E:=F) p = Ok w.
Proof. unfold Params_into. destruct (channel_id p); cbn; [by intros [= <-]|done..]. Qed.

Lemma encode_any {E F X} `{ProstMessage X} (msg : X) buf : encode (E:=E) msg = Ok buf -> encode (E:=F) msg = Ok buf.
Proof. unfold encode, assert_. destruct (bool_decide _); cbn; [by intros [= <-]|done]. Qed.

Lemma encoded_any {E F} m x : encoded (E:=E) m = Ok x -> encoded (E:=F) m = Ok x.
Proof.
  assert (forall w buf, (buf' ← encode (E:=E) (perunwire.mkMessage (Some w)); Ok (false, buf')) = Ok buf ->
    (buf' ← encode (E:=F) (perunwire.mkMessage (Some w)); Ok (false, buf')) = Ok buf) as Henc.
  { intros w buf. destruct (encode (E:=E) _) as [b|e|] eqn:He; [|done|done]. rewrite (encode_any _ _ He).
    by intros [= <-]. }
  destruct m as [m|m|s r m]; cbn [encoded].
  - destruct m as [m|m]; cbn [watcher_wire]; unfold StartWatchingLedgerChannelReq_into, WatchInfo_into_force_close,
      WatchInfo_into;
      (destruct (Params_into (E:=E) _) as [w|e|] eqn:Hp; [|done|done]); rewrite (Params_into_any _ _ Hp);
      apply Henc.
  - destruct m as [m|[m]|[m]]; cbn [funder_wire]; unfold LedgerChannelFundingRequest_into, RegisterReq_into,
      WithdrawReq_into, AdjudicatorReq_into; cbn [register_adj_req withdraw_adj_req];
      (destruct (Params_into (E:=E) _) as [w|e|] eqn:Hp; [|done|done]); rewrite (Params_into_any _ _ Hp);
      apply Henc.
  - destruct (encode (E:=E) _) as [b|e|] eqn:He; [|done|done]. rewrite (encode_any _ _ He). by intros [= <-].
Qed.

(** How many bytes there are for the participant, or for the services. *)
Definition amount (part : bool) (bufs : list (bool * bytes)) : Z :=
  foldr (fun x n => (if decide (x.1 = part) then zlen x.2 else 0) + n) 0 bufs.

Lemma amount_cons part p buf bufs :
  amount part ((p, buf) :: bufs) = (if decide (p = part) then zlen buf else 0) + amount part bufs.
Proof. done. Qed.

Lemma amount_nonneg part bufs : 0 <= amount part bufs.
Proof.
  induction bufs as [|[p buf] l IH]; [done|]. rewrite amount_cons. pose proof (zlen_nonneg buf). case_decide; lia.
Qed.

Definition wires (l : list Sent) (bufs : list (bool * bytes)) : Prop :=
  Forall2 (fun m x => encoded (E:=Empty_set) m = Ok x) l bufs.

Context {N : Type} `{T : !TcpStack N} `{L : !TcpLaws N} `{ST : !TcpStreams N} `{LS : !LiveSockets N}.
Abbreviation Shared := (ProtoBufEncodingLayer (Bus N)).

(** One message, whatever it is. *)
Definition send_sent {E} (m : Sent) : M Shared E unit :=
  match m with
  | ToWatcher m => send_to_watcher m
  | ToFunder m => send_to_funder m
  | ToParticipant s r m => send_to_participant s r m
  end.

Lemma blocked_send (b : Shared) m : blocked b m <-> exists E, (send_sent (E:=E) m b).2 = Panic.
Proof. by destruct m. Qed.

Lemma deliver_send (b : Shared) m b' : deliver b m b' <-> exists E, send_sent (E:=E) m b = (b', Ok tt).
Proof. by destruct m. Qed.

Definition target (part : bool) (b : Bus N) : SocketHandle :=
  if part then participant_handle b else service_handle b.

Lemma send_sent_encoded {E} m part buf (b : Shared) :
  encoded (E:=E) m = Ok (part, buf) ->
  send_sent (E:=E) m b = on_bus (fun self => send (target part self) buf self) b.
Proof.
  destruct m as [m|m|s r m]; cbn [encoded send_sent send_to_watcher send_to_funder send_to_participant
    ProtoBufEncodingLayer_MessageBus].
  - unfold encoding_send_to_watcher. fold (watcher_wire (E:=E) m). unfold mbind, M_bind, mlift.
    destruct (watcher_wire m) as [w|e|]; [|done|done]. cbn [res_bind].
    destruct (encode _) as [b0|e|]; [|done|done]. by intros [= <- <-].
  - unfold encoding_send_to_funder. fold (funder_wire (E:=E) m). unfold mbind, M_bind, mlift.
    destruct (funder_wire m) as [w|e|]; [|done|done]. cbn [res_bind].
    destruct (encode _) as [b0|e|]; [|done|done]. by intros [= <- <-].
  - unfold encoding_send_to_participant, mbind, M_bind, mlift. cbn [res_bind].
    destruct (encode _) as [b0|e|]; [|done|done]. by intros [= <- <-].
Qed.

(** A message for which there is room. *)
Lemma send_room {E} h msg (b : Bus N) :
  zlen msg <= space h (iface b) ->
  exists n', send (E:=E) h msg b = (mkBus n' (participant_handle b) (service_handle b), Ok tt) /\
    space h (iface b) - zlen msg <= space h n' /\ (forall k, k <> h -> space k (iface b) <= space k n').
Proof.
  intros Hs. destruct (send_space h msg (iface b) Hs) as (n' & Hn & H1 & H2). exists n'. split; [|done].
  unfold send, on_iface. rewrite Hn. by rewrite decide_False by (intros Hd; by destruct Hd).
Qed.

Record board_room (l : list Sent) (b : Shared) (bufs : list (bool * bytes)) : Prop := {
  br_wires : wires l bufs;
  br_apart : service_handle (bus b) <> participant_handle (bus b);
  br_space part : amount part bufs <= space (target part (bus b)) (iface (bus b));
  br_short : Forall (fun x => x.1 = true -> zlen x.2 <= 2 + MAX_MESSAGE_SIZE) bufs;
}.

Lemma board_room_send {E} m l (b : Shared) bufs :
  board_room (m :: l) b bufs ->
  exists b' bufs', send_sent (E:=E) m b = (b', Ok tt) /\ board_room l b' bufs'.
Proof.
  intros [Hw Ha Hs Hsh]. inversion Hw as [|? [part buf] ? bufs' Hm Hw']; subst. inversion Hsh as [|? ? _ Hsh']; subst.
  pose proof (amount_nonneg part bufs') as Hnn.
  assert (zlen buf + amount part bufs' <= space (target part (bus b)) (iface (bus b))) as Hp.
  { specialize (Hs part). by rewrite amount_cons, decide_True in Hs. }
  destruct (send_room (E:=E) (target part (bus b)) buf (bus b)) as (n' & Hsend & H1 & H2); [lia|].
  exists (mkProtoBufEncodingLayer (mkBus n' (participant_handle (bus b)) (service_handle (bus b)))), bufs'. split.
  - rewrite (send_sent_encoded m part buf b (encoded_any _ _ Hm)). unfold on_bus. by rewrite Hsend.
  - split; [done|done| |done]. intros part'. cbn [bus iface]. destruct (decide (part' = part)) as [->|Hne].
    + change (target part (mkBus n' _ _)) with (target part (bus b)). lia.
    + change (target part' (mkBus n' _ _)) with (target part' (bus b)). specialize (Hs part').
      rewrite amount_cons, decide_False in Hs by done. rewrite <- H2; [done|]. by destruct part, part'.
Qed.

Lemma board_room_takes l (b : Shared) bufs : board_room l b bufs -> ~ stuck b l.
Proof.
  intros Hr (l1 & m & l2 & b1 & -> & Hd & [E Hb]%blocked_send). revert bufs Hr.
  induction Hd as [b|b m1 b1 l b2 [F Hm]%deliver_send _ IH]; intros bufs Hr.
  - destruct (board_room_send (E:=E) m l2 b bufs Hr) as (b' & _ & Hs & _). by rewrite Hs in Hb.
  - destruct (board_room_send (E:=F) m1 (l ++ m :: l2) b bufs Hr) as (b' & bufs' & Hs & Hr').
    rewrite Hm in Hs. injection Hs as <-. by eapply IH.
Qed.

(** What is on its way to the participant are short frames. *)
Lemma encoded_frame {E} m part buf : encoded (E:=E) m = Ok (part, buf) -> exists payload, buf = frame payload.
Proof.
  assert (forall X (PX : ProstMessage X) (msg : X) b, encode (E:=E) msg = Ok b -> exists payload, b = frame payload)
    as He.
  { intros X PX msg b [_ ->]%encode_inv. by eexists. }
  destruct m as [m|m|s r m]; cbn [encoded].
  - destruct (watcher_wire m) as [w|e|]; [|done|done]. cbn [mbind res_bind].
    destruct (encode _) as [b|e|] eqn:H; [|done|done]. intros [= <- <-]. exact (He _ _ _ _ H).
  - destruct (funder_wire m) as [w|e|]; [|done|done]. cbn [mbind res_bind].
    destruct (encode _) as [b|e|] eqn:H; [|done|done]. intros [= <- <-]. exact (He _ _ _ _ H).
  - destruct (encode _) as [b|e|] eqn:H; [|done|done]. intros [= <- <-]. exact (He _ _ _ _ H).
Qed.

Lemma board_deliver_short h m l (b b' : Shared) bufs :
  participant_apart h b -> board_room (m :: l) b bufs -> deliver b m b' ->
  participant_apart h b' /\ (exists bufs', board_room l b' bufs') /\
  exists ps, Forall short ps /\ tx (T:=shared_TcpStack) h b' = tx (T:=shared_TcpStack) h b ++ frames ps.
Proof.
  intros Hap Hr Hd. pose proof (deliver_stream (T:=shared_TcpStack) h b m b' Hap Hd) as (Hap' & _). split; [done|].
  apply deliver_send in Hd as [E Hd]. destruct (board_room_send (E:=E) m l b bufs Hr) as (b1 & bufs' & Hs & Hr').
  rewrite Hd in Hs. injection Hs as <-. split; [by exists bufs'|].
  destruct Hr as [Hw _ _ Hsh]. inversion Hw as [|? [part buf] ? ? Hm _]; subst. inversion Hsh as [|? ? Hbuf _]; subst.
  cbn [fst snd] in Hbuf. rewrite (send_sent_encoded m part buf b (encoded_any _ _ Hm)) in Hd. unfold on_bus in Hd.
  destruct (send _ _ (bus b)) as [b1 r] eqn:Hsend. injection Hd as <- ->.
  destruct (send_stream _ _ _ _ Hsend) as (_ & _ & _ & Htx & Hother). destruct Hap as [<- Hne].
  destruct part; cbn [target] in *.
  - destruct (encoded_frame _ _ _ Hm) as [payload ->]. exists [payload]. split.
    + constructor; [|done]. specialize (Hbuf eq_refl). rewrite zlen_frame in Hbuf. unfold short. lia.
    + unfold frames. cbn [fmap list_fmap concat]. rewrite app_nil_r. exact Htx.
  - exists []. split; [done|]. rewrite app_nil_r. apply Hother. by intros H.
Qed.

Lemma board_delivers_short h l (b b' : Shared) bufs :
  participant_apart h b -> board_room l b bufs -> delivers b l b' ->
  exists ps, Forall short ps /\ tx (T:=shared_TcpStack) h b' = tx (T:=shared_TcpStack) h b ++ frames ps.
Proof.
  intros Hap Hr Hd. revert bufs Hap Hr. induction Hd as [b|b m b1 l b2 Hm _ IH]; intros bufs Hap Hr.
  - exists []. split; [done|]. by rewrite app_nil_r.
  - destruct (board_deliver_short h m l b b1 bufs Hap Hr Hm) as (Hap1 & (bufs' & Hr1) & ps & Hps & Htx).
    destruct (IH bufs' Hap1 Hr1) as (qs & Hqs & Htx'). exists (ps ++ qs). split; [by apply Forall_app|].
    by rewrite Htx', Htx, frames_app, <- app_assoc.
Qed.

(** The messages that fit the buffers of the board together. *)
Definition board_fits (l : list Sent) : Prop :=
  exists bufs, wires l bufs /\ amount true bufs <= participant_tx_size /\ amount false bufs <= service_tx_size.

Lemma amount_each part bufs x : x ∈ bufs -> x.1 = part -> zlen x.2 <= amount part bufs.
Proof.
  induction bufs as [|[p buf] l IH]; [by intros ?%not_elem_of_nil|].
  intros [->|Hx]%elem_of_cons Hp; rewrite amount_cons; cbn [fst snd] in *.
  - rewrite decide_True by done. pose proof (amount_nonneg part l). lia.
  - specialize (IH Hx Hp). pose proof (zlen_nonneg buf). case_decide; lia.
Qed.

(** The world is that of the board with other sockets. *)
Definition with_iface (b : Shared) (n : N) : Shared :=
  mkProtoBufEncodingLayer (mkBus n (participant_handle (bus b)) (service_handle (bus b))).

Lemma board_room_iface l (b : Shared) bufs n :
  (forall k, space k (iface (bus b)) <= space k n) -> board_room l b bufs -> board_room l (with_iface b n) bufs.
Proof.
  intros Hsp [Hw Ha Hs Hsh]. split; [done|done| |done]. intros part. etrans; [apply Hs|]. destruct part; apply Hsp.
Qed.

#[export] Instance shared_LiveNetwork : LiveNetwork (T:=shared_TcpStack) Shared.
Proof.
  refine {| fits := board_fits; room := fun l b => exists bufs, board_room l b bufs |}.
  - intros A l h f b (bufs & Hr). exists bufs. cbn [recv shared_TcpStack]. rewrite on_shared_alt.
    apply board_room_iface; [|done]. intros k. apply recv_space.
  - intros l h k b (bufs & Hr). exists bufs. cbn [recv_slice shared_TcpStack]. rewrite on_shared_alt.
    apply board_room_iface; [|done]. intros j. apply recv_slice_space.
  - intros l b (bufs & Hr). by eapply board_room_takes.
  - intros h l b b' Hap (bufs & Hr) Hd. by eapply board_delivers_short.
  - intros h b Hap. destruct (@sockets_take N _ _ _ _ h (shared_iface b)) as (n & Hrx & Htx). by exists (with_iface b
    n).
  - intros h k b got srv l Hk Hap Hrx Htx (bufs & Hw & Hp & Hv) Hgot Hsrv.
    destruct (@sockets_hand N _ _ _ _ h k (shared_iface b) got srv Hk Hrx Htx Hgot Hsrv) as (n & Hho & Htx' & Hsp &
      Hss).
    exists (with_iface b n). split; [by destruct Hho|]. split; [done|]. split; [done|]. exists bufs.
    destruct Hap as [<- Hne]. split; [done|done| |].
    + intros [|]; cbn [target with_iface bus iface participant_handle service_handle];
        (etrans; [eassumption|]); [exact Hsp|by apply Hss].
    + apply list.Forall_forall. intros x Hx Hpart. pose proof (amount_each true bufs x Hx Hpart) as Hle.
      unfold participant_tx_size in Hp. lia.
Defined.

End Board.
