(* ===== verification/MainLoop.v ===== *)
(** * The demo's main loop

    Model of the body of the loop of src/cortex-m-demo/src/main.rs: the network
    is polled, the application is polled, the four buttons are sampled and
    their edges call the application, and the blue LED blinks.  The set-up of
    the hardware before the loop is not modelled; the time and the levels of
    the pins are inputs of an iteration. *)
From S2P Require Import Prelude AbiSer Types PerunWire Payment Sig Messages Wire ChannelTypes Active Proposal.
From S2P Require Import DemoChannel Button Net Application.

(** [Interface::poll]: packets are exchanged with the device; its result is
    ignored. *)
Class IfacePoll (B : Type) := iface_poll : Z -> B -> B.

(** It is the interface of the bus that is polled. *)
#[export] Instance shared_IfacePoll {N} `{T : !TcpStack N} `{IP : !IfacePoll N}
    : IfacePoll (ProtoBufEncodingLayer (Bus N)) := fun time => modify_shared (iface_poll time).

Section MainLoop.
Context `{Pl : Platform} `{U : UintCrate} `{S : Sha3Crate} `{I : SignerImpl}.
Context {B : Type} `{HB : !MessageBus B} `{T : !TcpStack B} `{IP : !IfacePoll B}.
Context {R : Type} `{HR : !RngCore R}.
Context {DE : Type} `{PE : !ProstDecode DE perunwire.Envelope} `{PM : !ProstDecode DE perunwire.Message}.

(** The variables of the loop. *)
Record MainState : Type := mkMainState {
  app : Application (B:=B) (R:=R);
  propose_channel_btn : Button.DebouncedButton;
  update_btn : Button.DebouncedButton;
  normal_close_btn : Button.DebouncedButton;
  force_close_btn : Button.DebouncedButton;
  green_led : bool;
  red_led : bool;
  blue_led : bool;
  last_toggle_time : u64;
}.

(** The levels of the pins of the buttons. *)
Record Pins : Type := mkPins {
  propose_channel_pin : bool;
  update_pin : bool;
  normal_close_pin : bool;
  force_close_pin : bool;
}.

Definition DEBOUNCE_THRESHHOLD : Z := 100.

(** The variables when the loop starts: the buttons take the levels of their
    pins, and the blue LED shows that the set-up has finished. *)
Definition main_start (a : Application (B:=B) (R:=R)) (pins : Pins) : MainState :=
  let button pin := Button.new pin (u64_wrap DEBOUNCE_THRESHHOLD) in
  mkMainState a (button (propose_channel_pin pins)) (button (update_pin pins)) (button (normal_close_pin pins))
    (button (force_close_pin pins)) false false true (u64_wrap 0).

(** The loop has no error: a failed [unwrap] stops the device. *)
Abbreviation L := (M (MainState * B) Empty_set).

(** A method of the application; its result is that of the method. *)
Definition call_app (m : M (Application (B:=B) (R:=R) * B) (@AppError I B T DE) unit)
    : L (res (@AppError I B T DE) unit) := fun '(s, b) =>
  let '((a, b), r) := m (app s, b) in
  ((mkMainState a (propose_channel_btn s) (update_btn s) (normal_close_btn s) (force_close_btn s)
      (green_led s) (red_led s) (blue_led s) (last_toggle_time s), b),
   match r with Panic => Panic | r => Ok r end).

Definition toggle_green (s : MainState) : MainState :=
  mkMainState (app s) (propose_channel_btn s) (update_btn s) (normal_close_btn s) (force_close_btn s)
    (negb (green_led s)) (red_led s) (blue_led s) (last_toggle_time s).
Definition toggle_red (s : MainState) : MainState :=
  mkMainState (app s) (propose_channel_btn s) (update_btn s) (normal_close_btn s) (force_close_btn s)
    (green_led s) (negb (red_led s)) (blue_led s) (last_toggle_time s).

(** The edge of a button calls a method; an LED shows its result. *)
Definition on_edge (edge : L bool) (m : M (Application (B:=B) (R:=R) * B) (@AppError I B T DE) unit) : L unit :=
  e ← edge;
  if e : bool then
    r ← call_app m;
    '(s, _) ← mget;
    on_fst (mput (match r with Ok _ => toggle_green s | _ => toggle_red s end))
  else mret tt.

Definition on_propose_channel_btn {X} (m : M Button.DebouncedButton Empty_set X) : L X := fun '(s, b) =>
  let (btn, r) := m (propose_channel_btn s) in
  ((mkMainState (app s) btn (update_btn s) (normal_close_btn s) (force_close_btn s)
      (green_led s) (red_led s) (blue_led s) (last_toggle_time s), b), r).
Definition on_update_btn {X} (m : M Button.DebouncedButton Empty_set X) : L X := fun '(s, b) =>
  let (btn, r) := m (update_btn s) in
  ((mkMainState (app s) (propose_channel_btn s) btn (normal_close_btn s) (force_close_btn s)
      (green_led s) (red_led s) (blue_led s) (last_toggle_time s), b), r).
Definition on_normal_close_btn {X} (m : M Button.DebouncedButton Empty_set X) : L X := fun '(s, b) =>
  let (btn, r) := m (normal_close_btn s) in
  ((mkMainState (app s) (propose_channel_btn s) (update_btn s) btn (force_close_btn s)
      (green_led s) (red_led s) (blue_led s) (last_toggle_time s), b), r).
Definition on_force_close_btn {X} (m : M Button.DebouncedButton Empty_set X) : L X := fun '(s, b) =>
  let (btn, r) := m (force_close_btn s) in
  ((mkMainState (app s) (propose_channel_btn s) (update_btn s) (normal_close_btn s) btn
      (green_led s) (red_led s) (blue_led s) (last_toggle_time s), b), r).

(** [app.poll().unwrap()]. *)
Definition poll_app : L unit :=
  r ← call_app poll;
  match r with Ok _ => mret tt | _ => mpanic end.

(** The blue LED is toggled every second. *)
Definition blink (time : u64) : L unit :=
  '(s, _) ← mget;
  deadline ← mlift (u64_add (last_toggle_time s) (u64_wrap 1000));
  if decide (u64_val deadline < u64_val time) then
    on_fst (mput (mkMainState (app s) (propose_channel_btn s) (update_btn s) (normal_close_btn s)
      (force_close_btn s) (green_led s) (red_led s) (negb (blue_led s)) time))
  else mret tt.

(** [time as i64]. *)
Definition as_i64 (z : Z) : Z := if decide (z < 2 ^ 63) then z else z - 2 ^ 64.

(** One iteration. *)
Definition iteration (time : u64) (pins : Pins) : L unit :=
  (fun '(s, b) => ((s, iface_poll (as_i64 (u64_val time)) b), Ok tt));;
  poll_app;;
  on_edge (on_propose_channel_btn (Button.is_falling_edge (propose_channel_pin pins) time)) app_propose_channel;;
  on_edge (on_update_btn (Button.is_rising_edge (update_pin pins) time)) (app_update (U256_from 100) false);;
  on_edge (on_normal_close_btn (Button.is_falling_edge (normal_close_pin pins) time)) (app_update (U256_from 0) true);;
  on_edge (on_force_close_btn (Button.is_falling_edge (force_close_pin pins) time)) app_force_close;;
  blink time.

(** [SysTick]: the interrupt of every millisecond, on the counter [TIME]. *)
Definition SysTick : M u64 Empty_set unit :=
  time ← mget;
  time ← mlift (u64_add time (u64_wrap 1));
  mput time.

(** Several interrupts. *)
Fixpoint ticks (n : nat) : M u64 Empty_set unit :=
  match n with
  | O => mret tt
  | Datatypes.S n => SysTick;; ticks n
  end.

(** The iterations of the loop, each with the interrupts since the previous one
    has read the time and the levels of the pins.  An iteration reads the time
    once, before anything else and with the interrupts disabled, so an interrupt
    during an iteration counts for the next one. *)
Fixpoint rounds (l : list (nat * Pins)) : M (u64 * (MainState * B)) Empty_set unit :=
  match l with
  | [] => mret tt
  | (n, pins) :: l =>
      on_fst (ticks n);;
      '(time, _) ← mget;
      on_snd (iteration time pins);;
      rounds l
  end.

End MainLoop.

(* ------------------------------------------------------------------ *)
(** ** The set-up                                                        *)
(* ------------------------------------------------------------------ *)

(** What [main] makes of the network interface, its two sockets and the seeded
    generator before the loop; the back end of the signatures is k256. *)
Section Setup.
Context `{Pl : Platform} `{U : UintCrate} `{S : Sha3Crate} `{K : K256Crate}.
Context {N : Type} `{T : !TcpStack N} {R : Type}.

(** An IPv4 address as a number. *)
Definition ipv4 (a b c d : Z) : Z := ((a * 256 + b) * 256 + c) * 256 + d.

Definition SERVER_IP_ADDRESS : Z := ipv4 192 168 1 127.
Definition SERVER_CONFIG_PORT : Z := 1339.
Definition SERVER_PARTICIPANT_PORT : Z := 38843.
Definition SERVER_SERVICE_PORT : Z := 50002.
Definition DEVICE_LISTEN_PORT : Z := 32977.

Definition device_config : Config := {|
  config_server := mkEndpoint SERVER_IP_ADDRESS SERVER_CONFIG_PORT;
  other_participant := mkEndpoint SERVER_IP_ADDRESS SERVER_PARTICIPANT_PORT;
  service_server := mkEndpoint SERVER_IP_ADDRESS SERVER_SERVICE_PORT;
  listen_port := DEVICE_LISTEN_PORT;
  cfg_participants := mk_array ["Bob"%string; "Alice"%string] eq_refl;
|}.

Abbreviation Shared := (ProtoBufEncodingLayer (Bus N)).

(** The loop's variables, and the bus the client holds. *)
Definition main_setup {E} (iface : N) (participant_handle service_handle : SocketHandle) (rng : R) (pins : Pins)
    : res E (MainState (I:=K256.k256_signer) (B:=Shared) (T:=shared_TcpStack) (R:=R) * Shared) :=
  let bus := mkBus iface participant_handle service_handle in
  signer ← K256.new;
  let addr := K256.address signer in
  let client := PerunClient_new (I:=K256.k256_signer) signer in
  let app := Application_new (B:=Shared) (T:=shared_TcpStack) participant_handle service_handle device_config
               rng addr client in
  Ok (main_start app pins, mkProtoBufEncodingLayer bus).

End Setup.
