(* ===== verification/MainTheorems.v ===== *)
(** * The demo's main loop: theorems

    The iterations of the loop only move the application along its state
    machine; what an iteration without a button edge does; and which message
    of the other participant stops the device. *)
From stdpp Require Import relations.
From S2P Require Import Prelude AbiSpec AbiSer Types PerunWire Payment PaymentTheorems Sig Messages Wire.
From S2P Require Import WireTheorems ChannelTypes Active Proposal ActiveTheorems ChannelSystem.
From S2P Require Import OpeningTheorems DemoChannel Button Net BusRefinement DemoTheorems Application.
From S2P Require Import ApplicationTheorems Conversions MainLoop.

Section Main.
Context `{Pl : Platform} `{U : UintCrate} `{UL : !UintLaws U} `{S : Sha3Crate} `{SL : !Sha3Laws S}.
Context `{I : SignerImpl} `{IL : !SignerLaws I}.
Context {B : Type} `{HB : !MessageBus B} `{LB : !LawfulBus B} `{T : !TcpStack B} `{IP : !IfacePoll B}.
Context {R : Type} `{HR : !RngCore R}.
Context {DE : Type} `{PE : !ProstDecode DE perunwire.Envelope} `{PM : !ProstDecode DE perunwire.Message}.

Abbreviation State := (@MainState _ I B T R).
Abbreviation L := (M (State * B) Empty_set).
Abbreviation app_step := (@app_step _ _ _ I B HB T R HR DE PE PM).

(** ** A part of an iteration only calls methods of the application *)

Definition safe {X} (m : L X) : Prop :=
  forall s b s' b' x, m (s, b) = ((s', b'), Ok x) -> rtc app_step (app s) (app s').

Lemma safe_bind {X Y} (m : L X) (f : X -> L Y) : safe m -> (forall x, safe (f x)) -> safe (m ≫= f).
Proof.
  intros Hm Hf s b s' b' y H. unfold mbind, M_bind in H.
  destruct (m (s, b)) as [[s1 b1] [x|e|]] eqn:H1; [|done|done].
  transitivity (app s1); [by eapply Hm|by eapply Hf].
Qed.

(** A computation that leaves the application alone. *)
Lemma safe_same {X} (m : L X) :
  (forall s b s' b' x, m (s, b) = ((s', b'), Ok x) -> app s' = app s) -> safe m.
Proof. intros Hm s b s' b' x H. by rewrite (Hm _ _ _ _ _ H). Qed.

Lemma safe_ret {X} (x : X) : safe (mret x).
Proof. apply safe_same. by intros ????? [= <- _ _]. Qed.

Lemma safe_call (m : M (Application (B:=B) (R:=R) * B) (@AppError I B T DE) unit) :
  (forall s s' r, m s = (s', r) -> app_call s s' r) -> safe (call_app m).
Proof.
  intros Hm s b s' b' x H. unfold call_app in H. destruct (m (app s, b)) as [[a b1] r] eqn:Hr.
  apply Hm in Hr. injection H as <- <- Hx. apply rtc_once. exists b, b1, r.
  split; [exact Hr|]. by destruct r.
Qed.

Lemma safe_edge (edge : L bool) (m : M (Application (B:=B) (R:=R) * B) (@AppError I B T DE) unit) :
  safe edge -> (forall s s' r, m s = (s', r) -> app_call s s' r) -> safe (on_edge edge m).
Proof.
  intros He Hm. apply safe_bind; [done|]. intros [|]; [|apply safe_ret].
  apply safe_bind; [by apply safe_call|]. intros r. apply safe_same.
  intros s b s' b' x H. rewrite M_get in H. injection H as <- _ _. by destruct r.
Qed.

Lemma safe_poll : safe poll_app.
Proof.
  apply safe_bind; [apply safe_call; intros; by apply call_poll|]. intros [x|e|]; [apply safe_ret| |]; by intros ?????.
Qed.

Lemma safe_blink time : safe (blink time).
Proof.
  apply safe_same. intros s b s' b' x H. unfold blink in H. rewrite M_get in H.
  destruct (u64_add _ _); mrun_in H; [|done|done]. case_decide; injection H as <- _ _; done.
Qed.

(** The buttons of the loop. *)
Local Ltac btn :=
  apply safe_same; intros s b s' b' x H;
  unfold on_propose_channel_btn, on_update_btn, on_normal_close_btn, on_force_close_btn in H;
  match type of H with context [let (_, _) := ?m in _] => destruct m end;
  injection H as <- _ _; done.

Lemma safe_iteration time pins : safe (iteration time pins).
Proof.
  unfold iteration. apply safe_bind; [apply safe_same; by intros ????? [= <- _ _]|intros []].
  apply safe_bind; [apply safe_poll|intros []].
  apply safe_bind; [apply safe_edge; [btn|intros; by apply call_app_propose_channel]|intros []].
  apply safe_bind; [apply safe_edge; [btn|intros; by eapply call_app_update]|intros []].
  apply safe_bind; [apply safe_edge; [btn|intros; by eapply call_app_update]|intros []].
  apply safe_bind; [apply safe_edge; [btn|intros; by apply call_app_force_close]|intros []].
  apply safe_blink.
Qed.

(** An iteration that returns, at any time, with any levels of the pins and in
    any world. *)
Definition loop_step (s s' : State) : Prop :=
  exists time pins b b', iteration (DE:=DE) time pins (s, b) = ((s', b'), Ok tt).

Lemma loop_steps_app (s0 s : State) : rtc loop_step s0 s -> rtc app_step (app s0) (app s).
Proof.
  induction 1 as [|x y z (time & pins & b & b' & Hxy) Hyz IH]; [done|].
  transitivity (app y); [by eapply safe_iteration|done].
Qed.

(** Whatever the buttons, the clock and the network do, the iterations of
    the main loop only take the application through the transitions of its
    documented state machine, with its keys and configuration unchanged, and
    the channel of an active application is valid after every iteration. *)
Theorem main_loop_follows_state_machine (s0 s : State) (ph sh : SocketHandle) (cfg : Config) (rng : R)
    (cl : PerunClient) :
  valid_signer (cl_signer cl) ->
  app s0 = Application_new ph sh cfg rng (address (cl_signer cl)) cl -> rtc loop_step s0 s ->
  rtc app_edge InitialState (app_state (app s)) /\ same_setup (app s0) (app s) /\
  channel_valid (app_state (app s)).
Proof.
  intros Hv H0 Ha%loop_steps_app.
  pose proof (Application_new_ok ph sh cfg rng cl Hv) as Hok. rewrite <- H0 in Hok.
  destruct (app_reachable _ _ Hok Ha) as (Hok' & Hset & He). rewrite H0 in He at 1.
  split; [exact He|]. split; [done|by apply app_ok_channel_valid].
Qed.

(** ** What an iteration does *)

(** The loop with another application. *)
Definition with_app (s : State) (a : Application (B:=B) (R:=R)) : State :=
  mkMainState a (propose_channel_btn s) (update_btn s) (normal_close_btn s) (force_close_btn s)
    (green_led s) (red_led s) (blue_led s) (last_toggle_time s).

Lemma poll_app_result s (b : B) :
  poll_app (DE:=DE) (s, b) =
    match poll (DE:=DE) (app s, b) with
    | ((a, b'), Ok _) => ((with_app s a, b'), Ok tt)
    | ((a, b'), _) => ((with_app s a, b'), Panic)
    end.
Proof.
  unfold poll_app, call_app, mbind, M_bind. by destruct (poll (app s, b)) as [[a b'] [[]|e|]].
Qed.

(** A button at its debounced level reports no edge and does not change. *)
Definition at_rest (btn : Button.DebouncedButton) (pin : bool) : Prop := Button.get_state pin = Button.last_state btn.

Lemma rest_debounced btn pin time :
  at_rest btn pin -> @Button.debounced_state _ Empty_set pin time btn = (btn, Ok (Button.last_state btn)).
Proof. intros Hr. unfold Button.debounced_state. mrun. by rewrite decide_False by (by intros []). Qed.

Lemma rest_falling btn pin time :
  at_rest btn pin -> @Button.is_falling_edge _ Empty_set pin time btn = (btn, Ok false).
Proof.
  intros Hr. unfold Button.is_falling_edge. mrun. erewrite M_bind_ok by by apply rest_debounced.
  by destruct (Button.last_state btn).
Qed.

Lemma rest_rising btn pin time :
  at_rest btn pin -> @Button.is_rising_edge _ Empty_set pin time btn = (btn, Ok false).
Proof.
  intros Hr. unfold Button.is_rising_edge. mrun. erewrite M_bind_ok by by apply rest_debounced.
  by destruct (Button.last_state btn).
Qed.

Record all_at_rest (s : State) (pins : Pins) : Prop := {
  rest_propose : at_rest (propose_channel_btn s) (propose_channel_pin pins);
  rest_update : at_rest (update_btn s) (update_pin pins);
  rest_normal : at_rest (normal_close_btn s) (normal_close_pin pins);
  rest_force : at_rest (force_close_btn s) (force_close_pin pins);
}.

(** An edge that is not there. *)
Lemma on_edge_false (edge : L bool) m s (b : B) :
  edge (s, b) = ((s, b), Ok false) -> on_edge (DE:=DE) edge m (s, b) = ((s, b), Ok tt).
Proof. intros He. unfold on_edge. by erewrite M_bind_ok by exact He. Qed.

Lemma buttons_rest s pins time (b : B) {X} (m : L X) :
  all_at_rest s pins ->
  (on_edge (DE:=DE) (on_propose_channel_btn (Button.is_falling_edge (propose_channel_pin pins) time))
    app_propose_channel;;
   on_edge (DE:=DE) (on_update_btn (Button.is_rising_edge (update_pin pins) time)) (app_update (U256_from 100) false);;
   on_edge (DE:=DE) (on_normal_close_btn (Button.is_falling_edge (normal_close_pin pins) time)) (app_update
     (U256_from 0) true);;
   on_edge (DE:=DE) (on_force_close_btn (Button.is_falling_edge (force_close_pin pins) time)) app_force_close;;
   m) (s, b) = m (s, b).
Proof.
  intros [H1 H2 H3 H4].
  erewrite M_bind_ok by (apply on_edge_false; unfold on_propose_channel_btn; rewrite rest_falling by done; by
    destruct s).
  erewrite M_bind_ok by (apply on_edge_false; unfold on_update_btn; rewrite rest_rising by done; by destruct s).
  erewrite M_bind_ok by (apply on_edge_false; unfold on_normal_close_btn; rewrite rest_falling by done; by destruct s).
  by erewrite M_bind_ok by (apply on_edge_false; unfold on_force_close_btn; rewrite rest_falling by done; by
    destruct s).
Qed.

(** An iteration in which no button moves polls the network and then the
    application, once each, and changes nothing else but the blue LED, which is
    toggled when more than a second has passed since the last time; if the
    application returns an error the device stops, whatever the error. *)
Theorem idle_iteration_spec (s : State) (b : B) (time : u64) (pins : Pins) :
  all_at_rest s pins -> u64_val (last_toggle_time s) + 1000 < 2 ^ 64 ->
  iteration (DE:=DE) time pins (s, b) =
    match poll (DE:=DE) (app s, iface_poll (as_i64 (u64_val time)) b) with
    | ((a, b'), Ok _) =>
        let toggle := bool_decide (u64_val (last_toggle_time s) + 1000 < u64_val time) in
        ((mkMainState a (propose_channel_btn s) (update_btn s) (normal_close_btn s) (force_close_btn s)
            (green_led s) (red_led s) (xorb toggle (blue_led s)) (if toggle then time else last_toggle_time s), b'),
         Ok tt)
    | ((a, b'), _) => ((with_app s a, b'), Panic)
    end.
Proof.
  intros Hr Ht. unfold iteration. erewrite M_bind_ok by reflexivity.
  unfold mbind at 1, M_bind at 1. rewrite poll_app_result.
  destruct (poll _) as [[a b'] [[]|e|]]; [|done|done].
  rewrite buttons_rest by (destruct Hr; by split). unfold blink. rewrite M_get. cbn [last_toggle_time with_app].
  destruct (@u64_add_fits _ Empty_set (last_toggle_time s) (u64_wrap 1000)) as (z & Hz & Hv).
  { change (u64_val (u64_wrap 1000)) with 1000. lia. }
  rewrite Hz. mrun. rewrite Hv. change (u64_val (u64_wrap 1000)) with 1000.
  case_bool_decide; [by rewrite decide_True by done|by rewrite decide_False by done].
Qed.

End Main.

(* ------------------------------------------------------------------ *)
(** ** A message that stops the device                                   *)
(* ------------------------------------------------------------------ *)

Section Stops.
Context `{Pl : Platform} `{U : UintCrate} `{UL : !UintLaws U} `{S : Sha3Crate} `{I : SignerImpl}.
Context {B : Type} `{HB : !MessageBus B} `{T : !TcpStack B} `{TL : !TcpLaws B} `{IP : !IfacePoll B}.
Context {R : Type} `{HR : !RngCore R}.
Context {DE : Type} `{PE : !ProstDecode DE perunwire.Envelope} `{PM : !ProstDecode DE perunwire.Message}.

(** The states in which the application takes messages of the other
    participant. *)
Inductive reading (a : Application (B:=B) (R:=R)) (b : B) : Prop :=
  | reading_proposal e w :
      app_state a = WaitForProposal e w -> is_open (app_service_handle a) b = true -> reading a b
  | reading_handshake e w : app_state a = WaitForHandshake e w -> reading a b
  | reading_active e w ch : app_state a = ActiveState e w ch -> reading a b.

(** Messages the application does not take: any message but a handshake while it
    listens, an update while its channel waits for the acceptance of an update of
    its own, and a message that does not convert. *)
Inductive refused (a : Application (B:=B) (R:=R)) (b : B) : perunwire.envelope_Msg -> Prop :=
  | refused_listening e w m :
      app_state a = Listening e w -> is_open (app_participant_handle a) b = true -> m <> perunwire.AuthResponseMsg ->
      refused a b m
  | refused_update e w ch u m msg :
      app_state a = ActiveState e w (mkChannel (Active ch (Some u))) ->
      participant_msg (I:=I) (T:=T) (DE:=DE) m = Ok (ChannelUpdateMsg msg) ->
      refused a b m
  | refused_unreadable m : reading a b -> message_converts m = false -> refused a b m.

(** In these states a message that does not convert is not taken. *)
Lemma poll_unreadable (a : Application (B:=B) (R:=R)) (b : B) payload tail (env : perunwire.Envelope) m :
  reading a b -> next_frame (app_participant_handle a) b payload tail ->
  prost_decode (DE:=DE) payload = Ok env -> perunwire.Envelope_msg env = Some m -> message_converts m = false ->
  is_ok (poll (DE:=DE) (a, b)).2 = false.
Proof.
  intros Hr Hn Hd Hm Hc. destruct (try_recv_participant_next (DE:=DE) a b payload tail env Hn Hd) as (b1 & _ & Hrecv).
  rewrite Hm in Hrecv. cbn [ok_or mbind res_bind] in Hrecv.
  destruct (decided_participant_msg (I:=I) (T:=T) (DE:=DE) m) as [Hok _]. rewrite Hc in Hok. unfold poll.
  destruct Hr as [e w Hs Ho|e w Hs|e w ch Hs]; rewrite M_get, Hs.
  - unfold wait_connected_and_proposal_msg. rewrite M_get, Ho. cbn [negb]. unfold mbind, M_bind. rewrite Hrecv.
    by destruct (participant_msg m).
  - unfold wait_handshake_and_propose_channel, mbind, M_bind. rewrite Hrecv. by destruct (participant_msg m).
  - unfold forward_messages_to_channel, forward_messages, mbind, M_bind. rewrite Hrecv.
    by destruct (participant_msg m).
Qed.

Lemma poll_refused (a : Application (B:=B) (R:=R)) (b : B) payload tail (env : perunwire.Envelope) m :
  refused a b m -> next_frame (app_participant_handle a) b payload tail ->
  prost_decode (DE:=DE) payload = Ok env -> perunwire.Envelope_msg env = Some m ->
  is_ok (poll (DE:=DE) (a, b)).2 = false.
Proof.
  intros Hr Hn Hd Hm. destruct Hr as [e w m Hs Ho Hne|e w ch u m msg Hs Hp|m Hr Hc];
    [| |by eapply poll_unreadable].
  - destruct (try_recv_next (X:=perunwire.Envelope) (DE:=DE) _ b payload tail Hn) as (b1 & _ & Hr).
    unfold poll. rewrite M_get, Hs. unfold check_incomming_connection. rewrite M_get.
    destruct Hn as [Hmay _ _ _ _ _]. rewrite Ho, Hmay. cbn [negb orb].
    erewrite M_bind_ok by (unfold on_snd; cbn [fst snd]; rewrite Hr, Hd; reflexivity).
    cbn [fmap res_fmap map_err]. rewrite Hm. by destruct m.
  - destruct (try_recv_participant_next (DE:=DE) a b payload tail env Hn Hd) as (b1 & _ & Hr).
    rewrite Hm in Hr. cbn [ok_or mbind res_bind] in Hr. rewrite Hp in Hr. cbn [fmap res_fmap] in Hr.
    unfold poll. rewrite M_get, Hs. unfold forward_messages_to_channel, forward_messages.
    unfold mbind, M_bind. rewrite Hr. unfold on_channel. rewrite Hs. cbn. reflexivity.
Qed.

(** C40: a frame that holds a message the application refuses stops the device,
    since the main loop unwraps the result of [poll]: any message but a
    handshake, sent by whoever connects to a device that listens, the honest
    update of the other participant that crosses the device's own, and in every
    state in which the device takes messages each message that does not convert. *)
Theorem refused_message_stops_device (s : MainState (B:=B) (R:=R)) (b : B) (time : u64) (pins : Pins)
    (payload tail : bytes) (env : perunwire.Envelope) (m : perunwire.envelope_Msg) :
  let b0 := iface_poll (as_i64 (u64_val time)) b in
  refused (app s) b0 m -> next_frame (app_participant_handle (app s)) b0 payload tail ->
  prost_decode (DE:=DE) payload = Ok env -> perunwire.Envelope_msg env = Some m ->
  exists s' b', iteration (DE:=DE) time pins (s, b) = ((s', b'), Panic).
Proof.
  intros b0 Hr Hn Hd Hm. pose proof (poll_refused (app s) b0 payload tail env m Hr Hn Hd Hm) as Hp.
  destruct (poll (DE:=DE) (app s, b0)) as [[a' b'] res] eqn:E. exists (with_app s a'), b'.
  unfold iteration. erewrite M_bind_ok by reflexivity. fold b0.
  unfold mbind at 1, M_bind at 1. rewrite poll_app_result, E. by destruct res.
Qed.

End Stops.

(* ------------------------------------------------------------------ *)
(** ** The device                                                        *)
(* ------------------------------------------------------------------ *)

Section DeviceTheorem.
Context `{Pl : Platform} `{U : UintCrate} `{UL : !UintLaws U} `{S : Sha3Crate} `{SL : !Sha3Laws S}.
Context `{K : K256Crate} `{KL : !K256Laws K}.
Context {N : Type} `{T : !TcpStack N} `{IP : !IfacePoll N} {R : Type} `{HR : !RngCore R}.
Context `{PTM : !ProstMessage perunwire.Message} `{PTE : !ProstMessage perunwire.Envelope}.
Context {DE : Type} `{PE : !ProstDecode DE perunwire.Envelope} `{PM : !ProstDecode DE perunwire.Message}.

Abbreviation Shared := (ProtoBufEncodingLayer (Bus N)).

(** The application that [main] makes is well formed. *)
Lemma main_setup_inv {E} (n : N) ph sh (rng : R) pins s0 (w0 : Shared) :
  main_setup (E:=E) n ph sh rng pins = Ok (s0, w0) ->
  exists signer, k256_valid signer /\
    app s0 = Application_new (B:=Shared) (T:=shared_TcpStack) ph sh device_config rng (K256.address signer)
               (PerunClient_new (I:=K256.k256_signer) signer).
Proof.
  unfold main_setup. destruct (K256.new (E:=E)) as [signer|e|] eqn:Hs; [|done|done].
  cbn [mbind res_bind]. intros [= <- _]. exists signer. split; [by eapply k256_new_valid|done].
Qed.

(** C15: the device as [main] sets it up, with its own bus, its own signer and
    any network interface.  Whatever the buttons, the clock, the network, the
    other participant and the services do, the iterations of the main loop
    only take the application through the transitions of its documented state
    machine, its keys and configuration stay as they were set up, and the
    channel of an active application is valid after every iteration. *)
Theorem device_follows_state_machine {E} (n : N) (ph sh : SocketHandle) (rng : R) (pins : Pins)
    (s0 s : MainState (I:=K256.k256_signer) (B:=Shared) (T:=shared_TcpStack) (R:=R)) (w0 : Shared) :
  main_setup (E:=E) n ph sh rng pins = Ok (s0, w0) -> rtc (loop_step (DE:=DE)) s0 s ->
  rtc app_edge InitialState (app_state (app s)) /\ same_setup (app s0) (app s) /\
  app_config (app s) = device_config /\ channel_valid (app_state (app s)).
Proof.
  intros (signer & Hv & H0)%main_setup_inv Hr%loop_steps_app.
  pose proof (Application_new_ok (I:=K256.k256_signer) (B:=Shared) (T:=shared_TcpStack) ph sh device_config rng
    (PerunClient_new (I:=K256.k256_signer) signer) Hv) as Hok.
  change (address (cl_signer (PerunClient_new (I:=K256.k256_signer) signer))) with (K256.address signer) in Hok.
  rewrite <- H0 in Hok. destruct (app_reachable _ _ Hok Hr) as (Hok' & Hset & He).
  split; [by rewrite H0 in He|]. split; [done|]. split; [|by apply app_ok_channel_valid].
  destruct Hset as (_ & _ & <- & _). by rewrite H0.
Qed.

End DeviceTheorem.
