(* ===== verification/ClockTheorems.v ===== *)
(** * The clock of the device

    The millisecond interrupt and the main loop of src/cortex-m-demo/src/main.rs
    together: the time an iteration reads is the number of interrupts so far, no
    sum of times overflows, and the blue LED blinks once a second. *)
From S2P Require Import Prelude AbiSer Types PerunWire Payment Sig Messages Wire ChannelTypes Active Proposal.
From S2P Require Import DemoChannel Button Net Application MainLoop MainTheorems.

Section Clock.
Context `{Pl : Platform} `{U : UintCrate} `{S : Sha3Crate} `{I : SignerImpl}.
Context {B : Type} `{HB : !MessageBus B} `{T : !TcpStack B} `{IP : !IfacePoll B}.
Context {R : Type} `{HR : !RngCore R}.
Context {DE : Type} `{PE : !ProstDecode DE perunwire.Envelope} `{PM : !ProstDecode DE perunwire.Message}.

Abbreviation App := (Application (B:=B) (R:=R)).
Abbreviation State := (@MainState _ I B T R).
Abbreviation L := (M (State * B) Empty_set).

(** What the main loop calls. *)
Inductive called : M (App * B) (@AppError I B T DE) unit -> Prop :=
  | called_poll : called poll
  | called_propose : called app_propose_channel
  | called_update : called (app_update (U256_from 100) false)
  | called_normal_close : called (app_update (U256_from 0) true)
  | called_force_close : called app_force_close.

(** The applications and networks that the calls and the polls of the interface
    lead to. *)
Inductive leads (a0 : App) (b0 : B) : App -> B -> Prop :=
  | leads_start : leads a0 b0 a0 b0
  | leads_iface a b time : leads a0 b0 a b -> leads a0 b0 a (iface_poll time b)
  | leads_call m a b a' b' r :
      leads a0 b0 a b -> called m -> m (a, b) = ((a', b'), r) -> leads a0 b0 a' b'.

(** The application stops the device: a call it is led to panics, or [poll]
    returns an error, which is unwrapped. *)
Inductive app_stops (a0 : App) (b0 : B) : Prop :=
  | stops_panic m a b : leads a0 b0 a b -> called m -> (m (a, b)).2 = Panic -> app_stops a0 b0
  | stops_error a b e : leads a0 b0 a b -> (poll (DE:=DE) (a, b)).2 = Err e -> app_stops a0 b0.

(** The times the loop remembers are not later than [now]. *)
Definition in_time (now : Z) (btn : Button.DebouncedButton) : Prop :=
  u64_val (Button.debounce_threshhold btn) = 100 /\ u64_val (Button.last_time btn) <= now.

Record loop_time (now : Z) (s : State) : Prop := {
  lt_toggle : u64_val (last_toggle_time s) <= now;
  lt_propose : in_time now (propose_channel_btn s);
  lt_update : in_time now (update_btn s);
  lt_normal : in_time now (normal_close_btn s);
  lt_force : in_time now (force_close_btn s);
}.

Definition same_blink (s s' : State) : Prop :=
  last_toggle_time s' = last_toggle_time s /\ blue_led s' = blue_led s.

Section Run.
Context (a0 : App) (b0 : B).

(** A part of an iteration that does not blink: it returns, with all times still
    not later than [now], unless the application stops the device. *)
Definition keeps (now : Z) {X} (m : L X) : Prop :=
  forall s b, loop_time now s -> leads a0 b0 (app s) b ->
    match m (s, b) with
    | ((s', b'), Ok _) => loop_time now s' /\ same_blink s s' /\ leads a0 b0 (app s') b'
    | (_, Err e) => False
    | (_, Panic) => app_stops a0 b0
    end.

Lemma keeps_bind now {X Y} (m : L X) (f : X -> L Y) : keeps now m -> (forall x, keeps now (f x)) ->
  keeps now (m ≫= f).
Proof.
  intros Hm Hf s b Hs Hl. specialize (Hm s b Hs Hl). unfold mbind, M_bind.
  destruct (m (s, b)) as [[s1 b1] [x|e|]]; [|done|done]. destruct Hm as (H1 & [E1 E2] & Hl1).
  specialize (Hf x s1 b1 H1 Hl1). destruct (f x (s1, b1)) as [[s2 b2] [y|e|]]; [|done|done].
  destruct Hf as (H2 & [E3 E4] & Hl2). split; [done|]. split; [split; congruence|done].
Qed.

Lemma keeps_ret now {X} (x : X) : keeps now (mret x).
Proof. intros s b Hs Hl. split; [done|]. by split. Qed.

Lemma keeps_call now (m : M (App * B) (@AppError I B T DE) unit) : called m -> keeps now (call_app m).
Proof.
  intros Hm s b Hs Hl. unfold call_app. pose proof (stops_panic a0 b0 m (app s) b Hl Hm) as Hp.
  pose proof (fun a1 b1 r => leads_call a0 b0 m (app s) b a1 b1 r Hl Hm) as Hc.
  destruct (m (app s, b)) as [[a b1] [x|e|]]; [| |by apply Hp].
  all: split; [by destruct Hs|]; split; [done|by eapply Hc].
Qed.

Lemma keeps_poll now : keeps now (poll_app (DE:=DE)).
Proof.
  intros s b Hs Hl. pose proof (stops_error a0 b0 (app s) b) as He. unfold poll_app.
  pose proof (keeps_call now _ called_poll s b Hs Hl) as Hk. unfold mbind, M_bind.
  unfold call_app in *. destruct (poll (app s, b)) as [[a b1] [[]|e|]]; [done| |done]. by eapply He.
Qed.

(** A sample of a button. *)
Lemma sample_in_time now btn h t :
  in_time now btn -> u64_val t = now -> now + 1000 < 2 ^ 64 ->
  Button.no_overflow btn /\ in_time now (Button.sampled btn h t).
Proof.
  intros [H1 H2] <- Hn. split; [unfold Button.no_overflow; lia|]. split.
  - by rewrite Button.sampled_threshold.
  - by apply Button.sampled_time.
Qed.

Lemma edge_returns {E} (falling : bool) btn h t :
  Button.no_overflow btn ->
  exists e, (if falling then @Button.is_falling_edge _ E h t else @Button.is_rising_edge _ E h t) btn =
    (Button.sampled btn h t, Ok e).
Proof.
  intros Ho. destruct falling; unfold Button.is_falling_edge, Button.is_rising_edge; mrun;
    (erewrite M_bind_ok by (by apply Button.debounced_state_sampled)); by eexists.
Qed.

Lemma keeps_edge now (edge : L bool) (m : M (App * B) (@AppError I B T DE) unit) :
  keeps now edge -> called m -> keeps now (on_edge edge m).
Proof.
  intros He Hm. apply keeps_bind; [done|]. intros [|]; [|apply keeps_ret].
  apply keeps_bind; [by apply keeps_call|]. intros r s b Hs Hl. rewrite M_get.
  unfold on_fst, mput. cbn [fst snd]. destruct r; (split; [by destruct Hs|by split]).
Qed.

(** The button of a call. *)
Lemma button_returns {E} (falling : bool) (btn : Button.DebouncedButton) h t :
  in_time (u64_val t) btn -> u64_val t + 1000 < 2 ^ 64 ->
  exists e, (if falling then @Button.is_falling_edge _ E h t else @Button.is_rising_edge _ E h t) btn =
    (Button.sampled btn h t, Ok e) /\ in_time (u64_val t) (Button.sampled btn h t).
Proof.
  intros Hb Hn. destruct (sample_in_time (u64_val t) btn h t Hb eq_refl Hn) as [Ho Ht].
  destruct (edge_returns (E:=E) falling btn h t Ho) as [e He]. by exists e.
Qed.

Local Ltac button falling H :=
  let Hs := fresh in
  intros ?s ?b Hs ?Hl;
  edestruct (button_returns (E:=Empty_set) falling) as (e & He & Ht); [exact (H _ _ Hs)|eassumption|];
  cbn beta iota in He;
  unfold on_propose_channel_btn, on_update_btn, on_normal_close_btn, on_force_close_btn;
  rewrite He; (split; [by destruct Hs|]); by split.

(** The last part of an iteration: the LED blinks when its second is over. *)
Definition blinks (time : u64) (m : L unit) : Prop :=
  forall s b, loop_time (u64_val time) s -> leads a0 b0 (app s) b ->
    match m (s, b) with
    | ((s', b'), Ok _) =>
        leads a0 b0 (app s') b' /\ loop_time (u64_val time) s' /\ u64_val time <= u64_val (last_toggle_time s') + 1000
          /\
        (same_blink s s' \/
         (u64_val (last_toggle_time s) + 1000 < u64_val time /\ last_toggle_time s' = time /\
          blue_led s' = negb (blue_led s)))
    | (_, Err e) => False
    | (_, Panic) => app_stops a0 b0
    end.

Lemma blinks_bind time {X} (m : L X) (f : X -> L unit) :
  keeps (u64_val time) m -> (forall x, blinks time (f x)) -> blinks time (m ≫= f).
Proof.
  intros Hm Hf s b Hs Hl. specialize (Hm s b Hs Hl). unfold mbind, M_bind.
  destruct (m (s, b)) as [[s1 b1] [x|e|]]; [|done|done]. destruct Hm as (H1 & [E1 E2] & Hl1).
  specialize (Hf x s1 b1 H1 Hl1). destruct (f x (s1, b1)) as [[s2 b2] [y|e|]]; [|done|done].
  unfold same_blink in *. by rewrite E1, E2 in Hf.
Qed.

Lemma blinks_blink time : u64_val time + 1000 < 2 ^ 64 -> blinks time (blink time).
Proof.
  intros Hn s b Hs Hld. pose proof (lt_toggle _ _ Hs) as Hl. unfold blink. mrun.
  destruct (@u64_add_fits _ Empty_set (last_toggle_time s) (u64_wrap 1000)) as (z & Hz & Hv).
  { change (u64_val (u64_wrap 1000)) with 1000. lia. }
  change (u64_val (u64_wrap 1000)) with 1000 in Hv. rewrite Hz. mrun. case_decide as Hd.
  - unfold on_fst, mput. cbn. split; [done|]. split; [destruct Hs; split; cbn; done || lia|].
    split; [lia|]. right. split; [lia|done].
  - unfold mret, M_ret. split; [done|]. split; [done|]. split; [lia|]. left. by split.
Qed.

(** One iteration at a given time. *)
Lemma iteration_blinks time pins : u64_val time + 1000 < 2 ^ 64 -> blinks time (iteration (DE:=DE) time pins).
Proof.
  intros Hn. unfold iteration. apply blinks_bind; [|intros []].
  { intros s b Hs Hl. split; [done|]. split; [done|]. by apply leads_iface. }
  apply blinks_bind; [apply keeps_poll|intros []].
  apply blinks_bind; [apply keeps_edge; [button true lt_propose|constructor]|intros []].
  apply blinks_bind; [apply keeps_edge; [button false lt_update|constructor]|intros []].
  apply blinks_bind; [apply keeps_edge; [button true lt_normal|constructor]|intros []].
  apply blinks_bind; [apply keeps_edge; [button true lt_force|constructor]|intros []].
  by apply blinks_blink.
Qed.

(** The interrupts. *)
Lemma ticks_count n (t : u64) : u64_val t + Z.of_nat n < 2 ^ 64 ->
  exists t', ticks n t = (t', Ok tt) /\ u64_val t' = u64_val t + Z.of_nat n.
Proof.
  revert t. induction n as [|n IH]; intros t Hn; [exists t; split; [done|lia]|].
  destruct (@u64_add_fits _ Empty_set t (u64_wrap 1)) as (z & Hz & Hv).
  { change (u64_val (u64_wrap 1)) with 1. lia. }
  change (u64_val (u64_wrap 1)) with 1 in Hv. destruct (IH z) as (t' & Ht & Hv'); [lia|].
  exists t'. split; [|lia]. cbn [ticks].
  erewrite M_bind_ok; [exact Ht|]. unfold SysTick. mrun. by rewrite Hz.
Qed.

(** The number of interrupts of a run. *)
Definition elapsed (l : list (nat * Pins)) : Z := foldr (fun r n => Z.of_nat r.1 + n) 0 l.

Lemma elapsed_nonneg l : 0 <= elapsed l.
Proof. induction l as [|r l IH]; cbn [elapsed foldr]; [done|]. change (foldr _ 0 l) with (elapsed l). lia. Qed.

Lemma loop_time_later now now' s : now <= now' -> loop_time now s -> loop_time now' s.
Proof. intros Hn [? [] [] [] []]. split; [lia|split; [done|lia]..]. Qed.

(** The blinks between two states: their number, and the time they take when an
    iteration starts at most [gap] interrupts after the previous one. *)
Definition blinked (gap : Z) (s s' : State) (c : Z) : Prop :=
  0 <= c /\ blue_led s' = xorb (Z.odd c) (blue_led s) /\
  1001 * c <= u64_val (last_toggle_time s') - u64_val (last_toggle_time s) <= (1000 + gap) * c.

Lemma blinked_none gap s s' : same_blink s s' -> blinked gap s s' 0.
Proof. intros [H1 H2]. split; [done|]. rewrite H1, H2. split; [by destruct (blue_led s)|lia]. Qed.

Lemma blinked_trans gap s1 s2 s3 c d : blinked gap s1 s2 c -> blinked gap s2 s3 d -> blinked gap s1 s3 (c + d).
Proof.
  intros (H1 & H2 & H3) (H4 & H5 & H6). split; [lia|]. split; [|lia].
  rewrite H5, H2, Z.odd_add. by destruct (Z.odd c), (Z.odd d), (blue_led s1).
Qed.

(** A run from any time. *)
Lemma rounds_in_time gap (l : list (nat * Pins)) (t : u64) (s : State) (b : B) :
  Forall (fun r => Z.of_nat r.1 <= gap) l ->
  loop_time (u64_val t) s -> leads a0 b0 (app s) b -> u64_val t <= u64_val (last_toggle_time s) + 1000 ->
  u64_val t + elapsed l + 1000 < 2 ^ 64 ->
  match rounds (DE:=DE) l (t, (s, b)) with
  | ((t', (s', _)), Ok _) =>
      u64_val t' = u64_val t + elapsed l /\ loop_time (u64_val t') s' /\
      u64_val t' <= u64_val (last_toggle_time s') + 1000 /\ exists c, blinked gap s s' c
  | (_, Err e) => False
  | (_, Panic) => app_stops a0 b0
  end.
Proof.
  intros Hl. revert t s b. induction Hl as [|[n pins] l Hn Hl IH]; intros t s b Hs Hd Ht Hb.
  { cbn. split; [lia|]. split; [done|]. split; [done|]. exists 0. by apply blinked_none. }
  cbn [elapsed foldr fst] in *. change (foldr _ 0 l) with (elapsed l) in *. pose proof (elapsed_nonneg l) as Hel.
  destruct (ticks_count n t) as (t1 & Hk & Hv); [lia|]. cbn [rounds].
  erewrite M_bind_ok by (unfold on_fst; cbn [fst snd]; rewrite Hk; reflexivity). mrun.
  assert (u64_val t1 + 1000 < 2 ^ 64) as Hlt by lia.
  pose proof (iteration_blinks t1 pins Hlt s b (loop_time_later (u64_val t) (u64_val t1) _ ltac:(lia) Hs) Hd) as Hi.
  unfold mbind at 1, M_bind at 1, on_snd. cbn [fst snd].
  destruct (iteration t1 pins (s, b)) as [[s1 b1] [[]|e|]]; [|done|done].
  destruct Hi as (H0 & H1 & H2 & H3). specialize (IH t1 s1 b1 H1 H0 H2 ltac:(lia)).
  destruct (rounds l (t1, (s1, b1))) as [[t2 [s2 b2]] [[]|e|]]; [|done|done].
  destruct IH as (H4 & H5 & H6 & c & Hc). split; [lia|]. split; [done|]. split; [done|].
  destruct H3 as [Hsame|(H7 & H8 & H9)].
  - exists (0 + c). eapply blinked_trans; [by apply blinked_none|done].
  - exists (1 + c). eapply blinked_trans; [|exact Hc]. split; [done|]. rewrite H9, H8. split; [|lia].
    by destruct (blue_led s).
Qed.

End Run.

(** C20: from the start of the main loop, as long as the interrupts leave room
    in 64 bits, no addition of times overflows: the loop returns unless the
    application stops the device; the counter is then the number of interrupts,
    and the blue LED has blinked with a period of more than a second and at most
    a second and the longest time between two iterations. *)
Theorem clock_blinks (gap : Z) (l : list (nat * Pins)) (a : App) (pins : Pins) (b : B) :
  Forall (fun r => Z.of_nat r.1 <= gap) l -> elapsed l + 1000 < 2 ^ 64 ->
  match rounds (DE:=DE) l (u64_wrap 0, (main_start a pins, b)) with
  | ((t, (s, _)), Ok _) =>
      u64_val t = elapsed l /\
      exists c, 0 <= c /\ blue_led s = xorb (Z.odd c) true /\
        1001 * c <= u64_val (last_toggle_time s) <= (1000 + gap) * c /\
        u64_val (last_toggle_time s) <= elapsed l <= u64_val (last_toggle_time s) + 1000
  | (_, Err e) => False
  | (_, Panic) => app_stops a b
  end.
Proof.
  intros Hl Hb. assert (loop_time (u64_val (u64_wrap 0)) (main_start a pins)) as Hs.
  { by repeat split. }
  pose proof (rounds_in_time a b gap l (u64_wrap 0) (main_start a pins) b Hl Hs (leads_start a b) ltac:(done) Hb)
    as H.
  destruct (rounds l _) as [[t [s b1]] [[]|e|]]; [|done|done].
  destruct H as (H1 & H2 & H3 & c & H4 & H5 & H6). split; [exact H1|]. exists c.
  pose proof (lt_toggle _ _ H2) as H7. change (u64_val (last_toggle_time (main_start a pins))) with 0 in H6.
  change (u64_val (u64_wrap 0)) with 0 in *. repeat split; done || lia.
Qed.

End Clock.
