(* ===== verification/GoIntegration.v ===== *)
(** * The integration example

    Model of src/examples/go-integration.rs: a program that proposes a channel
    to a participant, updates and closes it, over TCP streams of the standard
    library.  The random generator and the protobuf decoder are parameters; the
    text the program prints is left out.  The scripted bus the file also holds
    ([no-go-comm]) is not modelled, it names a message that the schema does not
    have. *)
From S2P Require Import Prelude AbiSer Types PerunWire Payment Sig Messages Wire ChannelTypes Active Proposal.

Section GoIntegration.
Context `{Pl : Platform} `{U : UintCrate} `{S : Sha3Crate} `{I : SignerImpl}.

(* ------------------------------------------------------------------ *)
(** ** net: the configuration                                            *)
(* ------------------------------------------------------------------ *)

Record GoConfig : Type := mkGoConfig {
  eth_holder : Address;
  withdraw_receiver : Address;
}.

Definition read_config : GoConfig := {|
  eth_holder := mkAddress (mk_array
    [x59; x92; x08; x9d; x61; xce; x79; xb6; xcf; x90; x50; x6f; x70; xdd; x42; xb8; xe4; x2f; xb2; x1d] eq_refl);
  withdraw_receiver := mkAddress (mk_array
    [xc4; xba; x48; x15; xc8; x27; x27; x55; x4e; x4c; x12; xa0; x7a; x13; x9b; x74; xc6; x74; x23; x22] eq_refl);
|}.

Definition get_peers : Peers :=
  [[x7b; x7e; x21; x26; x52; xb9; xc3; x75; x5c; x4e; x1f; x17; x18; xa1; x42; xdd; xe3; x81; x75; x23];
   [xa6; x17; xfa; x2c; xc5; xec; x8d; x72; xd4; xa6; x0b; x9f; x42; x46; x77; xe7; x4e; x6b; xef; x68]].

(* ------------------------------------------------------------------ *)
(** ** net: the bus                                                      *)
(* ------------------------------------------------------------------ *)

(** [std::net::TcpStream]: what the other side has sent and is not yet read,
    what has been written, and how many bytes each next call of [write] takes
    ([None]: the call fails; once the list is empty a call takes everything). *)
Record TcpStream : Type := mkTcpStream {
  unread : bytes;
  written : bytes;
  limits : list (option Z);
}.

(** [read_exact]: fails at the end of the stream. *)
Definition read_exact (n : Z) : M TcpStream unit bytes := fun s =>
  if decide (zlen (unread s) < n) then (s, Err tt)
  else (mkTcpStream (drop (Z.to_nat n) (unread s)) (written s) (limits s), Ok (take (Z.to_nat n) (unread s))).

(** [write]: some of the bytes are written, their number is returned. *)
Definition write (msg : bytes) : M TcpStream unit Z := fun s =>
  match limits s with
  | [] => (mkTcpStream (unread s) (written s ++ msg) [], Ok (zlen msg))
  | Some n :: limits =>
      let n := Z.min (Z.max n 0) (zlen msg) in
      (mkTcpStream (unread s) (written s ++ take (Z.to_nat n) msg) limits, Ok n)
  | None :: limits => (mkTcpStream (unread s) (written s) limits, Err tt)
  end.

(** [unwrap] of the result of a method. *)
Definition munwrap {W E E' A} (m : M W E A) : M W E' A := fun w => let (w, r) := m w in (w, expect r).

Record StdBus : Type := mkStdBus {
  participant : Z;
  stream : TcpStream;
  remote_stream : TcpStream;
}.

Definition on_stream {E A} (m : M TcpStream E A) : M StdBus E A := fun b =>
  let (s, r) := m (stream b) in (mkStdBus (participant b) s (remote_stream b), r).
Definition on_remote_stream {E A} (m : M TcpStream E A) : M StdBus E A := fun b =>
  let (s, r) := m (remote_stream b) in (mkStdBus (participant b) (stream b) s, r).

(** [Bus::recv]: one frame. *)
Definition recv {E} : M TcpStream E bytes :=
  buf ← munwrap (read_exact 2);
  let len := be_val buf in
  munwrap (read_exact len).

Definition recv_to {DE X} `{ProstDecode DE X} {E} : M TcpStream E X :=
  buf ← recv;
  mlift (expect (prost_decode buf)).

(** The implementation of [BytesBus]: the number of bytes [write] returns is
    not looked at. *)
#[export] Instance StdBus_BytesBus : BytesBus StdBus := {|
  bytes_to_watcher := fun E msg => on_remote_stream (munwrap (write msg));; mret tt;
  bytes_to_funder := fun E msg => on_remote_stream (munwrap (write msg));; mret tt;
  bytes_to_participant := fun E _ _ msg => on_stream (munwrap (write msg));; mret tt;
|}.

(** What the program receives from. *)
Class RecvBus (B : Type) := {
  recv_envelope : forall {E}, M B E perunwire.Envelope;
  recv_message : forall {E}, M B E perunwire.Message;
}.

(** The program and the encoding layer share the bus. *)
#[export] Instance StdBus_RecvBus {DE} `{PE : ProstDecode DE perunwire.Envelope} `{PM : ProstDecode DE
  perunwire.Message}
    : RecvBus (ProtoBufEncodingLayer StdBus) := {|
  recv_envelope := fun E => on_bus (on_stream (recv_to (X:=perunwire.Envelope)));
  recv_message := fun E => on_bus (on_remote_stream (recv_to (X:=perunwire.Message)));
|}.

(* ------------------------------------------------------------------ *)
(** ** main                                                              *)
(* ------------------------------------------------------------------ *)

Context {B : Type} `{HB : !MessageBus B} `{RB : !RecvBus B}.

Definition NORMAL_CLOSE : bool := true.
Definition SEND_DISPUTE : bool := false.

(** [unwrap] of a method on a value the program owns. *)
Definition on_value {V E E' A} (m : M (V * B) E A) (v : V) : M B E' V := fun b =>
  let '((v, b), r) := m (v, b) in (b, expect ((fun _ => v) <$> r)).
Definition on_pure_value {V E E' A} (m : M V E A) (v : V) : M B E' V := fun b =>
  let (v, r) := m v in (b, expect ((fun _ => v) <$> r)).

(** The amount each participant starts with. *)
Definition init_balance : Balances ASSETS PARTICIPANTS :=
  mkBalances (mk_array [mkParticipantBalances (mk_array
    [U256_from 1000000000000000000; U256_from 1000000000000000000] eq_refl)] eq_refl).

Definition go_proposal (proposal_id : Hash) (nonce_share : NonceShare) (addr : Address) : LedgerChannelProposal :=
  mkLedgerChannelProposal proposal_id (u64_wrap 5) nonce_share
    (Allocation_new (mk_array [mkAsset (eth_holder read_config)] eq_refl) init_balance)
    init_balance addr get_peers.

(** The second phase: the initial state is signed and the channel is funded;
    [None] when the participant rejects it. *)
Definition sign_and_fund {E} (channel : ProposedChannel) : M B E (option ActiveChannel) :=
  channel ← mlift (expect (pc_build channel));
  channel ← on_value sign channel;
  env ← recv_envelope;
  match perunwire.Envelope_msg env with
  | Some (perunwire.Envelope_ChannelUpdateAccMsg msg) =>
      msg ← mlift (expect (LedgerChannelUpdateAccepted_try_from msg));
      channel ← on_pure_value (add_signature msg) channel;
      channel ← munwrap (au_build channel);
      recv_message;;
      mret (Some (mark_funded channel))
  | Some (perunwire.Envelope_ChannelUpdateRejMsg _) => mret None
  | _ => mpanic
  end.

(** The first phase: the channel is proposed. *)
Definition open_channel {E} (client : PerunClient) (prop : LedgerChannelProposal) (receiver : Address)
    : M B E (option ActiveChannel) :=
  channel ← munwrap (propose_channel client prop receiver);
  env ← recv_envelope;
  match perunwire.Envelope_msg env with
  | Some (perunwire.Envelope_LedgerChannelProposalAccMsg msg) =>
      msg ← mlift (expect (LedgerChannelProposalAcc_try_from msg));
      channel ← on_pure_value (pc_participant_accepted 1 msg) channel;
      sign_and_fund channel
  | Some (perunwire.Envelope_ChannelProposalRejMsg _) => mret None
  | _ => mpanic
  end.

Definition handle_update_response {E} (channel : ActiveChannel) (update : ChannelUpdate) : M B E ActiveChannel :=
  env ← recv_envelope;
  match perunwire.Envelope_msg env with
  | Some (perunwire.Envelope_ChannelUpdateAccMsg msg) =>
      msg ← mlift (expect (LedgerChannelUpdateAccepted_try_from msg));
      update ← on_pure_value (cu_participant_accepted channel 1 msg) update;
      on_value (cu_apply update) channel
  | Some (perunwire.Envelope_ChannelUpdateRejMsg _) => mret channel
  | _ => mpanic
  end.

(** The next state, with ten wei moved from participant 1 to participant 0. *)
Definition go_next_state {E} (channel : ActiveChannel) : res E (State ASSETS PARTICIPANTS) :=
  next ← make_next_state (ac_state channel);
  bals ← array_index (asset_bals (balances (outcome next))) 0;
  b0 ← array_index (part_bals bals) 0;
  b0' ← U256_add b0 (U256_from 10);
  bals' ← array_set (part_bals bals) 0 b0';
  b1 ← array_index bals' 1;
  b1' ← U256_sub b1 (U256_from 10);
  bals'' ← array_set bals' 1 b1';
  asset_bals' ← array_set (asset_bals (balances (outcome next))) 0 (mkParticipantBalances bals'');
  Ok (mkState (id next) (version next)
        (mkAllocation (assets (outcome next)) (mkBalances asset_bals') (locked (outcome next)))
        (app_data next) (is_final next)).

(** An update, a normal close and the registration of the final state. *)
Definition use_channel {E} (channel : ActiveChannel) : M B E ActiveChannel :=
  new_state ← mlift (go_next_state channel);
  update ← munwrap (ac_update channel new_state);
  channel ← handle_update_response channel update;
  channel ← (if NORMAL_CLOSE then
               update ← munwrap (close_normal channel);
               channel ← handle_update_response channel update;
               channel ← munwrap (force_close channel);
               recv_message;;
               mret channel
             else mret channel);
  if SEND_DISPUTE then
    munwrap (force_close channel);;
    recv_message;;
    mret channel
  else mret channel.

(** [main] after the bus has been set up and the signer drawn from [rng]; it
    returns the channel that it drops at its end, if one was opened. *)
Definition main {R} `{RngCore R} {E} (rng : R) (signer : Signer) : M B E (option ActiveChannel) :=
  let config := read_config in
  let client := PerunClient_new signer in
  sender ← mlift (vec_index get_peers 0);
  recipient ← mlift (vec_index get_peers 1);
  send_handshake_msg client sender recipient;;
  recv_envelope;;
  let (rng, proposal_id) := gen_bytes32 rng in
  let (rng, nonce_share) := gen_bytes32 rng in
  channel ← open_channel client (go_proposal proposal_id nonce_share (address signer)) (withdraw_receiver config);
  match channel with
  | Some channel => channel ← use_channel channel; mret (Some channel)
  | None => mret None
  end.

End GoIntegration.
