(* ===== verification/GoTheorems.v ===== *)
(** * The integration example: theorems

    What every run of the example that ends has done, a run with an honest
    participant, and the frames on its streams. *)
From S2P Require Import Prelude AbiSpec AbiSer Types PerunWire Payment PaymentTheorems Sig Messages Wire.
From S2P Require Import WireTheorems ChannelTypes Active Proposal ActiveTheorems ChannelSystem.
From S2P Require Import OpeningTheorems DemoChannel BusRefinement DemoTheorems GoIntegration.

(* ------------------------------------------------------------------ *)
(** ** The frames                                                        *)
(* ------------------------------------------------------------------ *)

(** [recv] reads exactly one frame of the encoding layer from a stream,
    whatever follows it, and decodes the message it was made of. *)
Theorem recv_to_encoded {DE X : Type} `{PT : !ProstMessage X} `{PD : !ProstDecode DE X} {E E'}
    (msg : X) (buf rest : bytes) (s : TcpStream) :
  prost_decode (DE:=DE) (prost_encode msg) = Ok msg -> @encode X _ E msg = Ok buf ->
  unread s = buf ++ rest ->
  recv_to (X:=X) (E:=E') s = (mkTcpStream rest (written s) (limits s), Ok msg).
Proof.
  intros Hd [Hl ->]%encode_inv Hs. pose proof (zlen_nonneg (prost_encode msg)) as H0.
  assert (read_exact 2 s = (mkTcpStream (prost_encode msg ++ rest) (written s) (limits s),
    Ok (be_bytes 2 (zlen (prost_encode msg))))) as H1.
  { unfold read_exact. rewrite Hs, <- app_assoc. rewrite decide_False.
    - change (Z.to_nat 2) with 2%nat. by rewrite frame_take, frame_drop.
    - rewrite !zlen_app. unfold zlen at 1. rewrite be_bytes_length. pose proof (zlen_nonneg rest). lia. }
  unfold recv_to, recv. erewrite M_bind_ok.
  2:{ erewrite M_bind_ok by (unfold munwrap; rewrite H1; reflexivity). cbn zeta.
      rewrite frame_length_val by (split; [done|exact Hl]). unfold munwrap, read_exact. cbn [unread written limits].
      rewrite decide_False by (rewrite zlen_app; pose proof (zlen_nonneg rest); lia).
      unfold zlen. rewrite Nat2Z.id, take_app_length, drop_app_length. reflexivity. }
  unfold mlift. by rewrite Hd.
Qed.

(** A write that the operating system takes only a part of is not noticed:
    the send returns normally with the rest of the message missing from the
    stream. *)
Theorem short_write_loses_bytes {E} (b : StdBus) (n : Z) (more : list (option Z)) (s r : Identity) (msg : bytes) :
  limits (stream b) = Some n :: more -> 0 <= n < zlen msg ->
  exists b' lost, @bytes_to_participant StdBus _ E s r msg b = (b', Ok tt) /\ lost <> [] /\
    written (stream b) ++ msg = written (stream b') ++ lost.
Proof.
  intros Hl Hn.
  exists (mkStdBus (participant b) (mkTcpStream (unread (stream b)) (written (stream b) ++ take (Z.to_nat n) msg) more)
    (remote_stream b)), (drop (Z.to_nat n) msg).
  split; [|split].
  - cbn. unfold mbind, M_bind, on_stream, munwrap, write. rewrite Hl.
    replace (Z.min (Z.max n 0) (zlen msg)) with n by lia. reflexivity.
  - intros Hd. apply (f_equal length) in Hd. rewrite length_drop in Hd. cbn in Hd. unfold zlen in Hn. lia.
  - cbn. rewrite <- app_assoc. by rewrite take_drop.
Qed.

(** Writing to a stream returns or panics, so the theorems below hold of the
    program's own bus. *)
#[export] Instance StdBus_lawful : LawfulBytesBus StdBus.
Proof.
  assert (forall E (e : E) msg s, (munwrap (write msg) s).2 <> Err e) as Hw.
  { intros E e msg s. unfold munwrap. destruct (write msg s) as [s' []]; done. }
  split; [intros E m b e|intros E m b e|intros E s r m b e]; cbn; unfold mbind, M_bind, on_stream, on_remote_stream.
  - pose proof (fun e' => Hw E e' m (remote_stream b)) as H.
    destruct (munwrap (write m) (remote_stream b)) as [s' [x|e'|]]; [done|by destruct (H e')|done].
  - pose proof (fun e' => Hw E e' m (remote_stream b)) as H.
    destruct (munwrap (write m) (remote_stream b)) as [s' [x|e'|]]; [done|by destruct (H e')|done].
  - pose proof (fun e' => Hw E e' m (stream b)) as H.
    destruct (munwrap (write m) (stream b)) as [s' [x|e'|]]; [done|by destruct (H e')|done].
Qed.

(* ------------------------------------------------------------------ *)
(** ** A run                                                             *)
(* ------------------------------------------------------------------ *)

Section Run.
Context `{Pl : Platform} `{U : UintCrate} `{UL : !UintLaws U} `{S : Sha3Crate} `{SL : !Sha3Laws S}.
Context `{I : SignerImpl} `{IL : !SignerLaws I}.
Context {B : Type} `{HB : !MessageBus B} `{LB : !LawfulBus B} `{RB : !RecvBus B}.

(** What holds of the result of a computation that returns. *)
Definition ensures {E X} (m : M B E X) (Q : X -> Prop) : Prop := forall b b' x, m b = (b', Ok x) -> Q x.

Lemma ensures_bind {E X Y} (m : M B E X) (f : X -> M B E Y) P Q :
  ensures m P -> (forall x, P x -> ensures (f x) Q) -> ensures (m ≫= f) Q.
Proof.
  intros Hm Hf b b' y H. unfold mbind, M_bind in H. destruct (m b) as [b1 [x|e|]] eqn:H1; [|done|done].
  exact (Hf x (Hm _ _ _ H1) _ _ _ H).
Qed.

Lemma ensures_any {E X Y} (m : M B E X) (f : X -> M B E Y) Q : (forall x, ensures (f x) Q) -> ensures (m ≫= f) Q.
Proof. intros Hf. apply (ensures_bind _ _ (fun _ => True)); [done|intros; apply Hf]. Qed.

Lemma ensures_weaken {E X} (m : M B E X) (P Q : X -> Prop) :
  ensures m P -> (forall x, P x -> Q x) -> ensures m Q.
Proof. intros Hm HPQ b b' x H. eapply HPQ, Hm, H. Qed.

(** Two statements whose result is known together. *)
Lemma ensures_assoc {E X Y Z} (m : M B E X) (g : X -> M B E Y) (f : Y -> M B E Z) P Q :
  ensures (x ← m; g x) P -> (forall y, P y -> ensures (f y) Q) -> ensures (x ← m; y ← g x; f y) Q.
Proof.
  intros Hm Hf b b' z H. destruct (mbind g m b) as [b1 [y|e|]] eqn:H1.
  - rewrite (M_bind_assoc_ok _ _ _ _ _ _ H1) in H. exact (Hf y (Hm _ _ _ H1) _ _ _ H).
  - unfold mbind, M_bind in *. destruct (m b) as [b2 [x|e'|]]; [|done|done]. by rewrite H1 in H.
  - unfold mbind, M_bind in *. destruct (m b) as [b2 [x|e'|]]; [|done|done]. by rewrite H1 in H.
Qed.

Lemma ensures_ret {E X} (x : X) (Q : X -> Prop) : Q x -> ensures (E:=E) (mret x) Q.
Proof. intros HQ b b' y [= _ <-]. exact HQ. Qed.

Lemma ensures_lift {E X} (r : res E X) (Q : X -> Prop) : (forall x, r = Ok x -> Q x) -> ensures (mlift r) Q.
Proof. intros HQ b b' y [= _ H]. by apply HQ. Qed.

Lemma ensures_panic {E X} (Q : X -> Prop) : ensures (E:=E) mpanic Q.
Proof. by intros b b' x H. Qed.

Lemma expect_Ok {E E' X} (r : res E X) (x : X) : @expect E E' X r = Ok x -> r = Ok x.
Proof. destruct r; cbn; congruence. Qed.

(** The [unwrap]s. *)
Lemma ensures_munwrap {E E' X} (m : M B E' X) (Q : X -> Prop) :
  (forall b b' x, m b = (b', Ok x) -> Q x) -> ensures (E:=E) (munwrap m) Q.
Proof.
  intros HQ b b' x H. unfold munwrap in H. destruct (m b) as [b1 r] eqn:Hm. injection H as _ Hr.
  apply expect_Ok in Hr as ->. by eapply HQ.
Qed.

Lemma ensures_on_value {E E' V A} (m : M (V * B) E' A) v (Q : V -> Prop) :
  (forall b v' b' x, m (v, b) = ((v', b'), Ok x) -> Q v') -> ensures (E:=E) (on_value m v) Q.
Proof.
  intros HQ b b' v' H. unfold on_value in H. destruct (m (v, b)) as [[v1 b1] r] eqn:Hm. injection H as _ Hr.
  apply expect_Ok in Hr. destruct r; [|done|done]. cbn in Hr. injection Hr as <-. by eapply HQ.
Qed.

Lemma ensures_on_pure_value {E E' V A} (m : M V E' A) v (Q : V -> Prop) :
  (forall v' x, m v = (v', Ok x) -> Q v') -> ensures (E:=E) (on_pure_value m v) Q.
Proof.
  intros HQ b b' v' H. unfold on_pure_value in H. destruct (m v) as [v1 r] eqn:Hm. injection H as _ Hr.
  apply expect_Ok in Hr. destruct r; [|done|done]. cbn in Hr. injection Hr as <-. by eapply HQ.
Qed.

(** ** An update *)

(** The channel is ours, as participant 0, and carries both signatures. *)
Record ours (signer : Signer) (ch : ActiveChannel) : Prop := {
  ours_owned : owned ch;
  ours_signed : fully_signed ch;
  ours_first : ac_part_idx ch = 0;
  ours_signer : ac_signer ch = signer;
}.

(** The channel with the proposed state, or as it was. *)
Definition responded (signer : Signer) (ch : ActiveChannel) (st : State ASSETS PARTICIPANTS) (ch' : ActiveChannel)
    : Prop :=
  ours signer ch' /\ (ac_state ch' = ac_state ch \/ ac_state ch' = st).

Lemma handle_update_response_sound {E} signer ch u :
  ours signer ch -> update_signed ch u ->
  ensures (E:=E) (handle_update_response ch u) (responded signer ch (cu_new_state u)).
Proof.
  intros Ho Hu. unfold handle_update_response. apply ensures_any. intros env.
  destruct (perunwire.Envelope_msg env) as [[]|]; try apply ensures_panic.
  - apply ensures_any. intros acc.
    apply (ensures_bind _ _ (fun u' => cu_new_state u' = cu_new_state u /\ update_signed ch u')).
    + apply ensures_on_pure_value. intros u' [] Ha.
      destruct (cu_participant_accepted_sound ch u u' _ acc _ Hu Ha) as [[_ Hr]|(_ & _ & Hst & Hs & _)]; [done|].
      by split.
    + intros u' [Hst Hs]. apply ensures_on_value. intros b ch' b' [] Hap.
      apply (runs_ok _ _ _ _ _ _ _ (runs_cu_apply u')) in Hap as [l Hap].
      pose proof (cu_apply_spec u' ch ([] : list Sent)) as Hspec. rewrite Hap in Hspec.
      destruct Hspec as (_ & sigs & Hsig & -> & _). destruct Ho as [Ho Hf H0 Hsg]. rewrite <- Hst.
      split; [|by right]. split; [by destruct Ho|by apply apply_fully_signed|done|done].
  - apply ensures_ret. split; [done|by left].
Qed.

(** Proposing a state and handling the response. *)
Lemma propose_sound {E} signer ch st :
  ours signer ch ->
  ensures (E:=E) (update ← munwrap (ac_update ch st); handle_update_response ch update)
    (fun ch' => responded signer ch st ch').
Proof.
  intros Ho. apply (ensures_bind _ _ (fun u => cu_new_state u = st /\ update_signed ch u)).
  - apply ensures_munwrap. intros b b' u Hu.
    apply (sends_as_ok _ _ _ _ _ (sends_as_ac_update ch st)) in Hu as [l Hu].
    by destruct (ac_update_sound ch st _ _ u (ours_owned _ _ Ho) Hu) as (_ & _ & Hst & Hs).
  - intros u [<- Hs]. by apply handle_update_response_sound.
Qed.

(** *** The states the example proposes *)

Lemma go_next_state_start {E} ch next pb x y :
  @make_next_state _ _ E _ _ (ac_state ch) = Ok next ->
  to_vec (asset_bals (balances (outcome (ac_state ch)))) = [pb] -> to_vec (part_bals pb) = [x; y] ->
  @go_next_state _ _ _ E ch =
    @mbind (res E) _ _ _ (fun x' =>
      @mbind (res E) _ _ _ (fun y' => Ok (with_balances next (mk_array [x'; y'] eq_refl) (is_final next)))
        (U256_sub y (U256_from 10))) (U256_add x (U256_from 10)).
Proof.
  intros Hn Hpb Hxy. unfold go_next_state. rewrite Hn. cbn [mbind res_bind].
  rewrite (make_next_state_keeps _ _ Hn).
  rewrite (array_index_at _ 0 pb) by (lia || by rewrite Hpb). cbn [mbind res_bind].
  rewrite (array_index_at _ 0 x) by (lia || by rewrite Hxy). cbn [mbind res_bind].
  destruct (U256_add x _) as [x'|e|]; [|done|done]. cbn [mbind res_bind].
  destruct (@array_set_2 E _ (part_bals pb) 0 x' ltac:(lia)) as (a & Ha & Hav). rewrite Ha. cbn [mbind res_bind].
  rewrite (array_index_at _ 1 y) by (lia || by rewrite Hav, Hxy). cbn [mbind res_bind].
  destruct (U256_sub y _) as [y'|e|]; [|done|done]. cbn [mbind res_bind].
  destruct (@array_set_2 E _ a 1 y' ltac:(lia)) as (a' & Ha' & Hav'). rewrite Ha'. cbn [mbind res_bind].
  assert (a' = mk_array [x'; y'] eq_refl) as -> by (apply array_eq; by rewrite Hav', Hav, Hxy).
  rewrite (array_1_set (asset_bals (balances (outcome (ac_state ch))))). cbn [mbind res_bind].
  unfold with_balances. by rewrite (make_next_state_keeps _ _ Hn).
Qed.

(** Ten wei move from participant 1 to participant 0. *)
Lemma go_next_state_moves {E} ch st b0 b1 :
  channel_balances (ac_state ch) = [[b0; b1]] -> @go_next_state _ _ _ E ch = Ok st ->
  channel_balances st = [[b0 + 10; b1 - 10]].
Proof.
  intros Hb Hst. destruct (channel_balances_2 _ _ Hb) as (pb & x & y & Hpb & Hxy & [= -> ->]).
  destruct (@make_next_state _ _ E _ _ (ac_state ch)) as [next|e|] eqn:Hn.
  2, 3: unfold go_next_state in Hst; by rewrite Hn in Hst.
  rewrite (go_next_state_start ch next pb x y Hn Hpb Hxy) in Hst.
  pose proof (u256_add_spec E x (U256_from 10)) as Ha. pose proof (u256_sub_spec E y (U256_from 10)) as Hs.
  rewrite u256_from_val in Ha, Hs by (unfold fits; lia).
  destruct (U256_add x _) as [x'|e|]; [|done|done]. cbn [mbind res_bind] in Hst.
  destruct (U256_sub y _) as [y'|e|]; [|done|done]. cbn [mbind res_bind] in Hst. injection Hst as <-.
  unfold channel_balances, with_balances. cbn. by rewrite Ha, Hs.
Qed.

Lemma close_state_balances {E} ch next :
  @make_next_state _ _ E _ _ (ac_state ch) = Ok next ->
  channel_balances (mkState (id next) (version next) (outcome next) (app_data next) true) =
  channel_balances (ac_state ch).
Proof. intros Hn. unfold channel_balances. cbn [outcome]. by rewrite (make_next_state_keeps _ _ Hn). Qed.

(** ** The whole program *)

(** What each participant puts in. *)
Definition stake : Z := 1000000000000000000.

(** The balances at the start or after the update. *)
Definition go_balances (ch : ActiveChannel) : Prop :=
  channel_balances (ac_state ch) = [[stake; stake]] \/
  channel_balances (ac_state ch) = [[stake + 10; stake - 10]].

Lemma close_sound {E} signer ch :
  ours signer ch ->
  ensures (E:=E) (update ← munwrap (close_normal ch); handle_update_response ch update)
    (fun ch' => ours signer ch' /\ channel_balances (ac_state ch') = channel_balances (ac_state ch)).
Proof.
  intros Ho. apply (ensures_bind _ _ (fun u =>
    channel_balances (cu_new_state u) = channel_balances (ac_state ch) /\ update_signed ch u)).
  - apply ensures_munwrap. intros b b' u Hu. unfold close_normal in Hu.
    destruct (make_next_state (ac_state ch)) as [next|e|] eqn:Hn; mrun_in Hu; [|done|done].
    apply (sends_as_ok _ _ _ _ _ (sends_as_ac_update ch _)) in Hu as [l Hu].
    apply ac_update_sound in Hu as (_ & _ & -> & Hs); [|exact (ours_owned _ _ Ho)].
    split; [by eapply close_state_balances|done].
  - intros u [Hb Hs]. eapply ensures_weaken; [by apply (handle_update_response_sound signer)|].
    intros ch' [Ho' [->| ->]]; by split.
Qed.

Lemma force_close_same {E} ch : ensures (E:=E) (munwrap (force_close ch)) (fun ch' => ch' = ch).
Proof.
  apply ensures_munwrap. intros b b' x H.
  apply (sends_as_ok _ _ _ _ _ (sends_as_force_close ch)) in H as [l H]. rewrite force_close_ok in H. by injection H.
Qed.

Lemma use_channel_sound {E} signer ch :
  ours signer ch -> channel_balances (ac_state ch) = [[stake; stake]] ->
  ensures (E:=E) (use_channel ch) (fun ch' => ours signer ch' /\ go_balances ch').
Proof.
  intros Ho Hb. unfold use_channel.
  apply (ensures_bind _ _ (fun st => channel_balances st = [[stake + 10; stake - 10]])).
  { apply ensures_lift. intros st Hst. by eapply go_next_state_moves. }
  intros st Hst. eapply ensures_assoc; [by apply (propose_sound signer)|]. intros ch1 [Ho1 Hs1].
  assert (go_balances ch1) as Hb1 by (unfold go_balances; destruct Hs1 as [->| ->]; auto).
  unfold NORMAL_CLOSE, SEND_DISPUTE.
  apply (ensures_bind _ _ (fun ch' => ours signer ch' /\ go_balances ch')); [|intros; by apply ensures_ret].
  eapply ensures_assoc; [by apply (close_sound signer)|]. intros ch2 [Ho2 Hs2].
  eapply ensures_bind; [apply force_close_same|]. intros ? ->.
  apply ensures_any. intros _. apply ensures_ret. split; [done|]. unfold go_balances. by rewrite Hs2.
Qed.

(** *** Opening *)

Lemma sign_and_fund_sound {E} signer pc acc :
  pc_owned pc -> pc_signer pc = signer -> to_vec (pc_responses pc) = [Some acc] ->
  prop_init_bals (pc_proposal pc) = Allocation_new (mk_array [mkAsset (eth_holder read_config)] eq_refl) init_balance ->
  ensures (E:=E) (sign_and_fund pc)
    (fun r => match r with
              | Some ch => ours signer ch /\ channel_balances (ac_state ch) = [[stake; stake]]
              | None => True
              end).
Proof.
  intros [H0 Hp Hv Ha] Hsg Hr Hbal. unfold sign_and_fund.
  destruct (pc_build_accepted pc acc Hr) as (nonce & _ & Hb). cbn zeta in Hb. rewrite Hb.
  set (au0 := AgreedUponChannel_new _ _ _ _ _ _ _).
  apply (ensures_bind _ _ (fun au => au = au0)); [apply ensures_lift; by intros au [= <-]|]. intros ? ->.
  assert (au_owned au0) as Ho by (split; cbn; rewrite ?H0; [lia|done|done|by rewrite Ha]).
  apply (ensures_bind _ _ (fun au => au_owned au /\ au_signed au /\ exists sigs, au = au_set_signatures au0 sigs)).
  { apply ensures_on_value. intros b au' b' [] Hs.
    apply (runs_ok _ _ _ _ _ _ _ runs_sign) in Hs as [l Hs].
    destruct (sign_fresh au0 ([] : list Sent) Ho eq_refl) as (au1 & b1 & Hs1 & Hrest).
    rewrite Hs1 in Hs. by injection Hs as <- _. }
  intros au (Ho1 & Hs1 & sigs & ->). apply ensures_any. intros env.
  destruct (perunwire.Envelope_msg env) as [[]|]; try apply ensures_panic; [|by apply ensures_ret].
  apply ensures_any. intros upacc.
  apply (ensures_bind _ _ (fun au => au_owned au /\ au_signed au /\ exists sigs, au = au_set_signatures au0 sigs)).
  { apply ensures_on_pure_value. intros au' [] Hadd.
    destruct (add_signature_sound _ _ _ _ Hs1 Hadd) as [[_ Hn]|(_ & Hs2 & sigs' & i & -> & _)]; [done|].
    split; [by destruct Ho1|]. split; [done|]. by exists sigs'. }
  intros au (Ho2 & Hs2 & sigs' & ->).
  apply (ensures_bind _ _ (fun sc => ours signer (sc_channel sc) /\
    channel_balances (ac_state (sc_channel sc)) = [[stake; stake]])).
  - apply ensures_munwrap. intros b b' sc Hsc.
    apply (sends_as_ok _ _ _ _ _ (sends_as_au_build _)) in Hsc as [w Hsc].
    destruct (au_build_sound _ _ _ sc (auo_part _ Ho2) Hsc) as (l & Hl & -> & _). cbn [sc_channel]. split.
    + split; [by destruct Ho2|by apply opened_signed|exact H0|exact Hsg].
    + cbn [ac_state opened]. unfold channel_balances. cbn [au_init_state au0 au_set_signatures]. cbn.
      rewrite Hbal. cbn. rewrite !u256_from_val by (unfold fits; lia). done.
  - intros sc Hsc. apply ensures_any. intros _. by apply ensures_ret.
Qed.

Lemma open_channel_sound {E} signer id share receiver :
  valid_signer signer ->
  ensures (E:=E) (open_channel (PerunClient_new signer) (go_proposal id share (address signer)) receiver)
    (fun r => match r with
              | Some ch => ours signer ch /\ channel_balances (ac_state ch) = [[stake; stake]]
              | None => True
              end).
Proof.
  intros Hv. unfold open_channel.
  apply (ensures_bind _ _ (fun pc =>
    pc = ProposedChannel_new signer 0 receiver (go_proposal id share (address signer)))).
  { apply ensures_munwrap. intros b b' pc Hp. by apply propose_channel_any in Hp as [_ ->]. }
  intros ? ->. apply ensures_any. intros env.
  destruct (perunwire.Envelope_msg env) as [[]|]; try apply ensures_panic; [|by apply ensures_ret].
  apply ensures_any. intros acc.
  apply (ensures_bind _ _ (fun pc => pc = pc_set_responses
    (ProposedChannel_new signer 0 receiver (go_proposal id share (address signer))) (mk_array [Some acc] eq_refl))).
  { apply ensures_on_pure_value. intros pc [] Hp. rewrite pc_participant_accepted_1 in Hp.
    case_decide; [done|]. cbn in Hp. by injection Hp as <-. }
  intros ? ->. apply (sign_and_fund_sound signer _ acc); [|done..]. by split.
Qed.

(** C25: a run of the example that ends with a channel has opened it with both
    signatures, has kept the signatures of both participants on every state it
    applied, and leaves either the balances both participants started with or
    those of its one update, whatever the other participant and the service
    have sent. *)
Theorem go_run_sound {R} `{HR : !RngCore R} {E} (rng : R) (signer : Signer) (b b' : B) (ch : ActiveChannel) :
  valid_signer signer -> main (E:=E) rng signer b = (b', Ok (Some ch)) ->
  owned ch /\ fully_signed ch /\ ac_part_idx ch = 0 /\ ac_signer ch = signer /\
  (channel_balances (ac_state ch) = [[stake; stake]] \/
   channel_balances (ac_state ch) = [[stake + 10; stake - 10]]).
Proof.
  intros Hv H.
  assert (ensures (E:=E) (main rng signer) (fun r => match r with
    | Some ch => ours signer ch /\ go_balances ch | None => True end)) as Hm.
  { unfold main. do 4 (apply ensures_any; intros ?). destruct (gen_bytes32 rng) as [rng1 id].
    destruct (gen_bytes32 rng1) as [rng2 share].
    eapply ensures_bind; [by apply open_channel_sound|]. intros [ch0|]; [|intros _; by apply ensures_ret].
    intros [Ho Hb]. eapply ensures_bind; [by apply (use_channel_sound signer)|].
    intros ch1 Hch1. by apply ensures_ret. }
  destruct (Hm b b' (Some ch) H) as [[H1 H2 H3 H4] H5]. done.
Qed.

End Run.
(* ------------------------------------------------------------------ *)
(** ** A run with an honest participant                                  *)
(* ------------------------------------------------------------------ *)

(** A world that delivers given messages and records what is sent. *)
Record Script `{U : UintCrate} : Type := mkScript {
  envelopes : list perunwire.Envelope;
  service_replies : list perunwire.Message;
  log : list Sent;
}.

Section Script.
Context `{Pl : Platform} `{U : UintCrate} `{S : Sha3Crate} `{I : SignerImpl}.

Definition logged (w : Script) (m : Sent) : Script := mkScript _ (envelopes w) (service_replies w) (log w ++ [m]).

#[export] Instance Script_MessageBus : MessageBus Script := {|
  send_to_watcher := fun E m w => (logged w (ToWatcher m), Ok tt);
  send_to_funder := fun E m w => (logged w (ToFunder m), Ok tt);
  send_to_participant := fun E s r m w => (logged w (ToParticipant s r m), Ok tt);
|}.
#[export] Instance Script_PureBus : PureBus Script := {|
  sent := logged;
  watcher_ok := fun _ _ _ => eq_refl;
  funder_ok := fun _ _ _ => eq_refl;
  participant_ok := fun _ _ _ _ _ => eq_refl;
|}.

(** A receive with nothing left panics, as [read_exact] does at the end of a
    stream. *)
#[export] Instance Script_RecvBus : RecvBus Script := {|
  recv_envelope := fun E w =>
    match envelopes w with
    | e :: es => (mkScript _ es (service_replies w) (log w), Ok e)
    | [] => (w, Panic)
    end;
  recv_message := fun E w =>
    match service_replies w with
    | m :: ms => (mkScript _ (envelopes w) ms (log w), Ok m)
    | [] => (w, Panic)
    end;
|}.

Lemma sends_script (w : Script) l :
  sends w l = mkScript _ (envelopes w) (service_replies w) (log w ++ l).
Proof.
  revert w. induction l as [|m l IH]; intros w; [by destruct w; rewrite app_nil_r|].
  change (sends w (m :: l)) with (sends (logged w m) l). rewrite IH. cbn. by rewrite <- app_assoc.
Qed.

(** What is left to be received. *)
Definition inbox (w : Script) : list perunwire.Envelope * list perunwire.Message := (envelopes w, service_replies w).

Lemma inbox_sends w l : inbox (sends w l) = inbox w.
Proof. by rewrite sends_script. Qed.

(** An envelope with an acceptance of a state. *)
Definition acceptance_of (e : perunwire.Envelope) (id : Hash) (v : u64) (sig : Signature) : Prop :=
  perunwire.Envelope_msg e =
    Some (perunwire.Envelope_ChannelUpdateAccMsg (LedgerChannelUpdateAccepted_into
      (mkLedgerChannelUpdateAccepted id v sig))).

Lemma recv_envelope_next {E} e es ms w : inbox w = (e :: es, ms) ->
  exists w', @recv_envelope Script _ E w = (w', Ok e) /\ inbox w' = (es, ms).
Proof. destruct w as [es0 ms0 l]. intros [= -> ->]. by eexists. Qed.

Lemma recv_message_next {E} es m ms w : inbox w = (es, m :: ms) ->
  exists w', @recv_message Script _ E w = (w', Ok m) /\ inbox w' = (es, ms).
Proof. destruct w as [es0 ms0 l]. intros [= -> ->]. by eexists. Qed.

(** A computation that returns [x] with [i] left to be received. *)
Definition yields {E X} (m : M Script E X) (w : Script) (x : X) (i : list perunwire.Envelope * list perunwire.Message)
    : Prop := exists w', m w = (w', Ok x) /\ inbox w' = i.

Lemma yields_bind {E X Y} (m : M Script E X) (f : X -> M Script E Y) w x i y j :
  yields m w x i -> (forall w', inbox w' = i -> yields (f x) w' y j) -> yields (m ≫= f) w y j.
Proof.
  intros (w' & Hm & Hi) Hf. destruct (Hf w' Hi) as (w2 & H2 & Hj). exists w2.
  unfold mbind, M_bind. by rewrite Hm.
Qed.

Lemma yields_ret {E X} (x : X) w i : inbox w = i -> yields (E:=E) (mret x) w x i.
Proof. intros Hi. by exists w. Qed.

Lemma yields_lift {E X} (r : res E X) x w i : r = Ok x -> inbox w = i -> yields (mlift r) w x i.
Proof. intros -> Hi. by exists w. Qed.

Lemma yields_lift_bind {E X Y} (r : res E X) (f : X -> M Script E Y) w x y j :
  r = Ok x -> yields (f x) w y j -> yields (x ← mlift r; f x) w y j.
Proof. by intros ->. Qed.

Lemma yields_munwrap {E E' X} (m : M Script E' X) w x i : yields m w x i -> yields (E:=E) (munwrap m) w x i.
Proof. intros (w' & Hm & Hi). exists w'. unfold munwrap. by rewrite Hm. Qed.

Lemma yields_on_value {E E' V A} (m : M (V * Script) E' A) v v' a w w' i :
  m (v, w) = ((v', w'), Ok a) -> inbox w' = i -> yields (E:=E) (on_value m v) w v' i.
Proof. intros Hm Hi. exists w'. unfold on_value. by rewrite Hm. Qed.

Lemma yields_on_pure_value {E E' V A} (m : M V E' A) v v' a w i :
  m v = (v', Ok a) -> inbox w = i -> yields (E:=E) (on_pure_value m v) w v' i.
Proof. intros Hm Hi. exists w. unfold on_pure_value. by rewrite Hm. Qed.

Lemma yields_recv {E} w e es ms : inbox w = (e :: es, ms) -> yields (E:=E) recv_envelope w e (es, ms).
Proof. apply recv_envelope_next. Qed.

Lemma yields_reply {E} w es m ms : inbox w = (es, m :: ms) -> yields (E:=E) recv_message w m (es, ms).
Proof. apply recv_message_next. Qed.

End Script.

Section Completes.
Context `{Pl : Platform} `{U : UintCrate} `{UL : !UintLaws U} `{S : Sha3Crate} `{SL : !Sha3Laws S}.
Context `{I : SignerImpl} `{IL : !SignerLaws I}.

(** The other participant signs the state that is proposed. *)
Lemma propose_yields {E} ch st addr e es ms sig w :
  owned ch -> ac_part_idx ch = 0 -> valid_transition (ac_state ch) st ->
  to_vec (participants (ac_params ch)) !! 1%nat = Some addr -> signed_by (ac_signer ch) st addr sig ->
  acceptance_of e (id st) (version st) sig -> inbox w = (e :: es, ms) ->
  exists sigs, yields (E:=E) (update ← munwrap (ac_update ch st); handle_update_response ch update) w
    (set_state ch st sigs) (es, ms).
Proof.
  intros Ho H0 Hv Ha Hs He Hi.
  destruct (ac_update_ok ch st w Ho Hv) as (sigA & u & Hu & _ & Hnew).
  destruct (ChannelUpdate_new_ok (E:=ProposeUpdateError) ch st 0 sigA ltac:(lia)) as (u0 & Hu0 & Hid & Hst & Hvec).
  rewrite H0 in Hnew. rewrite Hnew in Hu0. injection Hu0 as <-.
  pose proof (valid_ensure Hv Hst Hid) as Hens. pose proof (vt_id _ _ Hv) as Hidst.
  destruct (cu_participant_accepted_ok ch u 1 (mkLedgerChannelUpdateAccepted (id st) (version st) sig) addr)
    as (sigs & Hacc & Hsigs); [done|lia|by rewrite Hid|by rewrite Hst|exact Ha|by rewrite Hst|by rewrite Hvec|].
  rewrite Hvec in Hsigs. cbn in Hsigs.
  set (u' := set_signatures u sigs) in *.
  assert (ensure_valid_channel u' ch = Ok tt) as Hens' by exact Hens.
  exists (mk_array [sigA; sig] eq_refl).
  eapply yields_bind.
  { apply yields_munwrap. eexists. split; [exact Hu|]. rewrite inbox_sends. exact Hi. }
  intros w1 H1. unfold handle_update_response.
  eapply yields_bind; [by apply yields_recv|]. intros w2 H2. unfold acceptance_of in He. rewrite He.
  eapply yields_bind; [apply yields_lift; [by rewrite update_acceptance_wire_roundtrip|exact H2]|]. intros w3 H3.
  eapply yields_bind; [by eapply yields_on_pure_value|]. intros w4 H4.
  pose proof (cu_apply_ok ch u' w4 (mk_array [sigA; sig] eq_refl) Hens' Hsigs) as Hap.
  change (cu_new_state u') with (cu_new_state u) in Hap. rewrite Hst in Hap.
  eapply yields_on_value; [exact Hap|exact H4].
Qed.

(** The states of the run. *)
Lemma go_next_state_ok {E} ch b0 b1 :
  is_final (ac_state ch) = false -> u64_val (version (ac_state ch)) + 1 < 2 ^ 64 ->
  channel_balances (ac_state ch) = [[b0; b1]] -> b0 + b1 < 2 ^ 256 -> 0 <= b0 -> 10 <= b1 ->
  exists st, @go_next_state _ _ _ E ch = Ok st /\ valid_transition (ac_state ch) st /\
    is_final st = false /\ u64_val (version st) = u64_val (version (ac_state ch)) + 1 /\
    channel_balances st = [[b0 + 10; b1 - 10]].
Proof.
  intros Hf Hv Hb Hfit H0 H1. destruct (channel_balances_2 _ _ Hb) as (pb & x & y & Hpb & Hxy & [= -> ->]).
  pose proof (u64_add_ok (E:=E) (version (ac_state ch)) (u64_wrap 1) Hv) as Hadd.
  set (v := u64_wrap (u64_val (version (ac_state ch)) + _)) in Hadd.
  set (next := mkState (id (ac_state ch)) v (outcome (ac_state ch)) (app_data (ac_state ch)) (is_final (ac_state ch))).
  assert (@make_next_state _ _ E _ _ (ac_state ch) = Ok next) as Hn by (unfold make_next_state; by rewrite Hadd).
  assert (u64_val v = u64_val (version (ac_state ch)) + 1) as Hvv.
  { unfold v. rewrite u64_wrap_val; [done|]. pose proof (u64_range (version (ac_state ch))) as Hr. unfold fits in Hr.
    change (u64_val (u64_wrap 1)) with 1. lia. }
  rewrite (go_next_state_start ch next pb x y Hn Hpb Hxy).
  pose proof (u256_add_spec E x (U256_from 10)) as Ha. pose proof (u256_sub_spec E y (U256_from 10)) as Hs.
  rewrite u256_from_val in Ha, Hs by (unfold fits; lia).
  destruct (U256_add x _) as [x'|e|]; [|done|lia]. cbn [mbind res_bind].
  destruct (U256_sub y _) as [y'|e|]; [|done|lia]. cbn [mbind res_bind].
  eexists. split; [done|]. pose proof (asset_sums_pair (outcome (ac_state ch)) pb x y Hpb Hxy) as Hold.
  split; [|split; [exact Hf|split; [exact Hvv|]]].
  - split; [done|done|by eapply u64_add_retype|done| |].
    + rewrite (asset_sums_pair _ (mkParticipantBalances (mk_array [x'; y'] eq_refl)) x' y') by done.
      rewrite Hold. f_equal. lia.
    + rewrite Hold. by constructor.
  - unfold channel_balances, with_balances. cbn. by rewrite Ha, Hs.
Qed.

(** The final state of [close_normal]. *)
Lemma close_state_ok {E} ch b0 b1 :
  is_final (ac_state ch) = false -> u64_val (version (ac_state ch)) + 1 < 2 ^ 64 ->
  channel_balances (ac_state ch) = [[b0; b1]] -> b0 + b1 < 2 ^ 256 ->
  exists next, @make_next_state _ _ E _ _ (ac_state ch) = Ok next /\
    let st := mkState (id next) (version next) (outcome next) (app_data next) true in
    valid_transition (ac_state ch) st /\ u64_val (version st) = u64_val (version (ac_state ch)) + 1 /\
    channel_balances st = [[b0; b1]].
Proof.
  intros Hf Hv Hb Hfit. destruct (channel_balances_2 _ _ Hb) as (pb & x & y & Hpb & Hxy & [= -> ->]).
  pose proof (u64_add_ok (E:=E) (version (ac_state ch)) (u64_wrap 1) Hv) as Hadd.
  set (v := u64_wrap (u64_val (version (ac_state ch)) + _)) in Hadd.
  exists (mkState (id (ac_state ch)) v (outcome (ac_state ch)) (app_data (ac_state ch)) (is_final (ac_state ch))).
  split; [unfold make_next_state; by rewrite Hadd|]. cbn zeta. split; [|split].
  - split; [done|done|by eapply u64_add_retype|done|done|].
    rewrite (asset_sums_pair (outcome (ac_state ch)) pb x y Hpb Hxy). by constructor.
  - cbn [version]. unfold v. rewrite u64_wrap_val; [done|].
    pose proof (u64_range (version (ac_state ch))) as Hr. unfold fits in Hr.
    change (u64_val (u64_wrap 1)) with 1. lia.
  - exact Hb.
Qed.

Lemma propose_yields_channel {E} signer prop receiver w i :
  check_valid_proposal prop = Ok tt -> inbox w = i ->
  yields (E:=E) (munwrap (propose_channel (PerunClient_new signer) prop receiver)) w
    (ProposedChannel_new signer 0 receiver prop) i.
Proof.
  intros Hc Hi. apply yields_munwrap. eexists.
  split; [|etransitivity; [apply (inbox_sends w (broadcast_messages 0 (prop_peers prop) (ChannelProposal
    prop)))|exact Hi]].
  unfold propose_channel. rewrite Hc. mrun. apply check_valid_proposal_Ok in Hc as [_ Hp].
  by erewrite M_bind_ok by (apply broadcast_ok; lia).
Qed.

(** The second phase with the signature of the other participant. *)
Lemma sign_and_fund_yields {E} pc acc :
  pc_owned pc -> to_vec (pc_responses pc) = [Some acc] -> address (pc_signer pc) <> acc_participant acc ->
  exists nonce, let params := channel_params (pc_proposal pc) acc nonce in
    let st0 := initial_state (pc_proposal pc) params in
    forall sig e es m ms w, signed_by (pc_signer pc) st0 (acc_participant acc) sig ->
      acceptance_of e (id st0) (version st0) sig -> inbox w = (e :: es, m :: ms) ->
      exists ch, yields (E:=E) (sign_and_fund pc) w (Some ch) (es, ms) /\ owned ch /\ ac_part_idx ch = 0 /\
        ac_signer ch = pc_signer pc /\ ac_state ch = st0 /\ ac_params ch = params.
Proof.
  intros [H0 Hp Hv Ha] Hr Hne. destruct (pc_build_accepted pc acc Hr) as (nonce & _ & Hb). exists nonce.
  cbn zeta in *. intros sig e es m ms w Hs He Hi. unfold sign_and_fund.
  set (params := channel_params _ _ _) in *. set (st0 := initial_state _ _) in *.
  set (au0 := AgreedUponChannel_new _ _ _ _ _ _ _) in Hb.
  assert (au_owned au0) as Ho by (split; cbn; rewrite ?H0; [lia|done|done|by rewrite Ha]).
  destruct (sign_ok au0 w Ho) as (sigA & sigs & Hsign & Hvec & _); [cbn; by rewrite H0|].
  cbn [au_part_idx au0 AgreedUponChannel_new] in Hvec. rewrite H0 in Hvec. cbn in Hvec.
  set (au1 := au_set_signatures au0 sigs) in *.
  destruct (add_signature_ok au1 (mkLedgerChannelUpdateAccepted (id st0) (version st0) sig) 1 (acc_participant acc))
    as (sigs2 & Hadd & Hvec2); [done|done|exact Hs| |done|cbn; by rewrite Hvec|].
  { cbn. rewrite Ha. constructor; [by intros Hin%list_elem_of_singleton|]. apply list.NoDup_singleton. }
  cbn [au_signatures au1 au_set_signatures] in Hvec2. rewrite Hvec in Hvec2. cbn in Hvec2.
  set (au2 := au_set_signatures au1 sigs2) in *.
  exists (opened au2 (mk_array [sigA; sig] eq_refl)). split; [|split; [by apply opened_owned; destruct Ho|done]].
  apply (yields_lift_bind _ _ _ au0); [by rewrite Hb|].
  eapply yields_bind; [eapply yields_on_value; [exact Hsign|rewrite inbox_sends; exact Hi]|]. intros w1 H1.
  eapply yields_bind; [by apply yields_recv|]. intros w2 H2.
  unfold acceptance_of in He. rewrite He.
  eapply yields_bind; [apply yields_lift; [by rewrite update_acceptance_wire_roundtrip|exact H2]|]. intros w3 H3.
  eapply yields_bind; [eapply yields_on_pure_value; [exact Hadd|exact H3]|]. intros w4 H4.
  eapply yields_bind.
  { apply yields_munwrap. eexists. split; [|etransitivity; [apply inbox_sends|exact H4]].
    apply (au_build_ok au2 w4 (mk_array [sigA; sig] eq_refl)); [cbn; lia|exact Hvec2]. }
  intros w5 H5. eapply yields_bind; [by apply yields_reply|]. intros w6 H6. by apply yields_ret.
Qed.

(** The first phase too. *)
Lemma open_channel_yields {E} signer addr id share shareB receiver :
  valid_signer signer -> address signer <> addr ->
  let prop := go_proposal id share (address signer) in
  let acc := mkLedgerChannelProposalAcc id shareB addr in
  exists nonce, let params := channel_params prop acc nonce in let st0 := initial_state prop params in
    forall sig e1 e es m ms w,
      perunwire.Envelope_msg e1 =
        Some (perunwire.Envelope_LedgerChannelProposalAccMsg (LedgerChannelProposalAcc_into acc)) ->
      signed_by signer st0 addr sig -> acceptance_of e (Payment.id st0) (version st0) sig ->
      inbox w = (e1 :: e :: es, m :: ms) ->
      exists ch, yields (E:=E) (open_channel (PerunClient_new signer) prop receiver) w (Some ch) (es, ms) /\
        owned ch /\ ac_part_idx ch = 0 /\ ac_signer ch = signer /\ ac_state ch = st0 /\ ac_params ch = params.
Proof.
  intros Hv Hne prop acc. set (pc := ProposedChannel_new signer 0 receiver prop).
  set (pc' := pc_set_responses pc (mk_array [Some acc] eq_refl)).
  assert (pc_owned pc') as Hown by by split.
  destruct (sign_and_fund_yields (E:=E) pc' acc Hown eq_refl Hne) as (nonce & Hy). exists nonce. cbn zeta in *.
  intros sig e1 e es m ms w He1 Hs He Hi.
  assert (check_valid_proposal prop = Ok tt) as Hc by by apply check_valid_proposal_Ok.
  destruct (propose_yields_channel (E:=E) signer prop receiver w _ Hc Hi) as (w1 & Hw1 & Hi1).
  destruct (recv_envelope_next (E:=E) e1 _ _ w1 Hi1) as (w2 & Hw2 & Hi2).
  destruct (Hy sig e es m ms w2 Hs He Hi2) as (ch & (w3 & Hw3 & Hi3) & Hrest).
  exists ch. split; [|exact Hrest]. exists w3. split; [|exact Hi3].
  unfold open_channel. erewrite M_bind_ok by exact Hw1. erewrite M_bind_ok by exact Hw2. rewrite He1.
  rewrite acceptance_wire_roundtrip. erewrite M_bind_lift_ok by reflexivity.
  erewrite M_bind_ok; [exact Hw3|]. unfold on_pure_value. rewrite pc_participant_accepted_1.
  rewrite decide_False by (by intros []). reflexivity.
Qed.

Lemma go_next_state_ext {E} ch ch' :
  ac_state ch = ac_state ch' -> @go_next_state _ _ _ E ch = @go_next_state _ _ _ E ch'.
Proof. intros Hs. unfold go_next_state. by rewrite Hs. Qed.

(** The channel is used with a participant who signs both states. *)
Lemma use_channel_yields {E} signer st0 params :
  is_final st0 = false -> u64_val (version st0) = 0 -> channel_balances st0 = [[stake; stake]] ->
  exists st1 st2, u64_val (version st2) = 2 /\ is_final st2 = true /\
    channel_balances st2 = [[stake + 10; stake - 10]] /\
    forall ch addr sig1 sig2 e1 e2 es m ms w,
      owned ch -> ac_part_idx ch = 0 -> ac_signer ch = signer -> ac_state ch = st0 -> ac_params ch = params ->
      to_vec (participants params) !! 1%nat = Some addr ->
      signed_by signer st1 addr sig1 -> signed_by signer st2 addr sig2 ->
      acceptance_of e1 (id st1) (version st1) sig1 -> acceptance_of e2 (id st2) (version st2) sig2 ->
      inbox w = (e1 :: e2 :: es, m :: ms) ->
      exists ch', yields (E:=E) (use_channel ch) w ch' (es, ms) /\ owned ch' /\ ac_state ch' = st2.
Proof.
  intros Hf Hv0 Hb.
  set (chx st := mkActiveChannel 0 Address_default signer st params (array_repeat PARTICIPANTS Signature_default) []).
  assert (stake = 1000000000000000000) as Hstake by done.
  destruct (go_next_state_ok (E:=E) (chx st0) stake stake Hf) as (st1 & Hn1 & Ht1 & Hf1 & Hv1 & Hb1);
    [cbn [ac_state chx]; lia|exact Hb|lia..|].
  cbn [ac_state chx] in *. rewrite Hv0 in Hv1.
  destruct (close_state_ok (E:=ProposeUpdateError) (chx st1) (stake + 10) (stake - 10) Hf1)
    as (next & Hn2 & Ht2 & Hv2 & Hb2); [cbn [ac_state chx]; lia|exact Hb1|lia|].
  cbn [ac_state chx] in *. set (st2 := mkState (id next) (version next) (outcome next) (app_data next) true) in *.
  exists st1, st2. split; [lia|]. split; [done|]. split; [exact Hb2|].
  intros ch addr sig1 sig2 e1 e2 es m ms w Ho Hi Hsg Hst Hps Ha Hs1 Hs2 He1 He2 Hin. subst params signer.
  rewrite <- Hst in Ht1.
  destruct (propose_yields (E:=E) ch st1 addr e1 (e2 :: es) (m :: ms) sig1 w Ho Hi Ht1 Ha Hs1 He1 Hin)
    as (sigs1 & w1 & H1 & Hi1).
  set (ch1 := set_state ch st1 sigs1) in *.
  assert (owned ch1) as Ho1 by by destruct Ho.
  destruct (propose_yields (E:=E) ch1 st2 addr e2 es (m :: ms) sig2 w1 Ho1 Hi Ht2 Ha Hs2 He2 Hi1)
    as (sigs2 & w2 & H2 & Hi2).
  set (ch2 := set_state ch1 st2 sigs2) in *.
  assert (owned ch2) as Ho2 by by destruct Ho1.
  assert ((update ← munwrap (close_normal ch1); handle_update_response ch1 update) w1 = (w2, @Ok E _ ch2)) as H2'.
  { rewrite <- H2. unfold mbind, M_bind, munwrap. do 2 f_equal. unfold close_normal.
    change (ac_state ch1) with st1. by rewrite Hn2. }
  destruct (recv_message_next (E:=E) es m ms (logged w2 (ToFunder (RegisterReqMsg (mkRegisterReq
    (make_adjudicator_req ch2)))))) as (w3 & H3 & Hi3); [exact Hi2|].
  exists ch2. split; [|by split]. exists w3. split; [|exact Hi3].
  unfold use_channel. rewrite (go_next_state_ext (E:=E) ch (chx st0)) by exact Hst.
  erewrite M_bind_lift_ok by exact Hn1. rewrite (M_bind_assoc_ok _ _ _ _ _ _ H1). unfold NORMAL_CLOSE, SEND_DISPUTE.
  erewrite M_bind_ok; [reflexivity|]. rewrite (M_bind_assoc_ok _ _ _ _ _ _ H2').
  erewrite M_bind_ok by (unfold munwrap; by rewrite force_close_ok). by erewrite M_bind_ok by exact H3.
Qed.

(** The whole program, with an honest participant. *)
Lemma main_yields {R} `{HR : !RngCore R} {E} (rng : R) (signer : Signer) (addr : Address) (shareB : NonceShare) :
  valid_signer signer -> address signer <> addr ->
  let proposal_id := (gen_bytes32 rng).2 in
  exists st0 st1 st2,
    channel_balances st0 = [[stake; stake]] /\ is_final st0 = false /\
    channel_balances st2 = [[stake + 10; stake - 10]] /\ is_final st2 = true /\ u64_val (version st2) = 2 /\
    forall sig0 sig1 sig2 e0 e1 e2 e3 e4 m1 m2 w,
      perunwire.Envelope_msg e1 = Some (perunwire.Envelope_LedgerChannelProposalAccMsg
        (LedgerChannelProposalAcc_into (mkLedgerChannelProposalAcc proposal_id shareB addr))) ->
      signed_by signer st0 addr sig0 -> acceptance_of e2 (id st0) (version st0) sig0 ->
      signed_by signer st1 addr sig1 -> acceptance_of e3 (id st1) (version st1) sig1 ->
      signed_by signer st2 addr sig2 -> acceptance_of e4 (id st2) (version st2) sig2 ->
      inbox w = ([e0; e1; e2; e3; e4], [m1; m2]) ->
      exists ch, yields (E:=E) (main rng signer) w (Some ch) ([], []) /\ owned ch /\ ac_state ch = st2.
Proof.
  intros Hv Hne proposal_id. unfold main, proposal_id. destruct (gen_bytes32 rng) as [rng1 pid]. cbn [snd].
  destruct (gen_bytes32 rng1) as [rng2 share].
  destruct (open_channel_yields (E:=E) signer addr pid share shareB (withdraw_receiver read_config) Hv Hne)
    as (nonce & Hopen). cbn zeta in Hopen.
  set (params := channel_params _ _ nonce) in Hopen. set (st0 := initial_state _ params) in Hopen.
  assert (channel_balances st0 = [[stake; stake]]) as Hb0.
  { unfold channel_balances. cbn. rewrite !u256_from_val by (unfold fits; lia). done. }
  destruct (use_channel_yields (E:=E) signer st0 params eq_refl eq_refl Hb0) as (st1 & st2 & Hv2 & Hf2 & Hb2 & Huse).
  exists st0, st1, st2. split; [exact Hb0|]. split; [done|]. split; [exact Hb2|]. split; [exact Hf2|].
  split; [exact Hv2|]. intros sig0 sig1 sig2 e0 e1 e2 e3 e4 m1 m2 w He1 Hs0 He2 Hs1 He3 Hs2 He4 Hin.
  destruct (recv_envelope_next (E:=E) e0 _ _ (logged w (ToParticipant (nth 0 get_peers []) (nth 1 get_peers [])
    Auth)) Hin)
    as (w1 & H1 & Hi1).
  destruct (Hopen sig0 e1 e2 [e3; e4] m1 [m2] w1 He1 Hs0 He2 Hi1)
    as (ch0 & (w2 & H2 & Hi2) & Ho & Hidx & Hsg & Hst & Hps).
  destruct (Huse ch0 addr sig1 sig2 e3 e4 [] m2 [] w2 Ho Hidx Hsg Hst Hps eq_refl Hs1 Hs2 He3 He4 Hi2)
    as (ch & (w3 & H3 & Hi3) & Ho' & Hst').
  exists ch. split; [|by split]. exists w3. split; [|exact Hi3].
  erewrite M_bind_lift_ok by reflexivity. cbn beta. erewrite M_bind_lift_ok by reflexivity. cbn beta.
  erewrite M_bind_ok by reflexivity.
  etransitivity; [exact (M_bind_ok _ _ _ _ _ H1)|]. cbn beta.
  erewrite M_bind_ok by exact H2. cbn beta iota. by erewrite M_bind_ok by exact H3.
Qed.


(** C19: with a participant who accepts the proposal and signs the three states,
    and a service that answers, the example runs to its end without a panic: it
    takes every message there is and ends with its own end of the channel in a
    final state of version two, ten wei having moved to it. *)
Theorem go_run_completes {R} `{HR : !RngCore R} {E} (rng : R) (signer : Signer) (addr : Address) (shareB : NonceShare) :
  valid_signer signer -> address signer <> addr ->
  let proposal_id := (gen_bytes32 rng).2 in
  exists st0 st1 st2,
    channel_balances st0 = [[stake; stake]] /\ is_final st0 = false /\
    channel_balances st2 = [[stake + 10; stake - 10]] /\ is_final st2 = true /\ u64_val (version st2) = 2 /\
    forall sig0 sig1 sig2 e0 e1 e2 e3 e4 m1 m2 w,
      perunwire.Envelope_msg e1 = Some (perunwire.Envelope_LedgerChannelProposalAccMsg
        (LedgerChannelProposalAcc_into (mkLedgerChannelProposalAcc proposal_id shareB addr))) ->
      signed_by signer st0 addr sig0 -> acceptance_of e2 (id st0) (version st0) sig0 ->
      signed_by signer st1 addr sig1 -> acceptance_of e3 (id st1) (version st1) sig1 ->
      signed_by signer st2 addr sig2 -> acceptance_of e4 (id st2) (version st2) sig2 ->
      inbox w = ([e0; e1; e2; e3; e4], [m1; m2]) ->
      exists ch w', main (E:=E) rng signer w = (w', Ok (Some ch)) /\ inbox w' = ([], []) /\ owned ch /\
        ac_state ch = st2.
Proof.
  intros Hv Hne proposal_id.
  destruct (main_yields (E:=E) rng signer addr shareB Hv Hne) as (st0 & st1 & st2 & H0 & H1 & H2 & H3 & H4 & H).
  exists st0, st1, st2. do 5 (split; [assumption|]). intros sig0 sig1 sig2 e0 e1 e2 e3 e4 m1 m2 w He1 Hs0 He2
    Hs1 He3 Hs2 He4 Hin.
  destruct (H _ _ _ _ _ _ _ _ _ _ _ He1 Hs0 He2 Hs1 He3 Hs2 He4 Hin) as (ch & (w' & Hw & Hi) & Ho & Hst).
  by exists ch, w'.
Qed.

End Completes.
