(* ===== verification/Samples.v ===== *)
(** * A concrete channel

    Two participants with concrete signers, the parameters and states of a
    channel between them, both ends of the channel, and a run of an update that
    closes it.  The theorems about channels are applied to them in
    Witnesses.v. *)
From stdpp Require Import relations.
From S2P Require Import Prelude AbiSpec AbiSer Types Instances PerunWire Payment.
From S2P Require Import PaymentTheorems Sig Messages Wire ChannelTypes Active Proposal.
From S2P Require Import ActiveTheorems ChannelSystem OpeningTheorems.

Module Samples.
Export PaymentSamples ToyK256.
#[export] Existing Instance K256.k256_signer.

(** The two signers. *)
Definition key_address (k : bool) : Address :=
  match K256.Address_from_verifying_key (E:=unit) k with Ok a => a | _ => Address_default end.
Definition signer_of (k : bool) : Signer := K256.mkSigner k (key_address k).
Definition alice : Signer := signer_of true.
Definition bob : Signer := signer_of false.

Lemma valid_signer_of k : valid_signer (signer_of k).
Proof. destruct k; reflexivity. Qed.

Lemma alice_not_bob : address alice <> address bob.
Proof.
  intros H. apply (f_equal (fun a => address_val a)) in H. vm_compute in H. discriminate.
Qed.

(** The channel between them. *)
Definition peers : Peers := [[x01]; [x02]].
Definition params : Params PARTICIPANTS :=
  mkParams (u64_of 60) (wrap 99) (mk_array [address alice; address bob] eq_refl) Address_default true false.
Definition state_with (v : Z) (a : Allocation ASSETS PARTICIPANTS) (final : bool) : State ASSETS PARTICIPANTS :=
  mkState (array_repeat 32 x2a) (u64_of v) a (mk_array [] eq_refl) final.
Definition state0 : State ASSETS PARTICIPANTS := state_with 0 native_allocation false.
(** The same funds, closed. *)
Definition state1 : State ASSETS PARTICIPANTS := state_with 1 native_allocation true.

Definition sig_of (s : Signer) (st : State ASSETS PARTICIPANTS) : Signature :=
  match @sign_eth _ unit s (state_digest st) with Ok sig => sig | _ => Signature_default end.

Lemma sig_of_signed s s' st : valid_signer s -> signed_by s' st (address s) (sig_of s st).
Proof.
  intros Hv. destruct (sign_recover unit s s' (state_digest st) Hv) as (sig & Hs & Hr).
  unfold sig_of, signed_by. rewrite Hs. exact Hr.
Qed.

Definition end_of (i : PartIdx) (s : Signer) : ActiveChannel :=
  mkActiveChannel i Address_default s state0 params
    (mk_array [sig_of alice state0; sig_of bob state0] eq_refl) peers.
Definition chA : ActiveChannel := end_of 0 alice.
Definition chB : ActiveChannel := end_of 1 bob.

Lemma owned_A : owned chA.
Proof. split; [done|done|apply valid_signer_of|done]. Qed.
Lemma owned_B : owned chB.
Proof. split; [done|done|apply valid_signer_of|done]. Qed.

Lemma signed_end i s : fully_signed (end_of i s).
Proof.
  intros [|[|n]] sig Hi; cbn in Hi; simplify_eq; eexists; (split; [reflexivity|]);
    apply sig_of_signed, valid_signer_of.
Qed.

Lemma ends : channel_ends chA chB.
Proof. split; [apply owned_A|apply owned_B|done|done|done]. Qed.

Lemma valid_state1 : valid_transition state0 state1.
Proof.
  split; [reflexivity..|]. replace (asset_sums (outcome state0)) with [30]; [by constructor|].
  vm_compute. reflexivity.
Qed.

Lemma transition_A : check_valid_transition chA state1 = Ok tt.
Proof. apply check_valid_transition_Ok, valid_state1. Qed.
Lemma transition_B : check_valid_transition chB state1 = Ok tt.
Proof. apply check_valid_transition_Ok, valid_state1. Qed.

(** The update Bob proposes, as Alice receives it. *)
Definition update_msg (i : PartIdx) : LedgerChannelUpdate := mkLedgerChannelUpdate state1 i (sig_of bob state1).

Lemma handled : exists u, handle_update chA (update_msg 1) = Ok u /\ cu_channel_id u = id state0 /\
  cu_new_state u = state1 /\ to_vec (cu_signatures u) = [None; Some (sig_of bob state1)].
Proof.
  apply (handle_update_ok chA (update_msg 1) (address bob));
    [apply valid_state1|done|done|apply sig_of_signed, valid_signer_of].
Qed.

(** Alice receives the update, accepts and applies it. *)
Definition start : sys := mkSys chA [] ([] : list Sent).

Lemma closing_run :
  exists s1 s2, rtc step start s1 /\ step s1 s2 /\ rtc step start s2 /\
    ac_state (sys_channel s1) = state0 /\ ac_state (sys_channel s2) = state1 /\
    sys_pending s2 <> [].
Proof.
  destruct handled as (u & Hu & Hid & Hst & Hsig).
  assert (ensure_valid_channel u chA = Ok tt) as He.
  { apply ensure_valid_channel_Ok. split; [by rewrite Hst|exact Hid]. }
  destruct (cu_accept_ok chA u ([] : list Sent) owned_A He) as (sig & sigs & Ha & Hvec & _).
  { by rewrite Hsig. }
  rewrite Hsig in Hvec. cbn in Hvec.
  set (u' := set_signatures u sigs) in *. set (b := sends _ _) in Ha.
  pose proof (cu_apply_ok chA u' b (mk_array [sig; sig_of bob state1] eq_refl) He Hvec) as Hap.
  assert (rtc step start (mkSys chA [u'] b)) as H1.
  { eapply rtc_l; [apply (step_handle_update chA [] [] (update_msg 1) u Hu)|].
    apply rtc_once. refine (step_accept chA [] u u' [] [] b _ Ha _); done. }
  assert (step (mkSys chA [u'] b)
    (mkSys (set_state chA (cu_new_state u') (mk_array [sig; sig_of bob state1] eq_refl)) [u']
      (sent b (ToWatcher (WatchRequest (mkStartWatchingLedgerChannelReq (ac_params chA) (cu_new_state u')
        (mk_array [sig; sig_of bob state1] eq_refl))))))) as H2.
  { refine (step_apply chA _ [] u' [] b _ _ Hap _); done. }
  do 2 eexists. split; [exact H1|]. split; [exact H2|]. split; [by eapply rtc_r|].
  split; [done|]. by split.
Qed.

(** The proposal of the channel. *)
Definition proposal_with (duration : Z) (ps : Peers) : LedgerChannelProposal :=
  mkLedgerChannelProposal (array_repeat 32 x05) (u64_of duration) (array_repeat 32 x06) native_allocation
    sample_balances (address alice) ps.
Definition proposal : LedgerChannelProposal := proposal_with 60 peers.
Lemma valid_proposal : check_valid_proposal proposal = Ok tt.
Proof. apply check_valid_proposal_Ok. by split. Qed.

Definition share : NonceShare := array_repeat 32 x07.
Definition clA : PerunClient := PerunClient_new alice.
Definition clB : PerunClient := PerunClient_new bob.

(** An agreed-upon channel, without and with the signatures. *)
Definition au_with (sigs : array (option Signature) PARTICIPANTS) : AgreedUponChannel :=
  mkAgreedUponChannel 0 Address_default alice sample_balances state0 params sigs peers.
Definition au_unsigned : AgreedUponChannel := au_with (mk_array [None; None] eq_refl).
Definition au_complete : AgreedUponChannel :=
  au_with (mk_array [Some (sig_of alice state0); Some (sig_of bob state0)] eq_refl).

Lemma au_unsigned_signed : au_signed au_unsigned.
Proof. intros [|[|n]] sig Hi; cbn in Hi; simplify_eq. Qed.

Lemma au_complete_signed : au_signed au_complete.
Proof.
  intros [|[|n]] sig Hi; cbn in Hi; simplify_eq; eexists; (split; [reflexivity|]);
    apply sig_of_signed, valid_signer_of.
Qed.

End Samples.
