(* ===== verification/Witnesses.v ===== *)
(** * The theorems about channels at a concrete channel

    Every theorem about channels that has hypotheses, applied to the channel of
    Samples.v, where the hypotheses hold. *)
From stdpp Require Import relations.
From S2P Require Import Prelude AbiSpec AbiSer Types Instances PerunWire Payment.
From S2P Require Import PaymentTheorems Sig Messages Wire WireTheorems ChannelTypes Active.
From S2P Require Import Proposal ActiveTheorems ChannelSystem OpeningTheorems DemoChannel.
From S2P Require Import BusRefinement DemoTheorems Samples.
Import Samples.

(** ** The network *)

(** Messages that are their own encoding. *)
#[local] Instance bytes_ProstMessage : ProstMessage bytes := fun b => b.

Example frames_self_delimiting_witness :
  prost_encode [x01; x02] = prost_encode [x01; x02] /\ [x09] = [x09].
Proof.
  apply (frames_self_delimiting (E:=unit) [x01; x02] [x01; x02] [x00; x02; x01; x02] [x00; x02; x01; x02]
    [x09] [x09]); reflexivity.
Defined.

Example watch_request_wire_roundtrip_witness :
  let r := mkStartWatchingLedgerChannelReq params state0 (ac_signatures chA) in
  (StartWatchingLedgerChannelReq_into r ≫= StartWatchingLedgerChannelReq_try_from) = Ok r.
Proof.
  apply (watch_request_wire_roundtrip (mkStartWatchingLedgerChannelReq params state0 (ac_signatures chA)));
    [reflexivity|repeat constructor].
Defined.

(** ** Active channels *)



Example handle_update_panics_on_actor_idx_witness : handle_update chA (update_msg 7) = Panic.
Proof.
  apply (handle_update_panics_on_actor_idx chA (update_msg 7) (address bob)).
  - apply transition_A.
  - apply sig_of_signed, valid_signer_of.
  - done.
Defined.

Example update_protocol_completes_witness :
  exists uA uB sig bA,
    ac_update chA state1 ([] : list Sent) = (bA, Ok uA) /\
    handle_update chB (mkLedgerChannelUpdate state1 0 sig) = Ok uB.
Proof.
  destruct (update_protocol_completes chA chB ([] : list Sent) ([] : list Sent) state1 ends transition_A)
    as (sigA & sigB & uA & uA' & uB & uB' & bA & bB & H1 & H2 & _).
  exists uA, uB, sigA. eexists. split; [exact H1|exact H2].
Defined.

(** ** The state machine *)

Example reachable_conserves_funds_witness :
  exists s, rtc step start s /\ ac_state (sys_channel s) = state1 /\
    asset_sums (outcome (ac_state (sys_channel s))) = asset_sums (outcome state0).
Proof.
  destruct closing_run as (s1 & s2 & _ & _ & Hr & _ & Hst & _). exists s2. split; [exact Hr|]. split; [exact Hst|].
  destruct (reachable_conserves_funds chA [] s2 owned_A (signed_end 0 alice) Hr) as (_ & _ & _ & H). exact H.
Defined.

Example reachable_fully_signed_witness :
  exists s sig, rtc step start s /\ ac_state (sys_channel s) = state1 /\
    to_vec (ac_signatures (sys_channel s)) !! 1%nat = Some sig /\
    recover_signer alice (state_digest (ac_state (sys_channel s))) sig = Ok (address bob).
Proof.
  destruct closing_run as (s1 & s2 & _ & _ & Hr & _ & Hst & _).
  destruct (reachable_fully_signed chA [] s2 1 (address bob) owned_A (signed_end 0 alice) Hr eq_refl)
    as (sig & Hsig & Hrec).
  exists s2, sig. split; [exact Hr|]. split; [exact Hst|]. split; [exact Hsig|exact Hrec].
Defined.

Example step_advances_version_witness :
  exists s1 s2, step s1 s2 /\ ac_state (sys_channel s1) = state0 /\ ac_state (sys_channel s2) = state1 /\
    @u64_add _ InvalidChannel (version state0) (u64_wrap 1) = Ok (version state1).
Proof.
  destruct closing_run as (s1 & s2 & _ & Hs & _ & H1 & H2 & _). exists s1, s2.
  split; [exact Hs|]. split; [exact H1|]. split; [exact H2|].
  destruct (step_advances_version s1 s2 Hs) as [He|[Hv _]].
  - exfalso. rewrite He, H1 in H2. apply (f_equal is_final) in H2. cbn in H2. discriminate.
  - rewrite H1, H2 in Hv. exact Hv.
Defined.


(** ** Opening *)

Example handle_proposal_accepts_invalid_witness :
  check_valid_proposal (proposal_with 60 [[x01]]) <> Ok tt /\
  exists pc pc', handle_proposal clB (proposal_with 60 [[x01]]) Address_default = Ok pc /\
    pc_accept share (address bob) (pc, [] : list Sent) = ((pc', []), Panic).
Proof. apply (handle_proposal_accepts_invalid clB); reflexivity. Defined.

Example accept_never_refuses_witness :
  (pc_accept share (address alice) (ProposedChannel_new alice 0 Address_default proposal, [] : list Sent)).2 = Panic.
Proof.
  assert (2 <= zlen (prop_peers proposal)) as Hp by discriminate.
  destruct (accept_never_refuses (ProposedChannel_new alice 0 Address_default proposal) share
    (address alice) ([] : list Sent) Hp) as [H _]. rewrite (H eq_refl). reflexivity.
Defined.

Example proposal_build_spec_witness :
  exists au, pc_build (pc_set_responses (ProposedChannel_new alice 0 Address_default proposal)
    (mk_array [Some (mkLedgerChannelProposalAcc (prop_proposal_id proposal) share (address bob))] eq_refl)) = Ok au /\
    to_vec (participants (au_params au)) = [address alice; address bob].
Proof.
  destruct (proposal_build_spec (pc_set_responses (ProposedChannel_new alice 0 Address_default proposal)
    (mk_array [Some (mkLedgerChannelProposalAcc (prop_proposal_id proposal) share (address bob))] eq_refl)))
    as (au & Hb & _ & Hp & _).
  exists au. split; [exact Hb|exact Hp].
Defined.

Example add_signature_only_verified_witness :
  au_signed (add_signature (mkLedgerChannelUpdateAccepted (id state0) (version state0) (sig_of bob state0))
    au_unsigned).1.
Proof.
  set (msg := mkLedgerChannelUpdateAccepted _ _ _).
  destruct (add_signature msg au_unsigned) as [au' r] eqn:Ha.
  exact (proj1 (add_signature_only_verified au_unsigned au' msg r au_unsigned_signed Ha)).
Defined.

Example opened_channel_fully_signed_witness :
  exists (b : list Sent) sc, au_build au_complete [] = (b, Ok sc) /\ fully_signed (mark_funded sc).
Proof.
  set (sigs := mk_array [sig_of alice state0; sig_of bob state0] eq_refl : array Signature PARTICIPANTS).
  assert (0 <= au_part_idx au_complete < 2) as Hp by (split; done).
  pose proof (au_build_ok au_complete ([] : list Sent) sigs Hp eq_refl) as Hb.
  do 2 eexists. split; [exact Hb|].
  exact (proj1 (opened_channel_fully_signed au_complete _ _ _ Hp au_complete_signed Hb)).
Defined.


(** ** The demo's channel *)

Definition demo_active : Channel := mkChannel (DemoChannel.Active chA None).

Lemma demo_active_ok : inner_ok (inner demo_active).
Proof. split; [apply owned_A|]. split; [apply signed_end|done]. Qed.

Lemma demo_sample_step : exists s, rtc demo_step (demo_active, [] : list Sent) s /\ inner s.1 = ForceClosing.
Proof.
  eexists. split.
  - apply rtc_once. exists (Ok tt). split; [apply call_force_close; reflexivity|done].
  - reflexivity.
Qed.

Example demo_channel_stays_valid_witness :
  exists s, rtc demo_step (demo_active, [] : list Sent) s /\ inner s.1 <> TemporaryInvalidState.
Proof.
  destruct demo_sample_step as (s & Hr & _). exists s. split; [exact Hr|].
  exact (proj1 (demo_channel_stays_valid demo_active [] s demo_active_ok Hr)).
Defined.

Example demo_error_keeps_phase_witness :
  exists s' : Channel * list Sent,
    process_funder_reply (Funded (id state0)) (demo_active, []) = (s', Err InvalidState) /\
    inner_ok (inner s'.1) /\ s'.2 = [].
Proof.
  eexists. split; [reflexivity|].
  destruct (demo_error_keeps_phase (demo_active, [] : list Sent) (demo_active, []) InvalidState demo_active_ok)
    as (H1 & _ & H2); [apply (call_funder (Funded (id state0))); reflexivity|].
  split; [exact H1|exact H2].
Defined.

Example demo_waits_for_both_witness :
  foldl reply (mkChannel (Signed (mkSignedChannel chA) false false), [] : list Sent)
    [inr (Funded (id state0)); inl (Ack (id state0) (version state0))] =
    (mkChannel (DemoChannel.Active chA None), []).
Proof.
  destruct (demo_waits_for_both (mkSignedChannel chA) ([] : list Sent) [inr (Funded (id state0))]
    (inl (Ack (id state0) (version state0))) eq_refl) as [_ H].
  exact (H eq_refl).
Defined.

(** Alice has 10 and Bob 20. *)
Lemma sample_channel_balances : channel_balances state0 = [[10; 20]].
Proof. vm_compute. reflexivity. Qed.

Example demo_update_moves_funds_witness :
  exists u s, demo_update (wrap 4) false (demo_active, [] : list Sent) = (s, Ok tt) /\
    channel_balances (cu_new_state u) = [[6; 24]].
Proof.
  destruct (demo_update_moves_funds chA None ([] : list Sent) (wrap 4) false 10 20 (u64_of 1) owned_A
    eq_refl eq_refl sample_channel_balances) as (sig & u & Hd & _ & _ & Hb); [done|done|done|].
  exists u. eexists. split; [exact Hd|exact Hb].
Defined.


Example demo_force_close_spec_witness :
  demo_force_close (demo_active, [] : list Sent) =
    ((mkChannel ForceClosing, [ToFunder (RegisterReqMsg (mkRegisterReq (make_adjudicator_req chA)))]), Ok tt).
Proof.
  assert (DemoChannel.Active chA None <> TemporaryInvalidState) as Hi by discriminate.
  exact (demo_force_close_spec (DemoChannel.Active chA None) ([] : list Sent) Hi).
Defined.
