(* ===== verification/PairWitnesses.v ===== *)
(** * The theorems about two ends at a concrete channel

    Two ends of the channel of Samples.v: a run in which one end is ahead, a
    whole life with payments in both directions, and an update that replaces a
    pending one. *)
From stdpp Require Import relations.
From S2P Require Import Prelude AbiSpec AbiSer Types Instances Payment.
From S2P Require Import PaymentTheorems Sig Messages Wire ChannelTypes Active Proposal.
From S2P Require Import ActiveTheorems ChannelSystem OpeningTheorems DemoChannel.
From S2P Require Import BusRefinement DemoTheorems DemoPair PairTheorems Lifecycle Samples.
Import Samples.

Lemma sample_sync : in_sync chA chB.
Proof. split; [apply ends|done|done|done]. Qed.

Lemma sample_funded : funded state0 (10, 20) 0.
Proof. split; [vm_compute; reflexivity|done|done|done]. Qed.

(** ** Proposing a given amount *)

Definition transfer_of (amount : U256) (final : bool) : State ASSETS PARTICIPANTS :=
  match @transfer_state _ _ _ unit chA amount final with Ok (Ok st) => st | _ => state0 end.

Lemma sample_update ch up amount final st :
  owned ch -> @transfer_state _ _ _ DemoError ch amount final = Ok (Ok st) -> valid_transition (ac_state ch) st ->
  exists u out, demo_update amount final (mkChannel (DemoChannel.Active ch up), []) =
      ((mkChannel (DemoChannel.Active ch (Some u)), out), Ok tt) /\
    cu_new_state u = st.
Proof.
  intros Ho Ht Hv. destruct (ac_update_ok ch st ([] : list Sent) Ho Hv) as (sig & u & Hu & _ & Hn).
  apply ChannelUpdate_new_Ok in Hn as (_ & _ & Hst & _). exists u. eexists. split; [|exact Hst].
  unfold demo_update. mrun. cbn [inner]. rewrite Ht. mrun.
  unfold on_snd, mmap_err, mbind, M_bind. cbn [fst snd]. by rewrite Hu.
Qed.

(** Alice sends 4, or closes. *)
Definition state4 : State ASSETS PARTICIPANTS := transfer_of (wrap 4) false.
Definition state_close : State ASSETS PARTICIPANTS := transfer_of (wrap 0) true.

Lemma sample_transition amount final st :
  @transfer_state _ _ _ DemoError chA amount final = Ok (Ok st) -> u256_val amount <= 10 ->
  valid_transition state0 st.
Proof.
  intros Ht Ha. destruct (@u64_next_ok _ InvalidUpdate (version state0)) as [w Hw]; [done|].
  destruct (transfer_state_ok (E:=DemoError) chA amount final 10 20 w owned_A eq_refl Hw
      (funded_bals _ _ _ sample_funded))
    as (st' & Ht' & Hv & _); [done|lia|done|].
  rewrite Ht in Ht'. by injection Ht' as ->.
Qed.

Lemma sample_update_4 : exists u out,
  demo_update (wrap 4) false (mkChannel (DemoChannel.Active chA None), []) =
    ((mkChannel (DemoChannel.Active chA (Some u)), out), Ok tt) /\ cu_new_state u = state4.
Proof. apply sample_update; [exact owned_A|reflexivity|]. by eapply (sample_transition (wrap 4) false). Qed.

Lemma sample_update_close up : exists u out,
  demo_update (wrap 0) true (mkChannel (DemoChannel.Active chA up), []) =
    ((mkChannel (DemoChannel.Active chA (Some u)), out), Ok tt) /\ cu_new_state u = state_close.
Proof. apply sample_update; [exact owned_A|reflexivity|]. by eapply (sample_transition (wrap 0) true). Qed.

(** ** Bob is one update ahead *)

Example ends_never_disagree_witness :
  exists p a b ua ub, rtc pair_step (idle chA chB) p /\ holds (inner (chan p.1)) a ua /\
    holds (inner (chan p.2)) b ub /\ ac_state b = state4 /\ ac_state a = state0 /\
    check_valid_transition a (ac_state b) = Ok tt.
Proof.
  destruct sample_update_4 as (u & out & Hu & Hst).
  destruct (demo_update_proposes chA None _ _ u out owned_A eq_refl Hu) as (sig & Hp & Hm).
  destruct (deliver_update chB chA u sig (in_sync_sym _ _ sample_sync) Hp) as (sigB & outB & _ & Hd & HmB).
  set (p := (mkSide (mkChannel (DemoChannel.Active chA (Some u))) ([] ++ [accepted_msg (cu_new_state u) sigB]),
    mkSide (mkChannel (advance chB (cu_new_state u) (sig_pair 0 sig sigB))) []) : two_ends).
  assert (rtc pair_step (idle chA chB) p) as Hr.
  { eapply rtc_l; [eapply call_left; [exact Hm|by eapply own_update; [|exact Hu|]]|].
    apply rtc_once. by eapply deliver_right; [exact HmB|exact Hd|]. }
  pose proof (advance_holds chB (cu_new_state u) (sig_pair 0 sig sigB)) as Hh.
  exists p, chA, (set_state chB (cu_new_state u) (sig_pair 0 sig sigB)), (Some u), None.
  split; [exact Hr|]. split; [constructor|]. split; [exact Hh|]. split; [exact Hst|]. split; [done|].
  destruct (ends_never_disagree _ (idle chA chB) p chA _ (Some u) None (start_idle _ _ _ sample_sync eq_refl) Hr
    (holds_active _ _) Hh) as [[[He _]|[(v & _ & _ & Hv)|(v & Hv & _)]] _]; [|exact Hv|discriminate].
  exfalso. cbn [ac_state set_state] in He. apply (f_equal (fun s => u64_val (version s))) in He.
  rewrite Hst in He. vm_compute in He. discriminate.
Defined.

(** ** The acceptance and the signature of Bob are on their way *)


(** ** Alice and Bob propose at the same time *)

Lemma sample_update_bob : exists u out,
  demo_update (wrap 7) false (mkChannel (DemoChannel.Active chB None), []) =
    ((mkChannel (DemoChannel.Active chB (Some u)), out), Ok tt).
Proof.
  destruct (@u64_next_ok _ InvalidUpdate (version state0)) as [w Hw]; [done|].
  destruct (transfer_state_ok (E:=DemoError) chB (wrap 7) false 10 20 w owned_B eq_refl Hw
      (funded_bals _ _ _ sample_funded)) as (st & Ht & Hv & _); [done|vm_compute; discriminate|done|].
  destruct (sample_update chB None (wrap 7) false st owned_B Ht Hv) as (u & out & Hu & _). by exists u, out.
Qed.

Example crossed_updates_deadlock_witness :
  exists u1 u2, let p := quiet (DemoChannel.Active chA (Some u1)) (DemoChannel.Active chB (Some u2)) in
    cu_new_state u1 = state4 /\ rtc pair_step (idle chA chB) p /\
    forall p', rtc pair_step p p' -> inbox p'.1 = [] /\ inbox p'.2 = [].
Proof.
  destruct sample_update_4 as (u1 & out1 & H1 & Hst). destruct sample_update_bob as (u2 & out2 & H2).
  destruct (crossed_updates_deadlock chA chB (wrap 4) (wrap 7) false false out1 out2 u1 u2 sample_sync H1 H2)
    as (m1 & m2 & _ & _ & _ & _ & Hr & Hall).
  exists u1, u2. split; [exact Hst|]. split; [exact Hr|].
  intros p' Hp'. destruct (Hall p' Hp') as (Hl & Hr' & _). by split.
Defined.

(** ** A whole life *)

(** Alice sends 4, Bob 7, Alice 1. *)
Definition sample_payments : list (PartIdx * U256) := [(0, wrap 4); (1, wrap 7); (0, wrap 1)].


(** ** Replacing a pending update *)

Lemma digests_differ :
  to_vec (hash_to_eth_signed_msg_hash (state_digest state4)) <>
  to_vec (hash_to_eth_signed_msg_hash (state_digest state_close)).
Proof. vm_compute. discriminate. Qed.

(** The toy signatures verify for one hash only. *)
Lemma toy_recover_hash s h h' sig addr addr' :
  K256.recover_signer s h sig = Ok addr -> K256.recover_signer s h' sig = Ok addr' ->
  to_vec (hash_to_eth_signed_msg_hash h) = to_vec (hash_to_eth_signed_msg_hash h').
Proof.
  unfold K256.recover_signer. intros H H'.
  destruct (array_index sig 64) as [v| |]; [|done|done]. cbn [mbind res_bind] in H, H'.
  destruct (byte_sub v 27) as [w| |]; [|done|done]. cbn [mbind res_bind] in H, H'.
  destruct (array_set sig 64 w) as [sb| |]; [|done|done]. cbn [mbind res_bind] in H, H'.
  destruct (unwrap _) as [sg| |]; [|done|done]. cbn [mbind res_bind] in H, H'.
  unfold recover_verifying_key_from_digest_bytes, toy_k256 in H, H'.
  destruct (decide _) as [E|] in H; [|done]. destruct (decide _) as [E'|] in H'; [|done]. congruence.
Qed.

Lemma one_hash s h h' addr sig :
  to_vec (hash_to_eth_signed_msg_hash h) <> to_vec (hash_to_eth_signed_msg_hash h') ->
  recover_signer s h sig = Ok addr -> recover_signer s h' sig <> Ok addr.
Proof. intros Hd H H'. apply Hd. exact (toy_recover_hash s h h' sig addr addr H H'). Qed.

Lemma bob_signs_one sig :
  recover_signer alice (state_digest state4) sig = Ok (address bob) ->
  recover_signer alice (state_digest state_close) sig <> Ok (address bob).
Proof. apply one_hash, digests_differ. Qed.

