(* ===== verification/AppSamples.v ===== *)
(** * A concrete device

    A network of two sockets whose receive buffers hold given bytes, an
    application over it that belongs to Alice, and its main loop.  The theorems
    about the demo and the example are applied to them in AppWitnesses.v. *)
From S2P Require Import Prelude AbiSer Types Instances PerunWire Payment PaymentTheorems Sig Messages Wire.
From S2P Require Import ChannelTypes Active Proposal ActiveTheorems ChannelSystem OpeningTheorems.
From S2P Require Import DemoChannel Button Net Application ApplicationTheorems MainLoop GoIntegration GoTheorems.
From S2P Require Import Samples.

Module Device.
Export Samples.

(** What the sockets have received, whether they are connected, and what the
    library has sent.  The participant's socket is [true]. *)
Record World : Type := mkWorld { buffers : bool -> bytes; up : bool; outbox : list Sent }.

Definition set_buffer (h : bool) (l : bytes) (w : World) : World :=
  mkWorld (fun h' => if decide (h' = h) then l else buffers w h') (up w) (outbox w).
Definition set_up (u : bool) (w : World) : World := mkWorld (buffers w) u (outbox w).

#[export] Instance World_TcpStack : TcpStack World := {|
  SocketHandle := bool;
  NetError := unit;
  is_active h w := up w;
  is_open h w := up w;
  is_listening h w := negb (up w);
  may_recv h w := true;
  may_send h w := true;
  can_recv h w := bool_decide (buffers w h <> []);
  recv_queue h w := zlen (buffers w h);
  recv_capacity h w := 512;
  peek_slice h k w := (w, Ok (take (Z.to_nat k) (buffers w h)));
  Net.recv A h f w := (set_buffer h (drop (Z.to_nat (f (buffers w h)).1) (buffers w h)) w, Ok (f (buffers w h)).2);
  recv_slice h k w := (set_buffer h (drop (Z.to_nat k) (buffers w h)) w, Ok (take (Z.to_nat k) (buffers w h)));
  send_slice h msg w := (w, Ok (zlen msg));
  connect h e p w := (set_up true w, Ok tt);
  listen h p w := (w, Ok tt);
  close h := set_up false;
  abort h := set_up false;
|}.

Lemma set_buffer_at h l w : buffers (set_buffer h l w) h = l.
Proof. cbn. by rewrite decide_True. Qed.

#[export] Instance World_TcpLaws : TcpLaws World.
Proof.
  unshelve refine {| rx := fun h w => buffers w h; contiguous := fun h w => length (buffers w h) |}.
  - done.
  - intros h k w _ _. cbn. by rewrite <- take_take, firstn_all.
  - intros A h f w _ _. cbn. rewrite firstn_all. eexists. split; [reflexivity|]. by rewrite set_buffer_at.
  - intros h k w _ _. eexists. split; [reflexivity|]. by rewrite set_buffer_at.
Defined.

Definition deliver (w : World) (m : Sent) : World := mkWorld (buffers w) (up w) (outbox w ++ [m]).
#[export] Instance World_MessageBus : MessageBus World := {|
  send_to_watcher := fun E m w => (deliver w (ToWatcher m), Ok tt);
  send_to_funder := fun E m w => (deliver w (ToFunder m), Ok tt);
  send_to_participant := fun E s r m w => (deliver w (ToParticipant s r m), Ok tt);
|}.
#[export] Instance World_PureBus : PureBus World := {|
  sent := deliver;
  watcher_ok := fun _ _ _ => eq_refl;
  funder_ok := fun _ _ _ => eq_refl;
  participant_ok := fun _ _ _ _ _ => eq_refl;
|}.
#[export] Instance World_IfacePoll : IfacePoll World := fun _ w => w.

(** A generator that always draws the same. *)
#[export] Instance unit_RngCore : RngCore unit := {|
  gen_bytes32 r := (r, array_repeat 32 x11);
  next_u32 r := (r, 12345);
|}.

(** The bytes [1] to [5] stand for five messages. *)
Definition update_acceptance : ParticipantMessage :=
  ChannelUpdateAccepted (mkLedgerChannelUpdateAccepted (id state0) (u64_of 1) (sig_of bob state1)).
Definition acceptance_envelope : perunwire.Envelope :=
  perunwire.mkEnvelope [x0a] [x0b] (Some (participant_wiremsg update_acceptance)).
Definition update_envelope : perunwire.Envelope :=
  perunwire.mkEnvelope [x0a] [x0b] (Some (participant_wiremsg (ChannelUpdateMsg (update_msg 1)))).
(** An update that gives Alice an amount of 33 bytes. *)
Definition long_amount : perunwire.envelope_Msg :=
  perunwire.Envelope_ChannelUpdateMsg (perunwire.mkChannelUpdateMsg (Some (perunwire.mkChannelUpdate
    (Some (perunwire.mkState (replicate 32 x00) (u64_of 1) []
      (Some (perunwire.mkAllocation [replicate 2 x00]
        (Some (perunwire.mkBalances [perunwire.mkBalance [replicate 33 x00; replicate 32 x00]])) []))
      [] false)) 1)) []).
Definition long_envelope : perunwire.Envelope := perunwire.mkEnvelope [x0a] [x0b] (Some long_amount).
Definition failed_funding : perunwire.Message :=
  perunwire.mkMessage (Some (perunwire.Msg_FundResp (perunwire.mkFundResp
    (Some (perunwire.mkMsgError 1 2 EmptyString))))).
Definition registered : perunwire.Message :=
  perunwire.mkMessage (Some (perunwire.Msg_RegisterResp (perunwire.mkRegisterResp None))).

#[export] Instance toy_Envelope_decode : ProstDecode unit perunwire.Envelope := fun b =>
  if decide (b = [x01]) then Ok acceptance_envelope
  else if decide (b = [x04]) then Ok update_envelope
  else if decide (b = [x05]) then Ok long_envelope else Err tt.
#[export] Instance toy_Message_decode : ProstDecode unit perunwire.Message := fun b =>
  if decide (b = [x02]) then Ok failed_funding else if decide (b = [x03]) then Ok registered else Err tt.
#[export] Instance toy_Envelope_encode : ProstMessage perunwire.Envelope := fun _ => [x01].
#[export] Instance toy_Message_encode : ProstMessage perunwire.Message := fun _ => [x02].

(** A world in which the sockets are connected and have received a frame. *)
Definition received (p s : bytes) : World := mkWorld (fun h => if h : bool then p else s) true [].

Definition config : Config :=
  mkConfig (mkEndpoint 1 1339) (mkEndpoint 1 38843) (mkEndpoint 1 50002) 32977
    (mk_array ["Bob"%string; "Alice"%string] eq_refl).
Definition device0 : Application (B:=World) (R:=unit) :=
  Application_new true false config tt (address alice) clA.
Definition device_in (s : ApplicationState) : Application (B:=World) (R:=unit) := set_app_state s device0.

(** A channel that waits for the funder. *)
Definition signed_channel : SignedChannel := mkSignedChannel chA.
Definition funding : Channel := mkChannel (Signed signed_channel true false).
Definition waiting : Application (B:=World) (R:=unit) :=
  device_in (ActiveState Address_default Address_default funding).

(** Alice's channel while an update of her own is not yet accepted. *)
Definition own_update : ChannelUpdate :=
  mkChannelUpdate (id state0) state1 (mk_array [Some (sig_of alice state1); None] eq_refl).
Definition proposing : Application (B:=World) (R:=unit) :=
  device_in (ActiveState Address_default Address_default (mkChannel (Active chA (Some own_update)))).

Definition button : Button.DebouncedButton := Button.new false (u64_wrap 100).
Definition released : Pins := mkPins false false false false.
Definition loop_of (a : Application (B:=World) (R:=unit)) : MainState (B:=World) (R:=unit) := main_start a released.

(** The same device with the bus of the demo: the encoding layer over the
    sockets. *)
Abbreviation Board := (ProtoBufEncodingLayer (Bus World)).
Definition board (w : World) : Board := mkProtoBufEncodingLayer (mkBus w true false).
Definition board_in (s : ApplicationState) : Application (B:=Board) (T:=shared_TcpStack) (R:=unit) :=
  set_app_state (B:=Board) (T:=shared_TcpStack) (R:=unit) s
    (Application_new (B:=Board) (T:=shared_TcpStack) true false config tt (address alice) clA).
Definition board_loop (s : ApplicationState) : MainState (B:=Board) (T:=shared_TcpStack) (R:=unit) :=
  main_start (B:=Board) (T:=shared_TcpStack) (R:=unit) (board_in s) released.

Lemma next_frame_of (h : bool) (w : World) (payload tail : bytes) :
  payload <> [] -> zlen payload <= 510 -> buffers w h = frame payload ++ tail -> next_frame h w payload tail.
Proof.
  intros Hne Hl Hb. split; [done| |done|done|cbn; lia|exact Hb].
  unfold header_contiguous. cbn. rewrite Hb. unfold frame. rewrite <- app_assoc, length_app, be_bytes_length. lia.
Qed.

(** A run of the integration example in which Bob accepts and signs. *)
Definition envelope (m : perunwire.envelope_Msg) : perunwire.Envelope := perunwire.mkEnvelope [] [] (Some m).
Definition acceptance_by_bob (st : State ASSETS PARTICIPANTS) : perunwire.Envelope :=
  envelope (perunwire.Envelope_ChannelUpdateAccMsg (LedgerChannelUpdateAccepted_into
    (mkLedgerChannelUpdateAccepted (id st) (version st) (sig_of bob st)))).
Definition bob_accepts : perunwire.Envelope :=
  envelope (perunwire.Envelope_LedgerChannelProposalAccMsg (LedgerChannelProposalAcc_into
    (mkLedgerChannelProposalAcc (array_repeat 32 x11) share (address bob)))).
Definition reply : perunwire.Message := perunwire.mkMessage None.
Definition bobs_script (st0 st1 st2 : State ASSETS PARTICIPANTS) : Script := mkScript _
  [envelope perunwire.AuthResponseMsg; bob_accepts;
   acceptance_by_bob st0; acceptance_by_bob st1; acceptance_by_bob st2] [reply; reply] [].

Lemma honest_run :
  exists st0 st1 st2 ch w', main (E:=unit) tt alice (bobs_script st0 st1 st2) = (w', Ok (Some ch)) /\
    ac_state ch = st2 /\ is_final st2 = true.
Proof.
  destruct (main_yields (E:=unit) tt alice (address bob) share (valid_signer_of true) alice_not_bob)
    as (st0 & st1 & st2 & _ & _ & _ & Hf & _ & H).
  destruct (H (sig_of bob st0) (sig_of bob st1) (sig_of bob st2) (envelope perunwire.AuthResponseMsg)
    bob_accepts (acceptance_by_bob st0) (acceptance_by_bob st1) (acceptance_by_bob st2) reply reply
      (bobs_script st0 st1 st2)
    eq_refl (sig_of_signed _ _ _ (valid_signer_of false)) eq_refl
    (sig_of_signed _ _ _ (valid_signer_of false)) eq_refl (sig_of_signed _ _ _ (valid_signer_of false)) eq_refl eq_refl)
    as (ch & (w' & Hw & _) & _ & Hst).
  exists st0, st1, st2, ch, w'. split; [exact Hw|]. split; [exact Hst|exact Hf].
Qed.

End Device.
