(* ===== verification/AppWitnesses.v ===== *)
(** * The theorems about the demo and the example at concrete inputs

    Every theorem about the demo's application, its main loop and the
    integration example that has hypotheses, applied to the device of
    AppSamples.v and the channel of Samples.v. *)
From stdpp Require Import relations.
From S2P Require Import Prelude AbiSpec AbiSer Types Instances PerunWire Payment PaymentTheorems Sig Messages Wire.
From S2P Require Import WireTheorems ChannelTypes Active Proposal ActiveTheorems ChannelSystem OpeningTheorems.
From S2P Require Import DemoChannel Button Net BusRefinement DemoTheorems Application.
From S2P Require Import ApplicationTheorems Conversions MainLoop MainTheorems ClockTheorems.
From S2P Require Import GoIntegration GoTheorems Samples AppSamples.
Import Device.

(** ** The application *)

Lemma first_step :
  app_step (DE:=unit) device0 (device_in ConnectingToConfigDealer).
Proof.
  exists (received [] []), (set_up true (received [] [])), (Ok tt). split; [|done]. apply call_poll. reflexivity.
Qed.

Example application_follows_state_machine_witness :
  exists a, rtc (app_step (DE:=unit)) device0 a /\ app_state a = ConnectingToConfigDealer /\
    rtc app_edge InitialState (app_state a).
Proof.
  exists (device_in ConnectingToConfigDealer).
  assert (rtc (app_step (DE:=unit)) device0 (device_in ConnectingToConfigDealer)) as Hr
    by apply rtc_once, first_step.
  split; [exact Hr|]. split; [reflexivity|].
  destruct (application_follows_state_machine (B:=World) (T:=World_TcpStack) (R:=unit) (DE:=unit) true false
    config tt clA (device_in ConnectingToConfigDealer)
    (valid_signer_of true) Hr) as [He _]. exact He.
Defined.


(** ** The demo's bus *)

Definition active_channel : Channel := mkChannel (DemoChannel.Active chA None).


(** ** Frames *)



(** ** Replies of the service *)

Example failed_replies_activate_channel_witness :
  exists b', poll (DE:=unit) (waiting, received [] [x00; x01; x02]) =
    ((device_in (ActiveState Address_default Address_default (mkChannel (Active chA None))), b'), Ok tt).
Proof.
  destruct (failed_replies_activate_channel (B:=World) (T:=World_TcpStack) (R:=unit) (DE:=unit) waiting
    (received [] [x00; x01; x02])
    Address_default Address_default signed_channel true false [x02] [] failed_funding
    (perunwire.Msg_FundResp (perunwire.mkFundResp (Some (perunwire.mkMsgError 1 2 EmptyString)))))
    as (b' & H); [reflexivity|reflexivity|apply next_frame_of; [discriminate|discriminate|reflexivity]
                 |reflexivity|reflexivity| |exists b'; exact H].
  left. split; [reflexivity|]. split; [reflexivity|]. eexists. reflexivity.
Defined.

Example service_reply_panics_witness :
  exists b', poll (DE:=unit) (waiting, received [] [x00; x01; x03]) = ((waiting, b'), Panic).
Proof.
  apply (service_reply_panics (B:=World) (T:=World_TcpStack) (R:=unit) (DE:=unit) waiting (received [] [x00;
    x01; x03]) Address_default Address_default funding
    [x03] [] registered (perunwire.Msg_RegisterResp (perunwire.mkRegisterResp None)));
    [reflexivity|reflexivity|apply next_frame_of; [discriminate|discriminate|reflexivity]
    |reflexivity|reflexivity|exact Logic.I].
Defined.

(** ** The main loop *)

(** On the demo's own bus. *)
Example main_loop_follows_state_machine_witness :
  exists s, rtc (loop_step (B:=Board) (T:=shared_TcpStack) (DE:=unit)) (board_loop InitialState) s /\
    app_state (app s) = ConnectingToConfigDealer /\ rtc app_edge InitialState (app_state (app s)).
Proof.
  exists (board_loop ConnectingToConfigDealer).
  assert (rtc (loop_step (B:=Board) (T:=shared_TcpStack) (DE:=unit)) (board_loop InitialState)
    (board_loop ConnectingToConfigDealer)) as Hr.
  { apply rtc_once. exists (u64_wrap 5), released, (board (received [] [])), (board (set_up true (received [] []))).
    reflexivity. }
  split; [exact Hr|]. split; [reflexivity|].
  destruct (main_loop_follows_state_machine (B:=Board) (T:=shared_TcpStack) (R:=unit) (DE:=unit)
    (board_loop InitialState) _ true false config tt clA (valid_signer_of true) eq_refl Hr) as [He _]. exact He.
Defined.

(** As [main] sets it up. *)
Definition set_up_device : option (MainState (B:=Board) (T:=shared_TcpStack) (R:=unit) * Board) :=
  match main_setup (N:=World) (T:=World_TcpStack) (E:=unit) (received [] []) true false tt released with
  | Ok out => Some out
  | _ => None
  end.

Example device_follows_state_machine_witness :
  exists s0 s, set_up_device = Some (s0, board (received [] [])) /\
    rtc (loop_step (B:=Board) (T:=shared_TcpStack) (DE:=unit)) s0 s /\
    app_state (app s) = ConnectingToConfigDealer /\ rtc app_edge InitialState (app_state (app s)).
Proof.
  unfold set_up_device.
  destruct (main_setup (N:=World) (T:=World_TcpStack) (E:=unit) (received [] []) true false tt released)
    as [[s0 w0]|e|] eqn:Hs; [|discriminate|discriminate].
  assert (w0 = board (received [] [])) as -> by (injection Hs as _ <-; reflexivity).
  exists s0, (main_start (set_app_state ConnectingToConfigDealer (app s0)) released). split; [reflexivity|].
  assert (rtc (loop_step (B:=Board) (T:=shared_TcpStack) (DE:=unit)) s0
    (main_start (set_app_state ConnectingToConfigDealer (app s0)) released)) as Hr.
  { apply rtc_once. exists (u64_wrap 5), released, (board (received [] [])), (board (set_up true (received [] []))).
    injection Hs as <-. reflexivity. }
  split; [exact Hr|]. split; [reflexivity|].
  destruct (device_follows_state_machine (N:=World) (T:=World_TcpStack) (DE:=unit) (E:=unit) (received [] []) true false
    tt released s0 (main_start (set_app_state ConnectingToConfigDealer (app s0)) released) (board (received []
      [])) Hs Hr)
    as [He _]. exact He.
Defined.

Example idle_iteration_spec_witness :
  iteration (DE:=unit) (u64_wrap 2000) released (loop_of device0, received [] []) =
    ((mkMainState (device_in ConnectingToConfigDealer) button button button button false false false (u64_wrap 2000),
      set_up true (received [] [])), Ok tt).
Proof.
  rewrite (idle_iteration_spec (B:=World) (T:=World_TcpStack) (R:=unit) (DE:=unit) (loop_of device0) (received
    [] []) (u64_wrap 2000) released);
    [reflexivity|by split|vm_compute; reflexivity].
Defined.

(** Bob's update arrives while Alice's own is pending; any message but a
    handshake arrives while she listens. *)
Example refused_message_stops_device_witness :
  (exists s' b', iteration (DE:=unit) (u64_wrap 5) released (loop_of proposing, received [x00; x01; x04] []) =
     ((s', b'), Panic)) /\
  (exists s' b', iteration (DE:=unit) (u64_wrap 5) released
     (loop_of (device_in (Listening Address_default Address_default)), received [x00; x01; x01] []) =
     ((s', b'), Panic)) /\
  (exists s' b', iteration (DE:=unit) (u64_wrap 5) released
     (loop_of (device_in (WaitForHandshake Address_default Address_default)), received [x00; x01; x05] []) =
     ((s', b'), Panic)).
Proof.
  split; [|split].
  - apply (refused_message_stops_device (B:=World) (T:=World_TcpStack) (R:=unit) (DE:=unit) (loop_of proposing)
      (received [x00; x01; x04] []) (u64_wrap 5) released [x04] [] update_envelope
      (participant_wiremsg (ChannelUpdateMsg (update_msg 1))));
      [|apply next_frame_of; [discriminate|discriminate|reflexivity]|reflexivity|reflexivity].
    apply (refused_update (loop_of proposing).(app) _ Address_default Address_default chA own_update _ (update_msg 1)
      eq_refl).
    apply participant_msg_iff. split; [repeat constructor|split; [discriminate|reflexivity]].
  - apply (refused_message_stops_device (B:=World) (T:=World_TcpStack) (R:=unit) (DE:=unit)
      (loop_of (device_in (Listening Address_default Address_default))) (received [x00; x01; x01] [])
      (u64_wrap 5) released [x01] [] acceptance_envelope (participant_wiremsg update_acceptance));
      [|apply next_frame_of; [discriminate|discriminate|reflexivity]|reflexivity|reflexivity].
    by apply (refused_listening _ _ Address_default Address_default).
  - apply (refused_message_stops_device (B:=World) (T:=World_TcpStack) (R:=unit) (DE:=unit)
      (loop_of (device_in (WaitForHandshake Address_default Address_default))) (received [x00; x01; x05] [])
      (u64_wrap 5) released [x05] [] long_envelope long_amount);
      [|apply next_frame_of; [discriminate|discriminate|reflexivity]|reflexivity|reflexivity].
    apply refused_unreadable; [|reflexivity]. by apply (reading_handshake _ _ Address_default Address_default).
Defined.

(** An amount of 33 bytes. *)
Example received_messages_decided_witness :
  participant_msg (B:=World) (T:=World_TcpStack) (DE:=unit) long_amount = Panic /\
  message_converts (participant_wiremsg update_acceptance) = true.
Proof.
  split; [|reflexivity].
  apply (received_messages_decided (B:=World) (T:=World_TcpStack) (DE:=unit) long_amount).
  reflexivity.
Defined.

(** Two iterations, one and a half and two seconds apart: two blinks. *)
Example clock_blinks_witness :
  match rounds (DE:=unit) [(1500%nat, released); (2000%nat, released)] (u64_wrap 0, (main_start device0 released,
    received [] [])) with
  | ((t, (s, _)), Ok _) =>
      u64_val t = 3500 /\
      exists c, 0 <= c /\ blue_led s = xorb (Z.odd c) true /\
        1001 * c <= u64_val (last_toggle_time s) <= (1000 + 2000) * c /\
        u64_val (last_toggle_time s) <= 3500 <= u64_val (last_toggle_time s) + 1000
  | _ => False
  end.
Proof.
  assert ((rounds (DE:=unit) [(1500%nat, released); (2000%nat, released)]
    (u64_wrap 0, (main_start device0 released, received [] []))).2 = Ok tt) as Hr by (vm_compute; reflexivity).
  pose proof (clock_blinks (B:=World) (T:=World_TcpStack) (R:=unit) (DE:=unit) 2000
    [(1500%nat, released); (2000%nat, released)] device0 released (received [] [])) as H.
  destruct (rounds _ _) as [[t [s b]] [[]|e|]]; [|discriminate Hr|discriminate Hr].
  apply H; [repeat constructor; discriminate|reflexivity].
Defined.

(** ** The integration example *)

Example recv_to_encoded_witness :
  recv_to (DE:=unit) (X:=perunwire.Envelope) (E:=unit) (mkTcpStream [x00; x01; x01; x07] [] []) =
    (mkTcpStream [x07] [] [], Ok acceptance_envelope).
Proof.
  apply (recv_to_encoded (DE:=unit) (X:=perunwire.Envelope) (E:=unit) acceptance_envelope [x00; x01; x01] [x07]
    (mkTcpStream [x00; x01; x01; x07] [] [])); reflexivity.
Defined.

Example short_write_loses_bytes_witness :
  exists b' lost,
    bytes_to_participant (E:=unit) [] [] [x01; x02; x03] (mkStdBus 0 (mkTcpStream [] [] [Some 2]) (mkTcpStream
      [] [] [])) =
      (b', Ok tt) /\ lost <> [] /\ [x01; x02; x03] = written (stream b') ++ lost.
Proof.
  apply (short_write_loses_bytes (mkStdBus 0 (mkTcpStream [] [] [Some 2]) (mkTcpStream [] [] [])) 2 [] [] []
    [x01; x02; x03]); [reflexivity|]. split; [discriminate|reflexivity].
Defined.

Example go_run_sound_witness :
  exists w w' ch, main (E:=unit) tt alice w = (w', Ok (Some ch)) /\ fully_signed ch /\ is_final (ac_state ch) = true.
Proof.
  destruct honest_run as (st0 & st1 & st2 & ch & w' & Hr & Hst & Hf).
  exists (bobs_script st0 st1 st2), w', ch. split; [exact Hr|].
  destruct (go_run_sound (E:=unit) tt alice _ w' ch (valid_signer_of true) Hr) as (_ & Hs & _).
  split; [exact Hs|]. rewrite Hst. exact Hf.
Defined.

Example go_run_completes_witness :
  exists w w' ch, main (E:=unit) tt alice w = (w', Ok (Some ch)) /\ inbox w' = ([], []) /\
    channel_balances (ac_state ch) = [[stake + 10; stake - 10]].
Proof.
  destruct (go_run_completes (E:=unit) tt alice (address bob) share (valid_signer_of true) alice_not_bob)
    as (st0 & st1 & st2 & _ & _ & Hb & _ & _ & H).
  destruct (H (sig_of bob st0) (sig_of bob st1) (sig_of bob st2) (envelope perunwire.AuthResponseMsg)
    bob_accepts (acceptance_by_bob st0) (acceptance_by_bob st1) (acceptance_by_bob st2) reply reply
      (bobs_script st0 st1 st2)
    eq_refl (sig_of_signed _ _ _ (valid_signer_of false)) eq_refl
    (sig_of_signed _ _ _ (valid_signer_of false)) eq_refl (sig_of_signed _ _ _ (valid_signer_of false)) eq_refl eq_refl)
    as (ch & w' & Hw & Hi & _ & Hst).
  exists (bobs_script st0 st1 st2), w', ch. split; [exact Hw|]. split; [exact Hi|]. rewrite Hst. exact Hb.
Defined.
