(* ===== verification/DeviceSamples.v ===== *)
(** * Two concrete devices

    Two devices over sockets with a send and a receive buffer, Alice's connecting
    to Bob's, which listens, and the messages of the handshake and of the opening
    between them.  The theorems about two devices are applied to them in
    DeviceWitnesses.v. *)
From stdpp Require Import relations.
From S2P Require Import Prelude AbiSer Types Instances PerunWire Payment PaymentTheorems Sig Messages Wire.
From S2P Require Import ChannelTypes Active Proposal ActiveTheorems ChannelSystem OpeningTheorems.
From S2P Require Import DemoChannel Net BusRefinement DemoTheorems DemoPair PairTheorems.
From S2P Require Import Application ApplicationTheorems Streams Devices DeviceOpening Handshake DeviceTheorems.
From S2P Require Import DevicePanics DeviceProgress LiveBoard Samples.

(** ** Envelopes can be compared *)

#[export] Instance wire_Balance_eq_dec : EqDecision perunwire.Balance.
Proof. solve_decision. Defined.
#[export] Instance wire_Balances_eq_dec : EqDecision perunwire.Balances.
Proof. solve_decision. Defined.
#[export] Instance wire_IndexMap_eq_dec : EqDecision perunwire.IndexMap.
Proof. solve_decision. Defined.
#[export] Instance wire_SubAlloc_eq_dec : EqDecision perunwire.SubAlloc.
Proof. solve_decision. Defined.
#[export] Instance wire_Allocation_eq_dec : EqDecision perunwire.Allocation.
Proof. solve_decision. Defined.
#[export] Instance wire_State_eq_dec : EqDecision perunwire.State.
Proof. solve_decision. Defined.
#[export] Instance wire_BaseChannelProposal_eq_dec : EqDecision perunwire.BaseChannelProposal.
Proof. solve_decision. Defined.
#[export] Instance wire_LedgerChannelProposalMsg_eq_dec : EqDecision perunwire.LedgerChannelProposalMsg.
Proof. solve_decision. Defined.
#[export] Instance wire_BaseChannelProposalAcc_eq_dec : EqDecision perunwire.BaseChannelProposalAcc.
Proof. solve_decision. Defined.
#[export] Instance wire_LedgerChannelProposalAccMsg_eq_dec : EqDecision perunwire.LedgerChannelProposalAccMsg.
Proof. solve_decision. Defined.
#[export] Instance wire_ChannelProposalRejMsg_eq_dec : EqDecision perunwire.ChannelProposalRejMsg.
Proof. solve_decision. Defined.
#[export] Instance wire_ChannelUpdate_eq_dec : EqDecision perunwire.ChannelUpdate.
Proof. solve_decision. Defined.
#[export] Instance wire_ChannelUpdateMsg_eq_dec : EqDecision perunwire.ChannelUpdateMsg.
Proof. solve_decision. Defined.
#[export] Instance wire_ChannelUpdateAccMsg_eq_dec : EqDecision perunwire.ChannelUpdateAccMsg.
Proof. solve_decision. Defined.
#[export] Instance wire_ChannelUpdateRejMsg_eq_dec : EqDecision perunwire.ChannelUpdateRejMsg.
Proof. solve_decision. Defined.
#[export] Instance wire_envelope_Msg_eq_dec : EqDecision perunwire.envelope_Msg.
Proof. solve_decision. Defined.
#[export] Instance wire_Envelope_eq_dec : EqDecision perunwire.Envelope.
Proof. solve_decision. Defined.

Module Pair.
Export Samples.

(** ** The sockets *)

(** What the sockets have received and not been read, and what they have
    accepted and not sent; the participant's socket is [true]. *)
Record Sockets : Type := mkSockets { received : bool -> bytes; to_send : bool -> bytes }.

Definition put (f : bool -> bytes) (h : bool) (l : bytes) : bool -> bytes :=
  fun k => if decide (k = h) then l else f k.
Definition set_received (h : bool) (l : bytes) (n : Sockets) : Sockets := mkSockets (put (received n) h l) (to_send n).
Definition set_to_send (h : bool) (l : bytes) (n : Sockets) : Sockets := mkSockets (received n) (put (to_send n) h l).

Lemma put_at f h l : put f h l h = l.
Proof. unfold put. by rewrite decide_True. Qed.
Lemma put_other f h k l : k <> h -> put f h l k = f k.
Proof. intros. unfold put. by rewrite decide_False. Qed.

#[export] Instance Sockets_TcpStack : TcpStack Sockets := {|
  SocketHandle := bool;
  NetError := unit;
  is_active h n := true;
  is_open h n := true;
  is_listening h n := false;
  may_recv h n := true;
  may_send h n := true;
  can_recv h n := bool_decide (received n h <> []);
  recv_queue h n := zlen (received n h);
  recv_capacity h n := 512;
  peek_slice h k n := (n, Ok (take (Z.to_nat k) (received n h)));
  Net.recv A h f n := (set_received h (drop (Z.to_nat (f (received n h)).1) (received n h)) n, Ok (f (received n h)).2);
  recv_slice h k n := (set_received h (drop (Z.to_nat k) (received n h)) n, Ok (take (Z.to_nat k) (received n h)));
  send_slice h msg n := (set_to_send h (to_send n h ++ msg) n, Ok (zlen msg));
  connect h e p n := (n, Ok tt);
  listen h p n := (n, Ok tt);
  close h n := n;
  abort h n := n;
|}.

#[export] Instance Sockets_TcpLaws : TcpLaws Sockets.
Proof.
  unshelve refine {| rx := fun h n => received n h; contiguous := fun h n => length (received n h) |}.
  - done.
  - intros h k n _ _. cbn. by rewrite <- take_take, firstn_all.
  - intros A h f n _ _. cbn. rewrite firstn_all. eexists. split; [reflexivity|]. cbn. by rewrite put_at.
  - intros h k n _ _. eexists. split; [reflexivity|]. cbn. by rewrite put_at.
Defined.

#[export] Instance Sockets_TcpStreams : TcpStreams Sockets.
Proof.
  unshelve refine {| tx := fun h n => to_send n h |}; try done; cbn.
  - intros A h f n h' Hh. by apply put_other.
  - intros h k n h' Hh. by apply put_other.
  - intros h msg n h' Hh. by apply put_other.
  - intros h msg n n' k [= <- <-]. cbn. rewrite put_at. unfold zlen. by rewrite Nat2Z.id, firstn_all.
Defined.

(** Nothing is ever too long for the send buffers. *)
#[export] Instance Sockets_LiveSockets : LiveSockets Sockets.
Proof.
  refine {| space := fun _ _ => 1024 |}.
  - intros h msg n Hm. exists (set_to_send h (to_send n h ++ msg) n). split; [done|]. pose proof (zlen_nonneg msg).
    split; [lia|done].
  - done.
  - done.
  - intros h n. exists (mkSockets (received n) (put (to_send n) h [])). split; [done|]. cbn. by rewrite put_at.
  - intros h k n got srv Hk _ _ _ _.
    exists (mkSockets (put (put (received n) k srv) h got) (put (to_send n) h [])). split.
    + split; cbn; try done. by rewrite put_at. by rewrite put_other, put_at.
    + split; [cbn; by rewrite put_at|]. done.
Defined.

Abbreviation Board := (ProtoBufEncodingLayer (Bus Sockets)).

(** A generator that always draws the same. *)
#[export] Instance same_RngCore : RngCore unit := {| gen_bytes32 r := (r, share); next_u32 r := (r, 12345) |}.

(** ** The applications *)

Abbreviation BoardApp := (Application (B:=Board) (T:=shared_TcpStack) (R:=unit)).
Definition config : Config :=
  mkConfig (mkEndpoint 1 1339) (mkEndpoint 1 38843) (mkEndpoint 1 50002) 32977
    (mk_array ["Bob"%string; "Alice"%string] eq_refl).
Definition device (st : ApplicationState) (k : bool) : BoardApp :=
  set_app_state (B:=Board) (T:=shared_TcpStack) (R:=unit) st
    (Application_new (B:=Board) (T:=shared_TcpStack) true false config tt (address (signer_of k))
      (PerunClient_new (signer_of k))).

(** ** The messages of the handshake and of the opening *)

(** Alice's device sends a handshake message, Bob's answers, and Alice's
    proposes. *)
Definition alices_app : BoardApp := device (Connecting Address_default Address_default) true.
Definition bobs_app : BoardApp := device (Listening Address_default Address_default) false.
Definition peer (i : nat) : Identity := default [] (config_peers config !! i).
Definition handshakes : list Sent := [ToParticipant (peer 0) (peer 1) Auth; ToParticipant PEER0 (peer 0) Auth].
Definition prop : LedgerChannelProposal := demo_proposal alices_app share share Address_default.
Definition alice_proposes : list Sent := (propose_channel clA prop Address_default []).1.

(** Bob accepts the proposal and signs. *)
Definition bob_opens : option (AgreedUponChannel * list Sent) :=
  match pc_accept share (address bob) (ProposedChannel_new bob 1 Address_default prop, []) with
  | ((pc, l), Ok _) =>
      match pc_build pc with
      | Ok au => let '((au, l), _) := sign (au, l) in Some (au, l)
      | _ => None
      end
  | _ => None
  end.

(** ** A run of the two ends *)

(** What an end does: it requests an update, gets a reply of a service, or
    processes the next message. *)
Inductive end_action : Type := Update (amount : U256) (final : bool) | Reply (m : ServiceReplyMessage) | Process.

(** The left end does something that does not panic; also what it has sent. *)
Definition end_do (x : end_action) (p : two_ends) : option (two_ends * list Sent) :=
  let after (out : (Channel * list Sent) * res DemoError unit) (q : list ParticipantMessage) :=
    if is_panic out.2 then None
    else Some ((mkSide out.1.1 q, mkSide (chan p.2) (inbox p.2 ++ for_peer out.1.2)), out.1.2) in
  let c := chan p.1 in
  match x with
  | Update amount final =>
      match pending (inner c) with
      | None => after (demo_update amount final (c, [])) (inbox p.1)
      | Some _ => None
      end
  | Reply m => after (process_service_msg m (c, [])) (inbox p.1)
  | Process =>
      match inbox p.1 with
      | m :: q => after (process_participant_msg m (c, [])) q
      | [] => None
      end
  end.
Definition end_at (alice : bool) (x : end_action) (p : two_ends) : option (two_ends * list Sent) :=
  if alice then end_do x p else '(p, out) ← end_do x (swap p); Some (swap p, out).
Fixpoint end_run (l : list (bool * end_action)) (p : two_ends) : option (two_ends * list Sent) :=
  match l with
  | [] => Some (p, [])
  | (k, x) :: l => '(p, out) ← end_at k x p; '(p, outs) ← end_run l p; Some (p, out ++ outs)
  end.

(** The opening after Bob has accepted; then the replies of the services, a payment
    of Alice, the close, and the replies to it. *)
Definition ends_opening : list (bool * end_action) := [(true, Process); (true, Process); (false, Process)].
Definition acknowledged : end_action := Reply (Watcher (Ack (array_repeat 32 x07) (u64_of 9))).
Definition ends_life : list (bool * end_action) :=
  [(true, acknowledged); (true, Reply (Funder (Funded (array_repeat 32 x07))));
   (false, Reply (Funder (Funded (array_repeat 32 x08)))); (false, acknowledged);
   (true, Update (wrap 5) false); (false, Process); (true, Process);
   (true, Update (wrap 0) true); (false, Process); (true, Process);
   (true, acknowledged); (false, acknowledged)].
Definition ends_start (au : AgreedUponChannel) (l : list Sent) : two_ends :=
  (mkSide (Channel_new (ProposedChannel_new alice 0 Address_default prop)) (for_peer l), mkSide (new_agreed_upon au)
    []).
Definition all_sent : list Sent :=
  match bob_opens with
  | Some (au, l) =>
      match end_run (ends_opening ++ ends_life) (ends_start au l) with Some (_, outs) => l ++ outs | None => [] end
  | None => []
  end.

Definition envelope_of (m : Sent) : option perunwire.Envelope :=
  match m with
  | ToParticipant s r m => Some (perunwire.mkEnvelope s r (Some (participant_wiremsg m)))
  | _ => None
  end.
Definition envelopes : list perunwire.Envelope :=
  omap envelope_of (handshakes ++ alice_proposes ++ all_sent).

(** The encoding of an envelope is its position among them; another envelope is
    too long for a frame. *)
Fixpoint position (env : perunwire.Envelope) (l : list perunwire.Envelope) (i : Z) : bytes :=
  match l with
  | [] => replicate (Z.to_nat (2 ^ 16)) x00
  | e :: l => if decide (env = e) then [byte_of_Z i] else position env l (i + 1)
  end.
#[export] Instance position_encode : ProstMessage perunwire.Envelope := fun env => position env envelopes 0.
#[export] Instance position_decode : ProstDecode unit perunwire.Envelope := fun b =>
  match b with
  | [i] => match envelopes !! Z.to_nat (byte_to_Z i) with Some env => Ok env | None => Err tt end
  | _ => Err tt
  end.
#[export] Instance service_encode : ProstMessage perunwire.Message := fun _ => [x02].
(** The first byte of a reply is its kind; the last one has an identifier that
    is too short. *)
Definition reply_of (b : bytes) : option perunwire.message_Msg :=
  match b with
  | [x00] => Some (perunwire.Msg_FundResp (perunwire.mkFundResp None))
  | [x01] => Some (perunwire.Msg_WatchResponse (perunwire.mkWatchResponseMsg (replicate 32 x00) (u64_of 0) true))
  | [x02] => Some (perunwire.Msg_ForceCloseResponse (perunwire.mkForceCloseResponseMsg (replicate 32 x00) true))
  | [x03] => Some (perunwire.Msg_DisputeNotification (perunwire.mkDisputeNotification (replicate 32 x00)))
  | [x04] => Some (perunwire.Msg_DisputeNotification (perunwire.mkDisputeNotification (replicate 31 x00)))
  | _ => None
  end.
#[export] Instance service_decode : ProstDecode unit perunwire.Message := fun b =>
  match reply_of b with Some m => Ok (perunwire.mkMessage (Some m)) | None => Err tt end.

#[export] Instance replies_LiveServices : LiveServices (B:=Board) (T:=shared_TcpStack) unit.
Proof.
  intros [[i v|i|i]|[i]]; [exists [x01]|exists [x02]|exists [x03]|exists [x00]];
    (do 3 eexists; split; [done|]; split; [done|]; split; [reflexivity|]; split; [reflexivity|];
      split; [reflexivity|done]).
Qed.

#[export] Instance replies_ProstTotal : DevicePanics.ProstTotal (DE:=unit) perunwire.Message.
Proof. intros b. unfold prost_decode, service_decode. by destruct (reply_of b). Qed.

Lemma position_spec env l i :
  0 <= i -> i + zlen l < 256 ->
  zlen (position env l i) = 2 ^ 16 \/
  (exists k, position env l i = [byte_of_Z (i + Z.of_nat k)] /\ l !! k = Some env).
Proof.
  revert i. induction l as [|e l IH]; intros i Hi Hl; cbn [position].
  - left. unfold zlen. rewrite length_replicate. lia.
  - rewrite zlen_cons in Hl. case_decide as He.
    + right. exists 0%nat. subst. by rewrite Z.add_0_r.
    + destruct (IH (i + 1)) as [?|(k & Hk & Hn)]; [lia|lia|by left|right].
      exists (Datatypes.S k). split; [|done]. rewrite Hk. do 2 f_equal. lia.
Qed.

Lemma few_envelopes : zlen envelopes = 10.
Proof. vm_compute. reflexivity. Qed.

#[export] Instance position_ProstLaws : ProstLaws unit.
Proof.
  split.
  - intros env Hl. unfold prost_encode, position_encode in *.
    destruct (position_spec env envelopes 0) as [H|(k & Hk & Hn)]; [done|by rewrite few_envelopes|lia|].
    rewrite Hk. unfold prost_decode, position_decode. rewrite Z.add_0_l.
    assert (Z.of_nat k < 10) as Hlt by (rewrite <- few_envelopes; apply lookup_lt_Some in Hn; unfold zlen; lia).
    rewrite byte_to_of_Z, Z.mod_small, Nat2Z.id by lia. by rewrite Hn.
  - intros env _. unfold prost_encode, position_encode.
    destruct (position_spec env envelopes 0) as [H|(k & Hk & _)]; [done|by rewrite few_envelopes| |by rewrite Hk].
    by intros E; rewrite E in H.
Qed.

(** ** The devices *)

Abbreviation Node := (node (B:=Board) (R:=unit) (T:=shared_TcpStack)).
Abbreviation System := (system (B:=Board) (R:=unit) (T:=shared_TcpStack)).

Definition board (r s : bytes) : Board :=
  mkProtoBufEncodingLayer (mkBus (mkSockets (put (fun _ => []) true r) (put (fun _ => []) true s)) true false).
(** Alice's button has been pressed and the sockets are connected. *)
Definition connected_devices : System := (mkNode alices_app (board [] []) [], mkNode bobs_app (board [] []) []).

Lemma sample_shaking : shaking (B:=Board) (T:=shared_TcpStack) connected_devices.
Proof.
  eapply shaking_connecting; [reflexivity|reflexivity|].
  constructor.
  - constructor; [exact (valid_signer_of true)|reflexivity].
  - constructor; [exact (valid_signer_of false)|reflexivity].
  - exact alice_not_bob.
  - discriminate.
  - discriminate.
  - split; [reflexivity|discriminate].
  - split; [reflexivity|discriminate].
  - intros _. exists []. split; [constructor|reflexivity].
  - intros _. exists []. split; [constructor|reflexivity].
Qed.

(** ** A run *)

Definition is_connected (a : BoardApp) : bool :=
  match app_state a with
  | Listening _ _ | Connecting _ _ | WaitForHandshake _ _ | WaitForProposal _ _ | ActiveState _ _ _ => true
  | _ => false
  end.
Definition try_poll (n : Node) : option Node :=
  if is_connected (node_app n) then
    match poll (DE:=unit) (node_app n, world n) with
    | ((a, b), Ok _) => Some (mkNode a b (incoming n))
    | _ => None
    end
  else None.
(** The network delivers all that is under way and takes all that is to be
    sent. *)
Definition flushed (n : Node) : Board :=
  modify_shared (fun x => mkSockets (put (received x) true (received x true ++ incoming n))
    (put (to_send x) true [])) (world n).
Definition flush (s : System) : System :=
  (mkNode (node_app s.1) (flushed s.1) [],
   mkNode (node_app s.2) (world s.2) (incoming s.2 ++ to_send (shared_iface (world s.1)) true)).

Abbreviation step := (system_step (B:=Board) (T:=shared_TcpStack) (L:=shared_TcpLaws) (R:=unit) (DE:=unit)).

Lemma poll_left (s : System) n : try_poll s.1 = Some n -> step s (n, s.2).
Proof.
  destruct s as [[a b q] r]. unfold try_poll. cbn [fst snd node_app world incoming].
  destruct (is_connected a) eqn:Hc; [|done]. destruct (poll (DE:=unit) (a, b)) as [[a' b'] res] eqn:E. intros Hn.
  assert (res = Ok tt /\ n = mkNode a' b' q) as [-> ->] by by (destruct res as [[]|er|]; simplify_eq).
  left. apply left_device_call; [|by eapply device_poll].
  unfold connected. unfold is_connected in Hc. by destruct (app_state a).
Qed.

Lemma poll_right (s : System) n : try_poll s.2 = Some n -> step s (s.1, n).
Proof. intros H. destruct (poll_left (mirror s) n H) as [H'|H']; [right; exact H'|left; destruct s; exact H']. Qed.

Lemma flush_left (s : System) : app_participant_handle (node_app s.1) = true -> step s (flush s).
Proof.
  destruct s as [[a b q] r]. cbn [fst snd node_app]. intros Hh. left. unfold flush. cbn [fst snd node_app world].
  rewrite <- (app_nil_r q) at 1. apply left_device_network; rewrite Hh.
  - intros _. destruct b as [[n p s]]. cbn. by rewrite put_at.
  - destruct b as [[n p s]]. cbn. by rewrite put_at, app_nil_r.
  - done.
Qed.

Lemma flush_right (s : System) : app_participant_handle (node_app s.2) = true -> step s (mirror (flush (mirror s))).
Proof.
  intros H. destruct (flush_left (mirror s) H) as [H'|H']; [right; exact H'|].
  left. destruct s. exact H'.
Qed.

(** What the two devices do, one after the other. *)
Inductive action : Type := PollAlice | PollBob | FlushAlice | FlushBob.
Definition act (s : System) (x : action) : option System :=
  match x with
  | PollAlice => n ← try_poll s.1; Some (n, s.2)
  | PollBob => n ← try_poll s.2; Some (s.1, n)
  | FlushAlice => if app_participant_handle (node_app s.1) then Some (flush s) else None
  | FlushBob => if app_participant_handle (node_app s.2) then Some (mirror (flush (mirror s))) else None
  end.
Fixpoint acts (s : System) (l : list action) : option System :=
  match l with
  | [] => Some s
  | x :: l => s' ← act s x; acts s' l
  end.

Lemma act_step (s s' : System) x : act s x = Some s' -> step s s'.
Proof.
  destruct x; cbn [act].
  - destruct (try_poll s.1) as [n|] eqn:E; [|done]. intros [= <-]. by apply poll_left.
  - destruct (try_poll s.2) as [n|] eqn:E; [|done]. intros [= <-]. by apply poll_right.
  - destruct (app_participant_handle (node_app s.1)) eqn:E; [|done]. intros [= <-]. by apply flush_left.
  - destruct (app_participant_handle (node_app s.2)) eqn:E; [|done]. intros [= <-]. by apply flush_right.
Qed.

Lemma acts_run l (s s' : System) : acts s l = Some s' -> rtc step s s'.
Proof.
  revert s. induction l as [|x l IH]; intros s; [by intros [= ->]|]. cbn [acts].
  destruct (act s x) as [s1|] eqn:E; [|done]. intros H. eapply rtc_l; [by eapply act_step|by apply IH].
Qed.

(** ** Runs of the two ends that fit the board *)

Definition fits_board (l : list Sent) : bool :=
  match mapM (encoded (E:=Empty_set)) l with
  | Ok bufs =>
      bool_decide (amount true bufs <= participant_tx_size) && bool_decide (amount false bufs <= service_tx_size)
  | _ => false
  end.

Lemma fits_board_fits l : fits_board l = true -> board_fits l.
Proof.
  unfold fits_board. destruct (mapM _ l) as [bufs|e|] eqn:E; [|done|done].
  intros [H1 H2]%andb_prop. apply bool_decide_eq_true_1 in H1, H2. exists bufs. split; [by apply mapM_Ok|done].
Qed.

Abbreviation fit_step := (fit_step (B:=Board) (T:=shared_TcpStack) (L:=shared_TcpLaws)).

Lemma end_do_fit x p p' out :
  end_do x p = Some (p', out) -> fits_board out = true -> fit_left (B:=Board) (T:=shared_TcpStack) p p'.
Proof.
  destruct p as [[c q] r]. intros H Hf%fits_board_fits. destruct x as [amount final|m|]; cbn [end_do fst snd chan
    inbox] in H.
  - destruct (pending (inner c)) eqn:Hp; [done|].
    destruct (demo_update amount final (c, [])) as [[c' out'] res] eqn:E. cbn [fst snd] in H.
    destruct (is_panic res) eqn:Hr; [done|]. injection H as <- <-.
    apply fit_call; [|done]. eapply own_update; [exact Hp|exact E|by intros ->].
  - destruct (process_service_msg m (c, [])) as [[c' out'] res] eqn:E. cbn [fst snd] in H.
    destruct (is_panic res) eqn:Hr; [done|]. injection H as <- <-. apply fit_call; [|done].
    destruct m as [m|m]; [eapply own_watcher|eapply own_funder]; [exact E|by intros ->|exact E|by intros ->].
  - destruct q as [|m q]; [done|]. destruct (process_participant_msg m (c, [])) as [[c' out'] res] eqn:E.
    cbn [fst snd] in H. destruct (is_panic res) eqn:Hr; [done|]. injection H as <- <-.
    eapply fit_deliver; [exact E|by intros ->|done].
Qed.

Fixpoint fit_run (l : list (bool * end_action)) (p : two_ends) : option two_ends :=
  match l with
  | [] => Some p
  | (k, x) :: l => '(p, out) ← end_at k x p; if fits_board out then fit_run l p else None
  end.

Lemma fit_run_steps l p p' : fit_run l p = Some p' -> rtc fit_step p p'.
Proof.
  revert p. induction l as [|[k x] l IH]; intros p; [by intros [= ->]|]. cbn [fit_run].
  destruct (end_at k x p) as [[p1 out]|] eqn:E; [|done]. cbn [mbind option_bind].
  destruct (fits_board out) eqn:Hf; [|done]. intros H. eapply rtc_l; [|by apply IH].
  destruct k; cbn [end_at] in E; [left; by eapply end_do_fit|].
  destruct (end_do x (swap p)) as [[p2 out2]|] eqn:E2; [|done]. injection E as <- <-.
  right. rewrite swap_swap. by eapply end_do_fit.
Qed.

End Pair.
