(* ===== verification/DeviceWitnesses.v ===== *)
(** * The theorems about two devices at concrete devices

    The two devices of DeviceSamples.v exchange the messages of the handshake and
    of the opening through their sockets. *)
From stdpp Require Import relations.
From S2P Require Import Prelude AbiSer Types Instances PerunWire Payment PaymentTheorems Sig Messages Wire.
From S2P Require Import ChannelTypes Active Proposal ActiveTheorems ChannelSystem OpeningTheorems.
From S2P Require Import DemoChannel Net BusRefinement DemoTheorems DemoPair PairTheorems.
From S2P Require Import Application ApplicationTheorems Streams Devices DeviceOpening Handshake DeviceTheorems.
From S2P Require Import DevicePanics DeviceProgress LiveBoard Samples DeviceSamples.
Import Pair.

(** Alice's handshake message travels to Bob and is answered; the proposal travels
    to Bob, who takes it; his acceptance and his signature travel to Alice; she
    processes both and her signature travels to Bob, who processes it. *)
Definition opening : list action :=
  [PollAlice; FlushAlice; FlushBob; PollBob; FlushBob; FlushAlice; PollAlice; FlushAlice; FlushBob; PollBob; FlushBob;
    FlushAlice; PollAlice; PollAlice; FlushAlice; FlushBob; PollBob].
Definition is_Some_and {X} (f : X -> bool) (o : option X) : bool := match o with Some x => f x | None => false end.
Lemma is_Some_and_true {X} (f : X -> bool) o : is_Some_and f o = true -> exists x, o = Some x /\ f x = true.
Proof. destruct o as [x|]; [|done]. intros H. by exists x. Qed.

(** A device whose channel has all signatures. *)
Definition has_signed (a : BoardApp) : bool :=
  match app_state a with ActiveState _ _ ch => match inner ch with Signed _ _ _ => true | _ => false end | _ => false
    end.

Lemma has_signed_holds (a : BoardApp) :
  has_signed a = true ->
  exists e w ch x, app_state a = ActiveState e w ch /\ holds (inner ch) x None.
Proof.
  unfold has_signed. destruct (app_state a) as [| | | | | | |e w ch]; try done.
  destruct (inner ch) as [| |sc f g| | | | |] eqn:Hi; try done. intros _.
  exists e, w, ch, (mark_funded sc). split; [done|]. rewrite Hi. constructor.
Qed.

Definition both_signed (s : System) : bool := has_signed (node_app s.1) && has_signed (node_app s.2).

Lemma sample_start : device_start (B:=Board) (T:=shared_TcpStack) demo_bals connected_devices.
Proof. apply start_shaking; [done|exact sample_shaking]. Qed.

Lemma opening_succeeds : is_Some_and both_signed (acts connected_devices opening) = true.
Proof. vm_compute. reflexivity. Qed.

Lemma opened_pair :
  exists s e1 w1 cA e2 w2 cB a b, rtc step connected_devices s /\
    app_state (node_app s.1) = ActiveState e1 w1 cA /\ app_state (node_app s.2) = ActiveState e2 w2 cB /\
    holds (inner cA) a None /\ holds (inner cB) b None.
Proof.
  destruct (is_Some_and_true _ _ opening_succeeds) as (s & E & [HA HB]%andb_prop).
  destruct (has_signed_holds _ HA) as (e1 & w1 & cA & a & H1 & Ha).
  destruct (has_signed_holds _ HB) as (e2 & w2 & cB & b & H2 & Hb).
  exists s, e1, w1, cA, e2, w2, cB, a, b.
  exact (conj (acts_run opening connected_devices s E) (conj H1 (conj H2 (conj Ha Hb)))).
Qed.



(** The two ends of devices that have opened a channel, with nothing on its way. *)
Definition ends_of (s : System) : option two_ends :=
  match app_state (node_app s.1), app_state (node_app s.2) with
  | ActiveState _ _ cA, ActiveState _ _ cB => Some (mkSide cA [], mkSide cB [])
  | _, _ => None
  end.
Definition still (n : Node) : bool :=
  bool_decide (received (shared_iface (world n)) true = []) && bool_decide (to_send (shared_iface (world n)) true = [])
  && bool_decide (incoming n = []) && app_participant_handle (node_app n).
Definition closed (p : two_ends) : bool := is_closed (chan p.1) && is_closed (chan p.2).

Lemma life_succeeds :
  is_Some_and (fun s => still s.1 && still s.2 &&
    is_Some_and (fun p => is_Some_and closed (fit_run ends_life p)) (ends_of s)) (acts connected_devices opening) =
      true.
Proof. vm_compute. reflexivity. Qed.

(** Nothing is on its way between two devices that are still. *)
Lemma still_stream (m n : Node) : still m = true -> still n = true -> stream (L:=shared_TcpLaws) m n = [].
Proof.
  intros [[[_ Htx]%andb_prop _]%andb_prop Hm]%andb_prop [[[Hrx _]%andb_prop Hin]%andb_prop Hn]%andb_prop.
  apply bool_decide_eq_true_1 in Hrx, Htx, Hin. unfold stream, socket.
  rewrite Hm, Hn, Hin. cbn. by rewrite Hrx, Htx.
Qed.

Lemma still_ready (s : System) p0 p :
  simulates (B:=Board) (T:=shared_TcpStack) (L:=shared_TcpLaws) s p0 -> still s.1 = true -> still s.2 = true ->
  ends_of s = Some p -> ready (T:=shared_TcpStack) (L:=shared_TcpLaws) s p.
Proof.
  intros Hsim H1 H2 Hp. destruct s as [l r], p0 as [[c1 q1] [c2 q2]].
  assert (forall m n q, still m = true -> still n = true ->
    carries_to (B:=Board) (T:=shared_TcpStack) (L:=shared_TcpLaws) m n q -> connected (node_app n) -> q = []) as Hnil.
  { intros m n q Hm Hn Hq Hc. destruct (Hq Hc) as (ps & Hps & Hst).
    change (stream (L:=shared_TcpLaws) m n = frames ps) in Hst. rewrite still_stream in Hst by done.
    destruct ps as [|x ps]; [by inversion Hps|]. symmetry in Hst. by apply frames_cons_nil in Hst. }
  pose proof Hsim as [[_ _ Hl] [_ _ Hr] Hql Hqr _]. unfold ends_of in Hp. cbn [fst snd node_app chan inbox] in *.
  destruct (app_state (node_app l)) as [| | | | | | |e1 w1 cA] eqn:HA; try done.
  destruct (app_state (node_app r)) as [| | | | | | |e2 w2 cB] eqn:HB; try done. subst c1 c2.
  assert (q1 = []) as -> by (apply (Hnil r l); [done|done|done|unfold connected; by rewrite HA]).
  assert (q2 = []) as -> by (apply (Hnil l r); [done|done|done|unfold connected; by rewrite HB]).
  injection Hp as <-. split; cbn [fst snd].
  - exact Hsim.
  - intros _. pose proof (still_stream l l H1 H1) as H. unfold stream in H. by apply app_nil in H as [H _].
  - intros _. pose proof (still_stream r r H2 H2) as H. unfold stream in H. by apply app_nil in H as [H _].
  - intros _. exists []. split; [done|]. by rewrite still_stream.
  - intros _. exists []. split; [done|]. by rewrite still_stream.
Qed.

Lemma ends_of_active (s : System) p :
  ends_of s = Some p -> exists e w ch, app_state (node_app s.2) = ActiveState e w ch.
Proof.
  unfold ends_of. destruct (app_state (node_app s.1)); try done.
  destruct (app_state (node_app s.2)) as [| | | | | | |e w ch]; try done. intros _. by exists e, w, ch.
Qed.


(** A service hands a reply to Alice's device. *)
Definition served (reply : bytes) (s : System) : System :=
  (mkNode (node_app s.1) (modify_shared (set_received false (frame reply)) (world s.1)) (incoming s.1), s.2).

Lemma serve_step reply (s : System) : app_participant_handle (node_app s.1) = true -> step s (served reply s).
Proof.
  destruct s as [[a b q] [a' b' q']]. cbn [fst node_app]. intros Hh. left.
  pose proof (left_device_network (B:=Board) (T:=shared_TcpStack) (L:=shared_TcpLaws) (DE:=unit) a b
    (modify_shared (set_received false (frame reply)) b) [] q [] (mkNode a' b' q')) as H.
  cbn [node_app world incoming app] in H. rewrite !app_nil_r in H.
  apply H; rewrite Hh; [intros _; by destruct b as [[]]|by destruct b as [[]]|done].
Qed.

Definition poll_stops (n : Node) : bool :=
  match app_state (node_app n), (poll (DE:=unit) (node_app n, world n)).2 with
  | ActiveState _ _ _, Panic => true
  | _, _ => false
  end.

Lemma poll_stops_true (n : Node) :
  poll_stops n = true ->
  exists e w ch, app_state (node_app n) = ActiveState e w ch /\ (poll (DE:=unit) (node_app n, world n)).2 = Panic.
Proof.
  unfold poll_stops. destruct (app_state (node_app n)) as [| | | | | | |e w ch]; try done.
  destruct (poll _).2 as [x|er|]; try done. intros _. by exists e, w, ch.
Qed.

Lemma short_identifier_stops :
  is_Some_and (fun s : System => app_participant_handle (node_app s.1) && poll_stops (served [x04] s).1)
    (acts connected_devices opening) = true.
Proof. vm_compute. reflexivity. Qed.

